(** * grizli.stack: template fitting of stacked 2D grism spectra

    A shallow embedding of [StackedSpectrum] and [StackFitter]
    (src/grizli/stack.py) together with the properties of the fitting
    engine that the specification states.

    Numbers.  numpy's float64 arrays are embedded as lists of [num]:
    exact rationals extended with the three IEEE special values that the
    code tests for ([np.isfinite]) or produces by dividing by zero.
    Rounding, overflow and the sign of zero are not modelled.  The
    transcendental functions ([np.sqrt], [np.exp]) and the routines of
    libraries that are not part of the module (scipy's solvers, the matrix
    inverse, [interp_conserve_c], the template algebra) are gathered in
    the record [Externals] and every theorem holds for all of them. *)

From Stdlib Require Import String Ascii.
From Stdlib Require Import ZArith QArith Qcanon Qround Qabs List Bool Lia Lqa.
Import ListNotations.

Set Implicit Arguments.

(** ** Extended rationals *)

Module Num.

Inductive num : Type :=
| Fin (q : Qc)
| PInf
| NInf
| NaN.

Definition qc (n : Z) (d : positive) : Qc := Q2Qc (n # d).

Definition zero : num := Fin (qc 0 1).
Definition one : num := Fin (qc 1 1).
Definition of_Z (z : Z) : num := Fin (qc z 1).
Definition of_nat (n : nat) : num := of_Z (Z.of_nat n).
Definition of_bool (b : bool) : num := if b then one else zero.

Definition qsign (q : Qc) : comparison := (q ?= Q2Qc 0)%Qc.

Definition isfinite (x : num) : bool :=
  match x with Fin _ => true | _ => false end.

Definition isnan (x : num) : bool :=
  match x with NaN => true | _ => false end.

Definition neg (x : num) : num :=
  match x with
  | Fin q => Fin (- q)%Qc
  | PInf => NInf
  | NInf => PInf
  | NaN => NaN
  end.

Definition add (x y : num) : num :=
  match x, y with
  | NaN, _ | _, NaN => NaN
  | Fin a, Fin b => Fin (a + b)%Qc
  | PInf, NInf | NInf, PInf => NaN
  | PInf, _ | _, PInf => PInf
  | NInf, _ | _, NInf => NInf
  end.

Definition sub (x y : num) : num := add x (neg y).

(** The infinity with the sign [c]; a zero sign gives NaN
    (0 * inf in IEEE arithmetic). *)
Definition inf_of_sign (c : comparison) : num :=
  match c with Gt => PInf | Lt => NInf | Eq => NaN end.

Definition sign (x : num) : option comparison :=
  match x with
  | Fin q => Some (qsign q)
  | PInf => Some Gt
  | NInf => Some Lt
  | NaN => None
  end.

Definition sign_mul (a b : comparison) : comparison :=
  match a, b with
  | Eq, _ | _, Eq => Eq
  | Gt, Gt | Lt, Lt => Gt
  | _, _ => Lt
  end.

Definition mul (x y : num) : num :=
  match x, y with
  | NaN, _ | _, NaN => NaN
  | Fin a, Fin b => Fin (a * b)%Qc
  | Fin a, PInf | PInf, Fin a => inf_of_sign (qsign a)
  | Fin a, NInf | NInf, Fin a => inf_of_sign (CompOpp (qsign a))
  | PInf, PInf | NInf, NInf => PInf
  | PInf, NInf | NInf, PInf => NInf
  end.

(** Division; a zero divisor is taken to be +0. *)
Definition div (x y : num) : num :=
  match x, y with
  | NaN, _ | _, NaN => NaN
  | Fin a, Fin b =>
      match qsign b with
      | Eq => inf_of_sign (qsign a)
      | _ => Fin (a / b)%Qc
      end
  | Fin _, _ => zero
  | PInf, Fin b => match qsign b with Lt => NInf | _ => PInf end
  | NInf, Fin b => match qsign b with Lt => PInf | _ => NInf end
  | _, _ => NaN
  end.

Definition sqr (x : num) : num := mul x x.

Definition abs (x : num) : num :=
  match x with
  | Fin q => match qsign q with Lt => Fin (- q)%Qc | _ => Fin q end
  | PInf | NInf => PInf
  | NaN => NaN
  end.

(** Comparisons as numpy evaluates them: every ordered comparison with a
    NaN is false, and [!=] with a NaN is true. *)
Definition cmp (x y : num) : option comparison :=
  match x, y with
  | NaN, _ | _, NaN => None
  | Fin a, Fin b => Some (a ?= b)%Qc
  | PInf, PInf | NInf, NInf => Some Eq
  | PInf, _ | _, NInf => Some Gt
  | NInf, _ | _, PInf => Some Lt
  end.

Definition eqb (x y : num) : bool :=
  match cmp x y with Some Eq => true | _ => false end.
Definition neb (x y : num) : bool := negb (eqb x y).
Definition ltb (x y : num) : bool :=
  match cmp x y with Some Lt => true | _ => false end.
Definition gtb (x y : num) : bool := ltb y x.
Definition leb (x y : num) : bool :=
  match cmp x y with Some Lt | Some Eq => true | _ => false end.
Definition geb (x y : num) : bool := leb y x.

(** Structural comparison of two values (not numpy's [==]: a NaN is the
    same as a NaN). *)
Definition same (x y : num) : bool :=
  match x, y with
  | Fin a, Fin b => Qeq_bool a b
  | PInf, PInf | NInf, NInf | NaN, NaN => true
  | _, _ => false
  end.

(** [np.maximum]/[np.minimum] as the reductions [max]/[min] use them: a NaN
    operand wins. *)
Definition max2 (x y : num) : num :=
  match x, y with
  | NaN, _ | _, NaN => NaN
  | _, _ => if ltb x y then y else x
  end.

Definition min2 (x y : num) : num :=
  match x, y with
  | NaN, _ | _, NaN => NaN
  | _, _ => if ltb y x then y else x
  end.

Definition nonneg (x : num) : Prop :=
  match x with Fin q => (Q2Qc 0 <= q)%Qc | _ => False end.

Definition finite_nonzero (x : num) : Prop :=
  match x with Fin q => q <> Q2Qc 0 | _ => False end.

End Num.

Export Num.

Declare Scope num_scope.
Delimit Scope num_scope with num.
Bind Scope num_scope with num.
Infix "+" := add : num_scope.
Infix "-" := sub : num_scope.
Infix "*" := mul : num_scope.
Infix "/" := div : num_scope.
Notation "- x" := (neg x) : num_scope.

Open Scope num_scope.

(** ** Exceptions and the state-and-error monad

    A method body is a computation over the object it is called on: it
    receives the object, and returns a value or a raised exception together
    with the object as the body leaves it. *)

Inductive exn : Type :=
| ValueError
| IndexError
| KeyError
| AttributeError
| LinAlgError
| RuntimeError
| OverflowError
| IORegistryError.

Inductive result (A : Type) : Type :=
| Ok (a : A)
| Raise (e : exn).

Arguments Ok {A} a.
Arguments Raise {A} e.

Definition M (S A : Type) : Type := S -> result A * S.

Definition ret {S A} (a : A) : M S A := fun s => (Ok a, s).

Definition bind {S A B} (m : M S A) (k : A -> M S B) : M S B :=
  fun s =>
    match m s with
    | (Ok a, s') => k a s'
    | (Raise e, s') => (Raise e, s')
    end.

Definition raise {S A} (e : exn) : M S A := fun s => (Raise e, s).

(** Reading an attribute of [self]. *)
Definition gets {S A} (f : S -> A) : M S A := fun s => (Ok (f s), s).

(** Lifting the outcome of a call that has no access to [self]. *)
Definition lift {S A} (r : result A) : M S A := fun s => (r, s).

Definition eval {S A} (m : M S A) (s : S) : result A := fst (m s).
Definition exec {S A} (m : M S A) (s : S) : S := snd (m s).

Notation "x <- m ;; k" := (bind m (fun x => k))
  (at level 61, m at next level, right associativity).

Definition rbind {A B} (r : result A) (k : A -> result B) : result B :=
  match r with Ok a => k a | Raise e => Raise e end.

(** A [for] loop that accumulates one value per element. *)
Fixpoint mapM {S A B} (f : A -> M S B) (l : list A) : M S (list B) :=
  match l with
  | [] => ret []
  | a :: l' => b <- f a ;; bs <- mapM f l' ;; ret (b :: bs)
  end.

(** A [for] loop that threads an accumulator. *)
Fixpoint foldM {S A B} (f : B -> A -> M S B) (l : list A) (b : B) : M S B :=
  match l with
  | [] => ret b
  | a :: l' => b' <- f b a ;; foldM f l' b'
  end.

(** ** numpy arrays as lists *)

Definition vec := list num.
Definition mat := list vec.        (* a 2-D array, row by row *)

Fixpoint map2 {A B C} (f : A -> B -> C) (u : list A) (v : list B) : list C :=
  match u, v with
  | a :: u', b :: v' => f a b :: map2 f u' v'
  | _, _ => []
  end.

Definition zeros (n : nat) : vec := repeat zero n.
Definition ones (n : nat) : vec := repeat one n.

Definition vadd (u v : vec) : vec := map2 add u v.
Definition vsub (u v : vec) : vec := map2 sub u v.
Definition vmul (u v : vec) : vec := map2 mul u v.
Definition vdiv (u v : vec) : vec := map2 div u v.
Definition vscale (c : num) (u : vec) : vec := map (mul c) u.
Definition vsqr (u : vec) : vec := map sqr u.

(** [u * mask] for a boolean array [mask]: True is 1.0 and False is 0.0. *)
Definition vmul_bool (u : vec) (m : list bool) : vec :=
  map2 (fun x b => x * of_bool b) u m.

(** [np.sum] of a 1-D array. *)
Definition vsum (u : vec) : num := fold_left add u zero.

(** [u[mask]] for a boolean array [mask]. *)
Fixpoint select {A} (u : list A) (m : list bool) : list A :=
  match u, m with
  | a :: u', b :: m' => if b then a :: select u' m' else select u' m'
  | _, _ => []
  end.

Definition count_true (m : list bool) : nat := length (filter (fun b => b) m).

Definition mask_and (m1 m2 : list bool) : list bool := map2 andb m1 m2.

(** [np.max] / [np.min] of an array; an empty array raises. *)
Definition vmax (u : vec) : result num :=
  match u with
  | [] => Raise ValueError
  | x :: u' => Ok (fold_left max2 u' x)
  end.

Definition vmin (u : vec) : result num :=
  match u with
  | [] => Raise ValueError
  | x :: u' => Ok (fold_left min2 u' x)
  end.

(** [np.dot(c, M)] of a 1-D array of length k with a 2-D array of shape
    (k, n): the combination of the rows of [M] with the weights [c].  The
    row count of [M] must be k. *)
Fixpoint lincomb (n : nat) (c : vec) (rows : mat) : vec :=
  match c, rows with
  | x :: c', r :: rows' => vadd (vscale x r) (lincomb n c' rows')
  | _, _ => zeros n
  end.

(** A weight vector of one entry is a scalar to [np.dot]: the row is
    multiplied by it with the BLAS routine [axpy], which leaves its
    zero-filled output as it is when the scalar is zero.  The product of the
    weight 0 with a row of more than one entry is then zero also where the
    row is not finite. *)
Definition axpy_skipped (n : nat) (c : vec) (rows : mat) : bool :=
  match c, rows with
  | [x], [_] => eqb x zero && negb (Nat.eqb n 1)
  | _, _ => false
  end.

Definition dot_vm (n : nat) (c : vec) (rows : mat) : result vec :=
  if Nat.eqb (length c) (length rows)
  then Ok (if axpy_skipped n c rows then zeros n else lincomb n c rows)
  else Raise ValueError.

(** [np.dot(u, v)] of two 1-D arrays. *)
Definition dot (u v : vec) : num := vsum (vmul u v).

(** Transpose of a 2-D array of [n] columns given by its rows. *)
Fixpoint transpose (n : nat) (rows : mat) : mat :=
  match rows with
  | [] => repeat [] n
  | r :: rows' => map2 cons r (transpose n rows')
  end.

(** [np.dot(B, C)] of 2-D arrays, [C] given by its columns. *)
Definition matmul_cols (B : mat) (Ccols : mat) : mat :=
  map (fun b => map (fun c => dot b c) Ccols) B.

(** The diagonal of a square 2-D array. *)
Definition diagonal (m : mat) : vec :=
  map (fun i => nth i (nth i m []) zero) (seq 0 (length m)).

(** Python slices [l[:n]] and [l[n:]] for [n >= 0]. *)
Definition upto {A} (n : nat) (l : list A) : list A := firstn n l.
Definition from {A} (n : nat) (l : list A) : list A := skipn n l.

(** [dest[mask] = values] for a boolean array [mask]: the values are
    written, in order, at the True positions.  [values] must have one entry
    per True position, or exactly one entry, which is then written at every
    True position. *)
Fixpoint scatter (dest : vec) (m : list bool) (values : vec) : vec :=
  match dest, m with
  | d :: dest', b :: m' =>
      if b then
        match values with
        | v :: values' => v :: scatter dest' m' values'
        | [] => d :: scatter dest' m' []
        end
      else d :: scatter dest' m' values
  | _, _ => dest
  end.

Definition mask_assign (dest : vec) (m : list bool) (values : vec) : result vec :=
  if Nat.eqb (length values) (count_true m) then Ok (scatter dest m values)
  else match values with
       | [v] => Ok (scatter dest m (repeat v (count_true m)))
       | _ => Raise ValueError
       end.

(** [dest[start:stop] = values] for [0 <= start <= stop <= len(dest)]. *)
Definition set_slice (dest : vec) (start stop : nat) (values : vec) : vec :=
  firstn start dest ++ values ++ skipn stop dest.

(** Element-wise binary operation on two 1-D arrays with numpy's
    broadcasting: equal lengths, or one operand of length one. *)
Definition bzip {A B C} (f : A -> B -> C) (u : list A) (v : list B)
  : result (list C) :=
  if Nat.eqb (length u) (length v) then Ok (map2 f u v)
  else match u, v with
       | [x], _ => Ok (map (f x) v)
       | _, [y] => Ok (map (fun x => f x y) u)
       | _, _ => Raise ValueError
       end.

(** [a.reshape(rows, cols)] of a flat array, row-major. *)
Fixpoint chunks (cols : nat) (rows : nat) (u : vec) : mat :=
  match rows with
  | O => []
  | S rows' => firstn cols u :: chunks cols rows' (skipn cols u)
  end.

Definition reshape (rows cols : nat) (u : vec) : result mat :=
  if Nat.eqb (length u) (rows * cols) then Ok (chunks cols rows u)
  else Raise ValueError.

Definition flatten (m : mat) : vec := concat m.

(** [m.sum(axis=0)] of a 2-D array with [cols] columns. *)
Definition sum_axis0 (cols : nat) (m : mat) : vec :=
  fold_left vadd m (zeros cols).

(** [np.diff]. *)
Definition diff (u : vec) : vec := map2 (fun a b => b - a) u (tl u).

(** Insertion sort, the order numpy's sort gives when no NaN is present. *)
Fixpoint insert_sorted (x : num) (l : vec) : vec :=
  match l with
  | [] => [x]
  | y :: l' => if ltb y x then y :: insert_sorted x l' else x :: l
  end.

Definition sort (u : vec) : vec := fold_right insert_sorted [] u.

(** [np.median]: NaN for an empty array or when a NaN is present. *)
Definition median (u : vec) : num :=
  if existsb isnan u then NaN
  else
    let s := sort u in
    let n := length s in
    match n with
    | O => NaN
    | _ => if Nat.even n
           then (nth (n / 2 - 1) s NaN + nth (n / 2) s NaN) / of_Z 2
           else nth (n / 2) s NaN
    end.

(** [np.trapz(y, x)]. *)
Definition trapz (y x : vec) : num :=
  vsum (map2 (fun d s => d * s / of_Z 2) (diff x) (map2 add (tl y) y)).

(** [np.clip(u, lo, hi)]. *)
Definition clip (lo hi : num) (u : vec) : vec :=
  map (fun x => min2 (max2 x lo) hi) u.

(** [np.argmin]: the first position of the smallest value, the first NaN
    when there is one; an empty array raises. *)
Fixpoint argmin_from (best : num) (ibest i : nat) (u : vec) : nat :=
  match u with
  | [] => ibest
  | x :: u' =>
      if isnan best then ibest
      else if isnan x || ltb x best then argmin_from x i (S i) u'
      else argmin_from best ibest (S i) u'
  end.

Definition argmin (u : vec) : result nat :=
  match u with
  | [] => Raise ValueError
  | x :: u' => Ok (argmin_from x 0 1 u')
  end.

(** Indexing [u[i]] with a natural index. *)
Definition index {A} (u : list A) (i : nat) : result A :=
  match nth_error u i with
  | Some x => Ok x
  | None => Raise IndexError
  end.

(** ** Python slices *)

(** Bounds of the slice [start:stop] (step 1) of a sequence of length [n];
    [None] is an omitted bound. *)
Definition clamp (n : nat) (i : Z) : nat :=
  let i' := (if i <? 0 then i + Z.of_nat n else i)%Z in
  if (i' <? 0)%Z then 0%nat
  else Nat.min (Z.to_nat i') n.

Definition slice_bounds (n : nat) (start stop : option Z) : nat * nat :=
  let a := match start with None => 0%nat | Some i => clamp n i end in
  let b := match stop with None => n | Some i => clamp n i end in
  (a, Nat.max a b).

Definition py_slice {A} (start stop : option Z) (l : list A) : list A :=
  let '(a, b) := slice_bounds (length l) start stop in
  firstn (b - a) (skipn a l).

(** An integer index: negative values count from the end. *)
Definition py_index (n : nat) (i : Z) : result nat :=
  let i' := (if i <? 0 then i + Z.of_nat n else i)%Z in
  if ((0 <=? i') && (i' <? Z.of_nat n))%Z then Ok (Z.to_nat i')
  else Raise IndexError.

(** Broadcasting one axis of the right-hand side of an in-place
    operation to the length [n] of the destination. *)
Definition bcast {A} (n : nat) (l : list A) : result (list A) :=
  if Nat.eqb (length l) n then Ok l
  else match l with
       | [x] => Ok (repeat x n)
       | _ => Raise ValueError
       end.

Fixpoint rmap2 {A B C} (f : A -> B -> result C) (u : list A) (v : list B)
  : result (list C) :=
  match u, v with
  | a :: u', b :: v' =>
      rbind (f a b) (fun c => rbind (rmap2 f u' v') (fun cs => Ok (c :: cs)))
  | _, _ => Ok []
  end.

(** [dest[:, start:stop] += src] for 2-D arrays. *)
Definition iadd_cols (ncols : nat) (start stop : option Z) (dest src : mat)
  : result mat :=
  let '(a, b) := slice_bounds ncols start stop in
  rbind (bcast (length dest) src) (fun srows =>
    rmap2 (fun row srow =>
             rbind (bcast (b - a) srow) (fun sv =>
               Ok (firstn a row ++ vadd (firstn (b - a) (skipn a row)) sv
                   ++ skipn b row)))
          dest srows).

(** Replacing the element at position [i]. *)
Fixpoint update {A} (l : list A) (i : nat) (x : A) : list A :=
  match l, i with
  | [], _ => []
  | _ :: l', O => x :: l'
  | y :: l', S i' => y :: update l' i' x
  end.

(** A [for] loop over a list that threads an accumulator and may raise. *)
Fixpoint rfold {A B} (f : B -> A -> result B) (l : list A) (b : B) : result B :=
  match l with
  | [] => Ok b
  | a :: l' => rbind (f b a) (rfold f l')
  end.

(** [range(a, b)] for integers. *)
Definition zrange (a b : Z) : list Z :=
  map (fun k => (a + Z.of_nat k)%Z) (seq 0 (Z.to_nat (b - a))).

(** [dest &= rhs] *)
Definition iand (dest rhs : list bool) : result (list bool) :=
  rbind (bcast (length dest) rhs) (fun r => Ok (mask_and dest r)).

(** Element-wise operation on two 2-D arrays. *)
Definition bzip2 (f : num -> num -> num) (a b : mat) : result mat :=
  rbind (bzip (fun r1 r2 => (r1, r2)) a b) (fun rows =>
    rfold (fun acc rr => rbind (bzip f (fst rr) (snd rr))
                               (fun r => Ok (acc ++ [r])))
          rows []).

(** ** Routines of other libraries *)

(** A 1-D spectrum: the pair [wave, flux] that [compute_model] receives,
    and the two arrays of a template object. *)
Record Spectrum : Type := mkSpectrum {
  wave_of : vec;
  flux_of : vec
}.

Record Externals : Type := mkExternals {
  (** [np.sqrt] at a positive argument, [np.exp] at a finite argument
      other than zero, [np.log] at a positive argument other than one *)
  qsqrt : Qc -> Qc;
  qexp : Qc -> Qc;
  qlog : Qc -> Qc;
  (** [grizli.utils_c.interp.interp_conserve_c(x, xp, fp)] *)
  interp_conserve_c : vec -> vec -> vec -> vec;
  (** [scipy.optimize.nnls(AxT, data)[0]] and
      [np.linalg.lstsq(AxT, data)[0]]; the design matrix is passed by its
      columns, one per retained row of [A] *)
  scipy_nnls : mat -> vec -> result vec;
  np_lstsq : mat -> vec -> result vec;
  (** [np.matrix(m).I]; raises for a singular matrix *)
  matrix_I : mat -> result mat;
  (** [np.interp(x, xp, fp)] *)
  np_interp : vec -> vec -> vec -> vec;
  (** [np.argsort] *)
  np_argsort : vec -> list nat;
  (** [t.zscale(0, scalar=c)] and [t1 + t2] of template objects *)
  zscale : Spectrum -> num -> Spectrum;
  template_add : Spectrum -> Spectrum -> Spectrum
}.

Section WithExternals.

Variable ext : Externals.

Definition np_sqrt (x : num) : num :=
  match x with
  | Fin q => match qsign q with
             | Eq => zero
             | Gt => Fin (qsqrt ext q)
             | Lt => NaN
             end
  | PInf => PInf
  | NInf | NaN => NaN
  end.

Definition np_exp (x : num) : num :=
  match x with
  | Fin q => match qsign q with
             | Eq => one
             | _ => Fin (qexp ext q)
             end
  | PInf => PInf
  | NInf => zero
  | NaN => NaN
  end.

Definition np_log (x : num) : num :=
  match x with
  | Fin q => match qsign q with
             | Eq => NInf
             | Gt => if Qeq_bool q 1 then zero else Fin (qlog ext q)
             | Lt => NaN
             end
  | PInf => PInf
  | NInf | NaN => NaN
  end.

(** [np.arange(start, stop, step)] for floats: ceil((stop - start)/step)
    values from [start] in steps of [step]. *)
Definition arange (start stop step : num) : result vec :=
  match (stop - start) / step with
  | Fin q =>
      let n := Z.to_nat (Qceiling q) in
      Ok (map (fun k => start + of_nat k * step) (seq 0 n))
  | _ => Raise ValueError
  end.

(** Modelled from the spec: [grizli.utils.log_zgrid] is not part of the
    sources at hand; the grid is "uniform in log(1+z) with step dz over
    range [z_min, z_max]", starting at the lower end. *)
Definition log_zgrid (lo hi dz : num) : result vec :=
  rbind (arange (np_log (one + lo)) (np_log (one + hi)) dz) (fun l =>
    Ok (map (fun x => np_exp x - one) l)).

End WithExternals.

(** The routines [ext] with [f] in the place of both solvers. *)
Definition with_solver (ext : Externals) (f : mat -> vec -> result vec)
  : Externals :=
  mkExternals (qsqrt ext) (qexp ext) (qlog ext) (interp_conserve_c ext) f f
              (matrix_I ext) (np_interp ext) (np_argsort ext) (zscale ext)
              (template_add ext).

(** ** StackedSpectrum *)

(** What the constructor reads from the FITS file for one [extver]: the
    keywords of the SCI header, the image extensions, and the sensitivity
    curve of beam A of the configuration file. *)
Record Extension : Type := mkExtension {
  NAXIS1 : nat;
  NAXIS2 : nat;
  CRPIX1 : num;
  CD1_1 : num;
  CRVAL1 : num;
  ISFLAM : bool;
  SCI : mat;
  WHT : mat;
  CONTAM : option mat;
  KERNEL : mat;
  SENS_WAVELENGTH : vec;
  SENS_SENSITIVITY : vec
}.

Module StackedSpectrum.

Record t : Type := mk {
  sys_err : num;
  mask_min : num;
  mask_threshold : num;
  sh : nat * nat;
  wave : vec;
  is_flambda : bool;
  sci : mat;
  ivar0 : mat;
  size : nat;
  scif : vec;
  ivarf0 : vec;
  ivarf : vec;
  ivar : mat;
  sivarf : vec;
  fit_mask : list bool;
  fcontam : num;
  contam : mat;
  weight : mat;
  contamf : vec;
  weightf : vec;
  kernel : mat;
  fit_data : mat;
  sens : option vec;
  flat : vec;
  DoF : nat
}.

Section Methods.

Variable ext : Externals.

(** [get_wavelength_from_header] *)
Definition get_wavelength_from_header (h : Extension) : vec :=
  map (fun i => (of_nat i + one - CRPIX1 h) * CD1_1 h + CRVAL1 h)
      (seq 0 (NAXIS1 h)).

(** The three loops of [_build_model] that place the kernel in
    [data[j, :, :]], one call per value of [j]. *)
Definition place_kernel (NX : nat) (data : list mat) (j : Z)
           (start stop : option Z) (src : mat) : result (list mat) :=
  rbind (py_index (length data) j) (fun jj =>
  rbind (index data jj) (fun plane =>
  rbind (iadd_cols NX start stop plane src) (fun plane' =>
    Ok (update data jj plane')))).

Definition build_data (NX NY : nat) (kern : mat) : result (list mat) :=
  let half := Z.of_nat (NY / 2) in
  let nhalf := ((- Z.of_nat NY) / 2)%Z in      (* -NY//2 *)
  let nx := Z.of_nat NX in
  let data0 := repeat (repeat (zeros NX) NY) NX in
  rbind (rfold (fun data j =>
                  place_kernel NX data j None (Some (j + half)%Z)
                    (map (py_slice (Some (nhalf - j)%Z) None) kern))
               (zrange 0 half) data0) (fun data1 =>
  rbind (rfold (fun data j =>
                  place_kernel NX data j (Some (nhalf + j)%Z) None
                    (map (py_slice None (Some (nx - j + half)%Z)) kern))
               (zrange (nx - half) nx) data1) (fun data2 =>
  rfold (fun data j =>
           place_kernel NX data j (Some (j - half)%Z) (Some (j + half)%Z) kern)
        (zrange half (nx - half)) data2)).

(** [compute_model]: the flat spectrum when no spectrum is given. *)
Definition compute_model (spectrum_1d : option Spectrum) : M t vec :=
  w <- gets wave ;;
  let fl := match spectrum_1d with
            | None => map (fun x => x * zero + one) w
            | Some s => interp_conserve_c ext w (wave_of s) (flux_of s)
            end in
  fd <- gets fit_data ;;
  shp <- gets sh ;;
  model <- lift (dot_vm (fst shp * snd shp) fl fd) ;;
  ret model.

(** The successive values of [self.fit_mask] in the constructor. *)
Definition mask_positive (ivarf : vec) : list bool :=
  map (fun x => gtb x zero) ivarf.

Definition mask_finite (scif ivarf : vec) : result (list bool) :=
  bzip andb (map isfinite scif) (map isfinite ivarf).

Definition mask_amplitude (mask_min : num) (elec : vec) : result (list bool) :=
  rbind (vmax elec) (fun emax =>
    Ok (map (fun x => gtb x (mask_min * emax)) elec)).

Definition build_model (h : Extension) (w : vec) (kern : mat)
  : result (mat * option vec) :=
  rbind (build_data (NAXIS1 h) (NAXIS2 h) kern) (fun data =>
    let fit_data0 := map flatten data in
    if ISFLAM h then Ok (fit_data0, None)
    else
      let s := interp_conserve_c ext w (SENS_WAVELENGTH h) (SENS_SENSITIVITY h) in
      let s' := map (fun x => x * median (diff w) * Fin (qc 1 100000000000000000)) s in
      rbind (bcast (length fit_data0) s') (fun sb =>
        Ok (map2 (fun row x => map (fun y => y * x) row) fit_data0 sb, Some s'))).

(** Line 636: the inverse variance with the systematic floor. *)
Definition floor_ivar (sys_err i s : num) : num :=
  one / (one / i + sqr (sys_err * s)).

(** Lines 644-656: [contam], [weight], [contamf], [weightf]. *)
Definition contamination (fcontam : num) (h : Extension)
  : result (mat * mat * vec * vec) :=
  match CONTAM h with
  | Some c =>
      let contam := map (map abs) c in
      rbind (bzip2 (fun c i => np_exp ext (- fcontam * c * np_sqrt ext i))
                   contam (WHT h)) (fun weight =>
        Ok (contam, weight, flatten contam, flatten weight))
  | None =>
      Ok (map (map (fun x => x * zero)) (SCI h),
          map (map (fun x => x * zero + one)) (SCI h),
          map (fun x => x * zero) (flatten (SCI h)),
          map (fun x => x * zero + one) (flatten (SCI h)))
  end.

(** [__init__]: the object, and the list of the values that
    [self.fit_mask] takes in turn. *)
Definition init_traced (sys_err mask_min mask_threshold fcontam : num)
           (h : Extension) : result (t * list (list bool)) :=
  let sh := (NAXIS2 h, NAXIS1 h) in
  let wave := get_wavelength_from_header h in
  let sci := SCI h in
  let ivar0 := WHT h in
  let size := length (flatten sci) in
  let scif := flatten sci in
  let ivarf0 := flatten ivar0 in
  rbind (bzip (floor_ivar sys_err) ivarf0 scif) (fun ivarf =>
  rbind (reshape (fst sh) (snd sh) ivarf) (fun ivar =>
  let sivarf := flatten (map (map (np_sqrt ext)) ivar) in
  let m1 := mask_positive ivarf in
  rbind (mask_finite scif ivarf) (fun fin =>
  rbind (iand m1 fin) (fun m2 =>
  rbind (contamination fcontam h) (fun cw =>
  let '(contam, weight, contamf, weightf) := cw in
  let ksum := vsum (flatten (KERNEL h)) in
  let kernel := map (map (fun x => x / ksum)) (KERNEL h) in
  rbind (build_model h wave kernel) (fun fs =>
  let '(fit_data, sens) := fs in
  let self0 :=
    mk sys_err mask_min mask_threshold sh wave (ISFLAM h) sci ivar0 size
       scif ivarf0 ivarf ivar sivarf m2 fcontam contam weight contamf weightf
       kernel fit_data sens [] 0 in
  rbind (eval (compute_model None) self0) (fun flat =>
  rbind (if ISFLAM h
         then rbind (bzip mul flat ivarf0) (fun fi =>
              rbind (vmax ivarf0) (fun imax =>
                Ok (map (fun x => x / imax) fi)))
         else Ok flat) (fun elec =>
  rbind (mask_amplitude mask_min elec) (fun amp =>
  rbind (iand m2 amp) (fun m3 =>
  let self1 :=
    mk sys_err mask_min mask_threshold sh wave (ISFLAM h) sci ivar0 size
       scif ivarf0 ivarf ivar sivarf m3 fcontam contam weight contamf weightf
       kernel fit_data sens flat (count_true m3) in
  if gtb mask_threshold zero
  then Raise AttributeError          (* no method [drizzle_mask] *)
  else Ok (self1, [m1; m2; m3]))))))))))).

Definition init (sys_err mask_min mask_threshold fcontam : num)
           (h : Extension) : result t :=
  rbind (init_traced sys_err mask_min mask_threshold fcontam h)
        (fun r => Ok (fst r)).

Definition fit_mask_history (sys_err mask_min mask_threshold fcontam : num)
           (h : Extension) : result (list (list bool)) :=
  rbind (init_traced sys_err mask_min mask_threshold fcontam h)
        (fun r => Ok (snd r)).

(** [optimal_extract], lines 690-691: the column sums of the flat model
    and the profile. *)
Definition profile (shp : nat * nat) (fl : vec) : result (vec * mat) :=
  rbind (reshape (fst shp) (snd shp) fl) (fun flat2 =>
    let flatf := sum_axis0 (snd shp) flat2 in
    Ok (flatf, map (fun row => vdiv row flatf) flat2)).

(** Lines 693-695: the sums over the rows of [num] and of [den]. *)
Definition weighted_sums (shp : nat * nat) (prof data iv : mat)
  : result (vec * vec) :=
  rbind (bzip2 mul prof data) (fun pd =>
  rbind (bzip2 mul pd iv) (fun num_ =>
  rbind (bzip2 mul (map vsqr prof) iv) (fun den =>
    Ok (sum_axis0 (snd shp) num_, sum_axis0 (snd shp) den)))).

(** Line 699: the columns that are zero-filled. *)
Definition clipped (dsum : vec) : list bool :=
  map (fun d => eqb (one / d) zero || negb (isfinite (one / d))) dsum.

(** Lines 695-703. *)
Definition extracted (nsum dsum : vec) : vec * vec :=
  let opt_flux := vdiv nsum dsum in
  let opt_var := map (fun d => one / d) dsum in
  let opt_rms := map (np_sqrt ext) opt_var in
  let zero_fill := map2 (fun x (c : bool) => if c then zero else x) in
  (zero_fill opt_flux (clipped dsum), zero_fill opt_rms (clipped dsum)).

Definition optimal_extract (data : mat) : M t (vec * vec) :=
  fl <- gets flat ;;
  shp <- gets sh ;;
  p <- lift (profile shp fl) ;;
  iv <- gets ivar ;;
  sums <- lift (weighted_sums shp (snd p) data iv) ;;
  ret (extracted (fst sums) (snd sums)).

End Methods.

End StackedSpectrum.

(** ** StackFitter *)

(** What [fit_at_z] returns. *)
Record FitResult : Type := mkFitResult {
  chi2 : num;
  background : vec;
  full : vec;
  full_coeffs : vec;
  full_coeffs_err : vec
}.

Definition pedestal : num := Fin (qc 4 100).

(** [int(x)] of a float: the value rounded towards zero; ValueError for
    NaN and OverflowError for an infinity. *)
Definition to_int (x : num) : result Z :=
  match x with
  | Fin q => Ok (match qsign q with
                 | Lt => (- Qfloor (- q)%Qc)%Z
                 | _ => Qfloor q
                 end)
  | NaN => Raise ValueError
  | PInf | NInf => Raise OverflowError
  end.

(** [np.hstack] of a list of 1-D arrays. *)
Definition hstack {A} (l : list (list A)) : result (list A) :=
  match l with
  | [] => Raise ValueError
  | _ => Ok (concat l)
  end.

Module StackFitter.

Record t : Type := mk {
  Next : nat;
  E : list StackedSpectrum.t;
  Ndata : nat;
  scif : vec;
  ivarf : vec;
  weightf : vec;
  sivarf : vec;
  fit_mask : list bool;
  DoF : Z;
  slices : list (nat * nat);
  Abg : mat
}.

Definition set_E (F : t) (Es : list StackedSpectrum.t) : t :=
  mk (Next F) Es (Ndata F) (scif F) (ivarf F) (weightf F) (sivarf F)
     (fit_mask F) (DoF F) (slices F) (Abg F).

(** Calling a method of [self.E[j]]. *)
Definition on_E {A} (j : nat) (m : M StackedSpectrum.t A) : M t A :=
  fun F =>
    match nth_error (E F) j with
    | None => (Raise IndexError, F)
    | Some Ej => let (r, Ej') := m Ej in (r, set_E F (update (E F) j Ej'))
    end.

Section Methods.

Variable ext : Externals.

(** [_get_slices] *)
Fixpoint get_slices_from (x : nat) (sizes : list nat) : list (nat * nat) :=
  match sizes with
  | [] => []
  | n :: sizes' => (x + 0, x + n)%nat :: get_slices_from (x + n) sizes'
  end.

Definition get_slices (Es : list StackedSpectrum.t) : list (nat * nat) :=
  get_slices_from 0 (map StackedSpectrum.size Es).

(** [_init_background] *)
Definition init_background (Ndata : nat) (slices : list (nat * nat)) : mat :=
  map (fun sl => set_slice (zeros Ndata) (fst sl) (snd sl)
                           (ones (snd sl - fst sl)))
      slices.

(** [__init__], from the extensions named by the primary header (one per
    grism, or one per grism and position angle).  Reading the file and
    its keywords is not modelled. *)
Definition init (sys_err mask_min fcontam : num) (exts : list Extension)
  : result t :=
  rbind (rfold (fun Es h =>
                  rbind (StackedSpectrum.init ext sys_err mask_min
                           (of_Z (-1)) fcontam h) (fun E_i =>
                  rbind (eval (StackedSpectrum.compute_model ext None) E_i)
                        (fun _ => Ok (Es ++ [E_i]))))
               exts []) (fun Es =>
  let Ndata := fold_left Nat.add (map StackedSpectrum.size Es) 0%nat in
  rbind (hstack (map StackedSpectrum.scif Es)) (fun scif =>
  rbind (hstack (map StackedSpectrum.ivarf Es)) (fun ivarf0 =>
  rbind (hstack (map StackedSpectrum.weightf Es)) (fun weightf =>
  rbind (bcast (length ivarf0) weightf) (fun wb =>
  let ivarf := vmul ivarf0 wb in
  let sivarf := map (np_sqrt ext) ivarf in
  rbind (hstack (map StackedSpectrum.fit_mask Es)) (fun fit_mask =>
  rbind (bzip (fun (b : bool) w => of_bool b * w) fit_mask weightf) (fun mw =>
  rbind (to_int (vsum mw)) (fun dof =>
  let slices := get_slices Es in
  Ok (mk (length exts) Es Ndata scif ivarf weightf sivarf fit_mask dof
         slices (init_background Ndata slices)))))))))).

(** [A[row, start:stop] = values] *)
Definition assign_slice (row : vec) (sl : nat * nat) (values : vec)
  : result vec :=
  rbind (bcast (snd sl - fst sl) values) (fun v =>
    Ok (set_slice row (fst sl) (snd sl) v)).

(** The row of the design matrix for one template (the inner loop of
    [fit_at_z] over the exposures). *)
Definition template_row (z : num) (ti : Spectrum) : M t vec :=
  let s := mkSpectrum (map (fun w => w * (one + z)) (wave_of ti))
                      (map (fun f => f / (one + z)) (flux_of ti)) in
  n <- gets Ndata ;;
  Es <- gets E ;;
  foldM (fun row j =>
           wv <- on_E j (gets StackedSpectrum.wave) ;;
           s_first <- lift (index (wave_of s) 0) ;;
           wmax <- lift (vmax wv) ;;
           s_last <- lift (index (rev (wave_of s)) 0) ;;
           wmin <- lift (vmin wv) ;;
           if gtb s_first wmax || ltb s_last wmin then ret row
           else
             sls <- gets slices ;;
             sl <- lift (index sls j) ;;
             model <- on_E j (StackedSpectrum.compute_model ext (Some s)) ;;
             lift (assign_slice row sl model))
        (seq 0 (length Es)) (zeros n).

(** Lines 215-228: the design matrix [A], row by row. *)
Definition design_matrix (z : num) (templates : list (string * Spectrum))
  : M t mat :=
  bg <- gets Abg ;;
  rows <- mapM (fun nt => template_row z (snd nt)) templates ;;
  ret (bg ++ rows).

(** Line 230. *)
Definition oktemp_of (A : mat) (fit_mask : list bool) : list bool :=
  map (fun row => neb (vsum (vmul_bool row fit_mask)) zero) A.

(** Line 232: [Ax]. *)
Definition whitened (A : mat) (oktemp : list bool) (sivarf : vec) : mat :=
  map (fun row => vmul row sivarf) (select A oktemp).

(** Line 236: the columns of [AxT]. *)
Definition AxT_cols (Ax : mat) (fit_mask : list bool) : mat :=
  map (fun row => select row fit_mask) Ax.

(** Line 237. *)
Definition whitened_data (scif sivarf : vec) (fit_mask : list bool) : vec :=
  select (vmul (map (fun s => s + pedestal) scif) sivarf) fit_mask.

Definition solver (fitter : string) : mat -> vec -> result vec :=
  if String.eqb fitter "nnls" then scipy_nnls ext else np_lstsq ext.

(** Lines 250-259. *)
Definition covard_of (get_uncertainties : bool) (cols : mat)
           (oktemp : list bool) : vec :=
  if get_uncertainties then
    match matrix_I ext (matmul_cols cols cols) with
    | Ok covar => map (np_sqrt ext) (diagonal covar)
    | Raise _ => zeros (count_true oktemp)
    end
  else zeros (count_true oktemp).

(** Lines 247-248. *)
Definition chi2_of (scif full background ivarf : vec) (fit_mask : list bool)
  : num :=
  let resid := vsub (vsub scif full) background in
  vsum (vmul (vsqr (select resid fit_mask)) (select ivarf fit_mask)).

(** Lines 230-267, on the values of the attributes that they read. *)
Definition fit_design (Next Ndata : nat) (scif ivarf sivarf : vec)
           (fit_mask : list bool) (A : mat) (NTEMP : nat) (fitter : string)
           (get_uncertainties : bool) : result FitResult :=
  let oktemp := oktemp_of A fit_mask in
  let Ax := whitened A oktemp sivarf in
  let cols := AxT_cols Ax fit_mask in
  let data := whitened_data scif sivarf fit_mask in
  rbind (solver fitter cols data) (fun coeffs =>
  rbind (dot_vm Ndata (upto Next coeffs) (upto Next A)) (fun bg0 =>
  let background := map (fun b => b - pedestal) bg0 in
  rbind (dot_vm Ndata (from Next coeffs)
                (map (fun row => vdiv row sivarf) (from Next Ax))) (fun full =>
  let chi2 := chi2_of scif full background ivarf fit_mask in
  let covard := covard_of get_uncertainties cols oktemp in
  rbind (mask_assign (zeros NTEMP) (from Next oktemp) (from Next coeffs))
        (fun full_coeffs =>
  rbind (mask_assign (zeros NTEMP) (from Next oktemp) (from Next covard))
        (fun full_coeffs_err =>
  Ok (mkFitResult chi2 background full full_coeffs full_coeffs_err)))))).

(** [fit_at_z] *)
Definition fit_at_z (z : num) (templates : list (string * Spectrum))
           (fitter : string) (get_uncertainties : bool) : M t FitResult :=
  let NTEMP := length templates in
  A <- design_matrix z templates ;;
  nx <- gets Next ;;
  nd <- gets Ndata ;;
  fm <- gets fit_mask ;;
  sv <- gets sivarf ;;
  sc <- gets scif ;;
  iv <- gets ivarf ;;
  lift (fit_design nx nd sc iv sv fm A NTEMP fitter get_uncertainties).

End Methods.

End StackFitter.

(** ** The redshift grid search *)

(** Values of the entries of [t.meta]. *)
Inductive hval : Type :=
| HNum (x : num)
| HInt (z : Z)
| HStr (s : string)
| HBool (b : bool).

(** ['{0:03d}'.format(n)] *)
Definition digit (n : nat) : string :=
  String (ascii_of_nat (48 + n mod 10)) EmptyString.

Definition format_03d (n : nat) : string :=
  if Nat.ltb n 1000
  then (digit (n / 100) ++ digit (n / 10) ++ digit n)%string
  else (digit (n / 1000) ++ digit (n / 100) ++ digit (n / 10) ++ digit n)%string.

(** [te[5:]] *)
Fixpoint drop_chars (n : nat) (s : string) : string :=
  match n, s with
  | S n', String _ s' => drop_chars n' s'
  | _, _ => s
  end.

(** [te.startswith('line')] *)
Definition startswith_line (te : string) : bool := prefix "line" te.

(** What [fit_zgrid] computes before it writes the table: the columns
    of the table [t], its metadata, and the fit at the best redshift. *)
Record ZFit : Type := mkZFit {
  zfit_z : vec;
  zfit_chi2 : vec;
  zfit_prior : option vec;
  zfit_meta : list (string * (hval * string));
  zfit_best : FitResult
}.

(** One refinement round as it ran: the centre and step it chose and
    the grid and chi-squared values it appended. *)
Record Round : Type := mkRound {
  round_iter : Z;
  round_z0 : num;
  round_dz : num;
  round_zi : vec;
  round_ci : vec
}.

(** [x ** n] for a positive integer exponent. *)
Fixpoint npow (x : num) (n : nat) : num :=
  match n with
  | O => one
  | S n' => x * npow x n'
  end.

Module ZGrid.

Section Methods.

Variable ext : Externals.

Definition prior_t : Type := option (vec * vec).

(** The loop [for i in range(len(z))] that fits every grid point. *)
Definition scan (zs : vec) (templates : list (string * Spectrum))
           (fitter : string) : M StackFitter.t vec :=
  mapM (fun zi =>
          out <- StackFitter.fit_at_z ext zi templates fitter false ;;
          ret (chi2 out))
       zs.

(** Lines 328-332. *)
Definition with_prior (prior : prior_t) (zi ci : vec) : result vec :=
  match prior with
  | Some p => bzip add ci (np_interp ext zi (fst p) (snd p))
  | None => Ok ci
  end.

(** The state of the loop at lines 325-350: the accumulated scan
    [z], [chi2], the current grid [zi], [ci], and the rounds run so far. *)
Record Zoom : Type := mkZoom {
  acc_z : vec;
  acc_chi2 : vec;
  cur_zi : vec;
  cur_ci : vec;
  rounds : list Round
}.

(** The body of the loop for one value of [iter]. *)
Definition refine_step (dz0 : num) (fitter : string) (prior : prior_t)
           (t_complex : list (string * Spectrum)) (st : Zoom) (iter : Z)
  : M StackFitter.t Zoom :=
  cp <- lift (with_prior prior (cur_zi st) (cur_ci st)) ;;
  iz <- lift (argmin cp) ;;
  z0 <- lift (index (cur_zi st) iz) ;;
  let dz := dz0 / npow (Fin (qc 202 100)) (Z.to_nat iter) in
  zi <- lift (log_zgrid ext (z0 - dz * of_Z 4) (z0 + dz * of_Z 4) dz) ;;
  ci <- scan zi t_complex fitter ;;
  ret (mkZoom (acc_z st ++ zi) (acc_chi2 st ++ ci) zi ci
              (rounds st ++ [mkRound iter z0 dz zi ci])).

(** Lines 316-350: the coarse scan and the refinement loop. *)
Definition zoom (dz0 : num) (zr : num * num) (fitter : string)
           (prior : prior_t) (t_complex : list (string * Spectrum))
  : M StackFitter.t Zoom :=
  z <- lift (log_zgrid ext (fst zr) (snd zr) dz0) ;;
  chi2 <- scan z t_complex "nnls" ;;
  foldM (refine_step dz0 fitter prior t_complex) (zrange 1 7)
        (mkZoom z chi2 z chi2 []).

(** Lines 393-404: the continuum [tc] and the full model [tl]. *)
Fixpoint best_templates (t_i : list (string * Spectrum)) (coeffs : vec)
         (i : nat) (acc : option (Spectrum * Spectrum))
  : result (option (Spectrum * Spectrum)) :=
  match t_i with
  | [] => Ok acc
  | (te, tmpl) :: rest =>
      rbind (index coeffs i) (fun c =>
        let acc' :=
          match acc with
          | None => (zscale ext tmpl c, zscale ext tmpl c)
          | Some (tc, tl) =>
              (if startswith_line te
               then template_add ext tc (zscale ext tmpl zero)
               else template_add ext tc (zscale ext tmpl c),
               template_add ext tl (zscale ext tmpl c))
          end in
        best_templates rest coeffs (S i) (Some acc'))
  end.

(** Lines 415-426: the equivalent width of one line with a nonzero
    coefficient. *)
Definition line_EW (tmpl tc : Spectrum) (c : num) : result num :=
  let tn := template_add ext (zscale ext tmpl c) (zscale ext tc one) in
  let td := template_add ext (zscale ext tmpl zero) (zscale ext tc one) in
  rbind (vmax (wave_of tmpl)) (fun wmax =>
  rbind (vmin (wave_of tmpl)) (fun wmin =>
  let c1 := map (fun w => leb w wmax) (wave_of td) in
  let c2 := map (fun w => geb w wmin) (wave_of td) in
  rbind (iand c1 c2) (fun clipm =>
  rbind (bzip div (flux_of tn) (flux_of td)) (fun ratio =>
  let EW := trapz (map (fun r => r - one) (select ratio clipm))
                  (select (wave_of td) clipm) in
  Ok (if negb (isfinite EW) then Fin (qc (-1000) 1) else EW))))).

(** Lines 406-436: the metadata of the lines. *)
Fixpoint line_meta (t_i : list (string * Spectrum)) (coeffs err : vec)
         (tc : option Spectrum) (i il : nat)
  : result (list (string * (hval * string))) :=
  match t_i with
  | [] => Ok []
  | (te, tmpl) :: rest =>
      if startswith_line te then
        let il' := S il in
        rbind (index coeffs i) (fun c =>
        rbind (if eqb c zero then Ok zero
               else match tc with
                    | Some tc' => line_EW tmpl tc' c
                    | None => Raise RuntimeError
                    end) (fun EW =>
        rbind (index err i) (fun e =>
        rbind (line_meta rest coeffs err tc (S i) il') (fun more =>
        Ok ((("LINE" ++ format_03d il' ++ "F")%string,
             (HNum c, (drop_chars 5 te ++ " line flux")%string))
            :: (("LINE" ++ format_03d il' ++ "E")%string,
                (HNum e, (drop_chars 5 te ++ " line flux uncertainty")%string))
            :: (("LINE" ++ format_03d il' ++ "W")%string,
                (HNum EW, (drop_chars 5 te ++ " line rest EQW")%string))
            :: more)))))
      else line_meta rest coeffs err tc (S i) il
  end.

(** [a[so]] for an array of positions. *)
Definition take (u : vec) (so : list nat) : result vec :=
  rfold (fun acc i => rbind (index u i) (fun x => Ok (acc ++ [x]))) so [].

(** Lines 352-436: sorting the accumulated scan, applying the prior,
    the fit at the best redshift and the table. *)
Definition finalize (ident ra dec : hval) (fitter : string) (prior : prior_t)
           (t_i : list (string * Spectrum)) (zm : Zoom)
  : M StackFitter.t ZFit :=
  let so := np_argsort ext (acc_z zm) in
  z <- lift (take (acc_z zm) so) ;;
  chi2_0 <- lift (take (acc_chi2 zm) so) ;;
  pc <- lift (match prior with
              | Some p =>
                  let pz := np_interp ext z (fst p) (snd p) in
                  rbind (bcast (length chi2_0) pz) (fun pb =>
                    Ok (Some pz, vadd chi2_0 pb))
              | None => Ok (None, chi2_0)
              end) ;;
  let '(pz, chi2s) := pc in
  ibest <- lift (argmin chi2s) ;;
  zfit <- lift (index z ibest) ;;
  best <- StackFitter.fit_at_z ext zfit t_i fitter true ;;
  let coeffs := full_coeffs best in
  let err := full_coeffs_err best in
  cmin <- lift (vmin chi2s) ;;
  cmax <- lift (vmax chi2s) ;;
  let num_ := trapz (clip zero (of_Z 25) (map (fun c => c - cmin) chi2s)) z in
  let denom := trapz (map (fun x => x * zero + of_Z 25) z) z in
  let area25 := one - num_ / denom in
  dof <- gets StackFitter.DoF ;;
  tcl <- lift (best_templates t_i coeffs 0 None) ;;
  lines <- lift (line_meta t_i coeffs err (option_map fst tcl) 0 0) ;;
  ret (mkZFit z chi2s pz
         ([("ID", (ident, "Object ID"));
           ("RA", (ra, "Right Ascension"));
           ("DEC", (dec, "Declination"));
           ("Z", (HNum zfit, "Best-fit redshift"));
           ("CHIMIN", (HNum cmin, "Min Chi2"));
           ("CHIMAX", (HNum cmax, "Min Chi2"));
           ("DOF", (HInt dof, "Degrees of freedom"));
           ("AREA25", (HNum area25, "Area under CHIMIN+25"));
           ("FITTER", (HStr fitter, "Minimization algorithm"));
           ("HASPRIOR", (HBool (match prior with Some _ => true | None => false end),
                         "Was prior specified?"))]%string
          ++ lines)
         best).

(** [fit_zgrid], up to the table that it writes. *)
Definition fit_zgrid (ident ra dec : hval) (dz0 : num) (zr : num * num)
           (fitter : string) (prior : prior_t)
           (t_complex t_i : list (string * Spectrum))
  : M StackFitter.t ZFit :=
  zm <- zoom dz0 zr fitter prior t_complex ;;
  finalize ident ra dec fitter prior t_i zm.

End Methods.

End ZGrid.

(** ** Reference implementations of the external routines

    Exact rational versions of the routines in [Externals], used to run
    the model on concrete inputs.  The solvers are exact; [sqrt] is exact on
    squares of rationals, and [exp], [log] and the remaining square roots
    are computed to 15 decimal places. *)

Module Reference.

Definition scale15 : Z := (10 ^ 15)%Z.

Definition round15 (q : Q) : Qc :=
  Q2Qc (Qfloor (q * (scale15 # 1)) # Z.to_pos scale15).

Definition qsqrt (q : Qc) : Qc :=
  let n := Qnum q in
  let d := Zpos (Qden q) in
  Q2Qc (Z.sqrt (n * d * scale15 * scale15) # Z.to_pos (d * scale15)).

Definition scale18 : Z := (10 ^ 18)%Z.

(** Rounding down to 18 decimal places, applied to every term of the
    series below. *)
Definition round18 (q : Q) : Q := Qfloor (q * (scale18 # 1)) # Z.to_pos scale18.

(** Partial sums: [sum_{k<n} x^k / k!]. *)
Fixpoint exp_series (n : nat) (x term : Q) (k : positive) : Q :=
  match n with
  | O => 0
  | S n' => Qred (term + exp_series n' x (round18 (term * x / (Zpos k # 1)))
                                    (Pos.succ k))
  end.

Definition qexp (q : Qc) : Qc := round15 (exp_series 30 q 1 1).

(** [log x = 2 * sum_k t^(2k+1) / (2k+1)] with [t = (x - 1) / (x + 1)]. *)
Fixpoint atanh_series (n : nat) (t2 power : Q) (k : positive) : Q :=
  match n with
  | O => 0
  | S n' => Qred (round18 (power / (Zpos k # 1))
                  + atanh_series n' t2 (round18 (power * t2))
                                 (Pos.succ (Pos.succ k)))
  end.

Definition qlog (q : Qc) : Qc :=
  let t := round18 ((q - 1) / (q + 1)) in
  round15 (2 * atanh_series 30 (round18 (t * t)) t 1).

(** Linear interpolation of the points [(xp, fp)] at [x]; [left] and
    [right] are the values outside the range of [xp]. *)
Fixpoint interp_at (left right : num) (xp fp : vec) (x : num) : num :=
  match xp, fp with
  | x0 :: xp', f0 :: fp' =>
      if ltb x x0 then left
      else match xp', fp' with
           | x1 :: _, f1 :: _ =>
               if leb x x1
               then if eqb x x0 then f0
                    else f0 + (f1 - f0) * ((x - x0) / (x1 - x0))
               else interp_at f0 right xp' fp' x
           | _, _ => if eqb x x0 then f0 else right
           end
  | _, _ => right
  end.

(** [np.interp]: the end values outside the range. *)
Definition np_interp (x xp fp : vec) : vec :=
  map (interp_at (hd NaN fp) (last fp NaN) xp fp) x.

(** Stand-in for [interp_conserve_c]: linear interpolation, zero outside
    the range of the template.  On a template whose flux is linear in the
    wavelength between two of its samples, at wavelengths whose bins lie
    between those samples, the flux-conserving routine returns the same
    values: the mean of a linear function over a bin is its value at the
    centre. *)
Definition interp_conserve_c (x xp fp : vec) : vec :=
  map (interp_at zero zero xp fp) x.

(** *** Linear algebra on rationals *)

Definition qrow := list Qc.

Definition to_qc (x : num) : result Qc :=
  match x with Fin q => Ok q | _ => Raise ValueError end.

Fixpoint to_qrow (u : vec) : result qrow :=
  match u with
  | [] => Ok []
  | x :: u' => rbind (to_qc x) (fun q => rbind (to_qrow u') (fun r => Ok (q :: r)))
  end.

Fixpoint to_qmat (m : mat) : result (list qrow) :=
  match m with
  | [] => Ok []
  | r :: m' => rbind (to_qrow r) (fun q => rbind (to_qmat m') (fun rs => Ok (q :: rs)))
  end.

Definition qnth (i : nat) (r : qrow) : Qc := nth i r (Q2Qc 0).

Definition qdot (u v : qrow) : Qc :=
  fold_left Qcplus (map2 Qcmult u v) (Q2Qc 0).

(** First row with a nonzero entry in column [c], and the other rows. *)
Fixpoint find_pivot (c : nat) (rows : list qrow) : option (qrow * list qrow) :=
  match rows with
  | [] => None
  | r :: rows' =>
      if Qeq_bool (qnth c r) 0
      then match find_pivot c rows' with
           | Some (p, others) => Some (p, r :: others)
           | None => None
           end
      else Some (r, rows')
  end.

Definition eliminate (c : nat) (piv r : qrow) : qrow :=
  map2 (fun a b => a - qnth c r * b)%Qc r piv.

Definition gj_step (st : option (list qrow)) (c : nat) : option (list qrow) :=
  match st with
  | None => None
  | Some rows =>
      match find_pivot c (skipn c rows) with
      | None => None
      | Some (p, others) =>
          let p' := map (fun a => a / qnth c p)%Qc p in
          Some (map (eliminate c p') (firstn c rows) ++ [p']
                    ++ map (eliminate c p') others)
      end
  end.

(** Gauss-Jordan elimination on the first [n] columns. *)
Definition gauss_jordan (n : nat) (rows : list qrow) : option (list qrow) :=
  fold_left gj_step (seq 0 n) (Some rows).

Definition unit_row (n i : nat) : qrow :=
  map (fun j => if Nat.eqb i j then Q2Qc 1 else Q2Qc 0) (seq 0 n).

Definition qinverse (g : list qrow) : option (list qrow) :=
  let n := length g in
  match gauss_jordan n (map2 (fun r i => r ++ unit_row n i) g (seq 0 n)) with
  | Some rows => Some (map (skipn n) rows)
  | None => None
  end.

Definition qsolve (g : list qrow) (b : qrow) : option qrow :=
  let n := length g in
  match gauss_jordan n (map2 (fun r x => r ++ [x]) g b) with
  | Some rows => Some (map (qnth n) rows)
  | None => None
  end.

Definition gram (cols : list qrow) : list qrow :=
  map (fun a => map (qdot a) cols) cols.

(** [np.matrix(m).I] in exact arithmetic: the inverse, and [LinAlgError]
    exactly when the matrix has none.  The routine of numpy works in
    binary64 and can return on such a matrix; [float_inverse] below follows
    it there. *)
Definition matrix_I (m : mat) : result mat :=
  rbind (to_qmat m) (fun g =>
    match qinverse g with
    | Some inv => Ok (map (map Fin) inv)
    | None => Raise LinAlgError
    end).

(** Least squares by the normal equations. *)
Definition qlstsq (cols : list qrow) (d : qrow) : option qrow :=
  qsolve (gram cols) (map (fun a => qdot a d) cols).

Definition np_lstsq (cols : mat) (d : vec) : result vec :=
  rbind (to_qmat cols) (fun qcols =>
  rbind (to_qrow d) (fun qd =>
    match qlstsq qcols qd with
    | Some x => Ok (map Fin x)
    | None => Raise LinAlgError
    end)).

(** Non-negative least squares: the best of the least-squares solutions
    over subsets of the columns that have no negative coefficient.  The
    minimiser is the one of [scipy.optimize.nnls] when the columns are
    independent; when they are not, the minimum is reached at several
    points and the routine of scipy may return another of them. *)
Fixpoint subsets (n : nat) : list (list bool) :=
  match n with
  | O => [[]]
  | S n' => map (cons false) (subsets n') ++ map (cons true) (subsets n')
  end.

Fixpoint expand (m : list bool) (x : qrow) : qrow :=
  match m with
  | [] => []
  | true :: m' => match x with
                  | a :: x' => a :: expand m' x'
                  | [] => Q2Qc 0 :: expand m' []
                  end
  | false :: m' => Q2Qc 0 :: expand m' x
  end.

Definition residual2 (cols : list qrow) (d x : qrow) : Qc :=
  let model := fold_left (fun acc cx => map2 Qcplus acc (map (Qcmult (snd cx)) (fst cx)))
                         (combine cols x) (map (fun _ => Q2Qc 0) d) in
  let r := map2 Qcminus d model in
  qdot r r.

Definition nnls_candidate (cols : list qrow) (d : qrow) (m : list bool)
  : option (qrow * Qc) :=
  match qlstsq (select cols m) d with
  | Some x =>
      if forallb (fun a : Qc => Qle_bool 0 a) x
      then let full := expand m x in Some (full, residual2 cols d full)
      else None
  | None => None
  end.

Definition better (a b : option (qrow * Qc)) : option (qrow * Qc) :=
  match a, b with
  | Some (_, ra), Some (_, rb) => if Qle_bool ra rb then a else b
  | Some _, None => a
  | None, _ => b
  end.

Definition qnnls (cols : list qrow) (d : qrow) : option qrow :=
  match fold_left (fun best m => better best (nnls_candidate cols d m))
                  (subsets (length cols)) None with
  | Some (x, _) => Some x
  | None => None
  end.

Definition scipy_nnls (cols : mat) (d : vec) : result vec :=
  rbind (to_qmat cols) (fun qcols =>
  rbind (to_qrow d) (fun qd =>
    match qnnls qcols qd with
    | Some x => Ok (map Fin x)
    | None => Raise RuntimeError
    end)).

(** [np.argsort]: positions in increasing order of value, ties in their
    original order. *)
Fixpoint insert_index (u : vec) (i : nat) (l : list nat) : list nat :=
  match l with
  | [] => [i]
  | j :: l' => if ltb (nth i u NaN) (nth j u NaN) then i :: l
               else j :: insert_index u i l'
  end.

Definition np_argsort (u : vec) : list nat :=
  fold_left (fun l i => insert_index u i l) (seq 0 (length u)) [].

(** [zscale(0, scalar)] and [+] of grizli's template class: the sum is
    taken on the union of the two wavelength grids. *)
Definition zscale (t : Spectrum) (c : num) : Spectrum :=
  mkSpectrum (map (fun w => w * (one + zero)) (wave_of t))
             (map (fun f => f * c / (one + zero)) (flux_of t)).

Fixpoint dedup_sorted (u : vec) : vec :=
  match u with
  | x :: ((y :: _) as u') => if eqb x y then dedup_sorted u' else x :: dedup_sorted u'
  | _ => u
  end.

Definition template_add (a b : Spectrum) : Spectrum :=
  let w := dedup_sorted (sort (wave_of a ++ wave_of b)) in
  mkSpectrum w (vadd (np_interp w (wave_of a) (flux_of a))
                     (np_interp w (wave_of b) (flux_of b))).

Definition externals : Externals :=
  mkExternals qsqrt qexp qlog interp_conserve_c scipy_nnls np_lstsq matrix_I
              np_interp np_argsort zscale template_add.

(** *** Elimination in binary64 arithmetic

    [np.matrix(m).I] runs an elimination with partial pivoting in
    floating point, and raises only when it meets a pivot that is exactly
    zero.  The inversion below rounds every operation to binary64. *)

(** [2^k] for an integer [k]. *)
Definition pow2 (k : Z) : Q :=
  if (0 <=? k)%Z then (2 ^ k # 1)%Q else (1 # Z.to_pos (2 ^ (- k)))%Q.

(** The exponent [e] of a positive rational [q]: [2^e <= q < 2^(e+1)]. *)
Definition exponent (q : Q) : Z :=
  let e := (Z.log2 (Qnum q) - Z.log2 (Zpos (Qden q)))%Z in
  if Qle_bool (pow2 e) q then e else (e - 1)%Z.

(** Rounding to the nearest number of 53 significant bits, the even one
    when two are as near; overflow and underflow are left out. *)
Definition round64 (x : Qc) : Qc :=
  match qsign x with
  | Eq => x
  | c =>
      let a := Qabs x in
      let e := exponent a in
      let s := Qred (a * pow2 (52 - e)) in
      let f := Qfloor s in
      let m := match Qcompare (s - (f # 1)) (1 # 2) with
               | Lt => f
               | Gt => (f + 1)%Z
               | Eq => if Z.even f then f else (f + 1)%Z
               end in
      let y := ((m # 1) * pow2 (e - 52))%Q in
      Q2Qc (match c with Lt => - y | _ => y end)
  end.

Definition fsub (a b : Qc) : Qc := round64 (a - b)%Qc.
Definition fmul (a b : Qc) : Qc := round64 (a * b)%Qc.
Definition fdiv (a b : Qc) : Qc := round64 (a / b)%Qc.

(** The first row at or after position [c] whose entry in column [c] is
    largest in absolute value. *)
Definition pivot_row (c : nat) (rows : list qrow) : nat :=
  fold_left (fun best i =>
               if Qle_bool (Qabs (qnth c (nth i rows [])))
                           (Qabs (qnth c (nth best rows [])))
               then best else i)
            (seq (S c) (length rows - S c)) c.

Definition swap_rows (i j : nat) (rows : list qrow) : list qrow :=
  update (update rows i (nth j rows [])) j (nth i rows []).

(** One step of the elimination: the pivot row is brought to position
    [c] and a multiple of it is taken from every other row. *)
Definition float_step (st : option (list qrow)) (c : nat) : option (list qrow) :=
  match st with
  | None => None
  | Some rows =>
      let rows1 := swap_rows c (pivot_row c rows) rows in
      let piv := nth c rows1 [] in
      if Qeq_bool (qnth c piv) 0 then None
      else
        Some (map (fun ir =>
                     if Nat.eqb (fst ir) c then snd ir
                     else
                       let l := fdiv (qnth c (snd ir)) (qnth c piv) in
                       update (map2 (fun a b => fsub a (fmul l b)) (snd ir) piv)
                              c (Q2Qc 0))
                  (combine (seq 0 (length rows1)) rows1))
  end.

Definition float_inverse_q (g : list qrow) : option (list qrow) :=
  let k := length g in
  match fold_left float_step (seq 0 k)
                  (Some (map2 (fun r i => r ++ unit_row k i) g (seq 0 k))) with
  | Some rows =>
      Some (map (fun ir => map (fun x => fdiv x (qnth (fst ir) (snd ir)))
                               (skipn k (snd ir)))
                (combine (seq 0 k) rows))
  | None => None
  end.

Definition float_inverse (m : mat) : result mat :=
  rbind (to_qmat m) (fun g =>
    match float_inverse_q g with
    | Some inv => Ok (map (map Fin) inv)
    | None => Raise LinAlgError
    end).

(** The routines above with the inversion in binary64 arithmetic. *)
Definition float_externals : Externals :=
  mkExternals qsqrt qexp qlog interp_conserve_c scipy_nnls np_lstsq
              float_inverse np_interp np_argsort zscale template_add.

End Reference.

(** ** Auxiliary notions used in the statements *)

(** The amplitude of the flat model that the last masking criterion
    compares with its maximum. *)
Definition elec_of (E : StackedSpectrum.t) : result vec :=
  if StackedSpectrum.is_flambda E
  then rbind (bzip mul (StackedSpectrum.flat E) (StackedSpectrum.ivarf0 E)) (fun fi =>
       rbind (vmax (StackedSpectrum.ivarf0 E)) (fun imax =>
         Ok (map (fun x => x / imax) fi)))
  else Ok (StackedSpectrum.flat E).

(** The value of a call that returns; a call that raises has none, and
    [d] stands in for it. *)
Definition value_or {A} (d : A) (r : result A) : A :=
  match r with Ok a => a | Raise _ => d end.

Definition no_fitter : StackFitter.t :=
  StackFitter.mk 0 [] 0 [] [] [] [] [] 0 [] [].

(** Structural comparison of arrays and results, for stating the outcome
    of a run. *)
Fixpoint same_vec (u v : vec) : bool :=
  match u, v with
  | [], [] => true
  | x :: u', y :: v' => same x y && same_vec u' v'
  | _, _ => false
  end.

Fixpoint same_mat (a b : mat) : bool :=
  match a, b with
  | [], [] => true
  | r :: a', s :: b' => same_vec r s && same_mat a' b'
  | _, _ => false
  end.

(** A decimal-free literal [a/b]. *)
Definition frac (a : Z) (b : positive) : num := Fin (qc a b).

(** ** Sample inputs *)

Module Sample.

Definition ext : Externals := Reference.externals.

Definition n (z : Z) : num := of_Z z.

(** An exposure of 2 rows and 3 columns with unit weights, wavelengths
    1, 2, 3 and a uniform 2 x 2 kernel; fluxes are already calibrated. *)
Definition exposure_a : Extension :=
  mkExtension 3 2 (n 1) (n 1) (n 1) true
    [[n 1; n 2; n 3]; [n 2; n 3; n 4]]
    [[n 1; n 1; n 1]; [n 1; n 1; n 1]]
    None
    [[n 1; n 1]; [n 1; n 1]]
    [] [].

(** The fitter of that exposure alone, with [sys_err = 0],
    [mask_min = 0.1] and [fcontam = 1]. *)
Definition fitter_a : StackFitter.t :=
  Eval vm_compute in
  value_or no_fitter (StackFitter.init ext zero (Fin (qc 1 10)) one [exposure_a]).

(** The same exposure with every weight zero: no pixel of it can be
    fitted. *)
Definition exposure_dead : Extension :=
  mkExtension 3 2 (n 1) (n 1) (n 1) true
    [[n 1; n 2; n 3]; [n 2; n 3; n 4]]
    [[n 0; n 0; n 0]; [n 0; n 0; n 0]]
    None
    [[n 1; n 1]; [n 1; n 1]]
    [] [].

(** The first exposure with a contamination of 1 in every pixel. *)
Definition exposure_c : Extension :=
  mkExtension 3 2 (n 1) (n 1) (n 1) true
    [[n 1; n 2; n 3]; [n 2; n 3; n 4]]
    [[n 1; n 1; n 1]; [n 1; n 1; n 1]]
    (Some [[n 1; n 1; n 1]; [n 1; n 1; n 1]])
    [[n 1; n 1]; [n 1; n 1]]
    [] [].

Definition fitter_c : StackFitter.t :=
  Eval vm_compute in
  value_or no_fitter
    (StackFitter.init ext zero (Fin (qc 1 10)) one [exposure_c]).

(** The first exposure with the weight of its first pixel set to zero. *)
Definition exposure_z : Extension :=
  mkExtension 3 2 (n 1) (n 1) (n 1) true
    [[n 1; n 2; n 3]; [n 2; n 3; n 4]]
    [[n 0; n 1; n 1]; [n 1; n 1; n 1]]
    None
    [[n 1; n 1]; [n 1; n 1]]
    [] [].

Definition fitter_z : StackFitter.t :=
  Eval vm_compute in
  value_or no_fitter
    (StackFitter.init ext zero (Fin (qc 1 10)) one [exposure_z]).

(** The flat spectrum as a template. *)
Definition flat_template : list (string * Spectrum) :=
  [("flat"%string, mkSpectrum [n 1; n 2; n 3] [n 1; n 1; n 1])].

(** A flat continuum over the wavelengths 0 to 10, and the same with an
    emission line near the wavelength 21, outside every exposure. *)
Definition continuum : list (string * Spectrum) :=
  [("continuum"%string, mkSpectrum [n 0; n 10] [n 1; n 1])].

Definition continuum_and_line : list (string * Spectrum) :=
  [("continuum"%string, mkSpectrum [n 0; n 10] [n 1; n 1]);
   ("line Ha"%string, mkSpectrum [n 20; n 21; n 22] [n 0; n 1; n 0])].

(** The fitter of the two exposures together. *)
Definition fitter_b : StackFitter.t :=
  Eval vm_compute in
  value_or no_fitter
    (StackFitter.init ext zero (Fin (qc 1 10)) one [exposure_dead; exposure_a]).

(** Two templates that together make up the flat spectrum. *)
Definition two_templates : list (string * Spectrum) :=
  [("blue"%string, mkSpectrum [n 1; n 2; n 3] [n 1; n 0; n 0]);
   ("red"%string, mkSpectrum [n 1; n 2; n 3] [n 0; n 0; n 1])].

(** Exposures with the wavelengths 9, 10, 11, and templates sampled at
    the wavelengths 0, 8, 16 and 24 with a flux that is linear in the
    wavelength: the bins of the exposures lie between the samples 8 and 16,
    and the templates are interpolated to their values at 9, 10 and 11. *)
Definition exposure_w : Extension :=
  mkExtension 3 2 (n 1) (n 1) (n 9) true
    [[n 1; n 2; n 3]; [n 2; n 3; n 4]]
    [[n 1; n 1; n 1]; [n 1; n 1; n 1]]
    None
    [[n 1; n 1]; [n 1; n 1]]
    [] [].

Definition fitter_w : StackFitter.t :=
  Eval vm_compute in
  value_or no_fitter (StackFitter.init ext zero (Fin (qc 1 10)) one [exposure_w]).

Definition knots : vec := [n 0; n 8; n 16; n 24].

(** The flux 1 at every wavelength. *)
Definition level : string * Spectrum :=
  ("level"%string, mkSpectrum knots [n 1; n 1; n 1; n 1]).

(** The flux 6, 1, -4 at the wavelengths 9, 10, 11. *)
Definition tilted : string * Spectrum :=
  ("tilted"%string, mkSpectrum knots [n 51; n 11; n (-29); n (-69)]).

(** A line beyond the last wavelength of the exposures. *)
Definition far_line : string * Spectrum :=
  ("line Ha"%string, mkSpectrum [n 40; n 41; n 42] [n 0; n 1; n 0]).

(** The fluxes 9, 10, 11 and 15, 14, 13 at the wavelengths 9, 10, 11. *)
Definition rising : string * Spectrum :=
  ("rising"%string, mkSpectrum knots [n 0; n 8; n 16; n 24]).

Definition falling : string * Spectrum :=
  ("falling"%string, mkSpectrum knots [n 24; n 16; n 8; n 0]).

(** The science image 4 * flat model - 0.04 + 0.04 with the weight 4, and
    the weight 0 in the first pixel. *)
Definition exposure_zw : Extension :=
  mkExtension 3 2 (n 1) (n 1) (n 9) true
    [[n 2; n 2; n 1]; [n 2; n 2; n 1]]
    [[n 0; n 4; n 4]; [n 4; n 4; n 4]]
    None
    [[n 1; n 1]; [n 1; n 1]]
    [] [].

Definition fitter_zw : StackFitter.t :=
  Eval vm_compute in
  value_or no_fitter (StackFitter.init ext zero (Fin (qc 1 10)) one [exposure_zw]).

(** An exposure without weight, and the fitter of it and [exposure_w]. *)
Definition exposure_dead_w : Extension :=
  mkExtension 3 2 (n 1) (n 1) (n 9) true
    [[n 1; n 2; n 3]; [n 2; n 3; n 4]]
    [[n 0; n 0; n 0]; [n 0; n 0; n 0]]
    None
    [[n 1; n 1]; [n 1; n 1]]
    [] [].

Definition fitter_dw : StackFitter.t :=
  Eval vm_compute in
  value_or no_fitter
    (StackFitter.init ext zero (Fin (qc 1 10)) one [exposure_dead_w; exposure_w]).

(** An exposure of negative fluxes, fitted with [mask_min = 0.6]: the
    pixels of the last column, where the flat model is 1/4, are not in the
    fit mask. *)
Definition exposure_neg : Extension :=
  mkExtension 3 2 (n 1) (n 1) (n 9) true
    [[n (-1); n (-1); n (-1)]; [n (-1); n (-1); n (-1)]]
    [[n 1; n 1; n 1]; [n 1; n 1; n 1]]
    None
    [[n 1; n 1]; [n 1; n 1]]
    [] [].

Definition fitter_n : StackFitter.t :=
  Eval vm_compute in
  value_or no_fitter
    (StackFitter.init ext zero (Fin (qc 6 10)) one [exposure_neg]).

(** The same fluxes with the weights 4, 9 and 1 in the three columns: the
    relative amplitude of the last column, 1/36, is below
    [mask_min = 0.1]. *)
Definition exposure_u : Extension :=
  mkExtension 3 2 (n 1) (n 1) (n 9) true
    [[n (-1); n (-1); n (-1)]; [n (-1); n (-1); n (-1)]]
    [[n 4; n 9; n 1]; [n 4; n 9; n 1]]
    None
    [[n 1; n 1]; [n 1; n 1]]
    [] [].

Definition fitter_u : StackFitter.t :=
  Eval vm_compute in
  value_or no_fitter
    (StackFitter.init ext zero (Fin (qc 1 10)) one [exposure_u]).

End Sample.

(** Further sample values, computed from the inputs above. *)
Module SampleRuns.

Import Sample.

Definition no_spectrum : StackedSpectrum.t :=
  StackedSpectrum.mk zero zero zero (0%nat, 0%nat) [] true [] [] 0 [] [] [] [] []
    [] zero [] [] [] [] [] [] None [] 0.

(** The spectrum of [exposure_a] and the history of its fit mask. *)
Definition traced_a : StackedSpectrum.t * list (list bool) :=
  Eval vm_compute in
  value_or (no_spectrum, [])
    (StackedSpectrum.init_traced ext zero (frac 1 10) (of_Z (-1)) one exposure_a).

Definition spectrum_a : StackedSpectrum.t := Eval vm_compute in fst traced_a.

(** The flat model of [spectrum_a] as a 2 x 3 image, and its extraction. *)
Definition flat_image_a : mat :=
  Eval vm_compute in
  value_or [] (reshape 2 3 (StackedSpectrum.flat spectrum_a)).

Definition extraction_a : vec * vec :=
  Eval vm_compute in
  value_or ([], [])
    (eval (StackedSpectrum.optimal_extract ext flat_image_a) spectrum_a).

Definition no_fit : FitResult := mkFitResult NaN [] [] [] [].

(** The fit of the contaminated exposure with no template, and the
    inverse variance of its pixels without the contamination weight. *)
Definition fit_c : FitResult :=
  Eval vm_compute in
  value_or no_fit (eval (StackFitter.fit_at_z ext zero [] "nnls" false) fitter_c).

Definition floor_ivar_c : vec :=
  Eval vm_compute in
  value_or []
    (bzip (StackedSpectrum.floor_ivar zero) (flatten (WHT exposure_c))
          (flatten (SCI exposure_c))).

(** The fit of [exposure_z] with the flat template. *)
Definition fit_z : FitResult :=
  Eval vm_compute in
  value_or no_fit
    (eval (StackFitter.fit_at_z ext zero flat_template "nnls" false) fitter_z).

(** The coarse scan and the refinement of [fitter_a] over
    1.7 <= z <= 1.75 with the step 0.02, and the whole grid search over
    9 <= z <= 10 with the step 0.1. *)
Definition no_round : Round := mkRound 0 NaN NaN [] [].

Definition zoom_a : ZGrid.Zoom :=
  Eval vm_compute in
    value_or (ZGrid.mkZoom [] [] [] [] [])
      (eval (ZGrid.zoom ext (frac 2 100) (frac 17 10, frac 175 100) "nnls" None
               continuum)
            fitter_a).

Definition zfit_a : ZFit :=
  Eval vm_compute in
    value_or (mkZFit [] [] None [] no_fit)
      (eval (ZGrid.fit_zgrid ext (HInt 1) (HNum zero) (HNum zero) (frac 1 10)
               (of_Z 9, of_Z 10) "nnls" None continuum continuum_and_line)
            fitter_a).

Definition design_a : mat :=
  Eval vm_compute in
  value_or [] (eval (StackFitter.design_matrix ext zero two_templates) fitter_a).

Definition cols_a : mat :=
  Eval vm_compute in
  StackFitter.AxT_cols
    (StackFitter.whitened design_a
       (StackFitter.oktemp_of design_a (StackFitter.fit_mask fitter_a))
       (StackFitter.sivarf fitter_a))
    (StackFitter.fit_mask fitter_a).

Definition coeffs_a : vec :=
  Eval vm_compute in
  value_or []
    (StackFitter.solver ext "nnls" cols_a
       (StackFitter.whitened_data (StackFitter.scif fitter_a)
          (StackFitter.sivarf fitter_a) (StackFitter.fit_mask fitter_a))).

(** The design matrix of [fitter_w] for a template that is retained, a
    template whose row adds up to zero and a template outside the
    exposure. *)
Definition design_w : mat :=
  Eval vm_compute in
  value_or []
    (eval (StackFitter.design_matrix ext zero [level; tilted; far_line]) fitter_w).

(** The fit of [fitter_zw] with the level template. *)
Definition design_zw : mat :=
  Eval vm_compute in
  value_or [] (eval (StackFitter.design_matrix ext zero [level]) fitter_zw).

Definition coeffs_zw : vec :=
  Eval vm_compute in
  value_or []
    (StackFitter.solver ext "nnls"
       (StackFitter.AxT_cols
          (StackFitter.whitened design_zw
             (StackFitter.oktemp_of design_zw (StackFitter.fit_mask fitter_zw))
             (StackFitter.sivarf fitter_zw))
          (StackFitter.fit_mask fitter_zw))
       (StackFitter.whitened_data (StackFitter.scif fitter_zw)
          (StackFitter.sivarf fitter_zw) (StackFitter.fit_mask fitter_zw))).

Definition fit_zw : FitResult :=
  Eval vm_compute in
  value_or no_fit
    (eval (StackFitter.fit_at_z ext zero [level] "nnls" false) fitter_zw).

(** The design matrix of [fitter_dw] for the level template, and the
    coefficients of its two retained rows. *)
Definition design_dw : mat :=
  Eval vm_compute in
  value_or [] (eval (StackFitter.design_matrix ext zero [level]) fitter_dw).

Definition coeffs_dw : vec :=
  Eval vm_compute in
  value_or []
    (StackFitter.solver ext "nnls"
       (StackFitter.AxT_cols
          (StackFitter.whitened design_dw
             (StackFitter.oktemp_of design_dw (StackFitter.fit_mask fitter_dw))
             (StackFitter.sivarf fitter_dw))
          (StackFitter.fit_mask fitter_dw))
       (StackFitter.whitened_data (StackFitter.scif fitter_dw)
          (StackFitter.sivarf fitter_dw) (StackFitter.fit_mask fitter_dw))).

(** The fit of [fitter_n] with the level template: on the pixels of the
    fit mask the row of the template is half the background row. *)
Definition design_n : mat :=
  Eval vm_compute in
  value_or [] (eval (StackFitter.design_matrix ext zero [level]) fitter_n).

Definition cols_n : mat :=
  Eval vm_compute in
  StackFitter.AxT_cols
    (StackFitter.whitened design_n
       (StackFitter.oktemp_of design_n (StackFitter.fit_mask fitter_n))
       (StackFitter.sivarf fitter_n))
    (StackFitter.fit_mask fitter_n).

Definition coeffs_n : vec :=
  Eval vm_compute in
  value_or []
    (StackFitter.solver ext "nnls" cols_n
       (StackFitter.whitened_data (StackFitter.scif fitter_n)
          (StackFitter.sivarf fitter_n) (StackFitter.fit_mask fitter_n))).

(** The fit of [fitter_u] with the rising and the falling template, whose
    rows add up to 12 times the background row on the pixels of the fit
    mask, with the inversion in binary64 arithmetic. *)
Definition design_u : mat :=
  Eval vm_compute in
  value_or [] (eval (StackFitter.design_matrix ext zero [rising; falling]) fitter_u).

Definition fit_u : FitResult :=
  Eval vm_compute in
  value_or no_fit
    (eval (StackFitter.fit_at_z Reference.float_externals zero [rising; falling]
             "nnls" true) fitter_u).

End SampleRuns.

(** The value of the counter [il] when the loop at lines 408-436 reaches
    the template at position [k]: the number of line templates up to and
    including that position. *)
Definition line_number (t_i : list (string * Spectrum)) (k : nat) : nat :=
  length (filter (fun nt => startswith_line (fst nt)) (firstn (S k) t_i)).

(** A 2-D array of the given shape, and one of its columns. *)
Definition shaped (rows cols : nat) (m : mat) : Prop :=
  length m = rows /\ Forall (fun r => length r = cols) m.

Definition column (j : nat) (m : mat) : vec := map (fun row => nth j row NaN) m.

(** C6 as the specification words it: extracting the flat model returns 1
    in every column that is not zero-filled. *)
Definition extract_flat_is_one (ext : Externals) (E : StackedSpectrum.t) : Prop :=
  forall data flux rms nsum dsum,
    reshape (fst (StackedSpectrum.sh E)) (snd (StackedSpectrum.sh E))
            (StackedSpectrum.flat E) = Ok data ->
    eval (StackedSpectrum.optimal_extract ext data) E = Ok (flux, rms) ->
    StackedSpectrum.weighted_sums (StackedSpectrum.sh E)
      (map (fun row => vdiv row (sum_axis0 (snd (StackedSpectrum.sh E)) data)) data)
      data (StackedSpectrum.ivar E) = Ok (nsum, dsum) ->
    forall j, (j < snd (StackedSpectrum.sh E))%nat ->
              nth j (StackedSpectrum.clipped dsum) true = false ->
              eqb (nth j flux NaN) one = true.

(** The weight of the pixels of one exposure (the fourth component of
    [contamination]). *)
Definition exposure_weight (ext : Externals) (fcontam : num) (h : Extension)
           (w : vec) : Prop :=
  exists c wt cf, StackedSpectrum.contamination ext fcontam h = Ok (c, wt, cf, w).

(** The inverse variance of the pixels of one exposure as the
    specification defines it: [1/(1/ivar_raw + (sys_err*flux)^2)]. *)
Definition exposure_ivar (sys_err : num) (h : Extension) (iv : vec) : Prop :=
  bzip (StackedSpectrum.floor_ivar sys_err) (flatten (WHT h)) (flatten (SCI h))
  = Ok iv.

(** The sum of [resid^2 * ivar] over the pixels of the mask. *)
Definition masked_chi2 (sci model bg ivar : vec) (mask : list bool) : num :=
  vsum (vmul (vsqr (select (vsub (vsub sci model) bg) mask)) (select ivar mask)).

(** C2 as the specification words it: the chi-squared is the masked sum
    with the inverse variance [1/(1/ivar_raw + (sys_err*flux)^2)]. *)
Definition chi2_with_floor_ivar (ext : Externals) (sys_err : num)
           (exts : list Extension) (F : StackFitter.t) (z : num)
           (T : list (string * Spectrum)) (fitter : string) (gu : bool) : Prop :=
  forall r ivs,
    eval (StackFitter.fit_at_z ext z T fitter gu) F = Ok r ->
    Forall2 (exposure_ivar sys_err) exts ivs ->
    chi2 r = masked_chi2 (StackFitter.scif F) (full r) (background r)
                         (concat ivs) (StackFitter.fit_mask F).

(** C3 as the specification words it: the full model is the combination of
    the template coefficients with the retained template rows of the design
    matrix, and the background is the combination of the background
    coefficients with the indicator rows, less the pedestal. *)
Definition model_is_combination (ext : Externals) (F : StackFitter.t) (z : num)
           (T : list (string * Spectrum)) (fitter : string) (gu : bool) : Prop :=
  forall A r coeffs,
    eval (StackFitter.design_matrix ext z T) F = Ok A ->
    eval (StackFitter.fit_at_z ext z T fitter gu) F = Ok r ->
    let fm := StackFitter.fit_mask F in
    let sv := StackFitter.sivarf F in
    let ok := StackFitter.oktemp_of A fm in
    StackFitter.solver ext fitter
      (StackFitter.AxT_cols (StackFitter.whitened A ok sv) fm)
      (StackFitter.whitened_data (StackFitter.scif F) sv fm) = Ok coeffs ->
    full r = lincomb (StackFitter.Ndata F) (from (StackFitter.Next F) coeffs)
               (select (from (StackFitter.Next F) A) (from (StackFitter.Next F) ok))
    /\ background r
       = map (fun b => b - pedestal)
             (lincomb (StackFitter.Ndata F) (upto (StackFitter.Next F) coeffs)
                      (StackFitter.Abg F)).

(** One refinement round [r] with the value [iter] of the loop variable,
    run after a grid [prev_zi] with chi-squared values [prev_ci]. *)
Definition round_spec (ext : Externals) (F : StackFitter.t) (dz0 : num)
           (fitter : string) (prior : ZGrid.prior_t)
           (tc : list (string * Spectrum)) (prev_zi prev_ci : vec) (iter : Z)
           (r : Round) : Prop :=
  exists cp iz,
    ZGrid.with_prior ext prior prev_zi prev_ci = Ok cp /\
    argmin cp = Ok iz /\
    index prev_zi iz = Ok (round_z0 r) /\
    round_iter r = iter /\
    round_dz r = dz0 / npow (frac 202 100) (Z.to_nat iter) /\
    log_zgrid ext (round_z0 r - round_dz r * of_Z 4)
              (round_z0 r + round_dz r * of_Z 4) (round_dz r)
    = Ok (round_zi r) /\
    eval (ZGrid.scan ext (round_zi r) tc fitter) F = Ok (round_ci r).

(** A sequence of rounds, each run after the grid of the one before. *)
Fixpoint rounds_spec (ext : Externals) (F : StackFitter.t) (dz0 : num)
         (fitter : string) (prior : ZGrid.prior_t)
         (tc : list (string * Spectrum)) (prev_zi prev_ci : vec)
         (iters : list Z) (rs : list Round) : Prop :=
  match iters, rs with
  | [], [] => True
  | iter :: iters', r :: rs' =>
      round_spec ext F dz0 fitter prior tc prev_zi prev_ci iter r /\
      rounds_spec ext F dz0 fitter prior tc (round_zi r) (round_ci r) iters' rs'
  | _, _ => False
  end.

(** The state of the loop after the rounds [rs], started in [st]. *)
Definition after_rounds (st : ZGrid.Zoom) (rs : list Round) : ZGrid.Zoom :=
  ZGrid.mkZoom (ZGrid.acc_z st ++ concat (map round_zi rs))
               (ZGrid.acc_chi2 st ++ concat (map round_ci rs))
               (last (map round_zi rs) (ZGrid.cur_zi st))
               (last (map round_ci rs) (ZGrid.cur_ci st))
               (ZGrid.rounds st ++ rs).

(** The clause of C8 on the sizes of the grids: every refinement grid has
    as many points as any other. *)
Definition same_point_count (ext : Externals) (F : StackFitter.t) (dz0 : num)
           (zr : num * num) (fitter : string) (prior : ZGrid.prior_t)
           (tc : list (string * Spectrum)) : Prop :=
  forall zm r1 r2,
    eval (ZGrid.zoom ext dz0 zr fitter prior tc) F = Ok zm ->
    In r1 (ZGrid.rounds zm) -> In r2 (ZGrid.rounds zm) ->
    length (round_zi r1) = length (round_zi r2).

(** The optimal extraction down one column: [fcol] holds the flat model
    and [icol] the inverse variances of the column, the profile [pcol] is
    the flat model divided by [Fj], and [ncol] and [dcol] are the terms of
    [num] and [den]. *)
Definition pcol (Fj : num) (fcol : vec) : vec := map (fun a => a / Fj) fcol.
Definition ncol (Fj : num) (fcol icol : vec) : vec :=
  map2 mul (map2 mul (pcol Fj fcol) fcol) icol.
Definition dcol (Fj : num) (fcol icol : vec) : vec :=
  map2 mul (map sqr (pcol Fj fcol)) icol.

(** The drop rule as the specification words it: row [i] of the design
    matrix is left out of the solve exactly when all its entries on the
    pixels of the fit mask are zero. *)
Definition zero_on_mask (row : vec) (fit_mask : list bool) : Prop :=
  Forall (fun x => eqb x zero = true) (select row fit_mask).

Definition dropped_iff_zero_on_mask (ext : Externals) (F : StackFitter.t)
           (z : num) (T : list (string * Spectrum)) : Prop :=
  forall A i row,
    eval (StackFitter.design_matrix ext z T) F = Ok A ->
    nth_error A i = Some row ->
    (nth_error (StackFitter.oktemp_of A (StackFitter.fit_mask F)) i = Some false
     <-> zero_on_mask row (StackFitter.fit_mask F)).

(** A matrix without an inverse: the elimination in exact arithmetic
    finds a column without a pivot. *)
Definition singular (m : mat) : Prop :=
  Reference.matrix_I m = Raise LinAlgError.

(** C5 as the specification words it: when the matrix of the normal
    equations is singular, the call that asks for uncertainties returns,
    and its uncertainties are all zero. *)
Definition singular_is_absorbed (ext : Externals) (F : StackFitter.t)
           (z : num) (T : list (string * Spectrum)) (fitter : string) : Prop :=
  forall A,
    eval (StackFitter.design_matrix ext z T) F = Ok A ->
    let fm := StackFitter.fit_mask F in
    let cols := StackFitter.AxT_cols
                  (StackFitter.whitened A (StackFitter.oktemp_of A fm)
                                        (StackFitter.sivarf F)) fm in
    singular (matmul_cols cols cols) ->
    exists r,
      eval (StackFitter.fit_at_z ext z T fitter true) F = Ok r /\
      full_coeffs_err r = zeros (length T).

(** * The parts of the module around the fitting engine *)

(** ** Further notions used in the statements *)

(** [v[sl]] for one of the slices that [_get_slices] builds. *)
Definition get_slice {A} (v : list A) (sl : nat * nat) : list A :=
  firstn (snd sl - fst sl) (skipn (fst sl) v).

(** The number of pixels of a list of exposures. *)
Definition total_size (Es : list StackedSpectrum.t) : nat :=
  list_sum (map StackedSpectrum.size Es).

(** An extension as a FITS file holds it: the images have the shape
    [(NAXIS2, NAXIS1)] that the header gives. *)
Definition consistent (h : Extension) : Prop :=
  shaped (NAXIS2 h) (NAXIS1 h) (SCI h) /\
  shaped (NAXIS2 h) (NAXIS1 h) (WHT h) /\
  match CONTAM h with
  | Some c => shaped (NAXIS2 h) (NAXIS1 h) c
  | None => True
  end.

(** Lines 454-463 of [fit_zgrid]: the MODEL and BACKGROUND images of
    exposure [i], cut from the arrays of the fit at the best redshift. *)
Definition image_pair (F : StackFitter.t) (fullz bgz : vec) (i : nat)
  : result (mat * mat) :=
  rbind (index (StackFitter.E F) i) (fun Ei =>
  rbind (index (StackFitter.slices F) i) (fun sl =>
  let shp := StackedSpectrum.sh Ei in
  rbind (reshape (fst shp) (snd shp) (get_slice fullz sl)) (fun model_i =>
  rbind (index (StackFitter.slices F) i) (fun sl' =>
  rbind (reshape (fst shp) (snd shp) (get_slice bgz sl')) (fun bg_i =>
    Ok (model_i, bg_i)))))).

Definition result_images (F : StackFitter.t) (fullz bgz : vec)
  : result (list (mat * mat)) :=
  rfold (fun acc i =>
           rbind (image_pair F fullz bgz i) (fun p => Ok (acc ++ [p])))
        (seq 0 (StackFitter.Next F)) [].

(** The test of line 224 for one exposure: the redshifted template begins
    after the last wavelength of the exposure or ends before its first. *)
Definition misses (z : num) (ti : Spectrum) (Ej : StackedSpectrum.t) : Prop :=
  exists s_first s_last wmax wmin,
    index (map (fun w => w * (one + z)) (wave_of ti)) 0 = Ok s_first /\
    index (rev (map (fun w => w * (one + z)) (wave_of ti))) 0 = Ok s_last /\
    vmax (StackedSpectrum.wave Ej) = Ok wmax /\
    vmin (StackedSpectrum.wave Ej) = Ok wmin /\
    gtb s_first wmax || ltb s_last wmin = true.

(** The array [data] of [_build_model]: [NX] planes of [NY] rows and [NX]
    columns. *)
Definition cube (NX NY : nat) (data : list mat) : Prop :=
  length data = NX /\ Forall (shaped NY NX) data.

(** [s.replace(old, new)] for a non-empty [old]: the occurrences of [old]
    are replaced from left to right, without overlap.  [skip] counts the
    characters of an occurrence that are still to be passed over. *)
Fixpoint replace_from (old new : string) (skip : nat) (s : string) : string :=
  match s with
  | EmptyString => EmptyString
  | String c s' =>
      match skip with
      | S k => replace_from old new k s'
      | O =>
          if prefix old s
          then (new ++ replace_from old new (String.length old - 1) s')%string
          else String c (replace_from old new 0 s')
      end
  end.

Definition str_replace (old new s : string) : string := replace_from old new 0 s.

(** [old in s] *)
Fixpoint contains (old s : string) : bool :=
  prefix old s ||
  match s with
  | EmptyString => false
  | String _ s' => contains old s'
  end.

(** The files that [fit_zgrid] touches: the content of each path that
    exists. *)
Definition FileSystem (C : Type) : Type := string -> option C.

Definition fs_remove {C} (fs : FileSystem C) (path : string) : FileSystem C :=
  fun p => if String.eqb p path then None else fs p.

Definition fs_write {C} (fs : FileSystem C) (path : string) (c : C)
  : FileSystem C :=
  fun p => if String.eqb p path then Some c else fs p.

(** Line 438 *)
Definition table_path (file : string) : string :=
  str_replace ".fits" ".zfit.full.fits" file.

(** Lines 438-442: the path of the table, the removal of a file that
    is in the way, and the writing of the table.  [t.write] is astropy's:
    it finds the format of the file from its path and raises when it
    finds none; [identified] tells the paths for which it finds one. *)
Definition write_table {C} (identified : string -> bool) (file : string)
           (table : C) : M (FileSystem C) unit :=
  fun fs =>
    let tfile := table_path file in
    let fs1 := match fs tfile with
               | Some _ => fs_remove fs tfile
               | None => fs
               end in
    if identified tfile then (Ok tt, fs_write fs1 tfile table)
    else (Raise IORegistryError, fs1).

(** The kernel centred on column [j] of an image, for a kernel of [2 h]
    columns: the value at row [y], column [x]. *)
Definition banded (h : nat) (kern : mat) (j y x : nat) : num :=
  if (j <=? x + h)%nat && (x <? j + h)%nat
  then nth (x + h - j) (nth y kern []) NaN
  else zero.

(** The rows [rows] placed in an image after [a] columns of zeros and
    before [c] columns of zeros. *)
Definition embed (a c : nat) (rows : mat) : mat :=
  map (fun r => zeros a ++ r ++ zeros c) rows.

(** Further sample inputs and the values computed from them. *)
Module Cases.

Import Sample SampleRuns.

(** The first exposure with a science pixel that is not a number. *)
Definition exposure_nan : Extension :=
  mkExtension 3 2 (n 1) (n 1) (n 1) true
    [[NaN; n 2; n 3]; [n 2; n 3; n 4]]
    [[n 1; n 1; n 1]; [n 1; n 1; n 1]]
    None
    [[n 1; n 1]; [n 1; n 1]]
    [] [].

(** The spectra of [exposure_z] and of [exposure_dead]. *)
Definition spectrum_z : StackedSpectrum.t :=
  Eval vm_compute in
  value_or no_spectrum
    (StackedSpectrum.init ext zero (frac 1 10) (of_Z (-1)) one exposure_z).

Definition spectrum_dead : StackedSpectrum.t :=
  Eval vm_compute in
  value_or no_spectrum
    (StackedSpectrum.init ext zero (frac 1 10) (of_Z (-1)) one exposure_dead).

(** The fit of [fitter_a] with a continuum and a line that lies outside
    the exposure, and its fit with the two templates. *)
Definition fit_line : FitResult :=
  Eval vm_compute in
  value_or no_fit
    (eval (StackFitter.fit_at_z ext zero continuum_and_line "nnls" false) fitter_a).

Definition fit_two : FitResult :=
  Eval vm_compute in
  value_or no_fit
    (eval (StackFitter.fit_at_z ext zero two_templates "nnls" false) fitter_a).

(** A template without samples. *)
Definition empty_template : list (string * Spectrum) :=
  [("empty"%string, mkSpectrum [] [])].

(** An exposure of three rows with a kernel of three rows and columns. *)
Definition exposure_odd : Extension :=
  mkExtension 3 3 (n 1) (n 1) (n 1) true
    [[n 1; n 2; n 3]; [n 2; n 3; n 4]; [n 1; n 2; n 3]]
    [[n 1; n 1; n 1]; [n 1; n 1; n 1]; [n 1; n 1; n 1]]
    None
    [[n 1; n 1; n 1]; [n 1; n 1; n 1]; [n 1; n 1; n 1]]
    [] [].

(** The normalized kernel of the sample exposures. *)
Definition quarter_kernel : mat :=
  [[frac 1 4; frac 1 4]; [frac 1 4; frac 1 4]].

End Cases.

(** The sum [sum_j fl[j] * b j] over the wavelength pixels [j < NX], in the
    order in which [np.dot] is embedded. *)
Definition weighted_sum (NX : nat) (fl : vec) (b : nat -> num) : num :=
  fold_right (fun j acc => nth j fl NaN * b j + acc) zero (seq 0 NX).

(** The spectrum that [compute_model] spreads over the image: the flat
    spectrum, or the interpolation of the spectrum that it is given. *)
Definition model_spectrum (ext : Externals) (w : vec) (s : option Spectrum) : vec :=
  match s with
  | None => map (fun x => x * zero + one) w
  | Some s => interp_conserve_c ext w (wave_of s) (flux_of s)
  end.

(** ** make_templates *)

(** The outcome of a call that may raise an exception of a class that the
    fitting engine does not raise; the exception is named by its class. *)
Inductive outcome (A : Type) : Type :=
| Returns (a : A)
| Raises (cls : string).

Arguments Returns {A} a.
Arguments Raises {A} cls.

Module Templates.

(** The names that the top level of the module binds (lines 4-8, 10, 63
    and 606). *)
Definition module_names : list string :=
  ["OrderedDict"; "reload"; "pyfits"; "np"; "make_templates"; "StackFitter";
   "StackedSpectrum"]%string.

(** Reading a name that the body of a function does not bind: the names
    of the module, then the built-in names. *)
Definition read_global (builtins : list string) (name : string) : outcome unit :=
  if existsb (String.eqb name) (module_names ++ builtins)
  then Returns tt
  else Raises "NameError".

(** Lines 35-44. *)
Definition fwhm_of (grism : string) : Z :=
  if String.eqb grism "G141" then 1100
  else if String.eqb grism "G800L" then 1400
  else if String.eqb grism "G280" then 1500
  else if String.eqb grism "GRISM" then 350
  else 700.

Definition line_list : list string :=
  ["SIII"; "SII"; "Ha"; "OI-6302"; "OIII"; "Hb"; "OIII-4363"; "Hg"; "Hd";
   "NeIII"; "OII"; "MgII"]%string.

Section Body.

(** The template lists that [load_templates] returns. *)
Variable TemplateList : Type.

(** The import of line 33, which raises or binds the local name
    [Multibeam]; the built-in names; and the function that line 47 means to
    call. *)
Variable import_Multibeam : outcome unit.
Variable builtins : list string.
Variable load_templates : Z -> bool -> option (list string) -> TemplateList.

(** [make_templates]: the pair of lists when [return_lists] is set, and
    nothing after the lists are saved otherwise. *)
Definition make_templates (grism : string) (return_lists : bool)
  : outcome (option (TemplateList * TemplateList)) :=
  match import_Multibeam with
  | Raises cls => Raises cls
  | Returns _ =>
      let fwhm := fwhm_of grism in
      match read_global builtins "MultiBeam" with
      | Raises cls => Raises cls
      | Returns _ =>
          let t_complexes := load_templates fwhm true None in
          match read_global builtins "MultiBeam" with
          | Raises cls => Raises cls
          | Returns _ =>
              let t_lines := load_templates fwhm false (Some line_list) in
              if return_lists then Returns (Some (t_complexes, t_lines))
              else Returns None
          end
      end
  end.

End Body.

End Templates.

(** * Properties *)

(** ** Computations that leave the object unchanged *)

Definition readonly {S A} (m : M S A) : Prop := forall s, exec m s = s.

Lemma readonly_run {S A} (m : M S A) :
  readonly m -> forall s, m s = (eval m s, s).
Proof.
  intros H s. specialize (H s). unfold exec, eval in *.
  destruct (m s) as [r s']. simpl in *. now subst.
Qed.

Lemma readonly_ret {S A} (a : A) : readonly (@ret S A a).
Proof. intro s. reflexivity. Qed.

Lemma readonly_raise {S A} (e : exn) : readonly (@raise S A e).
Proof. intro s. reflexivity. Qed.

Lemma readonly_gets {S A} (f : S -> A) : readonly (gets f).
Proof. intro s. reflexivity. Qed.

Lemma readonly_lift {S A} (r : result A) : readonly (@lift S A r).
Proof. intro s. reflexivity. Qed.

Lemma readonly_bind {S A B} (m : M S A) (k : A -> M S B) :
  readonly m -> (forall a, readonly (k a)) -> readonly (bind m k).
Proof.
  intros Hm Hk s. unfold exec, bind. rewrite (readonly_run Hm s).
  destruct (eval m s) as [a|e]; simpl; [apply Hk | reflexivity].
Qed.

Lemma eval_bind {S A B} (m : M S A) (k : A -> M S B) (s : S) :
  readonly m ->
  eval (bind m k) s = rbind (eval m s) (fun a => eval (k a) s).
Proof.
  intros Hm. unfold eval at 1, bind. rewrite (readonly_run Hm s).
  destruct (eval m s); reflexivity.
Qed.

Lemma eval_gets {S A} (f : S -> A) (s : S) : eval (gets f) s = Ok (f s).
Proof. reflexivity. Qed.

Lemma eval_lift {S A} (r : result A) (s : S) : eval (lift r) s = r.
Proof. reflexivity. Qed.

Lemma eval_ret {S A} (a : A) (s : S) : eval (ret a) s = Ok a.
Proof. reflexivity. Qed.

Lemma readonly_mapM {S A B} (f : A -> M S B) (l : list A) :
  (forall a, readonly (f a)) -> readonly (mapM f l).
Proof.
  intros Hf. induction l as [|a l IH]; simpl.
  - apply readonly_ret.
  - apply readonly_bind; [apply Hf|]. intros b.
    apply readonly_bind; [exact IH|]. intros bs. apply readonly_ret.
Qed.

Lemma readonly_foldM {S A B} (f : B -> A -> M S B) (l : list A) :
  (forall b a, readonly (f b a)) -> forall b, readonly (foldM f l b).
Proof.
  intros Hf. induction l as [|a l IH]; intros b; simpl.
  - apply readonly_ret.
  - apply readonly_bind; [apply Hf | intros b'; apply IH].
Qed.

Lemma readonly_if {S A} (c : bool) (m1 m2 : M S A) :
  readonly m1 -> readonly m2 -> readonly (if c then m1 else m2).
Proof. destruct c; auto. Qed.

Create HintDb frame.
#[export] Hint Resolve readonly_ret readonly_raise readonly_gets readonly_lift
  readonly_mapM readonly_foldM readonly_if : frame.

Ltac frame :=
  repeat lazymatch goal with
         | |- readonly (bind _ _) => apply readonly_bind; [ | intros ? ]
         | |- readonly (mapM _ _) => apply readonly_mapM; intros ?
         | |- readonly (foldM _ _ _) => apply readonly_foldM; intros ? ?
         | |- readonly (if _ then _ else _) => apply readonly_if
         | |- readonly (ret _) => apply readonly_ret
         | |- readonly (raise _) => apply readonly_raise
         | |- readonly (gets _) => apply readonly_gets
         | |- readonly (lift _) => apply readonly_lift
         end.

Lemma update_same {A} (l : list A) (i : nat) (x : A) :
  nth_error l i = Some x -> update l i x = l.
Proof.
  revert i. induction l as [|y l IH]; intros [|i] H; simpl in *;
    try discriminate; try reflexivity.
  - now inversion H.
  - f_equal. now apply IH.
Qed.

Lemma set_E_same (F : StackFitter.t) : StackFitter.set_E F (StackFitter.E F) = F.
Proof. destruct F; reflexivity. Qed.

Lemma readonly_on_E {A} (j : nat) (m : M StackedSpectrum.t A) :
  readonly m -> readonly (StackFitter.on_E j m).
Proof.
  intros Hm F. unfold exec, StackFitter.on_E.
  destruct (nth_error (StackFitter.E F) j) as [Ej|] eqn:HE; [|reflexivity].
  rewrite (readonly_run Hm Ej). simpl.
  rewrite (update_same _ _ HE). apply set_E_same.
Qed.

#[export] Hint Resolve readonly_on_E : frame.

Section Frames.

Variable ext : Externals.

Lemma compute_model_readonly (s : option Spectrum) :
  readonly (StackedSpectrum.compute_model ext s).
Proof. unfold StackedSpectrum.compute_model. frame. Qed.

Lemma optimal_extract_readonly (data : mat) :
  readonly (StackedSpectrum.optimal_extract ext data).
Proof. unfold StackedSpectrum.optimal_extract. frame. Qed.

Lemma template_row_readonly (z : num) (ti : Spectrum) :
  readonly (StackFitter.template_row ext z ti).
Proof.
  unfold StackFitter.template_row. frame.
  all: apply readonly_on_E; first [apply compute_model_readonly | frame].
Qed.

Lemma design_matrix_readonly (z : num) (T : list (string * Spectrum)) :
  readonly (StackFitter.design_matrix ext z T).
Proof.
  unfold StackFitter.design_matrix. frame. apply template_row_readonly.
Qed.

Lemma fit_at_z_readonly z T fitter gu :
  readonly (StackFitter.fit_at_z ext z T fitter gu).
Proof.
  unfold StackFitter.fit_at_z. frame. apply design_matrix_readonly.
Qed.

(** The value of [fit_at_z] in terms of the design matrix and of the
    attributes of the fitter. *)
Lemma fit_at_z_eval z T fitter gu (F : StackFitter.t) :
  eval (StackFitter.fit_at_z ext z T fitter gu) F =
  rbind (eval (StackFitter.design_matrix ext z T) F) (fun A =>
    StackFitter.fit_design ext (StackFitter.Next F) (StackFitter.Ndata F)
      (StackFitter.scif F) (StackFitter.ivarf F) (StackFitter.sivarf F)
      (StackFitter.fit_mask F) A (length T) fitter gu).
Proof.
  unfold StackFitter.fit_at_z.
  rewrite eval_bind by apply design_matrix_readonly.
  destruct (eval (StackFitter.design_matrix ext z T) F); reflexivity.
Qed.

End Frames.

(** ** Boolean masks *)

Lemma mask_and_nth (a b : list bool) (p : nat) :
  nth p (mask_and a b) false = true ->
  nth p a false = true /\ nth p b false = true.
Proof.
  unfold mask_and. revert b p.
  induction a as [|x a IH]; intros [|y b] [|p]; simpl; try discriminate.
  - intros H. now apply andb_true_iff in H.
  - apply IH.
Qed.

Lemma count_true_cons (b : bool) (m : list bool) :
  count_true (b :: m) = ((if b then 1 else 0) + count_true m)%nat.
Proof. unfold count_true. simpl. destruct b; reflexivity. Qed.

Lemma count_true_mask_and (a b : list bool) :
  (count_true (mask_and a b) <= count_true a)%nat.
Proof.
  unfold mask_and. revert b.
  induction a as [|x a IH]; intros [|y b]; simpl; try (unfold count_true; simpl; lia).
  rewrite !count_true_cons. specialize (IH b). destruct x, y; simpl; lia.
Qed.

Lemma iand_ok (dest rhs m : list bool) :
  iand dest rhs = Ok m ->
  exists c, bcast (length dest) rhs = Ok c /\ m = mask_and dest c.
Proof.
  unfold iand. destruct (bcast (length dest) rhs) as [c|e]; simpl; [|discriminate].
  intros H. inversion H. now exists c.
Qed.

(** Evaluating a conjunction of closed equations. *)
Ltac vm_conj :=
  repeat lazymatch goal with |- _ /\ _ => split end; vm_compute; reflexivity.

(** Peeling a successful sequence of calls. *)
Ltac rdestruct H :=
  repeat match type of H with
         | rbind ?r _ = Ok _ =>
             let x := fresh "x" in
             let E := fresh "E" in
             destruct r as [x|] eqn:E; simpl in H; [ | discriminate H ]
         | (let '(_, _) := ?p in _) = Ok _ => destruct p; simpl in H
         | (if ?c then _ else _) = Ok _ =>
             let E := fresh "E" in destruct c eqn:E; try discriminate H
         end.

(** C7.  In a constructed [StackedSpectrum] the fit mask took three values
    in turn: the pixels of positive inverse variance, those among them
    with finite science and inverse variance, and those among them whose
    flat-model amplitude exceeds [mask_min] times its maximum.  Each value
    is the conjunction of the previous one with the next criterion, so that
    every pixel of a later mask belongs to the earlier ones and the number of
    pixels never grows; the last value is the mask of the object. *)
Theorem fit_mask_narrowed (ext : Externals)
        (sys_err mask_min mask_threshold fcontam : num) (h : Extension)
        (E : StackedSpectrum.t) (hist : list (list bool)) :
  StackedSpectrum.init_traced ext sys_err mask_min mask_threshold fcontam h
    = Ok (E, hist) ->
  exists m1 m2 m3 c2 c3,
    hist = [m1; m2; m3] /\
    m1 = StackedSpectrum.mask_positive (StackedSpectrum.ivarf E) /\
    rbind (StackedSpectrum.mask_finite (StackedSpectrum.scif E) (StackedSpectrum.ivarf E))
          (bcast (length m1)) = Ok c2 /\
    m2 = mask_and m1 c2 /\
    rbind (rbind (elec_of E) (StackedSpectrum.mask_amplitude mask_min)) (bcast (length m2)) = Ok c3 /\
    m3 = mask_and m2 c3 /\
    StackedSpectrum.fit_mask E = m3 /\
    StackedSpectrum.DoF E = count_true m3 /\
    (forall p, nth p m2 false = true -> nth p m1 false = true) /\
    (forall p, nth p m3 false = true -> nth p m2 false = true) /\
    (count_true m2 <= count_true m1)%nat /\
    (count_true m3 <= count_true m2)%nat.
Proof.
  unfold StackedSpectrum.init_traced. intros H.
  rdestruct H.
  inversion H; subst; clear H.
  apply iand_ok in E3, E9.
  destruct E3 as [c2 [Hc2 ->]]. destruct E9 as [c3 [Hc3 ->]].
  eexists _, _, _, c2, c3. simpl.
  repeat split; try reflexivity.
  - rewrite E2. exact Hc2.
  - unfold elec_of. simpl.
    destruct (ISFLAM h); simpl in *;
      [ rewrite E7 | inversion E7; subst ]; simpl; rewrite E8; exact Hc3.
  - intros p Hp. now apply mask_and_nth in Hp.
  - intros p Hp. now apply mask_and_nth in Hp.
  - apply count_true_mask_and.
  - apply count_true_mask_and.
Qed.

(** ** Arithmetic of finite values *)

Lemma qc_zero : qc 0 1 = Q2Qc 0.
Proof. reflexivity. Qed.

Lemma qc_one : qc 1 1 = Q2Qc 1.
Proof. reflexivity. Qed.

Lemma mul_one_fin (q : Qc) : Fin q * one = Fin q.
Proof. unfold one. simpl. rewrite qc_one. f_equal. ring. Qed.

Lemma mul_zero_fin (q : Qc) : Fin q * zero = zero.
Proof. unfold zero. simpl. rewrite qc_zero. f_equal. ring. Qed.

Lemma eqb_zero_iff (x : num) : eqb x zero = true <-> x = zero.
Proof.
  unfold eqb, zero. destruct x as [q| | |]; simpl; try (split; discriminate).
  destruct (q ?= qc 0 1)%Qc eqn:Hc; split; intros H; try discriminate; try reflexivity.
  - f_equal. apply Qc_is_canon. now apply Qeq_alt.
  - inversion H; subst. unfold Qccompare in Hc.
    rewrite (proj1 (Qeq_alt _ _)) in Hc by reflexivity. discriminate.
  - inversion H; subst. unfold Qccompare in Hc.
    rewrite (proj1 (Qeq_alt _ _)) in Hc by reflexivity. discriminate.
Qed.

Lemma same_refl (x : num) : same x x = true.
Proof.
  destruct x; simpl; try reflexivity. apply Qeq_bool_iff. reflexivity.
Qed.

Lemma same_vec_refl (u : vec) : same_vec u u = true.
Proof.
  induction u as [|x u IH]; simpl; [reflexivity|].
  now rewrite same_refl, IH.
Qed.

Lemma Qc_add_le_self (a q : Qc) : (Q2Qc 0 <= q)%Qc -> (a <= a + q)%Qc.
Proof.
  intros H. pose proof (Qcplus_le_compat a a (Q2Qc 0) q (Qcle_refl a) H) as H'.
  now rewrite Qcplus_0_r in H'.
Qed.

Lemma Qc_add_cancel_zero (a q : Qc) : (a + q = a)%Qc -> q = Q2Qc 0.
Proof.
  intros H. assert (q = (a + q) - a)%Qc as -> by ring. rewrite H. ring.
Qed.

(** The sum of a row of finite non-negative entries over the pixels of a
    mask is finite and non-negative, and it is zero exactly when every
    entry on the mask is. *)
Lemma masked_fold_nonneg (row : vec) (fm : list bool) (a : Qc) :
  (Q2Qc 0 <= a)%Qc -> Forall nonneg row ->
  exists s, fold_left add (vmul_bool row fm) (Fin a) = Fin s /\
            (a <= s)%Qc /\
            (s = a <-> Forall (fun x => x = zero) (select row fm)).
Proof.
  revert fm a. induction row as [|x row IH]; intros fm a Ha Hrow.
  - exists a. simpl. repeat split; auto using Qcle_refl.
  - destruct fm as [|b fm].
    + exists a. simpl. repeat split; auto using Qcle_refl.
    + inversion Hrow as [|? ? Hx Hrest]; subst.
      destruct x as [q| | |]; simpl in Hx; try contradiction.
      change (vmul_bool (Fin q :: row) (b :: fm))
        with ((Fin q * of_bool b) :: vmul_bool row fm).
      cbn [fold_left].
      destruct b; cbn [of_bool select].
      * rewrite mul_one_fin. cbn [add].
        destruct (IH fm (a + q)%Qc) as [s [Hs [Hle Hiff]]]; auto.
        { eapply Qcle_trans; [exact Ha | exact (Qc_add_le_self a Hx)]. }
        exists s. split; [exact Hs|]. split.
        { eapply Qcle_trans; [exact (Qc_add_le_self a Hx) | exact Hle]. }
        split.
        { intros ->.
          assert (a + q = a)%Qc as Haq
            by (apply Qcle_antisym; [exact Hle | exact (Qc_add_le_self a Hx)]).
          constructor.
          - unfold zero. rewrite qc_zero. f_equal. eapply Qc_add_cancel_zero; eauto.
          - apply Hiff. now rewrite Haq. }
        { intros HF. inversion HF as [|? ? Hq HF']; subst.
          unfold zero in Hq. inversion Hq; subst.
          rewrite (proj2 Hiff HF'). rewrite qc_zero. ring. }
      * rewrite mul_zero_fin. unfold zero at 1. cbn [add].
        rewrite qc_zero, Qcplus_0_r. now apply IH.
Qed.

Lemma masked_sum_nonneg (row : vec) (fm : list bool) :
  Forall nonneg row ->
  (neb (vsum (vmul_bool row fm)) zero = false
   <-> Forall (fun x => x = zero) (select row fm)).
Proof.
  intros Hrow. unfold vsum, zero at 1.
  destruct (masked_fold_nonneg fm (a := qc 0 1) (Qcle_refl _) Hrow)
    as [s [Hs [_ Hiff]]].
  rewrite Hs. unfold neb. rewrite negb_false_iff, eqb_zero_iff.
  rewrite <- Hiff. unfold zero. split; intros H.
  - now inversion H.
  - now subst.
Qed.

Lemma oktemp_nth (A : mat) (fm : list bool) (i : nat) (row : vec) :
  nth_error A i = Some row ->
  nth_error (StackFitter.oktemp_of A fm) i
  = Some (neb (vsum (vmul_bool row fm)) zero).
Proof.
  intros H. unfold StackFitter.oktemp_of. now rewrite nth_error_map, H.
Qed.

(** ** The drop rule of [fit_at_z] *)

Lemma select_length {A} (u : list A) (m : list bool) :
  length u = length m -> length (select u m) = count_true m.
Proof.
  revert m. induction u as [|x u IH]; intros [|b m] H; simpl in *;
    try discriminate; try reflexivity.
  rewrite count_true_cons. destruct b; simpl; rewrite IH by lia; reflexivity.
Qed.

Lemma oktemp_length (A : mat) (fm : list bool) :
  length (StackFitter.oktemp_of A fm) = length A.
Proof. unfold StackFitter.oktemp_of. apply length_map. Qed.

Lemma Forall_forallb {A} (f : A -> bool) (l : list A) :
  Forall (fun x => f x = true) l <-> forallb f l = true.
Proof. rewrite forallb_forall, Forall_forall. reflexivity. Qed.

Lemma fitter_a_built :
  StackFitter.init Sample.ext zero (Fin (qc 1 10)) one [Sample.exposure_a]
  = Ok Sample.fitter_a.
Proof. vm_compute. reflexivity. Qed.

Lemma fitter_w_built :
  StackFitter.init Sample.ext zero (Fin (qc 1 10)) one [Sample.exposure_w]
  = Ok Sample.fitter_w.
Proof. vm_compute. reflexivity. Qed.

(** C1, as stated, fails: with the template [tilted] at z = 0 the
    template row of the design matrix of [fitter_w] is
    7/4, -3/4, -1, 7/4, -3/4, -1 on a mask that is true everywhere; none of
    its entries is zero, yet it is dropped, because they add up to zero. *)
Lemma signed_row_dropped :
  ~ dropped_iff_zero_on_mask Sample.ext Sample.fitter_w zero [Sample.tilted].
Proof.
  intros H.
  destruct (eval (StackFitter.design_matrix Sample.ext zero [Sample.tilted])
                 Sample.fitter_w) as [A|] eqn:HA;
    [ | vm_compute in HA; discriminate HA ].
  destruct (nth_error A 1) as [row|] eqn:Hrow;
    [ | vm_compute in HA; inversion HA; subst A; discriminate Hrow ].
  specialize (H A 1%nat row HA Hrow).
  vm_compute in HA. inversion HA; subst A; clear HA.
  vm_compute in Hrow. inversion Hrow; subst row; clear Hrow.
  destruct H as [H _].
  assert (Hz := H ltac:(vm_compute; reflexivity)).
  unfold zero_on_mask in Hz. apply Forall_forallb in Hz.
  vm_compute in Hz. discriminate Hz.
Qed.

Lemma tilted_design_matrix :
  match eval (StackFitter.design_matrix Sample.ext zero [Sample.tilted])
             Sample.fitter_w with
  | Ok A => same_mat A [[one; one; one; one; one; one];
                        [frac 7 4; frac (-3) 4; of_Z (-1);
                         frac 7 4; frac (-3) 4; of_Z (-1)]]
  | Raise _ => false
  end = true.
Proof. vm_compute. reflexivity. Qed.

Lemma solver_replaced (ext : Externals) (f : mat -> vec -> result vec)
      (fitter : string) :
  StackFitter.solver (with_solver ext f) fitter = f.
Proof.
  unfold StackFitter.solver. cbn [with_solver scipy_nnls np_lstsq].
  now destruct (String.eqb fitter "nnls").
Qed.

(** C1, amended.  Row [i] of the design matrix (a background row or a
    template row) is left out of the solve exactly when the sum of its
    entries times the mask is zero; for a row of finite non-negative
    entries this is exactly when all its entries on the mask are zero.
    The solve is one call of the solver, on the retained rows, whitened and
    cut to the mask, and on no other: whatever routine stands in for the
    solver, [fit_at_z] is that call followed by a computation in which the
    solver has no part. *)
Theorem drop_rule (ext : Externals) (F : StackFitter.t) (z : num)
        (T : list (string * Spectrum)) (fitter : string) (gu : bool) (A : mat) :
  eval (StackFitter.design_matrix ext z T) F = Ok A ->
  let fm := StackFitter.fit_mask F in
  let sv := StackFitter.sivarf F in
  let ok := StackFitter.oktemp_of A fm in
  let cols := map (fun r => select (vmul r sv) fm) (select A ok) in
  let data := StackFitter.whitened_data (StackFitter.scif F) sv fm in
  (forall i row,
      nth_error A i = Some row ->
      (nth_error ok i = Some false <-> eqb (vsum (vmul_bool row fm)) zero = true) /\
      (Forall nonneg row -> (nth_error ok i = Some false <-> zero_on_mask row fm))) /\
  length cols = count_true ok /\
  exists k : vec -> result FitResult,
    eval (StackFitter.fit_at_z ext z T fitter gu) F
    = rbind (StackFitter.solver ext fitter cols data) k /\
    forall f : mat -> vec -> result vec,
      eval (StackFitter.fit_at_z (with_solver ext f) z T fitter gu) F
      = rbind (f cols data) k.
Proof.
  intros HA fm sv ok cols data.
  assert (Hneb : forall b, Some (neb b zero) = Some false <-> eqb b zero = true).
  { intros b. unfold neb. split; intros H.
    - inversion H as [H']. now apply negb_false_iff in H'.
    - now rewrite H. }
  assert (Hcols : StackFitter.AxT_cols (StackFitter.whitened A ok sv) fm = cols).
  { unfold StackFitter.AxT_cols, StackFitter.whitened, cols. now rewrite map_map. }
  split; [|split].
  - intros i row Hrow. subst ok. rewrite (@oktemp_nth A fm i row Hrow).
    split; [apply Hneb|].
    intros Hnn. unfold zero_on_mask. split; intros H.
    + inversion H as [H'].
      apply (@masked_sum_nonneg row fm Hnn) in H'.
      eapply Forall_impl; [|exact H'].
      intros x Hx. now apply eqb_zero_iff.
    + f_equal. apply (@masked_sum_nonneg row fm Hnn).
      eapply Forall_impl; [|exact H].
      intros x Hx. now apply eqb_zero_iff.
  - unfold cols. rewrite length_map. apply select_length.
    symmetry. apply oktemp_length.
  - eexists. split.
    + rewrite fit_at_z_eval, HA. cbn [rbind]. unfold StackFitter.fit_design.
      fold fm sv ok. rewrite Hcols. fold data. reflexivity.
    + intros f. rewrite fit_at_z_eval.
      change (eval (StackFitter.design_matrix (with_solver ext f) z T) F)
        with (eval (StackFitter.design_matrix ext z T) F).
      rewrite HA. cbn [rbind]. unfold StackFitter.fit_design.
      fold fm sv ok. rewrite Hcols. fold data.
      rewrite solver_replaced. reflexivity.
Qed.

(** ** [fit_at_z] has no effect on the fitter *)

(** C9.  A call of [fit_at_z] hands the fitter back as it received it,
    the spectra that it owns included, whether the call returns or raises;
    a second call with the same arguments, run on the fitter that the first
    one left, gives the same outcome. *)
Theorem fit_at_z_pure (ext : Externals) (z : num) (T : list (string * Spectrum))
        (fitter : string) (gu : bool) (F : StackFitter.t) :
  let '(r1, F1) := StackFitter.fit_at_z ext z T fitter gu F in
  let '(r2, F2) := StackFitter.fit_at_z ext z T fitter gu F1 in
  F1 = F /\ StackFitter.E F1 = StackFitter.E F /\ r2 = r1 /\ F2 = F.
Proof.
  rewrite (readonly_run (fit_at_z_readonly ext z T fitter gu) F).
  rewrite (readonly_run (fit_at_z_readonly ext z T fitter gu) F).
  repeat split.
Qed.

(** ** The steps of [fit_at_z] *)

Section FitSteps.

Variable ext : Externals.

(** What a returned fit was computed from. *)
Lemma fit_design_inv Next Ndata scif ivarf sivarf fit_mask A NTEMP fitter gu r :
  StackFitter.fit_design ext Next Ndata scif ivarf sivarf fit_mask A NTEMP fitter gu
    = Ok r ->
  let ok := StackFitter.oktemp_of A fit_mask in
  let Ax := StackFitter.whitened A ok sivarf in
  let cols := StackFitter.AxT_cols Ax fit_mask in
  exists coeffs bg0,
    StackFitter.solver ext fitter cols
      (StackFitter.whitened_data scif sivarf fit_mask) = Ok coeffs /\
    dot_vm Ndata (upto Next coeffs) (upto Next A) = Ok bg0 /\
    background r = map (fun b => b - pedestal) bg0 /\
    dot_vm Ndata (from Next coeffs)
           (map (fun row => vdiv row sivarf) (from Next Ax)) = Ok (full r) /\
    chi2 r = StackFitter.chi2_of scif (full r) (background r) ivarf fit_mask /\
    mask_assign (zeros NTEMP) (from Next ok) (from Next coeffs)
      = Ok (full_coeffs r) /\
    mask_assign (zeros NTEMP) (from Next ok)
                (from Next (StackFitter.covard_of ext gu cols ok))
      = Ok (full_coeffs_err r).
Proof.
  unfold StackFitter.fit_design. intros H. rdestruct H.
  inversion H; subst; clear H. simpl.
  eexists _, _. repeat split; eassumption.
Qed.

Lemma fit_at_z_inv z T fitter gu F r :
  eval (StackFitter.fit_at_z ext z T fitter gu) F = Ok r ->
  exists A,
    eval (StackFitter.design_matrix ext z T) F = Ok A /\
    StackFitter.fit_design ext (StackFitter.Next F) (StackFitter.Ndata F)
      (StackFitter.scif F) (StackFitter.ivarf F) (StackFitter.sivarf F)
      (StackFitter.fit_mask F) A (length T) fitter gu = Ok r.
Proof.
  rewrite fit_at_z_eval.
  destruct (eval (StackFitter.design_matrix ext z T) F) as [A|]; simpl;
    [ | discriminate ].
  intros H. now exists A.
Qed.

End FitSteps.

(** ** Assignment through a boolean mask *)

Lemma scatter_length (dest : vec) (m : list bool) (values : vec) :
  length (scatter dest m values) = length dest.
Proof.
  revert m values. induction dest as [|d dest IH]; intros [|b m] values;
    simpl; try reflexivity.
  destruct b; [destruct values|]; simpl; now rewrite IH.
Qed.

Lemma scatter_zeros (n : nat) (m : list bool) (k : nat) :
  scatter (zeros n) m (zeros k) = zeros n.
Proof.
  revert m k. induction n as [|n IH]; intros [|b m] k; simpl; try reflexivity.
  destruct b.
  - destruct k; simpl; unfold zeros; simpl; f_equal;
      [apply (IH m 0%nat) | apply IH].
  - unfold zeros. simpl. f_equal. apply IH.
Qed.

Lemma mask_assign_zeros (n : nat) (m : list bool) (k : nat) (v : vec) :
  mask_assign (zeros n) m (zeros k) = Ok v -> v = zeros n.
Proof.
  unfold mask_assign.
  destruct (Nat.eqb (length (zeros k)) (count_true m)).
  - intros H. inversion H. apply scatter_zeros.
  - destruct k as [|[|k]]; simpl; try discriminate.
    intros H. inversion H.
    change (repeat zero (count_true m)) with (zeros (count_true m)).
    apply scatter_zeros.
Qed.

Lemma skipn_zeros (n k : nat) : skipn n (zeros k) = zeros (k - n).
Proof.
  revert k. induction n as [|n IH]; intros [|k]; simpl; try reflexivity.
  apply IH.
Qed.

(** ** Shapes *)

Lemma count_true_app (a b : list bool) :
  count_true (a ++ b) = (count_true a + count_true b)%nat.
Proof. unfold count_true. now rewrite filter_app, length_app. Qed.

Lemma count_true_split (n : nat) (m : list bool) :
  count_true m = (count_true (firstn n m) + count_true (skipn n m))%nat.
Proof. now rewrite <- count_true_app, firstn_skipn. Qed.

Lemma count_true_repeat (n : nat) : count_true (repeat true n) = n.
Proof.
  induction n as [|n IH]; [reflexivity|].
  simpl repeat. rewrite count_true_cons, IH. reflexivity.
Qed.

Lemma select_app {A} (u1 u2 : list A) (m1 m2 : list bool) :
  length u1 = length m1 ->
  select (u1 ++ u2) (m1 ++ m2) = select u1 m1 ++ select u2 m2.
Proof.
  revert m1. induction u1 as [|x u1 IH]; intros [|b m1] H; simpl in *;
    try discriminate; try reflexivity.
  destruct b; simpl; rewrite IH by lia; reflexivity.
Qed.

Lemma select_all_true {A} (u : list A) :
  select u (repeat true (length u)) = u.
Proof. induction u as [|x u IH]; simpl; [reflexivity | now rewrite IH]. Qed.

Lemma mapM_length {S A B} (f : A -> M S B) (l : list A) (s : S) (bs : list B) :
  eval (mapM f l) s = Ok bs -> length bs = length l.
Proof.
  revert s bs. induction l as [|a l IH]; intros s bs; simpl.
  - intros H. inversion H. reflexivity.
  - unfold eval, bind. destruct (f a s) as [[b|e] s1]; simpl; [|discriminate].
    destruct (mapM f l s1) as [[bs'|e] s2] eqn:Hl; simpl; [|discriminate].
    intros H. inversion H; subst. simpl. f_equal.
    apply (IH s1). unfold eval. now rewrite Hl.
Qed.

Lemma design_matrix_length (ext : Externals) z T (F : StackFitter.t) (A : mat) :
  eval (StackFitter.design_matrix ext z T) F = Ok A ->
  length A = (length (StackFitter.Abg F) + length T)%nat.
Proof.
  unfold StackFitter.design_matrix.
  rewrite eval_bind by apply readonly_gets. rewrite eval_gets. simpl.
  rewrite eval_bind
    by (apply readonly_mapM; intros; apply template_row_readonly).
  destruct (eval (mapM _ T) F) as [rows|] eqn:Hrows; simpl; [|discriminate].
  intros H. inversion H. rewrite length_app. f_equal.
  now apply mapM_length in Hrows.
Qed.

(** With every background row retained, the retained rows are the
    background rows followed by the retained template rows. *)
Lemma retained_rows (A : mat) (ok : list bool) (Next : nat) :
  length ok = length A -> (Next <= length A)%nat ->
  firstn Next ok = repeat true Next ->
  select A ok = firstn Next A ++ select (skipn Next A) (skipn Next ok).
Proof.
  intros Hlen HN Hbg.
  rewrite <- (firstn_skipn Next A) at 1. rewrite <- (firstn_skipn Next ok) at 1.
  rewrite select_app by (rewrite !length_firstn; lia).
  f_equal. rewrite Hbg.
  replace Next with (length (firstn Next A)) at 2 by (rewrite length_firstn; lia).
  apply select_all_true.
Qed.

Section Returns.

Variable ext : Externals.

(** A fit returns as soon as every background row is retained, the
    solver returns one coefficient per retained row and the inverse of the
    covariance computation, when it succeeds, has one row per retained
    row. *)
Lemma fit_design_returns Next Ndata scif ivarf sivarf fit_mask A NTEMP fitter gu coeffs :
  let ok := StackFitter.oktemp_of A fit_mask in
  let cols := StackFitter.AxT_cols (StackFitter.whitened A ok sivarf) fit_mask in
  length A = (Next + NTEMP)%nat ->
  firstn Next ok = repeat true Next ->
  StackFitter.solver ext fitter cols
    (StackFitter.whitened_data scif sivarf fit_mask) = Ok coeffs ->
  length coeffs = count_true ok ->
  length (StackFitter.covard_of ext gu cols ok) = count_true ok ->
  exists r,
    StackFitter.fit_design ext Next Ndata scif ivarf sivarf fit_mask A NTEMP fitter gu
    = Ok r.
Proof.
  intros ok cols HA Hbg Hsolve Hlen Hcov.
  assert (Hok : length ok = length A) by apply oktemp_length.
  assert (Hcount : count_true ok = (Next + count_true (skipn Next ok))%nat).
  { rewrite (count_true_split Next ok), Hbg, count_true_repeat. reflexivity. }
  unfold StackFitter.fit_design. fold ok. fold cols. rewrite Hsolve. simpl.
  unfold dot_vm at 1. unfold upto.
  rewrite !length_firstn.
  replace (Nat.min Next (length coeffs)) with Next by lia.
  replace (Nat.min Next (length A)) with Next by lia.
  rewrite Nat.eqb_refl. simpl.
  unfold dot_vm. unfold from.
  rewrite length_map, !length_skipn.
  unfold StackFitter.whitened. rewrite length_map.
  rewrite select_length by (symmetry; exact Hok).
  rewrite Hlen, Nat.eqb_refl. simpl.
  unfold mask_assign. rewrite !length_skipn.
  fold ok. fold cols. rewrite Hcov, Hlen.
  replace (count_true ok - Next)%nat with (count_true (skipn Next ok)) by lia.
  rewrite Nat.eqb_refl. simpl. eexists. reflexivity.
Qed.

End Returns.

(** ** Uncertainties *)

Lemma design_matrix_rows_split (ext : Externals) z T (F : StackFitter.t) (A : mat) :
  eval (StackFitter.design_matrix ext z T) F = Ok A ->
  exists rows, A = StackFitter.Abg F ++ rows /\ length rows = length T.
Proof.
  unfold StackFitter.design_matrix.
  rewrite eval_bind by apply readonly_gets. rewrite eval_gets. simpl.
  rewrite eval_bind
    by (apply readonly_mapM; intros; apply template_row_readonly).
  destruct (eval (mapM _ T) F) as [rows|] eqn:Hrows; simpl; [|discriminate].
  intros H. inversion H. exists rows. split; [reflexivity|].
  now apply mapM_length in Hrows.
Qed.

(** The first [Next] rows of the design matrix are the background rows. *)
Lemma background_rows (ext : Externals) z T (F : StackFitter.t) (A : mat) :
  eval (StackFitter.design_matrix ext z T) F = Ok A ->
  length (StackFitter.Abg F) = StackFitter.Next F ->
  upto (StackFitter.Next F) A = StackFitter.Abg F.
Proof.
  intros HA Hbg. destruct (design_matrix_rows_split _ _ _ _ HA) as [rows [-> _]].
  unfold upto. rewrite firstn_app, Hbg, Nat.sub_diag.
  rewrite firstn_all2 by lia. simpl. apply app_nil_r.
Qed.

Section Uncertainties.

Variable ext : Externals.

Lemma covard_singular (cols : mat) (ok : list bool) (e : exn) :
  matrix_I ext (matmul_cols cols cols) = Raise e ->
  StackFitter.covard_of ext true cols ok = StackFitter.covard_of ext false cols ok.
Proof. intros H. unfold StackFitter.covard_of. now rewrite H. Qed.

Lemma fit_design_singular Next Ndata scif ivarf sivarf fit_mask A NTEMP fitter e :
  let ok := StackFitter.oktemp_of A fit_mask in
  let cols := StackFitter.AxT_cols (StackFitter.whitened A ok sivarf) fit_mask in
  matrix_I ext (matmul_cols cols cols) = Raise e ->
  StackFitter.fit_design ext Next Ndata scif ivarf sivarf fit_mask A NTEMP fitter true
  = StackFitter.fit_design ext Next Ndata scif ivarf sivarf fit_mask A NTEMP fitter false.
Proof.
  intros ok cols H. unfold StackFitter.fit_design. fold ok. fold cols.
  now rewrite (@covard_singular cols ok e H).
Qed.

Lemma zeros_length (n : nat) : length (zeros n) = n.
Proof. apply repeat_length. Qed.

(** C5, amended.  Let every background row be retained and let the
    solver return one coefficient per retained row, so that the fit itself
    goes through.  When the inversion of the matrix of the normal equations
    raises, the call that asks for uncertainties returns all the same, and
    returns what the call without uncertainties returns: the coefficients
    of the solver at the retained templates, the background and the full
    model that [np.dot] makes of them, the chi-squared of the residual over
    the mask, and uncertainties that are all zero. *)
Theorem singular_covariance_absorbed (z : num) (T : list (string * Spectrum))
        (fitter : string) (F : StackFitter.t) (A : mat) (coeffs : vec) (e : exn) :
  let fm := StackFitter.fit_mask F in
  let sv := StackFitter.sivarf F in
  let ok := StackFitter.oktemp_of A fm in
  let Ax := StackFitter.whitened A ok sv in
  let cols := StackFitter.AxT_cols Ax fm in
  let Next := StackFitter.Next F in
  eval (StackFitter.design_matrix ext z T) F = Ok A ->
  length (StackFitter.Abg F) = Next ->
  firstn Next ok = repeat true Next ->
  StackFitter.solver ext fitter cols
    (StackFitter.whitened_data (StackFitter.scif F) sv fm) = Ok coeffs ->
  length coeffs = count_true ok ->
  matrix_I ext (matmul_cols cols cols) = Raise e ->
  exists r bg0,
    eval (StackFitter.fit_at_z ext z T fitter true) F = Ok r /\
    eval (StackFitter.fit_at_z ext z T fitter false) F = Ok r /\
    full_coeffs_err r = zeros (length T) /\
    mask_assign (zeros (length T)) (from Next ok) (from Next coeffs)
    = Ok (full_coeffs r) /\
    dot_vm (StackFitter.Ndata F) (upto Next coeffs) (StackFitter.Abg F) = Ok bg0 /\
    background r = map (fun b => b - pedestal) bg0 /\
    dot_vm (StackFitter.Ndata F) (from Next coeffs)
           (map (fun row => vdiv row sv) (from Next Ax)) = Ok (full r) /\
    chi2 r = masked_chi2 (StackFitter.scif F) (full r) (background r)
                         (StackFitter.ivarf F) fm.
Proof.
  intros fm sv ok Ax cols Next HA Hbg Hret Hsolve Hlen Hsing.
  rewrite !fit_at_z_eval, HA. cbn [rbind].
  rewrite (@fit_design_singular _ _ _ _ _ _ _ _ _ e) by exact Hsing.
  destruct (@fit_design_returns ext (StackFitter.Next F) (StackFitter.Ndata F)
              (StackFitter.scif F) (StackFitter.ivarf F) (StackFitter.sivarf F)
              (StackFitter.fit_mask F) A (length T) fitter false coeffs)
    as [r Hr]; auto.
  - rewrite (design_matrix_length _ _ _ _ HA), Hbg. reflexivity.
  - apply zeros_length.
  - assert (Hinv := Hr). apply fit_design_inv in Hinv.
    destruct Hinv as [c [bg0 [Hc [Hb0 [Hb [Hfull [Hchi [Hfc Herr]]]]]]]].
    fold fm sv ok in Hc. fold Ax in Hc. fold cols in Hc.
    rewrite Hsolve in Hc. inversion Hc; subst c; clear Hc.
    exists r, bg0. split; [exact Hr|]. split; [exact Hr|].
    split; [|split; [exact Hfc|split; [|split; [exact Hb|split; [exact Hfull|exact Hchi]]]]].
    + unfold StackFitter.covard_of, from in Herr. rewrite skipn_zeros in Herr.
      now apply mask_assign_zeros in Herr.
    + rewrite <- (background_rows _ _ _ _ HA Hbg). exact Hb0.
Qed.

End Uncertainties.

(** ** The theorems at the sample inputs *)

Lemma fit_mask_narrowed_sample :
  StackedSpectrum.init_traced Sample.ext zero (frac 1 10) (of_Z (-1)) one
    Sample.exposure_a
  = Ok (fst SampleRuns.traced_a, snd SampleRuns.traced_a)
  /\ exists m1 m2 m3 c2 c3,
      snd SampleRuns.traced_a = [m1; m2; m3] /\
      m1 = StackedSpectrum.mask_positive (StackedSpectrum.ivarf (fst SampleRuns.traced_a)) /\
      rbind (StackedSpectrum.mask_finite
               (StackedSpectrum.scif (fst SampleRuns.traced_a))
               (StackedSpectrum.ivarf (fst SampleRuns.traced_a)))
            (bcast (length m1)) = Ok c2 /\
      m2 = mask_and m1 c2 /\
      rbind (rbind (elec_of (fst SampleRuns.traced_a))
                   (StackedSpectrum.mask_amplitude (frac 1 10)))
            (bcast (length m2)) = Ok c3 /\
      m3 = mask_and m2 c3 /\
      StackedSpectrum.fit_mask (fst SampleRuns.traced_a) = m3 /\
      StackedSpectrum.DoF (fst SampleRuns.traced_a) = count_true m3 /\
      (forall p, nth p m2 false = true -> nth p m1 false = true) /\
      (forall p, nth p m3 false = true -> nth p m2 false = true) /\
      (count_true m2 <= count_true m1)%nat /\
      (count_true m3 <= count_true m2)%nat.
Proof.
  split.
  - vm_compute. reflexivity.
  - apply (@fit_mask_narrowed Sample.ext zero (frac 1 10) (of_Z (-1)) one
             Sample.exposure_a).
    vm_compute. reflexivity.
Defined.

Lemma drop_rule_sample :
  eval (StackFitter.design_matrix Sample.ext zero
          [Sample.level; Sample.tilted; Sample.far_line])
       Sample.fitter_w = Ok SampleRuns.design_w
  /\ StackFitter.oktemp_of SampleRuns.design_w (StackFitter.fit_mask Sample.fitter_w)
     = [true; true; false; false]
  /\ let fm := StackFitter.fit_mask Sample.fitter_w in
     let sv := StackFitter.sivarf Sample.fitter_w in
     let ok := StackFitter.oktemp_of SampleRuns.design_w fm in
     let cols := map (fun r => select (vmul r sv) fm) (select SampleRuns.design_w ok) in
     let data := StackFitter.whitened_data (StackFitter.scif Sample.fitter_w) sv fm in
     (forall i row,
         nth_error SampleRuns.design_w i = Some row ->
         (nth_error ok i = Some false <-> eqb (vsum (vmul_bool row fm)) zero = true) /\
         (Forall nonneg row -> (nth_error ok i = Some false <-> zero_on_mask row fm))) /\
     length cols = count_true ok /\
     exists k : vec -> result FitResult,
       eval (StackFitter.fit_at_z Sample.ext zero
               [Sample.level; Sample.tilted; Sample.far_line] "nnls" false)
            Sample.fitter_w
       = rbind (StackFitter.solver Sample.ext "nnls" cols data) k /\
       forall f : mat -> vec -> result vec,
         eval (StackFitter.fit_at_z (with_solver Sample.ext f) zero
                 [Sample.level; Sample.tilted; Sample.far_line] "nnls" false)
              Sample.fitter_w
         = rbind (f cols data) k.
Proof.
  split; [vm_compute; reflexivity|].
  split; [vm_compute; reflexivity|].
  apply (@drop_rule Sample.ext Sample.fitter_w zero
           [Sample.level; Sample.tilted; Sample.far_line] "nnls" false
           SampleRuns.design_w).
  vm_compute. reflexivity.
Defined.

Lemma fitter_n_built :
  StackFitter.init Sample.ext zero (Fin (qc 6 10)) one [Sample.exposure_neg]
  = Ok Sample.fitter_n.
Proof. vm_compute. reflexivity. Qed.

(** On the four pixels of the fit mask of [fitter_n] the row of the level
    template is half the background row: the matrix of the normal equations
    is 4, 2, 2, 1, and the elimination meets the pivot 1 - (2/4) * 2 = 0,
    in binary64 arithmetic as in exact arithmetic. *)
Lemma normal_equations_n :
  same_mat (matmul_cols SampleRuns.cols_n SampleRuns.cols_n)
           [[of_Z 4; of_Z 2]; [of_Z 2; of_Z 1]] = true
  /\ same_vec SampleRuns.coeffs_n [zero; zero] = true.
Proof. vm_conj. Qed.

Lemma singular_covariance_sample :
  eval (StackFitter.design_matrix Reference.float_externals zero [Sample.level])
       Sample.fitter_n = Ok SampleRuns.design_n
  /\ matrix_I Reference.float_externals
       (matmul_cols SampleRuns.cols_n SampleRuns.cols_n) = Raise LinAlgError
  /\ exists r bg0,
      eval (StackFitter.fit_at_z Reference.float_externals zero [Sample.level]
              "nnls" true) Sample.fitter_n = Ok r /\
      eval (StackFitter.fit_at_z Reference.float_externals zero [Sample.level]
              "nnls" false) Sample.fitter_n = Ok r /\
      full_coeffs_err r = zeros (length [Sample.level]) /\
      mask_assign (zeros (length [Sample.level]))
        (from (StackFitter.Next Sample.fitter_n)
              (StackFitter.oktemp_of SampleRuns.design_n
                 (StackFitter.fit_mask Sample.fitter_n)))
        (from (StackFitter.Next Sample.fitter_n) SampleRuns.coeffs_n)
      = Ok (full_coeffs r) /\
      dot_vm (StackFitter.Ndata Sample.fitter_n)
             (upto (StackFitter.Next Sample.fitter_n) SampleRuns.coeffs_n)
             (StackFitter.Abg Sample.fitter_n) = Ok bg0 /\
      background r = map (fun b => b - pedestal) bg0 /\
      dot_vm (StackFitter.Ndata Sample.fitter_n)
             (from (StackFitter.Next Sample.fitter_n) SampleRuns.coeffs_n)
             (map (fun row => vdiv row (StackFitter.sivarf Sample.fitter_n))
                  (from (StackFitter.Next Sample.fitter_n)
                     (StackFitter.whitened SampleRuns.design_n
                        (StackFitter.oktemp_of SampleRuns.design_n
                           (StackFitter.fit_mask Sample.fitter_n))
                        (StackFitter.sivarf Sample.fitter_n))))
      = Ok (full r) /\
      chi2 r = masked_chi2 (StackFitter.scif Sample.fitter_n) (full r)
                 (background r) (StackFitter.ivarf Sample.fitter_n)
                 (StackFitter.fit_mask Sample.fitter_n).
Proof.
  split; [vm_compute; reflexivity|].
  split; [vm_compute; reflexivity|].
  apply (@singular_covariance_absorbed Reference.float_externals zero
           [Sample.level] "nnls" Sample.fitter_n SampleRuns.design_n
           SampleRuns.coeffs_n LinAlgError); vm_compute; reflexivity.
Defined.

Lemma fitter_u_built :
  StackFitter.init Sample.ext zero (Fin (qc 1 10)) one [Sample.exposure_u]
  = Ok Sample.fitter_u.
Proof. vm_compute. reflexivity. Qed.

(** The fit of [fitter_u] with the rising and the falling template.  On
    the pixels of the fit mask their rows add up to 12 times the background
    row, and the matrix of the normal equations has no inverse; rounding
    leaves the elimination a last pivot that is not zero, the inversion
    returns, and the uncertainties are above a million. *)
Lemma fit_u_value :
  eval (StackFitter.fit_at_z Reference.float_externals zero
          [Sample.rising; Sample.falling] "nnls" true) Sample.fitter_u
  = Ok SampleRuns.fit_u
  /\ same_vec (full_coeffs SampleRuns.fit_u) [zero; zero] = true
  /\ forallb (fun x => gtb x (of_Z 1000000)) (full_coeffs_err SampleRuns.fit_u)
     = true
  /\ same_vec (full_coeffs_err SampleRuns.fit_u) (zeros 2) = false.
Proof. vm_conj. Qed.

(** C5, as stated, fails: the matrix of the normal equations of that fit
    is singular, and the uncertainties that the call returns are not
    zero. *)
Lemma singular_not_absorbed :
  ~ singular_is_absorbed Reference.float_externals Sample.fitter_u zero
      [Sample.rising; Sample.falling] "nnls".
Proof.
  intros H.
  assert (Hd : eval (StackFitter.design_matrix Reference.float_externals zero
                       [Sample.rising; Sample.falling]) Sample.fitter_u
               = Ok SampleRuns.design_u) by (vm_compute; reflexivity).
  specialize (H _ Hd). cbv zeta in H.
  destruct H as [r [Hr Herr]].
  { unfold singular. vm_compute. reflexivity. }
  destruct fit_u_value as [Hv [_ [_ Hnz]]].
  rewrite Hv in Hr. inversion Hr; subst r; clear Hr.
  rewrite Herr in Hnz. cbn [length] in Hnz.
  rewrite same_vec_refl in Hnz. discriminate Hnz.
Qed.


(** ** The grid search *)

Lemma eval_bind_inv {S A B} (m : M S A) (k : A -> M S B) (s : S) (b : B) :
  readonly m -> eval (bind m k) s = Ok b ->
  exists a, eval m s = Ok a /\ eval (k a) s = Ok b.
Proof.
  intros Hm. rewrite eval_bind by exact Hm.
  destruct (eval m s) as [a|]; simpl; [|discriminate].
  intros H. now exists a.
Qed.

Section GridSearch.

Variable ext : Externals.

Lemma scan_readonly zs T fitter : readonly (ZGrid.scan ext zs T fitter).
Proof.
  unfold ZGrid.scan. frame. apply fit_at_z_readonly.
Qed.

Lemma refine_step_readonly dz0 fitter prior tc st iter :
  readonly (ZGrid.refine_step ext dz0 fitter prior tc st iter).
Proof.
  unfold ZGrid.refine_step. frame. apply scan_readonly.
Qed.

Lemma zoom_readonly dz0 zr fitter prior tc :
  readonly (ZGrid.zoom ext dz0 zr fitter prior tc).
Proof.
  unfold ZGrid.zoom. frame.
  - apply scan_readonly.
  - apply refine_step_readonly.
Qed.

Lemma finalize_readonly ident ra dec fitter prior ti zm :
  readonly (ZGrid.finalize ext ident ra dec fitter prior ti zm).
Proof.
  unfold ZGrid.finalize. frame.
  destruct a1 as [pz chi2s]. frame. apply fit_at_z_readonly.
Qed.

Lemma fit_zgrid_readonly ident ra dec dz0 zr fitter prior tc ti :
  readonly (ZGrid.fit_zgrid ext ident ra dec dz0 zr fitter prior tc ti).
Proof.
  unfold ZGrid.fit_zgrid. frame.
  - apply zoom_readonly.
  - apply finalize_readonly.
Qed.

(** The entry of a line whose coefficient is zero, in the list that the
    loop at lines 408-436 builds. *)
Lemma line_meta_zero (t_i : list (string * Spectrum)) :
  forall (coeffs err : vec) (tc : option Spectrum) (i il : nat)
         (metas : list (string * (hval * string))),
    ZGrid.line_meta ext t_i coeffs err tc i il = Ok metas ->
    forall (k : nat) (te : string) (tmpl : Spectrum) (c : num),
      nth_error t_i k = Some (te, tmpl) ->
      startswith_line te = true ->
      nth_error coeffs (i + k) = Some c ->
      eqb c zero = true ->
      In (("LINE" ++ format_03d (il + line_number t_i k) ++ "W")%string,
          (HNum zero, (drop_chars 5 te ++ " line rest EQW")%string))
         metas.
Proof.
  induction t_i as [|[te0 tm0] rest IH];
    intros coeffs err tc i il metas H k te tmpl c Hk Hline Hc Hzero.
  - destruct k; discriminate Hk.
  - simpl in H. unfold line_number. simpl firstn. simpl filter.
    destruct (startswith_line te0) eqn:Hl0.
    + rdestruct H. inversion H; subst; clear H.
      destruct k as [|k].
      * simpl in Hk. inversion Hk; subst.
        rewrite Nat.add_0_r in Hc. unfold index in E. rewrite Hc in E.
        inversion E; subst. rewrite Hzero in E0. inversion E0; subst.
        simpl. rewrite Nat.add_1_r. right. right. left. reflexivity.
      * simpl in Hk. right. right. right.
        specialize (IH _ _ _ _ _ _ E2 k te tmpl c Hk Hline).
        rewrite Nat.add_succ_r in Hc. specialize (IH Hc Hzero).
        unfold line_number in IH. simpl length.
        now rewrite Nat.add_succ_r.
    + destruct k as [|k].
      * simpl in Hk. inversion Hk; subst. congruence.
      * simpl in Hk.
        specialize (IH _ _ _ _ _ _ H k te tmpl c Hk Hline).
        rewrite Nat.add_succ_r in Hc. exact (IH Hc Hzero).
Qed.

(** C10.  In the table that [fit_zgrid] builds, a line template (a name
    that starts with "line") whose fitted coefficient compares equal to
    zero gets the equivalent width 0 under its key LINEnnnW. *)
Theorem zero_coefficient_zero_EW ident ra dec dz0 zr fitter prior tc
        (t_i : list (string * Spectrum)) (F : StackFitter.t) (r : ZFit)
        (k : nat) (te : string) (tmpl : Spectrum) (c : num) :
  eval (ZGrid.fit_zgrid ext ident ra dec dz0 zr fitter prior tc t_i) F = Ok r ->
  nth_error t_i k = Some (te, tmpl) ->
  startswith_line te = true ->
  nth_error (full_coeffs (zfit_best r)) k = Some c ->
  eqb c zero = true ->
  In (("LINE" ++ format_03d (line_number t_i k) ++ "W")%string,
      (HNum zero, (drop_chars 5 te ++ " line rest EQW")%string))
     (zfit_meta r).
Proof.
  intros H Hk Hline Hc Hzero. unfold ZGrid.fit_zgrid in H.
  apply eval_bind_inv in H; [|apply zoom_readonly].
  destruct H as [zm [_ H]]. unfold ZGrid.finalize in H.
  repeat (apply eval_bind_inv in H;
          [ destruct H as [? [? H]] | solve [ frame ] ]).
  match goal with p : (option vec * vec)%type |- _ => destruct p as [pz chi2s] end.
  repeat (apply eval_bind_inv in H;
          [ destruct H as [? [? H]]
          | solve [ frame | apply fit_at_z_readonly ] ]).
  rewrite eval_ret in H. injection H as Hr. rewrite <- Hr in *.
  cbn [zfit_meta zfit_best] in *. rewrite eval_lift in *.
  do 10 (apply in_cons).
  match goal with
  | Hm : ZGrid.line_meta _ _ _ _ _ _ _ = Ok _ |- _ =>
      exact (@line_meta_zero t_i _ _ _ 0%nat 0%nat _ Hm k te tmpl c Hk Hline Hc Hzero)
  end.
Qed.

End GridSearch.

(** ** Reporting of the coefficients *)

Lemma fitter_b_built :
  StackFitter.init Sample.ext zero (Fin (qc 1 10)) one
    [Sample.exposure_dead; Sample.exposure_a]
  = Ok Sample.fitter_b.
Proof. vm_compute. reflexivity. Qed.

(** ** Sums of finite and non-finite values *)

Lemma add_nonfin_l (x y : num) : isfinite x = false -> isfinite (x + y) = false.
Proof. destruct x, y; simpl; intros H; try reflexivity; discriminate. Qed.

Lemma fold_add_nonfin (l : vec) (acc : num) :
  isfinite acc = false -> isfinite (fold_left add l acc) = false.
Proof.
  revert acc. induction l as [|x l IH]; intros acc H; simpl; [exact H|].
  apply IH. now apply add_nonfin_l.
Qed.

Lemma fold_add_fin_inv (x : num) (l : vec) (a s : Qc) :
  fold_left add (x :: l) (Fin a) = Fin s ->
  exists qx, x = Fin qx /\ fold_left add l (Fin (a + qx)%Qc) = Fin s.
Proof.
  simpl. destruct x as [qx| | |]; intros H.
  - now exists qx.
  - pose proof (@fold_add_nonfin l PInf eq_refl) as Hn.
    simpl in H. rewrite H in Hn. discriminate.
  - pose proof (@fold_add_nonfin l NInf eq_refl) as Hn.
    simpl in H. rewrite H in Hn. discriminate.
  - pose proof (@fold_add_nonfin l NaN eq_refl) as Hn.
    simpl in H. rewrite H in Hn. discriminate.
Qed.

Lemma mul_fin_inv (x y : num) (q : Qc) :
  x * y = Fin q -> exists a b, x = Fin a /\ y = Fin b /\ q = (a * b)%Qc.
Proof.
  destruct x as [a| | |], y as [b| | |]; simpl; intros H; try discriminate.
  - inversion H. now exists a, b.
  - destruct (qsign a); discriminate.
  - destruct (qsign a); discriminate.
  - destruct (qsign b); discriminate.
  - destruct (qsign b); discriminate.
Qed.

Lemma qsign_eq_zero (q : Qc) : qsign q = Eq <-> q = Q2Qc 0.
Proof.
  unfold qsign, Qccompare. rewrite <- Qeq_alt. split; intros H.
  - now apply Qc_is_canon.
  - now subst.
Qed.

Lemma div_fin_inv (x y : num) (q : Qc) :
  x / y = Fin q ->
  exists a, x = Fin a /\
    ((exists b, y = Fin b /\ b <> Q2Qc 0 /\ q = (a / b)%Qc) \/
     ((y = PInf \/ y = NInf) /\ q = Q2Qc 0)).
Proof.
  destruct x as [a| | |], y as [b| | |]; simpl; intros H; try discriminate.
  - exists a. split; [reflexivity|]. left. exists b. split; [reflexivity|].
    destruct (qsign b) eqn:Hs.
    + destruct (qsign a); discriminate.
    + inversion H. split; [|reflexivity]. intros Hb.
      apply qsign_eq_zero in Hb. congruence.
    + inversion H. split; [|reflexivity]. intros Hb.
      apply qsign_eq_zero in Hb. congruence.
  - exists a. split; [reflexivity|]. right. unfold zero in H. inversion H.
    split; [now left | reflexivity].
  - exists a. split; [reflexivity|]. right. unfold zero in H. inversion H.
    split; [now right | reflexivity].
  - destruct (qsign b); discriminate.
  - destruct (qsign b); discriminate.
Qed.

Lemma div_fin (a b : Qc) : b <> Q2Qc 0 -> Fin a / Fin b = Fin (a / b)%Qc.
Proof.
  intros Hb. simpl. destruct (qsign b) eqn:Hs; try reflexivity.
  apply qsign_eq_zero in Hs. contradiction.
Qed.

(** A reciprocal that is finite and not zero comes from a finite value
    that is not zero. *)
Lemma unclipped_inv (d : num) :
  eqb (one / d) zero || negb (isfinite (one / d)) = false ->
  exists q, d = Fin q /\ q <> Q2Qc 0.
Proof.
  intros H. apply orb_false_iff in H. destruct H as [Hz Hf].
  apply negb_false_iff in Hf.
  destruct (one / d) as [r| | |] eqn:Hd; try discriminate.
  unfold one in Hd. apply div_fin_inv in Hd.
  destruct Hd as [a [Ha [[b [Hb [Hb0 Hr]]] | [Hy Hr]]]].
  - now exists b.
  - subst r.
    assert (Ht : eqb (Fin (Q2Qc 0)) zero = true) by (now apply eqb_zero_iff).
    rewrite Ht in Hz. discriminate.
Qed.

(** ** The optimal extraction of one column *)

Section Column.

Variable Fj : num.

Lemma dcol_cons a fcol w icol :
  dcol Fj (a :: fcol) (w :: icol) = (sqr (a / Fj) * w) :: dcol Fj fcol icol.
Proof. reflexivity. Qed.

Lemma ncol_cons a fcol w icol :
  ncol Fj (a :: fcol) (w :: icol) = ((a / Fj) * a * w) :: ncol Fj fcol icol.
Proof. reflexivity. Qed.

Lemma dcol_nil_r fcol : dcol Fj fcol [] = [].
Proof. unfold dcol. destruct (map sqr (pcol Fj fcol)); reflexivity. Qed.

Lemma ncol_nil_r fcol : ncol Fj fcol [] = [].
Proof. unfold ncol. destruct (map2 mul (pcol Fj fcol) fcol); reflexivity. Qed.

(** When the sum of [den] moves away from its starting value, the
    normalisation [Fj] is finite and not zero. *)
Lemma den_moves (fcol icol : vec) :
  forall acc q : Qc,
    fold_left add (dcol Fj fcol icol) (Fin acc) = Fin q -> q <> acc ->
    exists b, Fj = Fin b /\ b <> Q2Qc 0.
Proof.
  revert icol. induction fcol as [|a fcol IH]; intros icol acc q H Hne.
  - simpl in H. inversion H. congruence.
  - destruct icol as [|w icol].
    + rewrite dcol_nil_r in H. simpl in H. inversion H. congruence.
    + rewrite dcol_cons in H. apply fold_add_fin_inv in H.
      destruct H as [qt [Ht H]].
      apply mul_fin_inv in Ht. destruct Ht as [s [w' [Hs [_ Hqt]]]].
      unfold sqr in Hs. apply mul_fin_inv in Hs.
      destruct Hs as [p [p' [Hp [_ Hs]]]].
      apply div_fin_inv in Hp.
      destruct Hp as [a' [_ [[b [Hb [Hb0 _]]] | [_ Hp0]]]].
      * now exists b.
      * apply (IH icol (acc + qt)%Qc q H).
        subst. intros Heq. apply Hne. rewrite Heq. ring.
Qed.

End Column.

Lemma column_ratio (b : Qc) (fcol icol : vec) :
  b <> Q2Qc 0 ->
  forall accN accD q : Qc,
    accN = (b * accD)%Qc ->
    fold_left add (dcol (Fin b) fcol icol) (Fin accD) = Fin q ->
    fold_left add (ncol (Fin b) fcol icol) (Fin accN) = Fin (b * q)%Qc.
Proof.
  intros Hb. revert icol.
  induction fcol as [|a fcol IH]; intros icol accN accD q Hacc H.
  - simpl in *. inversion H. now subst.
  - destruct icol as [|w icol].
    + rewrite dcol_nil_r in H. rewrite ncol_nil_r. simpl in *.
      inversion H. now subst.
    + rewrite dcol_cons in H. rewrite ncol_cons.
      apply fold_add_fin_inv in H. destruct H as [qt [Ht H]].
      apply mul_fin_inv in Ht. destruct Ht as [s [w' [Hs [Hw Hqt]]]].
      unfold sqr in Hs. apply mul_fin_inv in Hs.
      destruct Hs as [p [p' [Hp [Hp' Hs]]]].
      rewrite Hp in Hp'. inversion Hp'; subst p'.
      apply div_fin_inv in Hp.
      destruct Hp as [a' [Ha [[b0 [Hb0 [_ Hpq]]] | [[Hinf | Hinf] _]]]];
        try discriminate Hinf.
      inversion Hb0; subst b0. subst a w.
      rewrite (div_fin a' Hb).
      cbn [fold_left mul add].
      apply (IH icol _ (accD + qt)%Qc q); [|exact H].
      subst. field. exact Hb.
Qed.

(** In a column that is not zero-filled the extraction of the flat model
    returns the value [Fj] that normalises the profile. *)
Lemma column_extract (Fj : num) (fcol icol : vec) :
  let D := fold_left add (dcol Fj fcol icol) zero in
  let N := fold_left add (ncol Fj fcol icol) zero in
  eqb (one / D) zero || negb (isfinite (one / D)) = false ->
  N / D = Fj.
Proof.
  intros D N Hclip.
  destruct (unclipped_inv _ Hclip) as [q [HD Hq]].
  unfold D, zero in HD.
  destruct (@den_moves Fj fcol icol (qc 0 1) q HD) as [b [HF Hb]].
  { rewrite qc_zero. exact Hq. }
  subst Fj.
  assert (HN : N = Fin (b * q)%Qc).
  { unfold N, zero. apply (@column_ratio b fcol icol Hb _ (qc 0 1) q).
    - rewrite qc_zero. ring.
    - exact HD. }
  unfold D, zero. rewrite HN, HD. rewrite (div_fin _ Hq). f_equal.
  field. exact Hq.
Qed.

(** ** 2-D arrays of a known shape *)

Ltac llia := unfold mat, vec in *; lia.

Lemma map2_length {A B C} (f : A -> B -> C) (u : list A) (v : list B) :
  length (map2 f u v) = Nat.min (length u) (length v).
Proof.
  revert v. induction u as [|a u IH]; intros [|b v]; simpl; try reflexivity.
  now rewrite IH.
Qed.

Lemma map2_nth {A B C} (f : A -> B -> C) (u : list A) (v : list B)
      (j : nat) (da : A) (db : B) (dc : C) :
  (j < length u)%nat -> (j < length v)%nat ->
  nth j (map2 f u v) dc = f (nth j u da) (nth j v db).
Proof.
  revert v j. induction u as [|a u IH]; intros [|b v] [|j] Hu Hv; simpl in *;
    try lia; try reflexivity.
  apply IH; lia.
Qed.

Lemma map_nth_lt {A B} (f : A -> B) (l : list A) (j : nat) (db : B) (da : A) :
  (j < length l)%nat -> nth j (map f l) db = f (nth j l da).
Proof.
  revert j. induction l as [|a l IH]; intros [|j] H; simpl in *;
    try lia; try reflexivity.
  apply IH. lia.
Qed.

Lemma bzip_same_length {A B C} (f : A -> B -> C) (u : list A) (v : list B) :
  length u = length v -> bzip f u v = Ok (map2 f u v).
Proof. intros H. unfold bzip. rewrite H, Nat.eqb_refl. reflexivity. Qed.

Lemma chunks_shaped (cols rows : nat) (u : vec) :
  length u = (rows * cols)%nat -> shaped rows cols (chunks cols rows u).
Proof.
  revert u. induction rows as [|rows IH]; intros u H; simpl.
  - split; [reflexivity | constructor].
  - destruct (IH (skipn cols u)) as [Hl Hf].
    { rewrite length_skipn. simpl in H. lia. }
    split; [simpl; now rewrite Hl|].
    constructor; [|exact Hf]. rewrite length_firstn. simpl in H. lia.
Qed.

Lemma reshape_shaped (rows cols : nat) (u : vec) (m : mat) :
  reshape rows cols u = Ok m -> shaped rows cols m.
Proof.
  unfold reshape. destruct (Nat.eqb (length u) (rows * cols)) eqn:E; [|discriminate].
  intros H. inversion H. apply chunks_shaped. now apply Nat.eqb_eq.
Qed.

Lemma shaped_map2 (f : num -> num -> num) rows cols (a b : mat) :
  shaped rows cols a -> shaped rows cols b ->
  shaped rows cols (map2 (map2 f) a b).
Proof.
  intros [Ha Fa] [Hb Fb]. split.
  - rewrite map2_length. llia.
  - clear Ha Hb. revert b Fb. induction Fa as [|r a Hr Fa IH]; intros b Fb.
    + constructor.
    + destruct b as [|s b]; [constructor|]. inversion Fb; subst.
      simpl. constructor; [|now apply IH]. rewrite map2_length. llia.
Qed.

Lemma shaped_map (g : vec -> vec) rows cols (a : mat) :
  (forall r, length r = cols -> length (g r) = cols) ->
  shaped rows cols a -> shaped rows cols (map g a).
Proof.
  intros Hg [Ha Fa]. split; [now rewrite length_map|].
  clear Ha. induction Fa; simpl; constructor; auto.
Qed.

Lemma bzip2_shaped (f : num -> num -> num) rows cols (a b : mat) :
  shaped rows cols a -> shaped rows cols b ->
  bzip2 f a b = Ok (map2 (map2 f) a b).
Proof.
  intros [Ha Fa] [Hb Fb]. unfold bzip2.
  rewrite bzip_same_length by llia. simpl.
  assert (Hgen : forall a b acc,
             Forall (fun r => length r = cols) a ->
             Forall (fun r => length r = cols) b ->
             rfold (fun acc0 rr =>
                      rbind (bzip f (fst rr) (snd rr))
                            (fun r => Ok (acc0 ++ [r])))
                   (map2 (fun r1 r2 => (r1, r2)) a b) acc
             = Ok (acc ++ map2 (map2 f) a b)).
  { clear. induction a as [|r a IH]; intros [|s b] acc Fa Fb; simpl;
      try (now rewrite app_nil_r).
    inversion Fa; subst. inversion Fb; subst.
    rewrite bzip_same_length by congruence. simpl.
    rewrite IH by assumption. now rewrite <- app_assoc. }
  now rewrite Hgen.
Qed.

Lemma vadd_length (u v : vec) (c : nat) :
  length u = c -> length v = c -> length (vadd u v) = c.
Proof. intros Hu Hv. unfold vadd. rewrite map2_length. llia. Qed.

Lemma fold_vadd_length (c : nat) (m : mat) :
  forall acc, length acc = c -> Forall (fun r => length r = c) m ->
              length (fold_left vadd m acc) = c.
Proof.
  induction m as [|r m IH]; intros acc Ha Fm; simpl; [exact Ha|].
  inversion Fm; subst. apply IH; [|assumption]. now apply vadd_length.
Qed.

Lemma fold_vadd_nth (c : nat) (m : mat) (j : nat) :
  (j < c)%nat ->
  forall acc, length acc = c -> Forall (fun r => length r = c) m ->
    nth j (fold_left vadd m acc) NaN
    = fold_left add (column j m) (nth j acc NaN).
Proof.
  intros Hj. induction m as [|r m IH]; intros acc Ha Fm; simpl; [reflexivity|].
  inversion Fm; subst. rewrite IH; [|now apply vadd_length|assumption].
  f_equal. unfold vadd. apply map2_nth; llia.
Qed.

Lemma zeros_nth (c j : nat) : (j < c)%nat -> nth j (zeros c) NaN = zero.
Proof.
  intros H. unfold zeros. rewrite nth_repeat_lt by exact H. reflexivity.
Qed.

Lemma sum_axis0_nth (rows cols : nat) (m : mat) (j : nat) :
  shaped rows cols m -> (j < cols)%nat ->
  nth j (sum_axis0 cols m) NaN = fold_left add (column j m) zero.
Proof.
  intros [_ Fm] Hj. unfold sum_axis0.
  rewrite (@fold_vadd_nth cols m j Hj (zeros cols) (zeros_length cols) Fm).
  now rewrite zeros_nth.
Qed.

Lemma sum_axis0_length (rows cols : nat) (m : mat) :
  shaped rows cols m -> length (sum_axis0 cols m) = cols.
Proof.
  intros [_ Fm]. apply fold_vadd_length; [apply zeros_length | exact Fm].
Qed.

Lemma column_map2 (f : num -> num -> num) rows cols (a b : mat) (j : nat) :
  shaped rows cols a -> shaped rows cols b -> (j < cols)%nat ->
  column j (map2 (map2 f) a b) = map2 f (column j a) (column j b).
Proof.
  intros [Ha Fa] [Hb Fb] Hj. clear Ha Hb. revert b Fb.
  induction Fa as [|r a Hr Fa IH]; intros b Fb.
  - reflexivity.
  - destruct b as [|s b]; [reflexivity|]. inversion Fb; subst.
    simpl. f_equal; [|now apply IH]. apply map2_nth; llia.
Qed.

Lemma column_map (g : num -> num) rows cols (a : mat) (j : nat) :
  shaped rows cols a -> (j < cols)%nat ->
  column j (map (map g) a) = map g (column j a).
Proof.
  intros [_ Fa] Hj. induction Fa as [|r a Hr Fa IH]; simpl; [reflexivity|].
  f_equal; [|exact IH]. apply map_nth_lt. llia.
Qed.

Lemma column_vsqr rows cols (a : mat) (j : nat) :
  shaped rows cols a -> (j < cols)%nat ->
  column j (map vsqr a) = map sqr (column j a).
Proof.
  intros [_ Fa] Hj. induction Fa as [|r a Hr Fa IH]; simpl; [reflexivity|].
  f_equal; [|exact IH]. unfold vsqr. apply map_nth_lt. llia.
Qed.

Lemma column_vdiv rows cols (a : mat) (v : vec) (j : nat) :
  shaped rows cols a -> length v = cols -> (j < cols)%nat ->
  column j (map (fun row => vdiv row v) a)
  = map (fun x => x / nth j v NaN) (column j a).
Proof.
  intros [_ Fa] Hv Hj. induction Fa as [|r a Hr Fa IH]; simpl; [reflexivity|].
  f_equal; [|exact IH]. unfold vdiv. apply map2_nth; llia.
Qed.

(** ** What the constructor stores *)

Section Constructor.

Variable ext : Externals.

Lemma init_traced_fields sys_err mask_min mask_threshold fcontam h E hist :
  StackedSpectrum.init_traced ext sys_err mask_min mask_threshold fcontam h
    = Ok (E, hist) ->
  StackedSpectrum.sh E = (NAXIS2 h, NAXIS1 h) /\
  StackedSpectrum.scif E = flatten (SCI h) /\
  StackedSpectrum.size E = length (flatten (SCI h)) /\
  bzip (StackedSpectrum.floor_ivar sys_err) (flatten (WHT h)) (flatten (SCI h))
    = Ok (StackedSpectrum.ivarf E) /\
  reshape (NAXIS2 h) (NAXIS1 h) (StackedSpectrum.ivarf E)
    = Ok (StackedSpectrum.ivar E) /\
  (exists c w cf,
      StackedSpectrum.contamination ext fcontam h
      = Ok (c, w, cf, StackedSpectrum.weightf E)).
Proof.
  unfold StackedSpectrum.init_traced. intros H. rdestruct H.
  inversion H; subst; clear H. simpl.
  do 5 (split; [first [reflexivity | assumption]|]).
  eexists _, _, _. reflexivity.
Qed.

Lemma init_fields sys_err mask_min mask_threshold fcontam h E :
  StackedSpectrum.init ext sys_err mask_min mask_threshold fcontam h = Ok E ->
  exists hist,
    StackedSpectrum.init_traced ext sys_err mask_min mask_threshold fcontam h
    = Ok (E, hist).
Proof.
  unfold StackedSpectrum.init.
  destruct (StackedSpectrum.init_traced ext sys_err mask_min mask_threshold
              fcontam h) as [[E' hist]|]; simpl; [|discriminate].
  intros H. inversion H; subst. now exists hist.
Qed.

Lemma init_ivar_shaped sys_err mask_min mask_threshold fcontam h E :
  StackedSpectrum.init ext sys_err mask_min mask_threshold fcontam h = Ok E ->
  shaped (fst (StackedSpectrum.sh E)) (snd (StackedSpectrum.sh E))
         (StackedSpectrum.ivar E).
Proof.
  intros H. apply init_fields in H. destruct H as [hist H].
  apply init_traced_fields in H.
  destruct H as [Hsh [_ [_ [_ [Hr _]]]]]. rewrite Hsh. simpl.
  eapply reshape_shaped. exact Hr.
Qed.

End Constructor.

(** ** Optimal extraction of the flat model *)

Section Extraction.

Variable ext : Externals.

Lemma weighted_sums_shaped rows cols (prof data iv : mat) :
  shaped rows cols prof -> shaped rows cols data -> shaped rows cols iv ->
  StackedSpectrum.weighted_sums (rows, cols) prof data iv
  = Ok (sum_axis0 cols (map2 (map2 mul) (map2 (map2 mul) prof data) iv),
        sum_axis0 cols (map2 (map2 mul) (map vsqr prof) iv)).
Proof.
  intros Hp Hd Hi. unfold StackedSpectrum.weighted_sums.
  rewrite (bzip2_shaped mul Hp Hd). simpl.
  rewrite (bzip2_shaped mul (shaped_map2 mul Hp Hd) Hi). simpl.
  assert (Hs : shaped rows cols (map vsqr prof)).
  { apply shaped_map; [|exact Hp]. intros r Hr. unfold vsqr.
    now rewrite length_map. }
  rewrite (bzip2_shaped mul Hs Hi). reflexivity.
Qed.

(** C6, amended.  Extracting the flat model of a constructed spectrum
    returns, in every column that is not zero-filled, the sum of the flat
    model down that column. *)
Theorem extract_flat_column_sum sys_err mask_min mask_threshold fcontam h
        (E : StackedSpectrum.t) (data : mat) (flux rms : vec) :
  StackedSpectrum.init ext sys_err mask_min mask_threshold fcontam h = Ok E ->
  reshape (fst (StackedSpectrum.sh E)) (snd (StackedSpectrum.sh E))
          (StackedSpectrum.flat E) = Ok data ->
  eval (StackedSpectrum.optimal_extract ext data) E = Ok (flux, rms) ->
  let cols := snd (StackedSpectrum.sh E) in
  let flatf := sum_axis0 cols data in
  exists nsum dsum,
    StackedSpectrum.weighted_sums (StackedSpectrum.sh E)
      (map (fun row => vdiv row flatf) data) data (StackedSpectrum.ivar E)
    = Ok (nsum, dsum) /\
    length flux = cols /\
    forall j, (j < cols)%nat ->
              nth j (StackedSpectrum.clipped dsum) true = false ->
              nth j flux NaN = nth j flatf NaN.
Proof.
  intros Hinit Hdata Hrun cols flatf.
  pose proof (init_ivar_shaped _ _ _ _ _ _ Hinit) as Hiv.
  pose proof (reshape_shaped _ _ _ Hdata) as Hd.
  destruct (StackedSpectrum.sh E) as [rows cols'] eqn:Hsh.
  simpl in Hiv, Hd, Hdata, cols. subst flatf cols.
  set (flatf := sum_axis0 cols' data).
  assert (Hff : length flatf = cols') by (apply (sum_axis0_length Hd)).
  assert (Hp : shaped rows cols' (map (fun row => vdiv row flatf) data)).
  { apply shaped_map; [|exact Hd]. intros r Hr. unfold vdiv.
    rewrite map2_length. llia. }
  unfold StackedSpectrum.optimal_extract in Hrun.
  repeat (apply eval_bind_inv in Hrun;
          [ destruct Hrun as [? [? Hrun]] | solve [ frame ] ]).
  unfold eval, gets, lift, ret in *. cbn [fst] in *.
  repeat match goal with
         | Hx : Ok _ = Ok ?y |- _ => is_var y; injection Hx as <-
         end.
  match goal with
  | Hx : StackedSpectrum.profile _ _ = Ok _ |- _ =>
      unfold StackedSpectrum.profile in Hx; rewrite Hsh in Hx;
      cbn [fst snd] in Hx; rewrite Hdata in Hx; cbn [rbind] in Hx;
      fold flatf in Hx; injection Hx as <-
  end.
  cbn [snd fst] in *.
  match goal with
  | Hx : StackedSpectrum.weighted_sums _ _ _ _ = Ok ?s |- _ =>
      destruct s as [nsum dsum]; rewrite Hsh in Hx; pose proof Hx as Hws;
      rewrite (weighted_sums_shaped Hp Hd Hiv) in Hx;
      inversion Hx; clear Hx
  end.
  exists nsum, dsum. split; [exact Hws|].
  assert (Hn : length nsum = cols').
  { subst nsum. apply (@sum_axis0_length rows).
    apply shaped_map2; [apply shaped_map2|]; assumption. }
  assert (Hdl : length dsum = cols').
  { subst dsum. apply (@sum_axis0_length rows).
    apply shaped_map2; [|assumption].
    apply shaped_map; [|exact Hp]. intros r Hr. unfold vsqr.
    now rewrite length_map. }
  cbn [fst snd] in Hrun. unfold StackedSpectrum.extracted in Hrun.
  injection Hrun as Hflux _. subst flux.
  split.
  - rewrite map2_length. unfold vdiv, StackedSpectrum.clipped.
    rewrite map2_length, length_map. llia.
  - intros j Hj Hclip.
    rewrite (@map2_nth _ _ _ _ _ _ j NaN true NaN)
      by (unfold vdiv, StackedSpectrum.clipped;
          rewrite ?map2_length, ?length_map; llia).
    rewrite Hclip. unfold vdiv.
    rewrite (@map2_nth _ _ _ _ _ _ j NaN NaN NaN) by llia.
    unfold StackedSpectrum.clipped in Hclip.
    rewrite (@map_nth_lt _ _ _ dsum j true NaN) in Hclip by llia.
    assert (HN : nth j nsum NaN
                 = fold_left add (ncol (nth j flatf NaN) (column j data)
                                       (column j (StackedSpectrum.ivar E))) zero).
    { subst nsum. rewrite (@sum_axis0_nth rows cols')
        by (try (apply shaped_map2; [apply shaped_map2|]); assumption).
      rewrite (@column_map2 mul rows cols' _ _ j (shaped_map2 mul Hp Hd) Hiv Hj).
      rewrite (@column_map2 mul rows cols' _ _ j Hp Hd Hj).
      rewrite (@column_vdiv rows cols' data flatf j Hd Hff Hj). reflexivity. }
    assert (HD : nth j dsum NaN
                 = fold_left add (dcol (nth j flatf NaN) (column j data)
                                       (column j (StackedSpectrum.ivar E))) zero).
    { subst dsum.
      assert (Hs : shaped rows cols'
                     (map vsqr (map (fun row => vdiv row flatf) data))).
      { apply shaped_map; [|exact Hp]. intros r Hr. unfold vsqr.
        now rewrite length_map. }
      rewrite (@sum_axis0_nth rows cols') by (try apply shaped_map2; assumption).
      rewrite (@column_map2 mul rows cols' _ _ j Hs Hiv Hj).
      rewrite (@column_vsqr rows cols' _ j Hp Hj).
      rewrite (@column_vdiv rows cols' data flatf j Hd Hff Hj). reflexivity. }
    rewrite HN, HD. apply column_extract. rewrite <- HD. exact Hclip.
Qed.

End Extraction.

Lemma spectrum_a_built :
  StackedSpectrum.init Sample.ext zero (frac 1 10) (of_Z (-1)) one Sample.exposure_a
  = Ok SampleRuns.spectrum_a.
Proof. vm_compute. reflexivity. Qed.

(** The flat model of the sample exposure is 1/2, 1/2, 1/4 in both rows;
    its extraction is 1, 1, 1/2 with no column zero-filled. *)
Lemma extraction_a_value :
  same_mat SampleRuns.flat_image_a
           [[frac 1 2; frac 1 2; frac 1 4]; [frac 1 2; frac 1 2; frac 1 4]] = true
  /\ eval (StackedSpectrum.optimal_extract Sample.ext SampleRuns.flat_image_a)
          SampleRuns.spectrum_a = Ok SampleRuns.extraction_a
  /\ same_vec (fst SampleRuns.extraction_a) [one; one; frac 1 2] = true.
Proof. vm_conj. Qed.

(** C6, as stated, fails: in the last column of the sample exposure, where
    the kernel is cut by the edge of the array, the extraction of the flat
    model is 1/2. *)
Lemma edge_column_not_one :
  ~ extract_flat_is_one Sample.ext SampleRuns.spectrum_a.
Proof.
  intros H.
  destruct (StackedSpectrum.weighted_sums (StackedSpectrum.sh SampleRuns.spectrum_a)
              (map (fun row => vdiv row
                      (sum_axis0 (snd (StackedSpectrum.sh SampleRuns.spectrum_a))
                                 SampleRuns.flat_image_a))
                   SampleRuns.flat_image_a)
              SampleRuns.flat_image_a
              (StackedSpectrum.ivar SampleRuns.spectrum_a))
    as [[nsum dsum]|] eqn:Hws; [|vm_compute in Hws; discriminate Hws].
  specialize (H SampleRuns.flat_image_a (fst SampleRuns.extraction_a)
                (snd SampleRuns.extraction_a) nsum dsum).
  assert (H2 : eqb (nth 2 (fst SampleRuns.extraction_a) NaN) one = true).
  { apply H.
    - vm_compute. reflexivity.
    - vm_compute. reflexivity.
    - exact Hws.
    - vm_compute. lia.
    - vm_compute in Hws. injection Hws as _ <-. vm_compute. reflexivity. }
  vm_compute in H2. discriminate H2.
Qed.

Lemma extract_flat_sample :
  StackedSpectrum.init Sample.ext zero (frac 1 10) (of_Z (-1)) one Sample.exposure_a
  = Ok SampleRuns.spectrum_a
  /\ reshape (fst (StackedSpectrum.sh SampleRuns.spectrum_a))
             (snd (StackedSpectrum.sh SampleRuns.spectrum_a))
             (StackedSpectrum.flat SampleRuns.spectrum_a)
     = Ok SampleRuns.flat_image_a
  /\ eval (StackedSpectrum.optimal_extract Sample.ext SampleRuns.flat_image_a)
          SampleRuns.spectrum_a
     = Ok (fst SampleRuns.extraction_a, snd SampleRuns.extraction_a)
  /\ let cols := snd (StackedSpectrum.sh SampleRuns.spectrum_a) in
     let flatf := sum_axis0 cols SampleRuns.flat_image_a in
     exists nsum dsum,
       StackedSpectrum.weighted_sums (StackedSpectrum.sh SampleRuns.spectrum_a)
         (map (fun row => vdiv row flatf) SampleRuns.flat_image_a)
         SampleRuns.flat_image_a (StackedSpectrum.ivar SampleRuns.spectrum_a)
       = Ok (nsum, dsum) /\
       length (fst SampleRuns.extraction_a) = cols /\
       forall j, (j < cols)%nat ->
                 nth j (StackedSpectrum.clipped dsum) true = false ->
                 nth j (fst SampleRuns.extraction_a) NaN = nth j flatf NaN.
Proof.
  split; [vm_compute; reflexivity|].
  split; [vm_compute; reflexivity|].
  split; [vm_compute; reflexivity|].
  apply (@extract_flat_column_sum Sample.ext zero (frac 1 10) (of_Z (-1)) one
           Sample.exposure_a SampleRuns.spectrum_a SampleRuns.flat_image_a
           (fst SampleRuns.extraction_a) (snd SampleRuns.extraction_a));
    vm_compute; reflexivity.
Defined.

(** ** What the fitter stores *)

Section FitterFields.

Variable ext : Externals.

Lemma hstack_ok {A} (l : list (list A)) (v : list A) :
  hstack l = Ok v -> v = concat l.
Proof. destruct l; simpl; intros H; [discriminate | now inversion H]. Qed.

Lemma collect_spectra sys_err mask_min fcontam (exts : list Extension) :
  forall acc Es,
    rfold (fun Es0 h =>
             rbind (StackedSpectrum.init ext sys_err mask_min (of_Z (-1)) fcontam h)
                   (fun E_i =>
                      rbind (eval (StackedSpectrum.compute_model ext None) E_i)
                            (fun _ => Ok (Es0 ++ [E_i]))))
          exts acc = Ok Es ->
    exists Es',
      Es = acc ++ Es' /\
      Forall2 (fun h E =>
                 StackedSpectrum.init ext sys_err mask_min (of_Z (-1)) fcontam h
                 = Ok E) exts Es'.
Proof.
  induction exts as [|h exts IH]; intros acc Es H; simpl in H.
  - inversion H. exists []. split; [now rewrite app_nil_r | constructor].
  - destruct (StackedSpectrum.init ext sys_err mask_min (of_Z (-1)) fcontam h)
      as [E_i|] eqn:Hi; simpl in H; [|discriminate].
    destruct (eval (StackedSpectrum.compute_model ext None) E_i); simpl in H;
      [|discriminate].
    apply IH in H. destruct H as [Es' [-> HF]].
    exists (E_i :: Es'). split; [now rewrite <- app_assoc|].
    now constructor.
Qed.

Lemma fitter_fields sys_err mask_min fcontam exts F :
  StackFitter.init ext sys_err mask_min fcontam exts = Ok F ->
  exists Es,
    Forall2 (fun h E =>
               StackedSpectrum.init ext sys_err mask_min (of_Z (-1)) fcontam h
               = Ok E) exts Es /\
    StackFitter.E F = Es /\
    StackFitter.scif F = concat (map StackedSpectrum.scif Es) /\
    StackFitter.weightf F = concat (map StackedSpectrum.weightf Es) /\
    StackFitter.fit_mask F = concat (map StackedSpectrum.fit_mask Es) /\
    (exists wb,
        bcast (length (concat (map StackedSpectrum.ivarf Es)))
              (StackFitter.weightf F) = Ok wb /\
        StackFitter.ivarf F = vmul (concat (map StackedSpectrum.ivarf Es)) wb) /\
    StackFitter.sivarf F = map (np_sqrt ext) (StackFitter.ivarf F) /\
    StackFitter.Next F = length exts.
Proof.
  unfold StackFitter.init. intros H. rdestruct H.
  inversion H; subst; clear H. simpl.
  apply collect_spectra in E. destruct E as [Es [-> HF]]. simpl.
  apply hstack_ok in E0, E1, E2, E4. subst.
  exists Es. repeat split; try assumption; try reflexivity.
  eexists. split; [eassumption | reflexivity].
Qed.

Lemma spectra_ivar sys_err mask_min fcontam exts Es :
  Forall2 (fun h E =>
             StackedSpectrum.init ext sys_err mask_min (of_Z (-1)) fcontam h
             = Ok E) exts Es ->
  Forall2 (exposure_ivar sys_err) exts (map StackedSpectrum.ivarf Es) /\
  Forall2 (exposure_weight ext fcontam) exts (map StackedSpectrum.weightf Es) /\
  map StackedSpectrum.scif Es = map (fun h => flatten (SCI h)) exts.
Proof.
  induction 1 as [|h E exts Es Hinit HF [IH1 [IH2 IH3]]]; simpl.
  - repeat split; constructor.
  - apply init_fields in Hinit. destruct Hinit as [hist Hinit].
    apply init_traced_fields in Hinit.
    destruct Hinit as [_ [Hs [_ [Hiv [_ Hw]]]]].
    repeat split.
    + constructor; assumption.
    + constructor; assumption.
    + now rewrite Hs, IH3.
Qed.

(** C2, amended.  The chi-squared that [fit_at_z] returns is the sum, over
    the pixels of the mask, of (science - full model - background)^2 times
    the inverse variance of the fitter, and that inverse variance is
    [1/(1/ivar_raw + (sys_err*flux)^2)] multiplied by the contamination
    weight of the pixel ([exp(-fcontam*|contam|*sqrt(ivar_raw))], or 1 for
    an exposure without a contamination image). *)
Theorem chi2_weighted sys_err mask_min fcontam (exts : list Extension)
        (F : StackFitter.t) (z : num) (T : list (string * Spectrum))
        (fitter : string) (gu : bool) (r : FitResult) :
  StackFitter.init ext sys_err mask_min fcontam exts = Ok F ->
  eval (StackFitter.fit_at_z ext z T fitter gu) F = Ok r ->
  exists ivs ws wb,
    Forall2 (exposure_ivar sys_err) exts ivs /\
    Forall2 (exposure_weight ext fcontam) exts ws /\
    bcast (length (concat ivs)) (concat ws) = Ok wb /\
    StackFitter.scif F = concat (map (fun h => flatten (SCI h)) exts) /\
    chi2 r = masked_chi2 (StackFitter.scif F) (full r) (background r)
                         (vmul (concat ivs) wb) (StackFitter.fit_mask F).
Proof.
  intros Hinit Hfit.
  apply fitter_fields in Hinit.
  destruct Hinit as [Es [HF [_ [Hsc [Hw [_ [[wb [Hwb Hiv]] _]]]]]]].
  destruct (@spectra_ivar sys_err mask_min fcontam exts Es HF) as [H1 [H2 H3]].
  exists (map StackedSpectrum.ivarf Es), (map StackedSpectrum.weightf Es), wb.
  split; [exact H1|]. split; [exact H2|].
  split; [now rewrite <- Hw|].
  split; [now rewrite Hsc, H3|].
  apply fit_at_z_inv in Hfit. destruct Hfit as [A [_ Hfit]].
  apply fit_design_inv in Hfit.
  destruct Hfit as [c [bg0 [_ [_ [_ [_ [Hchi _]]]]]]].
  rewrite Hchi, Hiv. reflexivity.
Qed.

End FitterFields.

Lemma fitter_c_built :
  StackFitter.init Sample.ext zero (Fin (qc 1 10)) one [Sample.exposure_c]
  = Ok Sample.fitter_c.
Proof. vm_compute. reflexivity. Qed.

(** The fit of the contaminated exposure: every pixel has raw inverse
    variance 1 and weight exp(-1); the background is 5/2, the residuals are
    -3/2, -1/2, 1/2, -1/2, 1/2, 3/2, and the chi-squared is 11/2 times
    exp(-1), not 11/2. *)
Lemma fit_c_value :
  eval (StackFitter.fit_at_z Sample.ext zero [] "nnls" false) Sample.fitter_c
  = Ok SampleRuns.fit_c
  /\ same_vec SampleRuns.floor_ivar_c (ones 6) = true
  /\ same_vec (background SampleRuns.fit_c) (repeat (frac 5 2) 6) = true
  /\ same (chi2 SampleRuns.fit_c)
          (frac 11 2 * np_exp Sample.ext (of_Z (-1))) = true
  /\ same (masked_chi2 (StackFitter.scif Sample.fitter_c) (full SampleRuns.fit_c)
             (background SampleRuns.fit_c) SampleRuns.floor_ivar_c
             (StackFitter.fit_mask Sample.fitter_c))
          (frac 11 2) = true.
Proof. vm_conj. Qed.

(** C2, as stated, fails for an exposure with a contamination image. *)
Lemma chi2_not_floor_ivar :
  ~ chi2_with_floor_ivar Sample.ext zero [Sample.exposure_c] Sample.fitter_c
      zero [] "nnls" false.
Proof.
  intros H.
  specialize (H SampleRuns.fit_c [SampleRuns.floor_ivar_c]).
  assert (Heq : chi2 SampleRuns.fit_c
                = masked_chi2 (StackFitter.scif Sample.fitter_c)
                    (full SampleRuns.fit_c) (background SampleRuns.fit_c)
                    (concat [SampleRuns.floor_ivar_c])
                    (StackFitter.fit_mask Sample.fitter_c)).
  { apply H.
    - vm_compute. reflexivity.
    - constructor; [|constructor]. unfold exposure_ivar. vm_compute. reflexivity. }
  assert (Hf : same (chi2 SampleRuns.fit_c)
                 (masked_chi2 (StackFitter.scif Sample.fitter_c)
                    (full SampleRuns.fit_c) (background SampleRuns.fit_c)
                    (concat [SampleRuns.floor_ivar_c])
                    (StackFitter.fit_mask Sample.fitter_c)) = false)
    by (vm_compute; reflexivity).
  rewrite <- Heq, same_refl in Hf. discriminate Hf.
Qed.

Lemma chi2_weighted_sample :
  StackFitter.init Sample.ext zero (Fin (qc 1 10)) one [Sample.exposure_c]
  = Ok Sample.fitter_c
  /\ eval (StackFitter.fit_at_z Sample.ext zero [] "nnls" false) Sample.fitter_c
     = Ok SampleRuns.fit_c
  /\ exists ivs ws wb,
      Forall2 (exposure_ivar zero) [Sample.exposure_c] ivs /\
      Forall2 (exposure_weight Sample.ext one) [Sample.exposure_c] ws /\
      bcast (length (concat ivs)) (concat ws) = Ok wb /\
      StackFitter.scif Sample.fitter_c
      = concat (map (fun h => flatten (SCI h)) [Sample.exposure_c]) /\
      chi2 SampleRuns.fit_c
      = masked_chi2 (StackFitter.scif Sample.fitter_c) (full SampleRuns.fit_c)
          (background SampleRuns.fit_c) (vmul (concat ivs) wb)
          (StackFitter.fit_mask Sample.fitter_c).
Proof.
  split; [vm_compute; reflexivity|].
  split; [vm_compute; reflexivity|].
  apply (@chi2_weighted Sample.ext zero (Fin (qc 1 10)) one [Sample.exposure_c]
           Sample.fitter_c zero [] "nnls" false SampleRuns.fit_c);
    vm_compute; reflexivity.
Defined.

(** ** The model and the background that [fit_at_z] returns *)

Lemma mul_div_cancel (a s : num) : finite_nonzero s -> a * s / s = a.
Proof.
  destruct s as [q| | |]; simpl; intros Hq; try contradiction.
  assert (Hs : qsign q <> Eq) by (intros H; now apply qsign_eq_zero in H).
  destruct a as [x| | |]; simpl.
  - destruct (qsign q) eqn:E; try congruence; f_equal; field; exact Hq.
  - destruct (qsign q) eqn:E; try congruence; simpl; rewrite E; reflexivity.
  - destruct (qsign q) eqn:E; try congruence; simpl; rewrite E; reflexivity.
  - reflexivity.
Qed.

Lemma nth_error_map2 {A B C} (f : A -> B -> C) (u : list A) (v : list B) (p : nat) :
  nth_error (map2 f u v) p
  = match nth_error u p, nth_error v p with
    | Some a, Some b => Some (f a b)
    | _, _ => None
    end.
Proof.
  revert v p. induction u as [|a u IH]; intros [|b v] [|p]; simpl;
    try reflexivity.
  - destruct (nth_error u p); reflexivity.
  - apply IH.
Qed.

(** Dividing a whitened row by [sivarf] gives the row back at every pixel
    where [sivarf] is finite and not zero. *)
Lemma unwhiten_pixel (row sv : vec) (p : nat) (s : num) :
  nth_error sv p = Some s -> finite_nonzero s ->
  nth_error (vdiv (vmul row sv) sv) p = nth_error row p.
Proof.
  intros Hs Hfin. unfold vdiv, vmul. rewrite !nth_error_map2, Hs.
  destruct (nth_error row p) as [a|]; [|reflexivity].
  now rewrite mul_div_cancel.
Qed.

Lemma lincomb_pixel (g : vec -> vec) (p : nat) (n : nat) (rows : mat) :
  (forall row, nth_error (g row) p = nth_error row p) ->
  forall c, nth_error (lincomb n c (map g rows)) p
            = nth_error (lincomb n c rows) p.
Proof.
  intros Hg. induction rows as [|r rows IH]; intros [|x c]; simpl;
    try reflexivity.
  unfold vadd, vscale. rewrite !nth_error_map2, !nth_error_map, Hg, IH.
  reflexivity.
Qed.

Lemma lincomb_length (n : nat) (c : vec) (rows : mat) :
  Forall (fun r => length r = n) rows -> length (lincomb n c rows) = n.
Proof.
  intros H. revert c. induction H as [|r rows Hr H IH]; intros [|x c]; simpl;
    try apply zeros_length.
  unfold vadd, vscale. rewrite map2_length, length_map, IH. unfold vec in *. lia.
Qed.

(** What [np.dot] returns. *)
Lemma dot_vm_ok (n : nat) (c : vec) (rows : mat) (v : vec) :
  dot_vm n c rows = Ok v ->
  length c = length rows /\
  v = if axpy_skipped n c rows then zeros n else lincomb n c rows.
Proof.
  unfold dot_vm. destruct (Nat.eqb (length c) (length rows)) eqn:E; [|discriminate].
  intros H. apply Nat.eqb_eq in E. split; [exact E | now inversion H].
Qed.

Lemma dot_vm_length (n : nat) (c : vec) (rows : mat) (v : vec) :
  Forall (fun r => length r = n) rows -> dot_vm n c rows = Ok v -> length v = n.
Proof.
  intros Hrows H. apply dot_vm_ok in H. destruct H as [_ ->].
  destruct (axpy_skipped n c rows); [apply zeros_length | now apply lincomb_length].
Qed.

Lemma dot_vm_returns (n : nat) (c : vec) (rows : mat) :
  length c = length rows -> exists v, dot_vm n c rows = Ok v.
Proof.
  intros H. unfold dot_vm. rewrite H, Nat.eqb_refl. eexists. reflexivity.
Qed.

(** A weight vector of two entries or more is no scalar. *)
Lemma axpy_not_skipped (n : nat) (c : vec) (rows : mat) :
  (2 <= length c)%nat -> axpy_skipped n c rows = false.
Proof. destruct c as [|x [|y c]]; simpl; intros H; try lia; reflexivity. Qed.

Lemma axpy_skipped_map (g : vec -> vec) (n : nat) (c : vec) (rows : mat) :
  axpy_skipped n c (map g rows) = axpy_skipped n c rows.
Proof. destruct c as [|x [|y c]], rows as [|r [|r' rows]]; reflexivity. Qed.

(** [np.dot] at one pixel depends on the rows at that pixel only. *)
Lemma dot_vm_pixel (g : vec -> vec) (p n : nat) (rows : mat) (c v v' : vec) :
  (forall row, nth_error (g row) p = nth_error row p) ->
  dot_vm n c (map g rows) = Ok v -> dot_vm n c rows = Ok v' ->
  nth_error v p = nth_error v' p.
Proof.
  intros Hg Hv Hv'. apply dot_vm_ok in Hv, Hv'.
  destruct Hv as [_ ->]. destruct Hv' as [_ ->].
  rewrite axpy_skipped_map.
  destruct (axpy_skipped n c rows); [reflexivity | now apply lincomb_pixel].
Qed.

Section Model.

Variable ext : Externals.

Lemma design_matrix_app z T (F : StackFitter.t) (A : mat) :
  eval (StackFitter.design_matrix ext z T) F = Ok A ->
  exists rows, A = StackFitter.Abg F ++ rows /\ length rows = length T.
Proof. apply design_matrix_rows_split. Qed.

(** C3, amended.  Let every background row be retained.  The background
    that [fit_at_z] returns is [np.dot] of the background coefficients with
    the indicator rows, less the pedestal.  The full model that it returns
    equals, at every pixel where [sivarf] is finite and not zero, [np.dot]
    of the template coefficients with the retained template rows of the
    design matrix, not whitened. *)
Theorem model_unwhitened (z : num) (T : list (string * Spectrum))
        (fitter : string) (gu : bool) (F : StackFitter.t) (A : mat)
        (r : FitResult) :
  let fm := StackFitter.fit_mask F in
  let sv := StackFitter.sivarf F in
  let ok := StackFitter.oktemp_of A fm in
  let Next := StackFitter.Next F in
  eval (StackFitter.design_matrix ext z T) F = Ok A ->
  eval (StackFitter.fit_at_z ext z T fitter gu) F = Ok r ->
  length (StackFitter.Abg F) = Next ->
  firstn Next ok = repeat true Next ->
  exists coeffs bg0 comb,
    StackFitter.solver ext fitter
      (StackFitter.AxT_cols (StackFitter.whitened A ok sv) fm)
      (StackFitter.whitened_data (StackFitter.scif F) sv fm) = Ok coeffs /\
    dot_vm (StackFitter.Ndata F) (upto Next coeffs) (StackFitter.Abg F) = Ok bg0 /\
    background r = map (fun b => b - pedestal) bg0 /\
    dot_vm (StackFitter.Ndata F) (from Next coeffs)
           (select (from Next A) (from Next ok)) = Ok comb /\
    forall p s,
      nth_error sv p = Some s -> finite_nonzero s ->
      nth_error (full r) p = nth_error comb p.
Proof.
  intros fm sv ok Next HA Hfit Hbg Hret.
  apply fit_at_z_inv in Hfit. destruct Hfit as [A' [HA' Hfit]].
  rewrite HA in HA'. inversion HA'; subst A'; clear HA'.
  apply fit_design_inv in Hfit.
  destruct Hfit as [coeffs [bg0 [Hsolve [Hb0 [Hb [Hfull _]]]]]].
  destruct (design_matrix_app _ _ _ HA) as [rows [HAeq Hrows]].
  assert (HlenA : (Next <= length A)%nat)
    by (rewrite HAeq, length_app; fold Next; lia).
  assert (Hrowsel :
            from Next (StackFitter.whitened A ok sv)
            = map (fun row => vmul row sv)
                  (select (from Next A) (from Next ok))).
  { unfold StackFitter.whitened, from. rewrite skipn_map. f_equal.
    rewrite (@retained_rows A ok Next (oktemp_length A fm) HlenA Hret).
    rewrite skipn_app, length_firstn.
    replace (Nat.min Next (length A)) with Next by lia.
    rewrite Nat.sub_diag. simpl.
    rewrite skipn_all2 by (rewrite length_firstn; lia). reflexivity. }
  fold Next fm sv ok in Hfull. rewrite Hrowsel, map_map in Hfull.
  destruct (@dot_vm_returns (StackFitter.Ndata F) (from Next coeffs)
              (select (from Next A) (from Next ok))) as [comb Hcomb].
  { apply dot_vm_ok in Hfull. destruct Hfull as [Hl _].
    now rewrite length_map in Hl. }
  exists coeffs, bg0, comb.
  split; [exact Hsolve|]. split.
  { rewrite <- (background_rows _ _ _ _ HA Hbg). exact Hb0. }
  split; [exact Hb|]. split; [exact Hcomb|].
  intros p s Hs Hfin.
  apply (@dot_vm_pixel (fun row => vdiv (vmul row sv) sv) p _ _ _ _ _
           ltac:(intros row; now apply (unwhiten_pixel row sv p Hs)) Hfull Hcomb).
Qed.

End Model.

Lemma fitter_z_built :
  StackFitter.init Sample.ext zero (Fin (qc 1 10)) one [Sample.exposure_z]
  = Ok Sample.fitter_z.
Proof. vm_compute. reflexivity. Qed.

Lemma fit_z_built :
  eval (StackFitter.fit_at_z Sample.ext zero Sample.flat_template "nnls" false)
       Sample.fitter_z = Ok SampleRuns.fit_z.
Proof. vm_compute. reflexivity. Qed.

Lemma fitter_zw_built :
  StackFitter.init Sample.ext zero (Fin (qc 1 10)) one [Sample.exposure_zw]
  = Ok Sample.fitter_zw.
Proof. vm_compute. reflexivity. Qed.

(** The fit of the exposure whose first pixel has weight zero, with the
    level template: [sivarf] is 0 in the first pixel and 2 in the others,
    the coefficients are 1/25 for the background and 4 for the template,
    and the full model that is returned is NaN at the first pixel, where
    the combination of the coefficient with the template row is 2. *)
Lemma fit_zw_value :
  eval (StackFitter.fit_at_z Sample.ext zero [Sample.level] "nnls" false)
       Sample.fitter_zw = Ok SampleRuns.fit_zw
  /\ same_vec (StackFitter.sivarf Sample.fitter_zw)
              [zero; of_Z 2; of_Z 2; of_Z 2; of_Z 2; of_Z 2] = true
  /\ same_vec SampleRuns.coeffs_zw [frac 1 25; of_Z 4] = true
  /\ same_vec (full SampleRuns.fit_zw)
              [NaN; of_Z 2; of_Z 1; of_Z 2; of_Z 2; of_Z 1] = true
  /\ same_vec (lincomb 6 (from 1 SampleRuns.coeffs_zw) (from 1 SampleRuns.design_zw))
              [of_Z 2; of_Z 2; of_Z 1; of_Z 2; of_Z 2; of_Z 1] = true.
Proof. vm_conj. Qed.

(** C3, as stated, fails at a pixel of weight zero. *)
Lemma model_not_combination :
  ~ model_is_combination Sample.ext Sample.fitter_zw zero [Sample.level]
      "nnls" false.
Proof.
  intros H.
  destruct (H SampleRuns.design_zw SampleRuns.fit_zw SampleRuns.coeffs_zw)
    as [Hfull _]; try (vm_compute; reflexivity).
  assert (Hs : same_vec (full SampleRuns.fit_zw)
                 (lincomb (StackFitter.Ndata Sample.fitter_zw)
                    (from (StackFitter.Next Sample.fitter_zw) SampleRuns.coeffs_zw)
                    (select (from (StackFitter.Next Sample.fitter_zw) SampleRuns.design_zw)
                       (from (StackFitter.Next Sample.fitter_zw)
                          (StackFitter.oktemp_of SampleRuns.design_zw
                             (StackFitter.fit_mask Sample.fitter_zw)))))
               = true).
  { rewrite <- Hfull. apply same_vec_refl. }
  assert (Hf : same_vec (full SampleRuns.fit_zw)
                 (lincomb (StackFitter.Ndata Sample.fitter_zw)
                    (from (StackFitter.Next Sample.fitter_zw) SampleRuns.coeffs_zw)
                    (select (from (StackFitter.Next Sample.fitter_zw) SampleRuns.design_zw)
                       (from (StackFitter.Next Sample.fitter_zw)
                          (StackFitter.oktemp_of SampleRuns.design_zw
                             (StackFitter.fit_mask Sample.fitter_zw)))))
               = false)
    by (vm_compute; reflexivity).
  rewrite Hs in Hf. discriminate Hf.
Qed.

Lemma model_unwhitened_sample :
  eval (StackFitter.design_matrix Sample.ext zero [Sample.level])
       Sample.fitter_zw = Ok SampleRuns.design_zw
  /\ eval (StackFitter.fit_at_z Sample.ext zero [Sample.level] "nnls" false)
          Sample.fitter_zw = Ok SampleRuns.fit_zw
  /\ exists coeffs bg0 comb,
      StackFitter.solver Sample.ext "nnls"
        (StackFitter.AxT_cols
           (StackFitter.whitened SampleRuns.design_zw
              (StackFitter.oktemp_of SampleRuns.design_zw
                 (StackFitter.fit_mask Sample.fitter_zw))
              (StackFitter.sivarf Sample.fitter_zw))
           (StackFitter.fit_mask Sample.fitter_zw))
        (StackFitter.whitened_data (StackFitter.scif Sample.fitter_zw)
           (StackFitter.sivarf Sample.fitter_zw)
           (StackFitter.fit_mask Sample.fitter_zw)) = Ok coeffs /\
      dot_vm (StackFitter.Ndata Sample.fitter_zw)
             (upto (StackFitter.Next Sample.fitter_zw) coeffs)
             (StackFitter.Abg Sample.fitter_zw) = Ok bg0 /\
      background SampleRuns.fit_zw = map (fun b => b - pedestal) bg0 /\
      dot_vm (StackFitter.Ndata Sample.fitter_zw)
             (from (StackFitter.Next Sample.fitter_zw) coeffs)
             (select (from (StackFitter.Next Sample.fitter_zw) SampleRuns.design_zw)
                (from (StackFitter.Next Sample.fitter_zw)
                   (StackFitter.oktemp_of SampleRuns.design_zw
                      (StackFitter.fit_mask Sample.fitter_zw)))) = Ok comb /\
      forall p s,
        nth_error (StackFitter.sivarf Sample.fitter_zw) p = Some s ->
        finite_nonzero s ->
        nth_error (full SampleRuns.fit_zw) p = nth_error comb p.
Proof.
  split; [vm_compute; reflexivity|].
  split; [vm_compute; reflexivity|].
  apply (@model_unwhitened Sample.ext zero [Sample.level] "nnls" false
           Sample.fitter_zw SampleRuns.design_zw SampleRuns.fit_zw);
    vm_compute; reflexivity.
Defined.

(** ** The refinement loop *)

Section Refinement.

Variable ext : Externals.
Variable F : StackFitter.t.
Variable dz0 : num.
Variable fitter : string.
Variable prior : ZGrid.prior_t.
Variable tc : list (string * Spectrum).

Lemma refine_step_spec (st st' : ZGrid.Zoom) (iter : Z) :
  eval (ZGrid.refine_step ext dz0 fitter prior tc st iter) F = Ok st' <->
  exists r,
    round_spec ext F dz0 fitter prior tc (ZGrid.cur_zi st) (ZGrid.cur_ci st) iter r /\
    st' = after_rounds st [r].
Proof.
  unfold ZGrid.refine_step. split.
  - intros H.
    repeat (apply eval_bind_inv in H;
            [ destruct H as [? [? H]]
            | solve [ frame | apply scan_readonly ] ]).
    rewrite eval_ret in H. rewrite eval_lift in *.
    injection H as <-.
    eexists (mkRound iter _ _ _ _). split.
    + unfold round_spec. cbn [round_z0 round_dz round_zi round_ci round_iter].
      eexists _, _. repeat split; eassumption.
    + unfold after_rounds. simpl. now rewrite !app_nil_r.
  - intros [r [[cp [iz [H1 [H2 [H3 [H4 [H5 [H6 H7]]]]]]]] ->]].
    rewrite eval_bind by frame. rewrite eval_lift, H1. cbn [rbind].
    rewrite eval_bind by frame. rewrite eval_lift, H2. cbn [rbind].
    rewrite eval_bind by frame. rewrite eval_lift, H3. cbn [rbind].
    unfold frac in H5. rewrite <- H5.
    rewrite eval_bind by frame. rewrite eval_lift, H6. cbn [rbind].
    rewrite eval_bind by apply scan_readonly. rewrite H7. cbn [rbind].
    rewrite eval_ret. unfold after_rounds. simpl. rewrite !app_nil_r.
    destruct r; simpl in *. now subst.
Qed.

Lemma last_cons_indep {A} (a : A) (l : list A) (d1 d2 : A) :
  last (a :: l) d1 = last (a :: l) d2.
Proof.
  revert a. induction l as [|b l IH]; intros a; [reflexivity|].
  change (last (b :: l) d1 = last (b :: l) d2). apply IH.
Qed.

Lemma after_rounds_cons (st : ZGrid.Zoom) (r : Round) (rs : list Round) :
  after_rounds (after_rounds st [r]) rs = after_rounds st (r :: rs).
Proof.
  unfold after_rounds. cbn [ZGrid.acc_z ZGrid.acc_chi2 ZGrid.cur_zi ZGrid.cur_ci
                            ZGrid.rounds map concat last].
  rewrite !app_nil_r, <- !app_assoc.
  destruct rs as [|r0 rs]; [reflexivity|].
  f_equal; apply last_cons_indep.
Qed.

Lemma refine_loop_spec (iters : list Z) :
  forall st st',
    eval (foldM (ZGrid.refine_step ext dz0 fitter prior tc) iters st) F = Ok st' <->
    exists rs,
      rounds_spec ext F dz0 fitter prior tc (ZGrid.cur_zi st) (ZGrid.cur_ci st)
                  iters rs /\
      st' = after_rounds st rs.
Proof.
  induction iters as [|iter iters IH]; intros st st'; simpl.
  - rewrite eval_ret. split.
    + intros H. injection H as <-. exists []. split; [exact I|].
      unfold after_rounds. simpl. rewrite !app_nil_r. now destruct st.
    + intros [[|r rs] [Hs ->]]; [|contradiction].
      unfold after_rounds. simpl. rewrite !app_nil_r. now destruct st.
  - rewrite eval_bind by apply refine_step_readonly. split.
    + intros H.
      destruct (eval (ZGrid.refine_step ext dz0 fitter prior tc st iter) F)
        as [st1|] eqn:H1; simpl in H; [|discriminate].
      apply refine_step_spec in H1. destruct H1 as [r [Hr ->]].
      apply IH in H. destruct H as [rs [Hrs ->]].
      exists (r :: rs). split; [|apply after_rounds_cons].
      split; [exact Hr|]. exact Hrs.
    + intros [[|r rs] [Hs ->]]; [contradiction|]. destruct Hs as [Hr Hrs].
      assert (H1 : eval (ZGrid.refine_step ext dz0 fitter prior tc st iter) F
                   = Ok (after_rounds st [r])).
      { apply refine_step_spec. now exists r. }
      rewrite H1. simpl. apply IH. exists rs. split.
      * exact Hrs.
      * symmetry. apply after_rounds_cons.
Qed.

Lemma rounds_spec_length iters :
  forall zi ci rs,
    rounds_spec ext F dz0 fitter prior tc zi ci iters rs ->
    map round_iter rs = iters.
Proof.
  induction iters as [|iter iters IH]; intros zi ci [|r rs] H; simpl in *;
    try contradiction; try reflexivity.
  destruct H as [[cp [iz [_ [_ [_ [Hi _]]]]]] Hrs].
  f_equal; [exact Hi | eapply IH; exact Hrs].
Qed.

(** C8, amended.  [fit_zgrid] is the coarse scan and the refinement loop
    followed by the finalize step.  The loop returns exactly when the
    coarse scan returns and six rounds, numbered 1 to 6, each go through;
    round i takes the minimum of the chi-squared of the grid before it plus
    the interpolated prior, if there is one, as its centre z0, takes
    [dz = dz0 / 2.02^i], fits on the grid
    [log_zgrid (z0 - 4 dz, z0 + 4 dz) dz] and appends the grid and its
    chi-squared values to the scan, as they are.  Nothing but the outcome
    of these calls decides how the loop goes on. *)
Theorem six_rounds (zr : num * num) (ident ra dec : hval)
        (t_i : list (string * Spectrum)) :
  (forall zm,
      eval (ZGrid.zoom ext dz0 zr fitter prior tc) F = Ok zm <->
      exists z chi2 rs,
        log_zgrid ext (fst zr) (snd zr) dz0 = Ok z /\
        eval (ZGrid.scan ext z tc "nnls") F = Ok chi2 /\
        rounds_spec ext F dz0 fitter prior tc z chi2 [1; 2; 3; 4; 5; 6]%Z rs /\
        map round_iter rs = [1; 2; 3; 4; 5; 6]%Z /\
        zm = after_rounds (ZGrid.mkZoom z chi2 z chi2 []) rs) /\
  eval (ZGrid.fit_zgrid ext ident ra dec dz0 zr fitter prior tc t_i) F
  = rbind (eval (ZGrid.zoom ext dz0 zr fitter prior tc) F)
          (fun zm => eval (ZGrid.finalize ext ident ra dec fitter prior t_i zm) F).
Proof.
  split.
  - intros zm. unfold ZGrid.zoom.
    change (zrange 1 7) with [1; 2; 3; 4; 5; 6]%Z.
    rewrite eval_bind by frame. rewrite eval_lift.
    split.
    + intros H.
      destruct (log_zgrid ext (fst zr) (snd zr) dz0) as [z|] eqn:Hz;
        cbn [rbind] in H; [|discriminate].
      rewrite eval_bind in H by apply scan_readonly.
      destruct (eval (ZGrid.scan ext z tc "nnls") F) as [chi2|] eqn:Hc;
        cbn [rbind] in H; [|discriminate].
      apply refine_loop_spec in H. destruct H as [rs [Hrs ->]].
      exists z, chi2, rs. repeat split; try assumption; try reflexivity.
      eapply rounds_spec_length. exact Hrs.
    + intros [z [chi2 [rs [Hz [Hc [Hrs [_ ->]]]]]]].
      rewrite Hz. cbn [rbind]. rewrite eval_bind by apply scan_readonly.
      rewrite Hc. cbn [rbind]. apply refine_loop_spec. now exists rs.
  - unfold ZGrid.fit_zgrid. apply eval_bind. apply zoom_readonly.
Qed.

End Refinement.

(** The refinement at the sample fitter: the coarse grid has one point
    and the six refinement grids have 3, 4, 4, 4, 4 and 4 points. *)
Lemma zoom_a_value :
  eval (ZGrid.zoom Sample.ext (frac 2 100) (frac 17 10, frac 175 100) "nnls" None
          Sample.continuum)
       Sample.fitter_a = Ok SampleRuns.zoom_a
  /\ map (fun r => length (round_zi r)) (ZGrid.rounds SampleRuns.zoom_a)
     = [3; 4; 4; 4; 4; 4]%nat
  /\ length (ZGrid.acc_z SampleRuns.zoom_a) = (1 + 3 + 4 + 4 + 4 + 4 + 4)%nat.
Proof. vm_conj. Qed.

(** C8, as stated, fails in its clause on the point count: the first two
    refinement grids have 3 and 4 points. *)
Lemma point_counts_differ :
  ~ same_point_count Sample.ext Sample.fitter_a (frac 2 100)
      (frac 17 10, frac 175 100) "nnls" None Sample.continuum.
Proof.
  intros H.
  specialize (H SampleRuns.zoom_a
                (nth 0 (ZGrid.rounds SampleRuns.zoom_a) SampleRuns.no_round)
                (nth 1 (ZGrid.rounds SampleRuns.zoom_a) SampleRuns.no_round)
                (proj1 zoom_a_value)).
  assert (Hlen : length (round_zi (nth 0 (ZGrid.rounds SampleRuns.zoom_a)
                                      SampleRuns.no_round))
                 = length (round_zi (nth 1 (ZGrid.rounds SampleRuns.zoom_a)
                                        SampleRuns.no_round))).
  { apply H.
    - left. reflexivity.
    - right. left. reflexivity. }
  revert Hlen. vm_compute. discriminate.
Qed.

Lemma zfit_a_built :
  eval (ZGrid.fit_zgrid Sample.ext (HInt 1) (HNum zero) (HNum zero) (frac 1 10)
          (of_Z 9, of_Z 10) "nnls" None Sample.continuum Sample.continuum_and_line)
       Sample.fitter_a = Ok SampleRuns.zfit_a.
Proof. vm_compute. reflexivity. Qed.

Lemma zero_coefficient_sample :
  eval (ZGrid.fit_zgrid Sample.ext (HInt 1) (HNum zero) (HNum zero) (frac 1 10)
          (of_Z 9, of_Z 10) "nnls" None Sample.continuum Sample.continuum_and_line)
       Sample.fitter_a = Ok SampleRuns.zfit_a
  /\ nth_error Sample.continuum_and_line 1
     = Some ("line Ha"%string,
             mkSpectrum [Sample.n 20; Sample.n 21; Sample.n 22]
                        [Sample.n 0; Sample.n 1; Sample.n 0])
  /\ startswith_line "line Ha" = true
  /\ nth_error (full_coeffs (zfit_best SampleRuns.zfit_a)) 1
     = Some (nth 1 (full_coeffs (zfit_best SampleRuns.zfit_a)) NaN)
  /\ eqb (nth 1 (full_coeffs (zfit_best SampleRuns.zfit_a)) NaN) zero = true
  /\ In (("LINE" ++ format_03d (line_number Sample.continuum_and_line 1) ++ "W")%string,
         (HNum zero, (drop_chars 5 "line Ha" ++ " line rest EQW")%string))
        (zfit_meta SampleRuns.zfit_a).
Proof.
  split; [exact zfit_a_built|].
  split; [reflexivity|].
  split; [reflexivity|].
  split; [vm_compute; reflexivity|].
  split; [vm_compute; reflexivity|].
  apply (@zero_coefficient_zero_EW Sample.ext (HInt 1) (HNum zero) (HNum zero)
           (frac 1 10) (of_Z 9, of_Z 10) "nnls" None Sample.continuum
           Sample.continuum_and_line Sample.fitter_a SampleRuns.zfit_a 1
           "line Ha"
           (mkSpectrum [Sample.n 20; Sample.n 21; Sample.n 22]
                       [Sample.n 0; Sample.n 1; Sample.n 0])
           (nth 1 (full_coeffs (zfit_best SampleRuns.zfit_a)) NaN)).
  - exact zfit_a_built.
  - reflexivity.
  - reflexivity.
  - vm_compute. reflexivity.
  - vm_compute. reflexivity.
Defined.

(** ** The coefficients in the order of the templates *)

Lemma scatter_false (dest : vec) (m : list bool) (values : vec) (i : nat) :
  nth_error m i = Some false ->
  nth_error (scatter dest m values) i = nth_error dest i.
Proof.
  revert m values i. induction dest as [|d dest IH]; intros [|b m] values [|i] H;
    simpl in *; try discriminate; try reflexivity.
  - inversion H; subst. reflexivity.
  - destruct b; [destruct values|]; simpl; now apply IH.
Qed.

Lemma scatter_true (dest : vec) (m : list bool) (values : vec) (i : nat) :
  nth_error m i = Some true -> (i < length dest)%nat ->
  length values = count_true m ->
  nth_error (scatter dest m values) i
  = nth_error values (count_true (firstn i m)).
Proof.
  revert m values i. induction dest as [|d dest IH]; intros [|b m] values [|i] H Hi Hv;
    simpl in *; try discriminate; try lia.
  - inversion H; subst. rewrite count_true_cons in Hv.
    destruct values; [simpl in Hv; lia | reflexivity].
  - rewrite count_true_cons in Hv. rewrite count_true_cons.
    destruct b.
    + destruct values as [|v values]; [simpl in Hv; lia|].
      simpl. apply IH; [exact H | lia | simpl in Hv; lia].
    + simpl. apply IH; [exact H | lia | simpl in Hv; lia].
Qed.

Lemma mask_assign_exact (dest : vec) (m : list bool) (values v : vec) :
  length values = count_true m ->
  mask_assign dest m values = Ok v -> v = scatter dest m values.
Proof.
  intros Hl. unfold mask_assign. rewrite Hl, Nat.eqb_refl.
  intros H. now inversion H.
Qed.

Lemma zeros_nth_error (n i : nat) :
  (i < n)%nat -> nth_error (zeros n) i = Some zero.
Proof.
  intros H. unfold zeros. rewrite nth_error_repeat by exact H. reflexivity.
Qed.

Section Reporting.

Variable ext : Externals.

(** X13.  When every background row is retained and the solver returns one
    coefficient per retained row, the coefficients come back in the order
    of the templates: zero for a dropped template, and for a retained one
    the coefficient that the solver gave to its row. *)
Lemma coefficients_reported (z : num) (T : list (string * Spectrum))
      (fitter : string) (gu : bool) (F : StackFitter.t) (A : mat)
      (coeffs : vec) (r : FitResult) :
  let fm := StackFitter.fit_mask F in
  let sv := StackFitter.sivarf F in
  let ok := StackFitter.oktemp_of A fm in
  let Next := StackFitter.Next F in
  eval (StackFitter.design_matrix ext z T) F = Ok A ->
  eval (StackFitter.fit_at_z ext z T fitter gu) F = Ok r ->
  length (StackFitter.Abg F) = Next ->
  firstn Next ok = repeat true Next ->
  StackFitter.solver ext fitter
    (StackFitter.AxT_cols (StackFitter.whitened A ok sv) fm)
    (StackFitter.whitened_data (StackFitter.scif F) sv fm) = Ok coeffs ->
  length coeffs = count_true ok ->
  length (full_coeffs r) = length T /\
  forall i, (i < length T)%nat ->
    (nth_error ok (Next + i) = Some false ->
     nth_error (full_coeffs r) i = Some zero) /\
    (nth_error ok (Next + i) = Some true ->
     nth_error (full_coeffs r) i
     = nth_error coeffs (count_true (firstn (Next + i) ok))).
Proof.
  intros fm sv ok Next HA Hfit Hbg Hret Hsolve Hlen.
  apply fit_at_z_inv in Hfit. destruct Hfit as [A' [HA' Hfit]].
  rewrite HA in HA'. inversion HA'; subst A'; clear HA'.
  apply fit_design_inv in Hfit.
  destruct Hfit as [c [bg0 [Hsolve' [_ [_ [_ [_ [Hco _]]]]]]]].
  fold fm sv ok in Hsolve'. rewrite Hsolve in Hsolve'.
  inversion Hsolve'; subst c; clear Hsolve'.
  fold fm ok Next in Hco.
  assert (Hcount : count_true ok = (Next + count_true (skipn Next ok))%nat).
  { rewrite (count_true_split Next ok), Hret, count_true_repeat. reflexivity. }
  assert (Hvals : length (from Next coeffs) = count_true (from Next ok)).
  { unfold from. rewrite length_skipn. lia. }
  apply (@mask_assign_exact _ _ _ _ Hvals) in Hco.
  assert (HlenA : length A = (Next + length T)%nat).
  { rewrite (@design_matrix_length ext z T F A HA). fold Next. lia. }
  assert (Hok : length ok = (Next + length T)%nat).
  { unfold ok. now rewrite oktemp_length. }
  split.
  - rewrite Hco, scatter_length. apply zeros_length.
  - intros i Hi. split; intros Hi'.
    + rewrite Hco, scatter_false.
      * now apply zeros_nth_error.
      * unfold from. now rewrite nth_error_skipn.
    + rewrite Hco, scatter_true.
      * unfold from. rewrite nth_error_skipn. f_equal.
        rewrite (count_true_split Next (firstn (Next + i) ok)).
        rewrite firstn_firstn.
        replace (Nat.min Next (Next + i)) with Next by lia.
        rewrite Hret, count_true_repeat. f_equal.
        rewrite skipn_firstn_comm.
        replace (Next + i - Next)%nat with i by lia. reflexivity.
      * unfold from. now rewrite nth_error_skipn.
      * now rewrite zeros_length.
      * exact Hvals.
Qed.

End Reporting.

(** ** A background row that is dropped *)

Lemma dot_vm_raises (n : nat) (c : vec) (rows : mat) (e : exn) :
  dot_vm n c rows = Raise e -> e = ValueError.
Proof.
  unfold dot_vm. destruct (Nat.eqb (length c) (length rows)); [discriminate|].
  intros H. now inversion H.
Qed.

Lemma mask_assign_raises (dest : vec) (m : list bool) (values : vec) (e : exn) :
  mask_assign dest m values = Raise e -> e = ValueError.
Proof.
  unfold mask_assign. destruct (Nat.eqb (length values) (count_true m));
    [discriminate|].
  destruct values as [|x [|y values]]; try discriminate;
    intros H; now inversion H.
Qed.

(** A value array of another length than the number of True positions
    is written only when it has one entry, at every True position. *)
Lemma mask_assign_broadcast (dest : vec) (m : list bool) (values v : vec) :
  mask_assign dest m values = Ok v -> length values <> count_true m ->
  exists x, values = [x] /\ v = scatter dest m (repeat x (count_true m)).
Proof.
  unfold mask_assign. intros H Hne.
  destruct (Nat.eqb (length values) (count_true m)) eqn:E;
    [apply Nat.eqb_eq in E; contradiction|].
  destruct values as [|x [|y values]]; try discriminate.
  exists x. split; [reflexivity | now inversion H].
Qed.

Lemma count_true_firstn_lt (m : list bool) (i : nat) :
  nth_error m i = Some true -> (count_true (firstn i m) < count_true m)%nat.
Proof.
  revert i. induction m as [|b m IH]; intros [|i] H; simpl in *; try discriminate.
  - inversion H; subst. rewrite count_true_cons. unfold count_true. simpl. lia.
  - rewrite !count_true_cons. specialize (IH _ H). lia.
Qed.

Section DroppedBackground.

Variable ext : Externals.

(** C4 fails when a background row is dropped.  Let the solver return one
    coefficient per retained row.  The slices at [Next] of lines 244 to 265
    then cut the coefficients at the wrong place, and the call raises
    ValueError, unless exactly one coefficient lies behind position [Next]:
    then the call returns, and that one coefficient is reported for every
    retained template, of which there are two or more. *)
Theorem dropped_background_misreports (z : num) (T : list (string * Spectrum))
        (fitter : string) (gu : bool) (F : StackFitter.t) (A : mat)
        (coeffs : vec) :
  let fm := StackFitter.fit_mask F in
  let sv := StackFitter.sivarf F in
  let ok := StackFitter.oktemp_of A fm in
  let Next := StackFitter.Next F in
  eval (StackFitter.design_matrix ext z T) F = Ok A ->
  length (StackFitter.Abg F) = Next ->
  (count_true (firstn Next ok) < Next)%nat ->
  StackFitter.solver ext fitter
    (StackFitter.AxT_cols (StackFitter.whitened A ok sv) fm)
    (StackFitter.whitened_data (StackFitter.scif F) sv fm) = Ok coeffs ->
  length coeffs = count_true ok ->
  eval (StackFitter.fit_at_z ext z T fitter gu) F = Raise ValueError \/
  exists r c,
    eval (StackFitter.fit_at_z ext z T fitter gu) F = Ok r /\
    from Next coeffs = [c] /\
    (2 <= count_true (from Next ok))%nat /\
    forall i, nth_error (from Next ok) i = Some true ->
              nth_error (full_coeffs r) i = Some c.
Proof.
  intros fm sv ok Next HA Hbg Hdrop Hsolve Hlen.
  assert (HlenA : length A = (Next + length T)%nat)
    by (rewrite (design_matrix_length _ _ _ _ HA), Hbg; reflexivity).
  assert (Hok : length ok = length A) by apply oktemp_length.
  assert (Hcount := count_true_split Next ok).
  rewrite fit_at_z_eval, HA. cbn [rbind]. unfold StackFitter.fit_design.
  fold fm sv ok Next. rewrite Hsolve. cbn [rbind].
  destruct (dot_vm (StackFitter.Ndata F) (upto Next coeffs) (upto Next A))
    as [bg0|e] eqn:Hb;
    [|left; cbn [rbind]; f_equal; now apply dot_vm_raises in Hb].
  cbn [rbind].
  destruct (dot_vm (StackFitter.Ndata F) (from Next coeffs) _) as [fl|e] eqn:Hf;
    [|left; cbn [rbind]; f_equal; now apply dot_vm_raises in Hf].
  cbn [rbind].
  destruct (mask_assign (zeros (length T)) (from Next ok) (from Next coeffs))
    as [fc|e] eqn:Hfc;
    [|left; cbn [rbind]; f_equal; now apply mask_assign_raises in Hfc].
  cbn [rbind].
  match goal with
  | |- context [mask_assign ?d ?m ?v] =>
      destruct (mask_assign d m v) as [fe|e] eqn:Hfe;
        [|left; cbn [rbind]; f_equal; now apply mask_assign_raises in Hfe]
  end.
  cbn [rbind]. right.
  apply dot_vm_ok in Hb. destruct Hb as [Hl _].
  unfold upto in Hl. rewrite !length_firstn in Hl.
  assert (Hge : (Next <= length coeffs)%nat) by lia.
  assert (Hshort : length (from Next coeffs) <> count_true (from Next ok)).
  { unfold from in *. rewrite length_skipn. lia. }
  destruct (@mask_assign_broadcast _ _ _ _ Hfc Hshort) as [c [Hc Hfcv]].
  assert (Hone : length (from Next coeffs) = 1%nat) by now rewrite Hc.
  unfold from in Hone. rewrite length_skipn in Hone.
  eexists. exists c. split; [reflexivity|]. split; [exact Hc|].
  split; [unfold from; lia|].
  intros i Hi. cbn [full_coeffs]. rewrite Hfcv.
  rewrite scatter_true.
  - apply nth_error_repeat. now apply count_true_firstn_lt.
  - exact Hi.
  - rewrite zeros_length.
    assert (Hlt : (i < length (from Next ok))%nat)
      by (apply nth_error_Some; congruence).
    unfold from in Hlt. rewrite length_skipn in Hlt. lia.
  - apply repeat_length.
Qed.

End DroppedBackground.

Lemma fitter_dw_built :
  StackFitter.init Sample.ext zero (Fin (qc 1 10)) one
    [Sample.exposure_dead_w; Sample.exposure_w]
  = Ok Sample.fitter_dw.
Proof. vm_compute. reflexivity. Qed.

(** The fit of [fitter_dw] with the level template: the background row of
    the exposure without weight is dropped, one coefficient is left for the
    template, and the call raises. *)
Lemma single_template_raises :
  StackFitter.oktemp_of SampleRuns.design_dw (StackFitter.fit_mask Sample.fitter_dw)
  = [false; true; true]
  /\ length SampleRuns.coeffs_dw = 2%nat
  /\ eval (StackFitter.fit_at_z Sample.ext zero [Sample.level] "nnls" false)
          Sample.fitter_dw = Raise ValueError.
Proof. vm_conj. Qed.

Lemma dropped_background_sample :
  eval (StackFitter.fit_at_z Sample.ext zero [Sample.level] "nnls" false)
       Sample.fitter_dw = Raise ValueError \/
  exists r c,
    eval (StackFitter.fit_at_z Sample.ext zero [Sample.level] "nnls" false)
         Sample.fitter_dw = Ok r /\
    from (StackFitter.Next Sample.fitter_dw) SampleRuns.coeffs_dw = [c] /\
    (2 <= count_true (from (StackFitter.Next Sample.fitter_dw)
                           (StackFitter.oktemp_of SampleRuns.design_dw
                              (StackFitter.fit_mask Sample.fitter_dw))))%nat /\
    forall i,
      nth_error (from (StackFitter.Next Sample.fitter_dw)
                      (StackFitter.oktemp_of SampleRuns.design_dw
                         (StackFitter.fit_mask Sample.fitter_dw))) i = Some true ->
      nth_error (full_coeffs r) i = Some c.
Proof.
  apply (@dropped_background_misreports Sample.ext zero [Sample.level] "nnls"
           false Sample.fitter_dw SampleRuns.design_dw SampleRuns.coeffs_dw).
  - vm_compute. reflexivity.
  - reflexivity.
  - vm_compute. lia.
  - vm_compute. reflexivity.
  - reflexivity.
Defined.

(** * Further properties of the module *)

(** ** The wavelength grid *)

Lemma qc_succ (i : nat) : (qc (Z.of_nat (S i)) 1 = qc (Z.of_nat i) 1 + Q2Qc 1)%Qc.
Proof.
  apply Qc_is_canon. unfold qc, Qcplus, Q2Qc. cbn [this].
  rewrite !Qred_correct.
  unfold Qeq, Qplus. cbn [Qnum Qden]. lia.
Qed.

Lemma wave_nth (h : Extension) (i : nat) :
  (i < NAXIS1 h)%nat ->
  nth i (StackedSpectrum.get_wavelength_from_header h) NaN
  = (of_nat i + one - CRPIX1 h) * CD1_1 h + CRVAL1 h.
Proof.
  intros Hi. unfold StackedSpectrum.get_wavelength_from_header.
  rewrite (@map_nth_lt _ _ _ _ i NaN 0%nat) by (rewrite length_seq; lia).
  rewrite seq_nth by lia. reflexivity.
Qed.

(** X1.  The wavelengths that [get_wavelength_from_header] builds for
    finite keywords, in exact arithmetic: one per column of the image, the
    wavelength of column [i] (counted from 0) being
    [(i + 1 - CRPIX1) * CD1_1 + CRVAL1]; they are spaced by [CD1_1], and the
    value is [CRVAL1] at the pixel that [CRPIX1] names (counted from 1). *)
Theorem wavelength_grid (h : Extension) (p d v : Qc) :
  CRPIX1 h = Fin p -> CD1_1 h = Fin d -> CRVAL1 h = Fin v ->
  let w := StackedSpectrum.get_wavelength_from_header h in
  length w = NAXIS1 h /\
  (forall i, (i < NAXIS1 h)%nat ->
             nth i w NaN = Fin ((qc (Z.of_nat i) 1 + qc 1 1 - p) * d + v)%Qc) /\
  (forall i, (S i < NAXIS1 h)%nat -> nth (S i) w NaN - nth i w NaN = Fin d) /\
  (forall k, (k < NAXIS1 h)%nat -> p = qc (Z.of_nat (S k)) 1 ->
             nth k w NaN = Fin v).
Proof.
  intros Hp Hd Hv w. subst w. split; [|split; [|split]].
  - unfold StackedSpectrum.get_wavelength_from_header.
    now rewrite length_map, length_seq.
  - intros i Hi. rewrite wave_nth by exact Hi. rewrite Hp, Hd, Hv. reflexivity.
  - intros i Hi. rewrite !wave_nth by lia. rewrite Hp, Hd, Hv.
    unfold of_nat, of_Z, one. rewrite qc_succ. simpl. f_equal.
    rewrite qc_one. ring.
  - intros k Hk ->. rewrite wave_nth by lia. rewrite Hp, Hd, Hv.
    unfold of_nat, of_Z, one. rewrite qc_succ. simpl. f_equal.
    rewrite qc_one. ring.
Qed.

(** ** The slices of the combined arrays *)

Lemma fold_add_sum (l : list nat) (a : nat) :
  fold_left Nat.add l a = (a + list_sum l)%nat.
Proof.
  revert a. induction l as [|n l IH]; intros a; simpl; [lia|].
  rewrite IH. lia.
Qed.

Lemma get_slices_from_length (sizes : list nat) (x : nat) :
  length (StackFitter.get_slices_from x sizes) = length sizes.
Proof.
  revert x. induction sizes as [|n sizes IH]; intros x; simpl; [reflexivity|].
  now rewrite IH.
Qed.

Lemma get_slices_from_nth (sizes : list nat) :
  forall x i n,
    nth_error sizes i = Some n ->
    nth_error (StackFitter.get_slices_from x sizes) i
    = Some ((x + list_sum (firstn i sizes))%nat,
            (x + list_sum (firstn i sizes) + n)%nat).
Proof.
  induction sizes as [|m sizes IH]; intros x [|i] n H; simpl in *;
    try discriminate.
  - inversion H; subst. do 2 f_equal; lia.
  - rewrite (IH _ _ _ H). do 2 f_equal; lia.
Qed.

Lemma list_sum_firstn_S (l : list nat) (k n : nat) :
  nth_error l k = Some n ->
  list_sum (firstn (S k) l) = (list_sum (firstn k l) + n)%nat.
Proof.
  revert k. induction l as [|m l IH]; intros [|k] H; simpl in *;
    try discriminate.
  - inversion H. lia.
  - specialize (IH _ H). simpl in IH. lia.
Qed.

Lemma list_sum_firstn_le (l : list nat) (k i : nat) :
  (k <= i)%nat -> (list_sum (firstn k l) <= list_sum (firstn i l))%nat.
Proof.
  revert k i. induction l as [|m l IH]; intros [|k] [|i] H; simpl; try lia.
  specialize (IH k i). lia.
Qed.

Lemma list_sum_firstn_all (l : list nat) (i : nat) :
  (list_sum (firstn i l) <= list_sum l)%nat.
Proof.
  revert i. induction l as [|m l IH]; intros [|i]; simpl; try lia.
  specialize (IH i). lia.
Qed.

(** The position of a pixel among consecutive blocks of the given sizes. *)
Lemma block_of_pixel (sizes : list nat) (p : nat) :
  (p < list_sum sizes)%nat ->
  exists i n, nth_error sizes i = Some n /\
              (list_sum (firstn i sizes) <= p < list_sum (firstn i sizes) + n)%nat.
Proof.
  revert p. induction sizes as [|m sizes IH]; intros p H; simpl in H; [lia|].
  destruct (Nat.ltb p m) eqn:Hpm.
  - apply Nat.ltb_lt in Hpm. exists 0%nat, m. simpl. split; [reflexivity | lia].
  - apply Nat.ltb_ge in Hpm.
    destruct (IH (p - m)%nat) as [i [n [Hn Hr]]]; [lia|].
    exists (S i), n. simpl. split; [exact Hn | lia].
Qed.

Lemma get_slice_concat {A} (vs : list (list A)) :
  forall i v,
    nth_error vs i = Some v ->
    get_slice (concat vs)
              (list_sum (map (@length A) (firstn i vs)),
               (list_sum (map (@length A) (firstn i vs)) + length v)%nat)
    = v.
Proof.
  unfold get_slice. simpl.
  induction vs as [|u vs IH]; intros [|i] v H; simpl in *; try discriminate.
  - inversion H; subst.
    replace (length v - 0)%nat with (length v) by lia.
    rewrite firstn_app, firstn_all. 
    replace (length v - length v)%nat with 0%nat by lia. simpl.
    now rewrite app_nil_r.
  - specialize (IH _ _ H).
    rewrite skipn_app.
    rewrite (skipn_all2 u) by lia. simpl.
    replace (length u + list_sum (map (@length A) (firstn i vs)) - length u)%nat
      with (list_sum (map (@length A) (firstn i vs))) by lia.
    rewrite <- IH at 2. f_equal. lia.
Qed.

Section Layout.

Variable ext : Externals.

Lemma spectrum_size sys_err mask_min mask_threshold fcontam h E :
  StackedSpectrum.init ext sys_err mask_min mask_threshold fcontam h = Ok E ->
  StackedSpectrum.size E = length (StackedSpectrum.scif E).
Proof.
  intros H. apply init_fields in H. destruct H as [hist H].
  apply init_traced_fields in H. destruct H as [_ [Hs [Hz _]]].
  now rewrite Hs, Hz.
Qed.

Lemma fitter_layout sys_err mask_min fcontam exts F :
  StackFitter.init ext sys_err mask_min fcontam exts = Ok F ->
  StackFitter.Next F = length (StackFitter.E F) /\
  StackFitter.Ndata F = total_size (StackFitter.E F) /\
  StackFitter.slices F = StackFitter.get_slices (StackFitter.E F) /\
  StackFitter.Abg F
  = StackFitter.init_background (StackFitter.Ndata F) (StackFitter.slices F) /\
  Forall (fun E => StackedSpectrum.size E = length (StackedSpectrum.scif E))
         (StackFitter.E F).
Proof.
  unfold StackFitter.init. intros H. rdestruct H.
  inversion H; subst; clear H. simpl.
  apply collect_spectra in E. destruct E as [Es [-> HF]]. simpl.
  repeat split.
  - exact (Forall2_length HF).
  - unfold total_size. now rewrite fold_add_sum.
  - clear - HF. induction HF as [|h E exts Es H HF IH]; constructor.
    + eapply spectrum_size. exact H.
    + exact IH.
Qed.

End Layout.

Lemma firstn_map_comm {A B} (f : A -> B) (l : list A) (i : nat) :
  firstn i (map f l) = map f (firstn i l).
Proof. apply firstn_map. Qed.

Lemma get_slices_nth (Es : list StackedSpectrum.t) (i : nat) (Ei : StackedSpectrum.t) :
  nth_error Es i = Some Ei ->
  nth_error (StackFitter.get_slices Es) i
  = Some (total_size (firstn i Es),
          (total_size (firstn i Es) + StackedSpectrum.size Ei)%nat).
Proof.
  intros H. unfold StackFitter.get_slices, total_size.
  rewrite (@get_slices_from_nth (map StackedSpectrum.size Es) 0 i
             (StackedSpectrum.size Ei)).
  - now rewrite firstn_map_comm.
  - now rewrite nth_error_map, H.
Qed.

Lemma get_slices_inv (Es : list StackedSpectrum.t) (i : nat) (sl : nat * nat) :
  nth_error (StackFitter.get_slices Es) i = Some sl ->
  exists Ei, nth_error Es i = Some Ei /\
             sl = (total_size (firstn i Es),
                   (total_size (firstn i Es) + StackedSpectrum.size Ei)%nat).
Proof.
  intros H.
  assert (Hi : (i < length Es)%nat).
  { assert (H' : nth_error (StackFitter.get_slices Es) i <> None) by congruence.
    apply nth_error_Some in H'. unfold StackFitter.get_slices in H'.
    now rewrite get_slices_from_length, length_map in H'. }
  destruct (nth_error Es i) as [Ei|] eqn:HE.
  - exists Ei. split; [reflexivity|].
    rewrite (@get_slices_nth Es i Ei HE) in H. now inversion H.
  - apply nth_error_None in HE. lia.
Qed.

Lemma In_firstn {A} (l : list A) (n : nat) (x : A) :
  In x (firstn n l) -> In x l.
Proof.
  intros H. rewrite <- (firstn_skipn n l). apply in_or_app. now left.
Qed.

Section Tiling.

Variable ext : Externals.
Variables sys_err mask_min fcontam : num.
Variable exts : list Extension.
Variable F : StackFitter.t.
Hypothesis Hinit : StackFitter.init ext sys_err mask_min fcontam exts = Ok F.

Lemma slices_length : length (StackFitter.slices F) = StackFitter.Next F.
Proof.
  destruct (@fitter_layout _ _ _ _ _ _ Hinit) as [HN [_ [Hs _]]].
  rewrite Hs, HN. unfold StackFitter.get_slices.
  now rewrite get_slices_from_length, length_map.
Qed.

Lemma slices_within (i : nat) (sl : nat * nat) :
  nth_error (StackFitter.slices F) i = Some sl ->
  (fst sl <= snd sl <= StackFitter.Ndata F)%nat.
Proof.
  destruct (@fitter_layout _ _ _ _ _ _ Hinit) as [HN [Hd [Hs _]]].
  rewrite Hs, Hd. intros H. apply get_slices_inv in H.
  destruct H as [Ei [HE ->]]. simpl. split; [lia|].
  unfold total_size.
  rewrite <- firstn_map_comm.
  rewrite <- (@list_sum_firstn_S (map StackedSpectrum.size (StackFitter.E F)) i)
    by (now rewrite nth_error_map, HE).
  apply list_sum_firstn_all.
Qed.

Lemma slices_extent (i : nat) (sl : nat * nat) (Ei : StackedSpectrum.t) :
  nth_error (StackFitter.slices F) i = Some sl ->
  nth_error (StackFitter.E F) i = Some Ei ->
  snd sl = (fst sl + StackedSpectrum.size Ei)%nat.
Proof.
  destruct (@fitter_layout _ _ _ _ _ _ Hinit) as [_ [_ [Hs _]]].
  rewrite Hs. intros H HE. apply get_slices_inv in H.
  destruct H as [Ei' [HE' ->]]. simpl. congruence.
Qed.

(** X2.  The slices of a constructed fitter tile the combined arrays: there
    is one per exposure, the first one starts at 0, each one starts where
    the one before it ends and is as long as its exposure, and the last one
    ends at [Ndata], the number of pixels of all the exposures. *)
Theorem slices_tile :
  StackFitter.Ndata F = total_size (StackFitter.E F) /\
  length (StackFitter.slices F) = StackFitter.Next F /\
  (forall sl, nth_error (StackFitter.slices F) 0 = Some sl -> fst sl = 0%nat) /\
  (forall i sl sl', nth_error (StackFitter.slices F) i = Some sl ->
                    nth_error (StackFitter.slices F) (S i) = Some sl' ->
                    fst sl' = snd sl) /\
  (forall i sl Ei, nth_error (StackFitter.slices F) i = Some sl ->
                   nth_error (StackFitter.E F) i = Some Ei ->
                   snd sl = (fst sl + StackedSpectrum.size Ei)%nat) /\
  (forall i sl, nth_error (StackFitter.slices F) i = Some sl ->
                S i = StackFitter.Next F -> snd sl = StackFitter.Ndata F).
Proof.
  destruct (@fitter_layout _ _ _ _ _ _ Hinit) as [HN [Hd [Hs _]]].
  split; [exact Hd|].
  split; [apply slices_length|]. rewrite Hs, Hd, HN.
  split; [|split; [|split]].
  - intros sl H. apply get_slices_inv in H. destruct H as [Ei [_ ->]].
    reflexivity.
  - intros i sl sl' H H'. apply get_slices_inv in H, H'.
    destruct H as [Ei [HE ->]]. destruct H' as [Ei' [_ ->]]. cbn [fst snd].
    unfold total_size. rewrite <- !firstn_map_comm.
    apply list_sum_firstn_S. now rewrite nth_error_map, HE.
  - intros i sl Ei H HE. apply get_slices_inv in H.
    destruct H as [Ei' [HE' ->]]. simpl. congruence.
  - intros i sl H Hlast. apply get_slices_inv in H.
    destruct H as [Ei [HE ->]]. simpl.
    unfold total_size. rewrite <- firstn_map_comm.
    rewrite <- (@list_sum_firstn_S (map StackedSpectrum.size (StackFitter.E F)) i)
      by (now rewrite nth_error_map, HE).
    rewrite firstn_all2; [reflexivity|]. rewrite length_map. lia.
Qed.

(** X3.  Reading the combined science array of a constructed fitter
    through slice [i] gives back the science pixels of exposure [i]. *)
Theorem slices_recover (i : nat) (sl : nat * nat) (Ei : StackedSpectrum.t) :
  nth_error (StackFitter.slices F) i = Some sl ->
  nth_error (StackFitter.E F) i = Some Ei ->
  get_slice (StackFitter.scif F) sl = StackedSpectrum.scif Ei.
Proof.
  destruct (@fitter_layout _ _ _ _ _ _ Hinit) as [HN [Hd [Hs [_ Hsz]]]].
  destruct (@fitter_fields _ _ _ _ _ _ Hinit) as [Es [_ [HE [Hsc _]]]].
  rewrite Hs, Hsc, <- HE. intros H HEi.
  apply get_slices_inv in H. destruct H as [Ei' [HE' ->]].
  assert (Ei' = Ei) by congruence. subst Ei'.
  assert (Hsum : forall l : list StackedSpectrum.t,
             Forall (fun E => StackedSpectrum.size E = length (StackedSpectrum.scif E)) l ->
             total_size l = list_sum (map (@length num) (map StackedSpectrum.scif l))).
  { intros l Hl. unfold total_size. induction Hl as [|E l HE0 Hl IH]; simpl.
    - reflexivity.
    - rewrite IH. unfold vec in *. lia. }
  rewrite Hsum.
  - rewrite (Forall_forall _ _) in Hsz.
    rewrite (Hsz Ei) by (eapply nth_error_In; exact HEi).
    rewrite <- firstn_map_comm.
    apply get_slice_concat. now rewrite nth_error_map, HEi.
  - clear - Hsz. rewrite Forall_forall in *. intros E HIn. apply Hsz.
    eapply In_firstn. exact HIn.
Qed.

End Tiling.

(** ** The background rows *)

Lemma firstn_repeat_le {A} (x : A) (a n : nat) :
  (a <= n)%nat -> firstn a (repeat x n) = repeat x a.
Proof.
  revert n. induction a as [|a IH]; intros [|n] H; simpl; try reflexivity; try lia.
  f_equal. apply IH. lia.
Qed.

Lemma indicator_row (n a b : nat) :
  (a <= b <= n)%nat ->
  set_slice (zeros n) a b (ones (b - a))
  = repeat zero a ++ repeat one (b - a) ++ repeat zero (n - b).
Proof.
  intros H. unfold set_slice. rewrite (skipn_zeros b n).
  unfold zeros, ones. now rewrite firstn_repeat_le by lia.
Qed.

Lemma indicator_length (n a b : nat) :
  (a <= b <= n)%nat -> length (set_slice (zeros n) a b (ones (b - a))) = n.
Proof.
  intros H. rewrite indicator_row by exact H.
  rewrite !length_app, !repeat_length. lia.
Qed.

Lemma indicator_nth (n a b p : nat) :
  (a <= b <= n)%nat -> (p < n)%nat ->
  nth p (set_slice (zeros n) a b (ones (b - a))) NaN
  = if (a <=? p)%nat && (p <? b)%nat then one else zero.
Proof.
  intros H Hp. rewrite indicator_row by exact H.
  destruct (a <=? p)%nat eqn:Ha; simpl.
  - apply Nat.leb_le in Ha.
    rewrite app_nth2 by (rewrite repeat_length; lia). rewrite repeat_length.
    destruct (p <? b)%nat eqn:Hb.
    + apply Nat.ltb_lt in Hb.
      rewrite app_nth1 by (rewrite repeat_length; lia).
      apply nth_repeat_lt. lia.
    + apply Nat.ltb_ge in Hb.
      rewrite app_nth2 by (rewrite repeat_length; lia). rewrite repeat_length.
      apply nth_repeat_lt. lia.
  - apply Nat.leb_gt in Ha.
    rewrite app_nth1 by (rewrite repeat_length; lia).
    apply nth_repeat_lt. lia.
Qed.

Section Background.

Variable ext : Externals.
Variables sys_err mask_min fcontam : num.
Variable exts : list Extension.
Variable F : StackFitter.t.
Hypothesis Hinit : StackFitter.init ext sys_err mask_min fcontam exts = Ok F.

Lemma Abg_nth (i : nat) (sl : nat * nat) :
  nth_error (StackFitter.slices F) i = Some sl ->
  nth_error (StackFitter.Abg F) i
  = Some (set_slice (zeros (StackFitter.Ndata F)) (fst sl) (snd sl)
                    (ones (snd sl - fst sl))).
Proof.
  destruct (@fitter_layout _ _ _ _ _ _ Hinit) as [_ [_ [_ [HA _]]]].
  intros H. rewrite HA. unfold StackFitter.init_background.
  now rewrite nth_error_map, H.
Qed.

Lemma Abg_length : length (StackFitter.Abg F) = StackFitter.Next F.
Proof.
  destruct (@fitter_layout _ _ _ _ _ _ Hinit) as [_ [_ [_ [HA _]]]].
  rewrite HA. unfold StackFitter.init_background. rewrite length_map.
  apply (@slices_length _ _ _ _ _ _ Hinit).
Qed.

Lemma Abg_rows :
  Forall (fun row => length row = StackFitter.Ndata F) (StackFitter.Abg F).
Proof.
  destruct (@fitter_layout _ _ _ _ _ _ Hinit) as [_ [_ [_ [HA _]]]].
  rewrite HA. unfold StackFitter.init_background.
  apply Forall_forall. intros row HIn. apply in_map_iff in HIn.
  destruct HIn as [sl [<- HIn]]. apply In_nth_error in HIn.
  destruct HIn as [i Hi]. apply indicator_length.
  eapply slices_within; eassumption.
Qed.

(** X4.  The background rows of a constructed fitter are the indicator
    functions of the exposures: there is one row of [Ndata] entries per
    exposure, row [i] is 1 on the pixels of slice [i] and 0 elsewhere, and
    every pixel of the combined array has the value 1 in exactly one row. *)
Theorem background_partition :
  length (StackFitter.Abg F) = StackFitter.Next F /\
  Forall (fun row => length row = StackFitter.Ndata F) (StackFitter.Abg F) /\
  (forall i sl row p,
      nth_error (StackFitter.slices F) i = Some sl ->
      nth_error (StackFitter.Abg F) i = Some row ->
      (p < StackFitter.Ndata F)%nat ->
      nth p row NaN = if (fst sl <=? p)%nat && (p <? snd sl)%nat then one else zero) /\
  (forall p, (p < StackFitter.Ndata F)%nat ->
     exists i row,
       nth_error (StackFitter.Abg F) i = Some row /\ nth p row NaN = one /\
       forall k row', k <> i -> nth_error (StackFitter.Abg F) k = Some row' ->
                      nth p row' NaN = zero).
Proof.
  split; [apply Abg_length|]. split; [apply Abg_rows|].
  assert (Hrow : forall i sl row p,
             nth_error (StackFitter.slices F) i = Some sl ->
             nth_error (StackFitter.Abg F) i = Some row ->
             (p < StackFitter.Ndata F)%nat ->
             nth p row NaN
             = if (fst sl <=? p)%nat && (p <? snd sl)%nat then one else zero).
  { intros i sl row p Hsl Hr Hp. rewrite (Abg_nth _ Hsl) in Hr.
    inversion Hr; subst. apply indicator_nth; [|exact Hp].
    eapply slices_within; eassumption. }
  split; [exact Hrow|].
  intros p Hp.
  destruct (@fitter_layout _ _ _ _ _ _ Hinit) as [HN [Hd [Hs _]]].
  rewrite Hd in Hp. unfold total_size in Hp.
  destruct (block_of_pixel _ Hp) as [i [n [Hn Hr]]].
  rewrite nth_error_map in Hn.
  destruct (nth_error (StackFitter.E F) i) as [Ei|] eqn:HE; [|discriminate].
  simpl in Hn. inversion Hn; subst n. clear Hn.
  assert (Hsl := @get_slices_nth _ _ _ HE). rewrite <- Hs in Hsl.
  rewrite firstn_map_comm in Hr. fold (total_size (firstn i (StackFitter.E F))) in Hr.
  eexists i, _. split; [apply (Abg_nth _ Hsl)|]. split.
  - rewrite indicator_nth.
    + cbn [fst snd].
      replace (total_size (firstn i (StackFitter.E F)) <=? p)%nat with true
        by (symmetry; apply Nat.leb_le; lia).
      replace (p <? total_size (firstn i (StackFitter.E F)) + StackedSpectrum.size Ei)%nat
        with true by (symmetry; apply Nat.ltb_lt; lia).
      reflexivity.
    + eapply slices_within; eassumption.
    + rewrite Hd. unfold total_size. exact Hp.
  - intros k row' Hk Hrow'.
    assert (Hlt : (k < length (StackFitter.slices F))%nat).
    { rewrite (@slices_length _ _ _ _ _ _ Hinit), <- Abg_length. apply nth_error_Some. congruence. }
    destruct (nth_error (StackFitter.slices F) k) as [slk|] eqn:Hslk;
      [|apply nth_error_None in Hslk; lia].
    rewrite (Hrow k slk row' p Hslk Hrow')
      by (rewrite Hd; unfold total_size; exact Hp).
    rewrite Hs in Hslk. apply get_slices_inv in Hslk.
    destruct Hslk as [Ek [HEk ->]]. cbn [fst snd].
    assert (Hcases : (k < i \/ i < k)%nat) by lia.
    unfold total_size in *. rewrite <- !firstn_map_comm in *.
    assert (HSk := @list_sum_firstn_S (map StackedSpectrum.size (StackFitter.E F)) k
                     (StackedSpectrum.size Ek)).
    rewrite nth_error_map, HEk in HSk. specialize (HSk eq_refl).
    assert (HSi := @list_sum_firstn_S (map StackedSpectrum.size (StackFitter.E F)) i
                     (StackedSpectrum.size Ei)).
    rewrite nth_error_map, HE in HSi. specialize (HSi eq_refl).
    destruct Hcases as [Hki|Hik].
    + assert (Hle := @list_sum_firstn_le (map StackedSpectrum.size (StackFitter.E F))
                       (S k) i ltac:(lia)).
      replace (p <? _)%nat with false; [now rewrite andb_false_r|].
      symmetry. apply Nat.ltb_ge. lia.
    + assert (Hle := @list_sum_firstn_le (map StackedSpectrum.size (StackFitter.E F))
                       (S i) k ltac:(lia)).
      replace (_ <=? p)%nat with false; [reflexivity|].
      symmetry. apply Nat.leb_gt. lia.
Qed.

End Background.

(** ** The shapes of the arrays *)

Lemma flatten_length (rows cols : nat) (m : mat) :
  shaped rows cols m -> length (flatten m) = (rows * cols)%nat.
Proof.
  intros [Hl Hf]. subst rows. unfold flatten.
  induction Hf as [|r m Hr Hf IH]; simpl; [reflexivity|].
  rewrite length_app, IH, Hr. reflexivity.
Qed.

Lemma bcast_same {A} (n : nat) (l : list A) : length l = n -> bcast n l = Ok l.
Proof. intros H. unfold bcast. now rewrite H, Nat.eqb_refl. Qed.

Lemma bcast_length {A} (n : nat) (l c : list A) :
  bcast n l = Ok c -> length c = n.
Proof.
  unfold bcast. destruct (Nat.eqb (length l) n) eqn:E.
  - intros H. inversion H; subst. now apply Nat.eqb_eq.
  - destruct l as [|x [|y l]]; try discriminate.
    intros H. inversion H. apply repeat_length.
Qed.

Lemma mask_and_length (a b : list bool) :
  length b = length a -> length (mask_and a b) = length a.
Proof. intros H. unfold mask_and. rewrite map2_length. lia. Qed.

Lemma iand_length (dest rhs m : list bool) :
  iand dest rhs = Ok m -> length m = length dest.
Proof.
  intros H. apply iand_ok in H. destruct H as [c [Hc ->]].
  apply mask_and_length. eapply bcast_length. exact Hc.
Qed.

Section SpectrumShapes.

Variable ext : Externals.

Lemma contamination_length fcontam h c w cf wf :
  consistent h ->
  StackedSpectrum.contamination ext fcontam h = Ok (c, w, cf, wf) ->
  length wf = (NAXIS2 h * NAXIS1 h)%nat.
Proof.
  intros [Hs [Hw Hc]]. unfold StackedSpectrum.contamination.
  destruct (CONTAM h) as [cm|].
  - rewrite (@bzip2_shaped _ (NAXIS2 h) (NAXIS1 h)).
    + simpl. intros H. inversion H; subst.
      apply flatten_length. apply shaped_map2; [|exact Hw].
      apply shaped_map; [|exact Hc]. intros r Hr. now rewrite length_map.
    + apply shaped_map; [|exact Hc]. intros r Hr. now rewrite length_map.
    + exact Hw.
  - intros H. inversion H; subst. rewrite length_map.
    now apply flatten_length.
Qed.

Lemma spectrum_shapes sys_err mask_min mask_threshold fcontam h E hist :
  consistent h ->
  StackedSpectrum.init_traced ext sys_err mask_min mask_threshold fcontam h
    = Ok (E, hist) ->
  let n := (NAXIS2 h * NAXIS1 h)%nat in
  StackedSpectrum.size E = n /\
  length (StackedSpectrum.scif E) = n /\
  length (StackedSpectrum.ivarf E) = n /\
  length (StackedSpectrum.sivarf E) = n /\
  length (StackedSpectrum.fit_mask E) = n /\
  length (StackedSpectrum.weightf E) = n.
Proof.
  intros Hc H n. assert (Hc' := Hc). destruct Hc' as [Hs [Hw _]].
  assert (HS := flatten_length Hs). assert (HW := flatten_length Hw).
  unfold StackedSpectrum.init_traced in H. rdestruct H.
  inversion H; subst; clear H. cbn.
  rewrite bzip_same_length in E0 by (unfold vec in *; lia).
  inversion E0; subst x; clear E0.
  assert (Hiv : length (map2 (StackedSpectrum.floor_ivar sys_err)
                             (flatten (WHT h)) (flatten (SCI h))) = n).
  { rewrite map2_length. unfold vec in *. subst n. lia. }
  assert (Hm1 : length (StackedSpectrum.mask_positive
                          (map2 (StackedSpectrum.floor_ivar sys_err)
                                (flatten (WHT h)) (flatten (SCI h)))) = n).
  { unfold StackedSpectrum.mask_positive. now rewrite length_map. }
  apply iand_length in E3. apply iand_length in E9.
  repeat split.
  - exact HS.
  - exact HS.
  - exact Hiv.
  - apply reshape_shaped in E1. apply flatten_length.
    apply shaped_map; [|exact E1]. intros r Hr. now rewrite length_map.
  - rewrite E9, E3. exact Hm1.
  - eapply contamination_length; eassumption.
Qed.

End SpectrumShapes.

Lemma concat_length_sizes (f : StackedSpectrum.t -> list num) (Es : list StackedSpectrum.t) :
  Forall (fun E => length (f E) = StackedSpectrum.size E) Es ->
  length (concat (map f Es)) = total_size Es.
Proof.
  intros H. unfold total_size. induction H as [|E Es HE H IH]; simpl.
  - reflexivity.
  - rewrite length_app, IH, HE. reflexivity.
Qed.

Lemma concat_length_sizes_bool (f : StackedSpectrum.t -> list bool)
      (Es : list StackedSpectrum.t) :
  Forall (fun E => length (f E) = StackedSpectrum.size E) Es ->
  length (concat (map f Es)) = total_size Es.
Proof.
  intros H. unfold total_size. induction H as [|E Es HE H IH]; simpl.
  - reflexivity.
  - rewrite length_app, IH, HE. reflexivity.
Qed.

Section FitterShapes.

Variable ext : Externals.
Variables sys_err mask_min fcontam : num.
Variable exts : list Extension.
Variable F : StackFitter.t.
Hypothesis Hinit : StackFitter.init ext sys_err mask_min fcontam exts = Ok F.
Hypothesis Hcons : Forall consistent exts.

Lemma spectra_shapes :
  Forall (fun E =>
            length (StackedSpectrum.scif E) = StackedSpectrum.size E /\
            length (StackedSpectrum.ivarf E) = StackedSpectrum.size E /\
            length (StackedSpectrum.fit_mask E) = StackedSpectrum.size E /\
            length (StackedSpectrum.weightf E) = StackedSpectrum.size E /\
            StackedSpectrum.size E
            = (fst (StackedSpectrum.sh E) * snd (StackedSpectrum.sh E))%nat)
         (StackFitter.E F).
Proof.
  destruct (@fitter_fields _ _ _ _ _ _ Hinit) as [Es [HF [-> _]]].
  clear Hinit. induction HF as [|h E exts' Es H HF IH]; constructor.
  - inversion Hcons; subst.
    apply init_fields in H. destruct H as [hist H].
    destruct (@spectrum_shapes ext _ _ _ _ _ _ _ H2 H) as [H5 [H6 [H7 [_ [H8 H9]]]]].
    apply init_traced_fields in H. destruct H as [Hsh _].
    rewrite Hsh. cbn [fst snd]. rewrite H5. repeat split; assumption.
  - apply IH. now inversion Hcons.
Qed.

(** Every combined array of the fitter has [Ndata] entries. *)
Lemma fitter_shapes :
  length (StackFitter.scif F) = StackFitter.Ndata F /\
  length (StackFitter.ivarf F) = StackFitter.Ndata F /\
  length (StackFitter.sivarf F) = StackFitter.Ndata F /\
  length (StackFitter.fit_mask F) = StackFitter.Ndata F /\
  length (StackFitter.weightf F) = StackFitter.Ndata F.
Proof.
  destruct (@fitter_layout _ _ _ _ _ _ Hinit) as [_ [Hd _]].
  assert (Hsh := spectra_shapes).
  destruct (@fitter_fields _ _ _ _ _ _ Hinit)
    as [Es [_ [HE [Hsc [Hw [Hfm [[wb [Hwb Hiv]] [Hsv _]]]]]]]].
  rewrite HE in *. rewrite Hd.
  assert (H1 : length (concat (map StackedSpectrum.scif Es)) = total_size Es).
  { apply concat_length_sizes. eapply Forall_impl; [|exact Hsh]. intros E0 [? [? [? [? ?]]]]; assumption. }
  assert (H2 : length (concat (map StackedSpectrum.ivarf Es)) = total_size Es).
  { apply concat_length_sizes. eapply Forall_impl; [|exact Hsh]. intros E0 [? [? [? [? ?]]]]; assumption. }
  assert (H3 : length (concat (map StackedSpectrum.fit_mask Es)) = total_size Es).
  { apply concat_length_sizes_bool. eapply Forall_impl; [|exact Hsh]. intros E0 [? [? [? [? ?]]]]; assumption. }
  assert (H4 : length (concat (map StackedSpectrum.weightf Es)) = total_size Es).
  { apply concat_length_sizes. eapply Forall_impl; [|exact Hsh]. intros E0 [? [? [? [? ?]]]]; assumption. }
  assert (H5 : length (StackFitter.ivarf F) = total_size Es).
  { rewrite Hiv. unfold vmul. rewrite map2_length.
    apply bcast_length in Hwb. unfold vec in *. lia. }
  repeat split.
  - now rewrite Hsc.
  - exact H5.
  - rewrite Hsv, length_map. exact H5.
  - now rewrite Hfm.
  - now rewrite Hw.
Qed.

End FitterShapes.

Lemma foldM_invariant {S A B} (P : B -> Prop) (f : B -> A -> M S B)
      (l : list A) (s : S) :
  (forall b a, readonly (f b a)) ->
  (forall b a b', In a l -> P b -> eval (f b a) s = Ok b' -> P b') ->
  forall b0 b, P b0 -> eval (foldM f l b0) s = Ok b -> P b.
Proof.
  intros Hro. induction l as [|a l IH]; intros Hstep b0 b HP H; simpl in H.
  - rewrite eval_ret in H. now inversion H; subst.
  - apply eval_bind_inv in H; [|apply Hro]. destruct H as [b1 [H1 H]].
    apply (IH (fun b a b' Hin => Hstep b a b' (or_intror Hin)) b1 b); [|exact H].
    eapply Hstep; [now left | exact HP | exact H1].
Qed.

Lemma mapM_inv {S A B} (f : A -> M S B) (l : list A) (s : S) (bs : list B) :
  (forall a, readonly (f a)) ->
  eval (mapM f l) s = Ok bs ->
  Forall2 (fun a b => eval (f a) s = Ok b) l bs.
Proof.
  intros Hro. revert bs. induction l as [|a l IH]; intros bs H; simpl in H.
  - rewrite eval_ret in H. inversion H. constructor.
  - apply eval_bind_inv in H; [|apply Hro]. destruct H as [b [Hb H]].
    apply eval_bind_inv in H; [|apply readonly_mapM; exact Hro].
    destruct H as [bs' [Hbs H]]. rewrite eval_ret in H. inversion H; subst.
    constructor; [exact Hb | now apply IH].
Qed.

Lemma set_slice_length (row v : vec) (a b : nat) :
  (a <= b <= length row)%nat -> length v = (b - a)%nat ->
  length (set_slice row a b v) = length row.
Proof.
  intros H Hv. unfold set_slice.
  rewrite !length_app, length_firstn, length_skipn. unfold vec in *. lia.
Qed.

Lemma assign_slice_length (row : vec) (sl : nat * nat) (v row' : vec) :
  (fst sl <= snd sl <= length row)%nat ->
  StackFitter.assign_slice row sl v = Ok row' -> length row' = length row.
Proof.
  intros H. unfold StackFitter.assign_slice.
  destruct (bcast (snd sl - fst sl) v) as [c|] eqn:Hc; simpl; [|discriminate].
  intros H'. inversion H'; subst. apply set_slice_length; [exact H|].
  eapply bcast_length. exact Hc.
Qed.

Section DesignRows.

Variable ext : Externals.
Variables sys_err mask_min fcontam : num.
Variable exts : list Extension.
Variable F : StackFitter.t.
Hypothesis Hinit : StackFitter.init ext sys_err mask_min fcontam exts = Ok F.

Lemma template_row_length (z : num) (ti : Spectrum) (row : vec) :
  eval (StackFitter.template_row ext z ti) F = Ok row ->
  length row = StackFitter.Ndata F.
Proof.
  unfold StackFitter.template_row. intros H.
  apply eval_bind_inv in H; [|frame]. destruct H as [n [Hn H]].
  rewrite eval_gets in Hn. inversion Hn; subst n; clear Hn.
  apply eval_bind_inv in H; [|frame]. destruct H as [Es [HEs H]].
  rewrite eval_gets in HEs. inversion HEs; subst Es; clear HEs.
  eapply (@foldM_invariant _ _ _ (fun b : vec => length b = StackFitter.Ndata F));
    [ | | | exact H].
  - intros b a. cbv beta. frame.
    all: try (apply readonly_on_E; first [apply compute_model_readonly | frame]).
  - clear H. intros b j b' _ Hb H. cbv beta in H.
    apply eval_bind_inv in H; [|apply readonly_on_E; frame].
    destruct H as [wv [_ H]].
    apply eval_bind_inv in H; [|frame]. destruct H as [s_first [_ H]].
    apply eval_bind_inv in H; [|frame]. destruct H as [wmax [_ H]].
    apply eval_bind_inv in H; [|frame]. destruct H as [s_last [_ H]].
    apply eval_bind_inv in H; [|frame]. destruct H as [wmin [_ H]].
    destruct (gtb s_first wmax || ltb s_last wmin).
    + rewrite eval_ret in H. now inversion H; subst.
    + apply eval_bind_inv in H; [|frame]. destruct H as [sls [Hsls H]].
      rewrite eval_gets in Hsls. inversion Hsls; subst sls; clear Hsls.
      apply eval_bind_inv in H; [|frame]. destruct H as [sl [Hsl H]].
      rewrite eval_lift in Hsl.
      apply eval_bind_inv in H;
        [|apply readonly_on_E; apply compute_model_readonly].
      destruct H as [model [_ H]]. rewrite eval_lift in H.
      rewrite <- Hb. eapply assign_slice_length; [|exact H].
      rewrite Hb. unfold index in Hsl.
      destruct (nth_error (StackFitter.slices F) j) as [sl'|] eqn:Hj;
        [|discriminate].
      inversion Hsl; subst sl'.
      exact (@slices_within _ _ _ _ _ _ Hinit j sl Hj).
  - apply zeros_length.
Qed.

Lemma design_matrix_rows (z : num) (T : list (string * Spectrum)) (A : mat) :
  eval (StackFitter.design_matrix ext z T) F = Ok A ->
  exists rows,
    A = StackFitter.Abg F ++ rows /\
    Forall2 (fun nt row => eval (StackFitter.template_row ext z (snd nt)) F = Ok row)
            T rows /\
    Forall (fun row => length row = StackFitter.Ndata F) A.
Proof.
  unfold StackFitter.design_matrix. intros H.
  apply eval_bind_inv in H; [|frame]. destruct H as [bg [Hbg H]].
  rewrite eval_gets in Hbg. inversion Hbg; subst bg; clear Hbg.
  apply eval_bind_inv in H;
    [|apply readonly_mapM; intros; apply template_row_readonly].
  destruct H as [rows [Hrows H]]. rewrite eval_ret in H. inversion H; subst A.
  apply mapM_inv in Hrows; [|intros; apply template_row_readonly].
  exists rows. split; [reflexivity|]. split; [exact Hrows|].
  apply Forall_app. split.
  - apply (@Abg_rows _ _ _ _ _ _ Hinit).
  - clear - Hrows Hinit. induction Hrows as [|nt row T rows Hr _ IH]; constructor.
    + eapply template_row_length. exact Hr.
    + exact IH.
Qed.

End DesignRows.

(** ** What a fit returns *)

Lemma select_In {A} (u : list A) (m : list bool) (x : A) :
  In x (select u m) -> In x u.
Proof.
  revert m. induction u as [|a u IH]; intros [|b m] H; simpl in *;
    try contradiction.
  destruct b; simpl in H.
  - destruct H as [H|H]; [now left | right; eapply IH; exact H].
  - right. eapply IH. exact H.
Qed.

Lemma In_skipn {A} (l : list A) (n : nat) (x : A) :
  In x (skipn n l) -> In x l.
Proof.
  intros H. rewrite <- (firstn_skipn n l). apply in_or_app. now right.
Qed.

Lemma mask_assign_length (dest : vec) (m : list bool) (values v : vec) :
  mask_assign dest m values = Ok v -> length v = length dest.
Proof.
  unfold mask_assign. destruct (Nat.eqb (length values) (count_true m)).
  - intros H. inversion H. apply scatter_length.
  - destruct values as [|x [|y l]]; try discriminate.
    intros H. inversion H. apply scatter_length.
Qed.

Lemma flatten_chunks (cols rows : nat) (u : vec) :
  length u = (rows * cols)%nat -> flatten (chunks cols rows u) = u.
Proof.
  revert u. induction rows as [|rows IH]; intros u H; simpl in *.
  - destruct u; [reflexivity | discriminate].
  - unfold flatten in *. simpl. rewrite IH.
    + apply firstn_skipn.
    + rewrite length_skipn. lia.
Qed.

Lemma firstn_app_skipn {A} (n m : nat) (w : list A) :
  firstn n w ++ firstn m (skipn n w) = firstn (n + m) w.
Proof.
  revert w. induction n as [|n IH]; intros [|x w]; simpl; try reflexivity.
  - now rewrite firstn_nil.
  - now rewrite IH.
Qed.

Lemma concat_slices {A} (v : list A) (sizes : list nat) :
  forall x,
    concat (map (get_slice v) (StackFitter.get_slices_from x sizes))
    = firstn (list_sum sizes) (skipn x v).
Proof.
  induction sizes as [|n sizes IH]; intros x; simpl; [reflexivity|].
  rewrite IH. unfold get_slice. cbn [fst snd].
  replace (x + n - (x + 0))%nat with n by lia.
  replace (x + 0)%nat with x by lia.
  replace (x + n)%nat with (n + x)%nat by lia.
  rewrite <- (skipn_skipn n x v).
  apply firstn_app_skipn.
Qed.

Lemma rfold_collect {A B} (g : A -> result B) (h : A -> B) (l : list A) :
  (forall a, In a l -> g a = Ok (h a)) ->
  forall acc,
    rfold (fun acc0 a => rbind (g a) (fun p => Ok (acc0 ++ [p]))) l acc
    = Ok (acc ++ map h l).
Proof.
  induction l as [|a l IH]; intros Hg acc; simpl.
  - now rewrite app_nil_r.
  - rewrite (Hg a) by now left. simpl.
    rewrite IH by (intros; apply Hg; now right).
    now rewrite <- app_assoc.
Qed.

Lemma map_nth_seq {A B} (f : A -> B) (l : list A) (d : A) :
  map (fun i => f (nth i l d)) (seq 0 (length l)) = map f l.
Proof.
  induction l as [|a l IH]; simpl; [reflexivity|].
  f_equal. rewrite <- seq_shift, map_map. exact IH.
Qed.

Section Outputs.

Variable ext : Externals.
Variables sys_err mask_min fcontam : num.
Variable exts : list Extension.
Variable F : StackFitter.t.
Hypothesis Hinit : StackFitter.init ext sys_err mask_min fcontam exts = Ok F.
Hypothesis Hcons : Forall consistent exts.

(** X10.  On a fitter constructed from extensions whose images have the
    shape of their header, the background and the full model that
    [fit_at_z] returns have [Ndata] entries, and the coefficients and their
    uncertainties have one entry per template. *)
Theorem fit_shapes (z : num) (T : list (string * Spectrum)) (fitter : string)
        (gu : bool) (r : FitResult) :
  eval (StackFitter.fit_at_z ext z T fitter gu) F = Ok r ->
  length (background r) = StackFitter.Ndata F /\
  length (full r) = StackFitter.Ndata F /\
  length (full_coeffs r) = length T /\
  length (full_coeffs_err r) = length T.
Proof.
  intros H. apply fit_at_z_inv in H. destruct H as [A [HA H]].
  apply fit_design_inv in H.
  destruct H as [c [bg0 [_ [Hbg0 [Hbg [Hfull [_ [Hfc Hfe]]]]]]]].
  destruct (@design_matrix_rows _ _ _ _ _ _ Hinit z T A HA) as [rows [_ [_ Hrows]]].
  destruct (@fitter_shapes _ _ _ _ _ _ Hinit Hcons) as [_ [_ [Hsv _]]].
  rewrite Forall_forall in Hrows.
  split; [|split; [|split]].
  - rewrite Hbg, length_map. apply dot_vm_length in Hbg0; [exact Hbg0|].
    apply Forall_forall. intros row HIn.
    apply Hrows. eapply In_firstn. exact HIn.
  - apply dot_vm_length in Hfull; [exact Hfull|].
    apply Forall_forall. intros row HIn. apply in_map_iff in HIn.
    destruct HIn as [row0 [<- HIn]]. apply In_skipn in HIn.
    unfold StackFitter.whitened in HIn. apply in_map_iff in HIn.
    destruct HIn as [row1 [<- HIn]]. apply select_In in HIn.
    unfold vdiv, vmul. rewrite !map2_length.
    rewrite (Hrows _ HIn). unfold vec in *. lia.
  - apply mask_assign_length in Hfc. now rewrite Hfc, zeros_length.
  - apply mask_assign_length in Hfe. now rewrite Hfe, zeros_length.
Qed.

Lemma image_pair_value (fullz bgz : vec) (i : nat) (Ei : StackedSpectrum.t)
      (sl : nat * nat) :
  length fullz = StackFitter.Ndata F -> length bgz = StackFitter.Ndata F ->
  nth_error (StackFitter.E F) i = Some Ei ->
  nth_error (StackFitter.slices F) i = Some sl ->
  image_pair F fullz bgz i
  = Ok (chunks (snd (StackedSpectrum.sh Ei)) (fst (StackedSpectrum.sh Ei))
               (get_slice fullz sl),
        chunks (snd (StackedSpectrum.sh Ei)) (fst (StackedSpectrum.sh Ei))
               (get_slice bgz sl)).
Proof.
  intros Hf Hb HE Hsl. unfold image_pair, index. rewrite HE, Hsl. cbn [rbind].
  assert (Hin : In Ei (StackFitter.E F)) by (eapply nth_error_In; exact HE).
  assert (Hsh := @spectra_shapes _ _ _ _ _ _ Hinit Hcons). rewrite Forall_forall in Hsh.
  destruct (Hsh Ei Hin) as [_ [_ [_ [_ Hsz]]]].
  assert (Hw := @slices_extent _ _ _ _ _ _ Hinit).
  specialize (Hw i sl Ei Hsl HE).
  assert (Hwi := @slices_within _ _ _ _ _ _ Hinit i sl Hsl).
  assert (Hlen : forall v : vec, length v = StackFitter.Ndata F ->
                   length (get_slice v sl)
                   = (fst (StackedSpectrum.sh Ei) * snd (StackedSpectrum.sh Ei))%nat).
  { intros v Hv. unfold get_slice. rewrite length_firstn, length_skipn.
    unfold vec in *. lia. }
  unfold reshape. rewrite (Hlen _ Hf), (Hlen _ Hb), Nat.eqb_refl.
  reflexivity.
Qed.

(** X15.  The MODEL and BACKGROUND images that [fit_zgrid] cuts from two
    arrays of [Ndata] entries: the loop returns one pair per exposure, each
    image has the shape of its exposure, and the images laid end to end are
    the two arrays. *)
Theorem images_recover (fullz bgz : vec) :
  length fullz = StackFitter.Ndata F -> length bgz = StackFitter.Ndata F ->
  exists imgs,
    result_images F fullz bgz = Ok imgs /\
    length imgs = StackFitter.Next F /\
    concat (map (fun p => flatten (fst p)) imgs) = fullz /\
    concat (map (fun p => flatten (snd p)) imgs) = bgz /\
    (forall i Ei p,
        nth_error (StackFitter.E F) i = Some Ei ->
        nth_error imgs i = Some p ->
        shaped (fst (StackedSpectrum.sh Ei)) (snd (StackedSpectrum.sh Ei)) (fst p) /\
        shaped (fst (StackedSpectrum.sh Ei)) (snd (StackedSpectrum.sh Ei)) (snd p)).
Proof.
  intros Hf Hb.
  destruct (@fitter_layout _ _ _ _ _ _ Hinit) as [HN [Hd [Hs _]]].
  assert (Hsl := @slices_length _ _ _ _ _ _ Hinit).
  assert (Hsh := @spectra_shapes _ _ _ _ _ _ Hinit Hcons).
  rewrite Forall_forall in Hsh.
  set (dE := SampleRuns.no_spectrum).
  set (h := fun i : nat =>
              let Ei := nth i (StackFitter.E F) dE in
              let sl := nth i (StackFitter.slices F) (0, 0)%nat in
              (chunks (snd (StackedSpectrum.sh Ei)) (fst (StackedSpectrum.sh Ei))
                      (get_slice fullz sl),
               chunks (snd (StackedSpectrum.sh Ei)) (fst (StackedSpectrum.sh Ei))
                      (get_slice bgz sl))).
  assert (Hval : forall i, In i (seq 0 (StackFitter.Next F)) ->
                           image_pair F fullz bgz i = Ok (h i)).
  { intros i Hi. apply in_seq in Hi.
    apply image_pair_value; try assumption.
    - apply nth_error_nth'. lia.
    - apply nth_error_nth'. lia. }
  assert (Hslice_len : forall (v : vec) i, length v = StackFitter.Ndata F ->
             (i < StackFitter.Next F)%nat ->
             let Ei := nth i (StackFitter.E F) dE in
             length (get_slice v (nth i (StackFitter.slices F) (0, 0)%nat))
             = (fst (StackedSpectrum.sh Ei) * snd (StackedSpectrum.sh Ei))%nat).
  { intros v i Hv Hi Ei.
    assert (HE : nth_error (StackFitter.E F) i = Some Ei)
      by (apply nth_error_nth'; lia).
    assert (HS : nth_error (StackFitter.slices F) i
                 = Some (nth i (StackFitter.slices F) (0, 0)%nat))
      by (apply nth_error_nth'; lia).
    destruct (Hsh Ei (nth_error_In _ _ HE)) as [_ [_ [_ [_ Hsz]]]].
    assert (Hw := @slices_extent _ _ _ _ _ _ Hinit).
    specialize (Hw i _ Ei HS HE).
    assert (Hwi := @slices_within _ _ _ _ _ _ Hinit i _ HS).
    unfold get_slice. rewrite length_firstn, length_skipn.
    unfold vec in *. lia. }
  assert (Hcat : forall v : vec, length v = StackFitter.Ndata F ->
             concat (map (fun i => get_slice v (nth i (StackFitter.slices F) (0, 0)%nat))
                         (seq 0 (StackFitter.Next F))) = v).
  { intros v Hv. rewrite <- Hsl.
    rewrite (map_nth_seq (get_slice v) (StackFitter.slices F) (0, 0)%nat).
    rewrite Hs. unfold StackFitter.get_slices. rewrite concat_slices.
    simpl skipn. fold (total_size (StackFitter.E F)). rewrite <- Hd, <- Hv.
    apply firstn_all. }
  exists (map h (seq 0 (StackFitter.Next F))).
  split; [|split; [|split; [|split]]].
  - unfold result_images. now rewrite (rfold_collect _ h _ Hval).
  - now rewrite length_map, length_seq.
  - rewrite map_map. etransitivity; [|apply (Hcat fullz Hf)]. f_equal.
    apply map_ext_in. intros i Hi. apply in_seq in Hi. unfold h. cbn [fst].
    apply flatten_chunks. apply Hslice_len; [exact Hf | lia].
  - rewrite map_map. etransitivity; [|apply (Hcat bgz Hb)]. f_equal.
    apply map_ext_in. intros i Hi. apply in_seq in Hi. unfold h. cbn [snd].
    apply flatten_chunks. apply Hslice_len; [exact Hb | lia].
  - intros i Ei p HE Hp.
    assert (Hi : (i < StackFitter.Next F)%nat).
    { rewrite HN. apply nth_error_Some. congruence. }
    rewrite nth_error_map in Hp.
    rewrite (nth_error_nth' (seq 0 (StackFitter.Next F)) 0%nat) in Hp
      by (rewrite length_seq; lia).
    rewrite seq_nth in Hp by lia. simpl in Hp. inversion Hp; subst p. clear Hp.
    unfold h. rewrite (nth_error_nth _ _ dE HE). cbn [fst snd].
    assert (Hl1 := Hslice_len fullz i Hf Hi).
    assert (Hl2 := Hslice_len bgz i Hb Hi).
    cbv zeta in Hl1, Hl2. rewrite (nth_error_nth _ _ dE HE) in Hl1, Hl2.
    split; apply chunks_shaped; assumption.
Qed.

End Outputs.

(** ** The degrees of freedom *)

Lemma add_nonfin_r (x y : num) : isfinite y = false -> isfinite (x + y) = false.
Proof. destruct x, y; simpl; intros H; try reflexivity; discriminate. Qed.

Lemma vsum_nonfin (l : vec) (x : num) :
  In x l -> isfinite x = false -> isfinite (vsum l) = false.
Proof.
  unfold vsum. generalize zero as acc.
  induction l as [|y l IH]; intros acc HIn Hx; simpl in *; [contradiction|].
  destruct HIn as [->|HIn].
  - apply fold_add_nonfin. now apply add_nonfin_r.
  - now apply IH.
Qed.

Lemma to_int_finite (x : num) (k : Z) : to_int x = Ok k -> isfinite x = true.
Proof. destruct x; simpl; intros H; try discriminate; reflexivity. Qed.

Lemma blank_weight (x : num) :
  x * zero + one = if isfinite x then one else NaN.
Proof.
  destruct x as [q| | |]; try reflexivity.
  unfold zero, one. cbn [mul add isfinite]. rewrite qc_zero, qc_one.
  f_equal. ring.
Qed.

Section Freedom.

Variable ext : Externals.
Variables sys_err mask_min fcontam : num.
Variable exts : list Extension.

Lemma fitter_dof (F : StackFitter.t) :
  StackFitter.init ext sys_err mask_min fcontam exts = Ok F ->
  exists mw,
    bzip (fun (b : bool) w => of_bool b * w) (StackFitter.fit_mask F)
         (StackFitter.weightf F) = Ok mw /\
    to_int (vsum mw) = Ok (StackFitter.DoF F).
Proof.
  unfold StackFitter.init. intros H. rdestruct H.
  inversion H; subst; clear H. simpl. now exists x5.
Qed.

Lemma blank_weights sys_err' mask_min' mt fcontam' h E :
  StackedSpectrum.init ext sys_err' mask_min' mt fcontam' h = Ok E ->
  CONTAM h = None ->
  StackedSpectrum.weightf E
  = map (fun x => if isfinite x then one else NaN) (flatten (SCI h)).
Proof.
  intros H Hc. apply init_fields in H. destruct H as [hist H].
  apply init_traced_fields in H.
  destruct H as [_ [_ [_ [_ [_ [c [w [cf Hw]]]]]]]].
  unfold StackedSpectrum.contamination in Hw. rewrite Hc in Hw.
  inversion Hw. apply map_ext. intros x. apply blank_weight.
Qed.

Lemma In_concat_map {A B} (f : A -> list B) (l : list A) (a : A) (x : B) :
  In a l -> In x (f a) -> In x (concat (map f l)).
Proof.
  intros Ha Hx. apply in_concat. exists (f a). split; [|exact Hx].
  apply in_map. exact Ha.
Qed.

Lemma Forall2_In_l {A B} (R : A -> B -> Prop) (l : list A) (l' : list B) (a : A) :
  Forall2 R l l' -> In a l -> exists b, In b l' /\ R a b.
Proof.
  induction 1 as [|x y l l' Hxy HF IH]; intros HIn; [contradiction|].
  destruct HIn as [->|HIn].
  - exists y. split; [now left | exact Hxy].
  - destruct (IH HIn) as [b [Hb HR]]. exists b. split; [now right | exact HR].
Qed.

Lemma map2_In_r {A B C} (f : A -> B -> C) (u : list A) (v : list B) (y : B) :
  length u = length v -> In y v -> exists x, In (f x y) (map2 f u v).
Proof.
  revert v. induction u as [|a u IH]; intros [|b v] Hl HIn; simpl in *;
    try contradiction; try discriminate.
  destruct HIn as [->|HIn].
  - exists a. now left.
  - destruct (IH v ltac:(lia) HIn) as [x Hx]. exists x. now right.
Qed.

Lemma flat_recomputed mt h E :
  StackedSpectrum.init ext sys_err mask_min mt fcontam h = Ok E ->
  eval (StackedSpectrum.compute_model ext None) E = Ok (StackedSpectrum.flat E).
Proof.
  intros H. apply init_fields in H. destruct H as [hist H].
  unfold StackedSpectrum.init_traced in H. rdestruct H.
  inversion H; subst; clear H.
  unfold StackedSpectrum.compute_model, eval, bind, gets, lift, ret in *.
  cbn in *.
  destruct (dot_vm _ _ _) as [fl|]; cbn in *; [|discriminate].
  inversion E6; subst. reflexivity.
Qed.

Lemma spectra_collected :
  Forall (fun h => exists E,
            StackedSpectrum.init ext sys_err mask_min (of_Z (-1)) fcontam h = Ok E)
         exts ->
  forall acc, exists Es,
    rfold (fun Es0 h =>
             rbind (StackedSpectrum.init ext sys_err mask_min (of_Z (-1)) fcontam h)
                   (fun E_i =>
                      rbind (eval (StackedSpectrum.compute_model ext None) E_i)
                            (fun _ => Ok (Es0 ++ [E_i]))))
          exts acc = Ok (acc ++ Es) /\
    Forall2 (fun h E =>
               StackedSpectrum.init ext sys_err mask_min (of_Z (-1)) fcontam h
               = Ok E) exts Es.
Proof.
  induction 1 as [|h l [E HE] HF IH]; intros acc.
  - exists []. split; [now rewrite app_nil_r | constructor].
  - destruct (IH (acc ++ [E])) as [Es [Hr H2]].
    exists (E :: Es). split; [|now constructor].
    cbn [rfold]. rewrite HE. cbn [rbind].
    rewrite (@flat_recomputed _ _ _ HE). cbn [rbind].
    rewrite Hr, <- app_assoc. reflexivity.
Qed.

Lemma add_nan_l (y : num) : NaN + y = NaN.
Proof. now destruct y. Qed.

Lemma fold_add_nan (l : vec) : fold_left add l NaN = NaN.
Proof. induction l as [|y l IH]; cbn [fold_left]; [reflexivity|]. now rewrite add_nan_l. Qed.

Lemma vsum_nan (l : vec) : In NaN l -> vsum l = NaN.
Proof.
  unfold vsum. generalize zero as acc.
  induction l as [|y l IH]; intros acc HIn; cbn [fold_left In] in *; [contradiction|].
  destruct HIn as [->|HIn].
  - replace (acc + NaN) with NaN by (now destruct acc). apply fold_add_nan.
  - now apply IH.
Qed.


Lemma spectra_shaped Es :
  Forall consistent exts ->
  Forall2 (fun h E =>
             StackedSpectrum.init ext sys_err mask_min (of_Z (-1)) fcontam h
             = Ok E) exts Es ->
  Forall (fun E =>
            length (StackedSpectrum.ivarf E) = StackedSpectrum.size E /\
            length (StackedSpectrum.fit_mask E) = StackedSpectrum.size E /\
            length (StackedSpectrum.weightf E) = StackedSpectrum.size E) Es.
Proof.
  intros Hcons HF. induction HF as [|h E exts' Es H HF IH]; constructor.
  - inversion Hcons; subst.
    apply init_fields in H. destruct H as [hist H].
    destruct (@spectrum_shapes ext _ _ _ _ _ _ _ H2 H) as [H5 [H6 [H7 [_ [H8 H9]]]]].
    rewrite H5. repeat split; assumption.
  - apply IH. now inversion Hcons.
Qed.

(** X5.  A science pixel that is not finite, in an exposure without a
    contamination image, makes the constructor of the fitter raise: the
    weight of the pixel is NaN ([scif*0.+1]), so is the sum at line 128, and
    [int] refuses it.  When every exposure of the list is itself
    constructed, the loop over the exposures returns and the exception is
    the [ValueError] of [int(nan)]. *)
Theorem nonfinite_pixel_rejected (h : Extension) (x : num) :
  Forall consistent exts ->
  In h exts -> CONTAM h = None ->
  In x (flatten (SCI h)) -> isfinite x = false ->
  (exists e, StackFitter.init ext sys_err mask_min fcontam exts = Raise e) /\
  (Forall (fun h' => exists E,
             StackedSpectrum.init ext sys_err mask_min (of_Z (-1)) fcontam h' = Ok E)
          exts ->
   StackFitter.init ext sys_err mask_min fcontam exts = Raise ValueError).
Proof.
  intros Hcons Hh Hc Hx Hnf.
  assert (Hval : Forall (fun h' => exists E,
             StackedSpectrum.init ext sys_err mask_min (of_Z (-1)) fcontam h' = Ok E)
          exts ->
                 StackFitter.init ext sys_err mask_min fcontam exts = Raise ValueError).
  { intros Hall. destruct (spectra_collected Hall []) as [Es [Hloop HF]].
    cbn [app] in Hloop.
    assert (Hsh := spectra_shaped Hcons HF).
    destruct (Forall2_In_l h HF Hh) as [E [HE HEinit]].
    assert (Hne : Es <> []) by (intros ->; contradiction).
    assert (Hst : forall A (f : StackedSpectrum.t -> list A),
               hstack (map f Es) = Ok (concat (map f Es))).
    { intros A f. destruct Es; [congruence | reflexivity]. }
    assert (H2 : length (concat (map StackedSpectrum.ivarf Es)) = total_size Es).
    { apply concat_length_sizes. eapply Forall_impl; [|exact Hsh]. now intros E0 [? [? ?]]. }
    assert (H3 : length (concat (map StackedSpectrum.fit_mask Es)) = total_size Es).
    { apply concat_length_sizes_bool. eapply Forall_impl; [|exact Hsh]. now intros E0 [? [? ?]]. }
    assert (H4 : length (concat (map StackedSpectrum.weightf Es)) = total_size Es).
    { apply concat_length_sizes. eapply Forall_impl; [|exact Hsh]. now intros E0 [? [? ?]]. }
    assert (HNaN : In NaN (concat (map StackedSpectrum.weightf Es))).
    { eapply In_concat_map; [exact HE|].
      rewrite (@blank_weights _ _ _ _ _ _ HEinit Hc).
      apply in_map_iff. exists x. rewrite Hnf. now split. }
    destruct (@map2_In_r _ _ _ (fun (b : bool) w => of_bool b * w)
                (concat (map StackedSpectrum.fit_mask Es))
                (concat (map StackedSpectrum.weightf Es)) NaN
                ltac:(congruence) HNaN) as [b Hb].
    replace (of_bool b * NaN) with NaN in Hb by (now destruct b).
    unfold StackFitter.init. rewrite Hloop. cbn [rbind].
    rewrite !Hst. cbn [rbind].
    rewrite bcast_same by (etransitivity; [exact H4 | symmetry; exact H2]).
    cbn [rbind].
    rewrite bzip_same_length by (etransitivity; [exact H3 | symmetry; exact H4]).
    cbn [rbind].
    match goal with
    | |- context [to_int ?v] =>
        replace v with NaN by (symmetry; exact (vsum_nan _ Hb))
    end.
    reflexivity. }
  split; [|exact Hval].
  destruct (StackFitter.init ext sys_err mask_min fcontam exts) as [F|e] eqn:Hinit;
    [|now exists e].
  exfalso.
  destruct (fitter_dof Hinit) as [mw [Hmw Hint]].
  destruct (@fitter_shapes _ _ _ _ _ _ Hinit Hcons) as [_ [_ [_ [Hfm Hwf]]]].
  rewrite bzip_same_length in Hmw by congruence.
  inversion Hmw; subst mw; clear Hmw.
  destruct (@fitter_fields _ _ _ _ _ _ Hinit) as [Es [HF [_ [_ [Hw _]]]]].
  destruct (Forall2_In_l h HF Hh) as [E [HE HEinit]].
  assert (HNaN : In NaN (StackFitter.weightf F)).
  { rewrite Hw. eapply In_concat_map; [exact HE|].
    rewrite (@blank_weights _ _ _ _ _ _ HEinit Hc).
    apply in_map_iff. exists x. rewrite Hnf. now split. }
  destruct (@map2_In_r _ _ _ (fun (b : bool) w => of_bool b * w)
              (StackFitter.fit_mask F) (StackFitter.weightf F) NaN
              ltac:(congruence) HNaN) as [b Hb].
  apply to_int_finite in Hint.
  rewrite (@vsum_nonfin _ _ Hb) in Hint; [discriminate|].
  destruct b; reflexivity.
Qed.

Lemma of_nat_S (k : nat) : of_nat k + one = of_nat (S k).
Proof.
  unfold of_nat, of_Z, one. cbn [add]. f_equal. rewrite qc_succ, qc_one.
  reflexivity.
Qed.

Lemma of_nat_zero_r (k : nat) : of_nat k + zero = of_nat k.
Proof.
  unfold of_nat, of_Z, zero. cbn [add]. f_equal. rewrite qc_zero. ring.
Qed.

Lemma to_int_of_nat (k : nat) : to_int (of_nat k) = Ok (Z.of_nat k).
Proof.
  unfold to_int, of_nat, of_Z. f_equal.
  assert (Hfl : Qfloor (qc (Z.of_nat k) 1) = Z.of_nat k).
  { unfold qc, Q2Qc. cbn [this].
    rewrite (Qfloor_comp _ _ (Qred_correct _)).
    apply (Qfloor_Z (Z.of_nat k)). }
  destruct (qsign (qc (Z.of_nat k) 1)) eqn:Hs; try exact Hfl.
  exfalso. unfold qsign in Hs. apply Qclt_alt in Hs.
  unfold Qclt, qc, Q2Qc in Hs. cbn [this] in Hs.
  rewrite !Qred_correct in Hs. unfold Qlt in Hs. cbn [Qnum Qden] in Hs. lia.
Qed.

(** The sum of line 128 over pixels of weight one counts the pixels of
    the mask. *)
Lemma masked_weight_count (fm : list bool) (wf : vec) :
  length fm = length wf -> Forall (fun w => w = one) wf ->
  forall k, fold_left add (map2 (fun (b : bool) w => of_bool b * w) fm wf) (of_nat k)
            = of_nat (k + count_true fm).
Proof.
  revert wf. induction fm as [|b fm IH]; intros [|w wf] Hl Hw k;
    cbn [map2 fold_left length] in *; try discriminate.
  - unfold count_true. simpl. f_equal. lia.
  - inversion Hw; subst. rewrite count_true_cons.
    assert (H1 : one * one = one) by apply (mul_one_fin (qc 1 1)).
    assert (H0 : zero * one = zero) by apply (mul_one_fin (qc 0 1)).
    destruct b; cbn [of_bool].
    + rewrite H1, of_nat_S.
      rewrite IH by (try lia; assumption). f_equal. lia.
    + rewrite H0, of_nat_zero_r.
      rewrite IH by (try lia; assumption). f_equal.
Qed.

Lemma vsum_all_finite (l : vec) :
  isfinite (vsum l) = true -> Forall (fun x => isfinite x = true) l.
Proof.
  intros H. apply Forall_forall. intros x HIn.
  destruct (isfinite x) eqn:Hx; [reflexivity|].
  now rewrite (@vsum_nonfin _ _ HIn Hx) in H.
Qed.

(** X6.  Without contamination images the degrees of freedom of a
    constructed fitter are the number of pixels of its fit mask. *)
Theorem dof_counts_pixels (F : StackFitter.t) :
  StackFitter.init ext sys_err mask_min fcontam exts = Ok F ->
  Forall consistent exts ->
  Forall (fun h => CONTAM h = None) exts ->
  StackFitter.DoF F = Z.of_nat (count_true (StackFitter.fit_mask F)).
Proof.
  intros Hinit Hcons Hnc.
  destruct (fitter_dof Hinit) as [mw [Hmw Hint]].
  destruct (@fitter_shapes _ _ _ _ _ _ Hinit Hcons) as [_ [_ [_ [Hfm Hwf]]]].
  rewrite bzip_same_length in Hmw by congruence.
  inversion Hmw; subst mw; clear Hmw.
  assert (Hfin := to_int_finite _ Hint). apply vsum_all_finite in Hfin.
  rewrite Forall_forall in Hfin.
  assert (Hones : Forall (fun w => w = one) (StackFitter.weightf F)).
  { apply Forall_forall. intros w HIn.
    destruct (@map2_In_r _ _ _ (fun (b : bool) w => of_bool b * w)
                (StackFitter.fit_mask F) (StackFitter.weightf F) w
                ltac:(congruence) HIn) as [b Hb].
    specialize (Hfin _ Hb).
    assert (Hwfin : isfinite w = true).
    { destruct w; try reflexivity; destruct b; discriminate. }
    destruct (@fitter_fields _ _ _ _ _ _ Hinit) as [Es [HF [_ [_ [Hw _]]]]].
    rewrite Hw in HIn. apply in_concat in HIn. destruct HIn as [ws [Hws HIn]].
    apply in_map_iff in Hws. destruct Hws as [E [<- HE]].
    assert (Hh : exists h, In h exts /\
                 StackedSpectrum.init ext sys_err mask_min (of_Z (-1)) fcontam h = Ok E).
    { clear - HF HE. induction HF as [|h0 E0 l l' H0 HF IH]; [contradiction|].
      destruct HE as [->|HE].
      - exists h0. split; [now left | exact H0].
      - destruct (IH HE) as [h [Hh Hi]]. exists h. split; [now right | exact Hi]. }
    destruct Hh as [h [Hh Hi]]. rewrite Forall_forall in Hnc.
    rewrite (@blank_weights _ _ _ _ _ _ Hi (Hnc h Hh)) in HIn.
    apply in_map_iff in HIn. destruct HIn as [x [Hx _]].
    destruct (isfinite x); [now symmetry | rewrite <- Hx in Hwfin; discriminate]. }
  unfold vsum in Hint.
  change zero with (of_nat 0) in Hint at 1.
  assert (Hlen : length (StackFitter.fit_mask F) = length (StackFitter.weightf F))
    by congruence.
  rewrite (@masked_weight_count _ _ Hlen Hones 0%nat) in Hint.
  rewrite to_int_of_nat in Hint. now inversion Hint.
Qed.

End Freedom.

(** ** Pixels without weight *)

Lemma floor_ivar_blank (sys_err w s : num) :
  w = zero \/ w = NaN ->
  gtb (StackedSpectrum.floor_ivar sys_err w s) zero = false.
Proof.
  intros [->| ->]; unfold StackedSpectrum.floor_ivar.
  - destruct (sqr (sys_err * s)) as [q| | |] eqn:Hq; vm_compute; reflexivity.
  - reflexivity.
Qed.

Lemma bzip_nth {A B C} (f : A -> B -> C) (u : list A) (v : list B) (r : list C)
      (p : nat) (x : A) :
  bzip f u v = Ok r -> nth_error u p = Some x ->
  nth_error r p = None \/ exists y, nth_error r p = Some (f x y).
Proof.
  unfold bzip. destruct (Nat.eqb (length u) (length v)) eqn:E.
  - intros H Hx. inversion H; subst r; clear H. apply Nat.eqb_eq in E.
    right. revert v p E Hx.
    induction u as [|a u IH]; intros [|b v] [|p] E Hx; simpl in *;
      try discriminate.
    + inversion Hx; subst. now exists b.
    + apply IH; [lia | exact Hx].
  - destruct u as [|a [|a' u]].
    + destruct p; discriminate.
    + intros H Hx. destruct p as [|p]; [|destruct p; discriminate].
      inversion Hx; subst a.
      assert (Hr : r = map (f x) v).
      { destruct v as [|y [|y' v]]; inversion H; reflexivity. }
      subst r. destruct v as [|y v]; [now left | right; now exists y].
    + destruct v as [|y [|y' v]]; try discriminate.
      intros H Hx. inversion H; subst r; clear H. right. exists y.
      exact (map_nth_error (fun x0 => f x0 y) p _ Hx).
Qed.

Lemma mask_and_false (a b : list bool) (p : nat) :
  nth p a false = false -> nth p (mask_and a b) false = false.
Proof.
  intros H. destruct (nth p (mask_and a b) false) eqn:Hm; [|reflexivity].
  apply mask_and_nth in Hm. destruct Hm as [Ha _]. congruence.
Qed.

Lemma iand_false (dest rhs m : list bool) (p : nat) :
  iand dest rhs = Ok m -> nth p dest false = false -> nth p m false = false.
Proof.
  intros H Hp. apply iand_ok in H. destruct H as [c [_ ->]].
  now apply mask_and_false.
Qed.

(** X7.  A pixel whose weight in the WHT image is zero or NaN is not in
    the fit mask of the constructed spectrum, whatever its science value
    and the systematic error are. *)
Theorem blank_weight_masked (ext : Externals)
        (sys_err mask_min mask_threshold fcontam : num) (h : Extension)
        (E : StackedSpectrum.t) (p : nat) (w : num) :
  StackedSpectrum.init ext sys_err mask_min mask_threshold fcontam h = Ok E ->
  nth_error (flatten (WHT h)) p = Some w ->
  w = zero \/ w = NaN ->
  nth p (StackedSpectrum.fit_mask E) false = false.
Proof.
  intros H Hp Hw. unfold StackedSpectrum.init in H.
  destruct (StackedSpectrum.init_traced ext sys_err mask_min mask_threshold
              fcontam h) as [[E' hist]|] eqn:Ht; simpl in H; [|discriminate].
  inversion H; subst E'; clear H.
  unfold StackedSpectrum.init_traced in Ht. rdestruct Ht.
  inversion Ht; subst; clear Ht. cbn.
  eapply iand_false; [eassumption|].
  eapply iand_false; [eassumption|].
  unfold StackedSpectrum.mask_positive.
  destruct (bzip_nth _ _ _ p E0 Hp) as [Hn|[s Hs]].
  - apply nth_error_None in Hn. apply nth_overflow. now rewrite length_map.
  - erewrite map_nth_lt with (da := NaN).
    + rewrite (nth_error_nth _ _ NaN Hs). now apply floor_ivar_blank.
    + apply nth_error_Some. congruence.
Qed.

(** ** Templates outside the exposures *)

Lemma eval_on_E {A} (j : nat) (m : M StackedSpectrum.t A) (F : StackFitter.t) :
  eval (StackFitter.on_E j m) F
  = match nth_error (StackFitter.E F) j with
    | Some Ej => eval m Ej
    | None => Raise IndexError
    end.
Proof.
  unfold eval, StackFitter.on_E.
  destruct (nth_error (StackFitter.E F) j) as [Ej|]; [|reflexivity].
  destruct (m Ej); reflexivity.
Qed.

Lemma foldM_fixed {S A B} (f : B -> A -> M S B) (l : list A) (s : S) (b : B) :
  (forall a, readonly (f b a)) ->
  (forall a, In a l -> eval (f b a) s = Ok b) ->
  eval (foldM f l b) s = Ok b.
Proof.
  intros Hro. induction l as [|a l IH]; intros H; simpl.
  - apply eval_ret.
  - rewrite eval_bind by apply Hro. rewrite H by now left. simpl.
    apply IH. intros a' Ha'. apply H. now right.
Qed.

Section Unseen.

Variable ext : Externals.

Lemma template_row_misses (F : StackFitter.t) (z : num) (ti : Spectrum) :
  Forall (misses z ti) (StackFitter.E F) ->
  eval (StackFitter.template_row ext z ti) F = Ok (zeros (StackFitter.Ndata F)).
Proof.
  intros Hm. unfold StackFitter.template_row.
  rewrite eval_bind by frame. rewrite eval_gets. cbn [rbind].
  rewrite eval_bind by frame. rewrite eval_gets. cbn [rbind].
  apply foldM_fixed.
  - intros j. frame.
    all: apply readonly_on_E; first [apply compute_model_readonly | frame].
  - intros j Hj. apply in_seq in Hj.
    destruct (nth_error (StackFitter.E F) j) as [Ej|] eqn:HE;
      [|apply nth_error_None in HE; lia].
    rewrite Forall_forall in Hm.
    destruct (Hm Ej (nth_error_In _ _ HE))
      as [s_first [s_last [wmax [wmin [H1 [H2 [H3 [H4 H5]]]]]]]].
    rewrite eval_bind by (apply readonly_on_E; frame).
    rewrite eval_on_E, HE, eval_gets. cbn [rbind].
    rewrite eval_bind by frame. rewrite eval_lift. cbn [wave_of]. rewrite H1.
    cbn [rbind].
    rewrite eval_bind by frame. rewrite eval_lift, H3. cbn [rbind].
    rewrite eval_bind by frame. rewrite eval_lift, H2. cbn [rbind].
    rewrite eval_bind by frame. rewrite eval_lift, H4. cbn [rbind].
    rewrite H5. apply eval_ret.
Qed.

End Unseen.

Lemma Forall2_nth_l {A B} (R : A -> B -> Prop) (l : list A) (l' : list B)
      (i : nat) (a : A) :
  Forall2 R l l' -> nth_error l i = Some a ->
  exists b, nth_error l' i = Some b /\ R a b.
Proof.
  intros HF. revert i. induction HF as [|x y l l' Hxy HF IH]; intros [|i] H;
    simpl in *; try discriminate.
  - inversion H; subst. now exists y.
  - now apply IH.
Qed.

Lemma zero_add_zero : zero + zero = zero.
Proof. apply (of_nat_zero_r 0). Qed.

Lemma vsum_zeros (l : vec) : Forall (fun x => x = zero) l -> vsum l = zero.
Proof.
  unfold vsum. intros H. induction H as [|x l Hx _ IH]; [reflexivity|].
  subst x. cbn [fold_left]. rewrite zero_add_zero. exact IH.
Qed.

Lemma masked_zeros (n : nat) (fm : list bool) :
  vsum (vmul_bool (zeros n) fm) = zero.
Proof.
  apply vsum_zeros. unfold vmul_bool, zeros. revert fm.
  induction n as [|n IH]; intros [|b fm]; simpl; constructor.
  - destruct b; [apply (mul_one_fin (qc 0 1)) | apply (mul_zero_fin (qc 0 1))].
  - apply IH.
Qed.

Lemma mask_assign_scatter (dest : vec) (m : list bool) (values v : vec) :
  mask_assign dest m values = Ok v -> exists vals, v = scatter dest m vals.
Proof.
  unfold mask_assign. destruct (Nat.eqb (length values) (count_true m)).
  - intros H. inversion H. now exists values.
  - destruct values as [|x [|y l]]; try discriminate.
    intros H. inversion H. now eexists.
Qed.

Section UnseenTemplate.

Variable ext : Externals.
Variables sys_err mask_min fcontam : num.
Variable exts : list Extension.
Variable F : StackFitter.t.
Hypothesis Hinit : StackFitter.init ext sys_err mask_min fcontam exts = Ok F.

(** X11.  A template that, at the redshift of the fit, lies outside the
    wavelength range of every exposure is reported by [fit_at_z] with the
    coefficient 0 and the uncertainty 0. *)
Theorem unseen_template_zero (z : num) (T : list (string * Spectrum))
        (fitter : string) (gu : bool) (r : FitResult) (i : nat)
        (name : string) (ti : Spectrum) :
  nth_error T i = Some (name, ti) ->
  Forall (misses z ti) (StackFitter.E F) ->
  eval (StackFitter.fit_at_z ext z T fitter gu) F = Ok r ->
  nth_error (full_coeffs r) i = Some zero /\
  nth_error (full_coeffs_err r) i = Some zero.
Proof.
  intros HT Hm H. apply fit_at_z_inv in H. destruct H as [A [HA H]].
  apply fit_design_inv in H.
  destruct H as [c [bg0 [_ [_ [_ [_ [_ [Hfc Hfe]]]]]]]].
  destruct (@design_matrix_rows _ _ _ _ _ _ Hinit z T A HA)
    as [rows [-> [Hrows _]]].
  destruct (Forall2_nth_l i Hrows HT) as [row [Hrow Hev]]. cbn [snd] in Hev.
  rewrite (template_row_misses ext F Hm) in Hev. inversion Hev; subst row.
  assert (Hok : nth_error
                  (from (StackFitter.Next F)
                        (StackFitter.oktemp_of (StackFitter.Abg F ++ rows)
                                               (StackFitter.fit_mask F))) i
                = Some false).
  { unfold from, StackFitter.oktemp_of. rewrite map_app, skipn_app.
    rewrite length_map, (@Abg_length _ _ _ _ _ _ Hinit), Nat.sub_diag.
    rewrite skipn_all2 by (rewrite length_map, (@Abg_length _ _ _ _ _ _ Hinit); lia).
    cbn [app skipn].
    rewrite (map_nth_error _ _ _ Hrow). f_equal.
    rewrite masked_zeros. reflexivity. }
  assert (Hi : (i < length T)%nat) by (apply nth_error_Some; congruence).
  apply mask_assign_scatter in Hfc, Hfe.
  destruct Hfc as [v1 ->]. destruct Hfe as [v2 ->].
  rewrite !(@scatter_false _ _ _ _ Hok), !zeros_nth_error by exact Hi.
  now split.
Qed.

End UnseenTemplate.

Section EmptyTemplate.

Variable ext : Externals.

Lemma design_matrix_templates (F : StackFitter.t) (z : num)
      (T : list (string * Spectrum)) (A : mat) :
  eval (StackFitter.design_matrix ext z T) F = Ok A ->
  exists rows,
    A = StackFitter.Abg F ++ rows /\
    Forall2 (fun nt row => eval (StackFitter.template_row ext z (snd nt)) F = Ok row)
            T rows.
Proof.
  unfold StackFitter.design_matrix. intros H.
  apply eval_bind_inv in H; [|frame]. destruct H as [bg [Hbg H]].
  rewrite eval_gets in Hbg. inversion Hbg; subst bg; clear Hbg.
  apply eval_bind_inv in H;
    [|apply readonly_mapM; intros; apply template_row_readonly].
  destruct H as [rows [Hrows H]]. rewrite eval_ret in H. inversion H; subst A.
  apply mapM_inv in Hrows; [|intros; apply template_row_readonly].
  exists rows. now split.
Qed.

Lemma template_row_empty (F : StackFitter.t) (z : num) (ti : Spectrum) :
  StackFitter.E F <> [] -> wave_of ti = [] ->
  eval (StackFitter.template_row ext z ti) F = Raise IndexError.
Proof.
  intros HE Hw. unfold StackFitter.template_row.
  rewrite eval_bind by frame. rewrite eval_gets. cbn [rbind].
  rewrite eval_bind by frame. rewrite eval_gets. cbn [rbind].
  destruct (StackFitter.E F) as [|E0 Es] eqn:HEs; [contradiction|].
  cbn [length seq foldM].
  rewrite eval_bind.
  2:{ frame. all: apply readonly_on_E; first [apply compute_model_readonly | frame]. }
  rewrite eval_bind by (apply readonly_on_E; frame).
  rewrite eval_on_E, HEs. cbn [nth_error]. rewrite eval_gets. cbn [rbind].
  rewrite eval_bind by frame. rewrite eval_lift. cbn [wave_of]. rewrite Hw.
  reflexivity.
Qed.

Lemma mapM_raises {S A B} (f : A -> M S B) (l1 l2 : list A) (a : A) (s : S) (e : exn) :
  (forall x, readonly (f x)) ->
  Forall (fun x => exists b, eval (f x) s = Ok b) l1 ->
  eval (f a) s = Raise e ->
  eval (mapM f (l1 ++ a :: l2)) s = Raise e.
Proof.
  intros Hf H1 Ha. induction H1 as [|x l [b Hb] H1 IH]; cbn [app mapM].
  - rewrite eval_bind by apply Hf. rewrite Ha. reflexivity.
  - rewrite eval_bind by apply Hf. rewrite Hb. cbn [rbind].
    rewrite eval_bind by (apply readonly_mapM; exact Hf).
    rewrite IH. reflexivity.
Qed.

(** X12.  A template without wavelength samples makes [fit_at_z] raise as
    soon as the fitter has an exposure: line 224 reads its first
    wavelength.  When the rows of the templates before it are computed,
    the exception is the [IndexError] of that read. *)
Theorem empty_template_raises (F : StackFitter.t) (z : num)
        (T : list (string * Spectrum)) (fitter : string) (gu : bool)
        (name : string) (ti : Spectrum) :
  StackFitter.E F <> [] -> In (name, ti) T -> wave_of ti = [] ->
  (exists e, eval (StackFitter.fit_at_z ext z T fitter gu) F = Raise e) /\
  (forall T1 T2,
      T = T1 ++ (name, ti) :: T2 ->
      Forall (fun nt => exists row,
                  eval (StackFitter.template_row ext z (snd nt)) F = Ok row) T1 ->
      eval (StackFitter.fit_at_z ext z T fitter gu) F = Raise IndexError).
Proof.
  intros HE HIn Hw. split.
  - destruct (eval (StackFitter.fit_at_z ext z T fitter gu) F) as [r|e] eqn:H;
      [|now exists e].
    exfalso. apply fit_at_z_inv in H. destruct H as [A [HA _]].
    apply design_matrix_templates in HA. destruct HA as [rows [_ Hrows]].
    destruct (Forall2_In_l _ Hrows HIn) as [row [_ Hrow]]. cbn [snd] in Hrow.
    rewrite (template_row_empty F z ti HE Hw) in Hrow. discriminate.
  - intros T1 T2 -> H1. rewrite fit_at_z_eval.
    unfold StackFitter.design_matrix.
    rewrite eval_bind by frame. rewrite eval_gets. cbn [rbind].
    rewrite eval_bind by (apply readonly_mapM; intros; apply template_row_readonly).
    rewrite (@mapM_raises _ _ _ (fun nt => StackFitter.template_row ext z (snd nt))
               T1 T2 (name, ti) F IndexError).
    + reflexivity.
    + intros; apply template_row_readonly.
    + exact H1.
    + cbn [snd]. exact (template_row_empty F z ti HE Hw).
Qed.

End EmptyTemplate.

Lemma rfold_invariant {A B} (P : B -> Prop) (f : B -> A -> result B) (l : list A) :
  (forall b a b', P b -> f b a = Ok b' -> P b') ->
  forall b0 b, P b0 -> rfold f l b0 = Ok b -> P b.
Proof.
  intros Hstep. induction l as [|a l IH]; intros b0 b HP H; simpl in H.
  - now inversion H; subst.
  - destruct (f b0 a) as [b1|] eqn:H1; simpl in H; [|discriminate].
    eapply IH; [|exact H]. eapply Hstep; eassumption.
Qed.

Lemma rmap2_inv {A B C} (f : A -> B -> result C) (u : list A) (v : list B)
      (r : list C) :
  length u = length v -> rmap2 f u v = Ok r ->
  Forall2 (fun a c => exists b, f a b = Ok c) u r.
Proof.
  revert v r. induction u as [|a u IH]; intros [|b v] r Hl H; simpl in *;
    try discriminate.
  - inversion H. constructor.
  - destruct (f a b) as [c|] eqn:Hc; simpl in H; [|discriminate].
    destruct (rmap2 f u v) as [cs|] eqn:Hcs; simpl in H; [|discriminate].
    inversion H; subst. constructor; [now exists b|].
    apply (IH v); [lia | exact Hcs].
Qed.

Lemma clamp_le (n : nat) (i : Z) : (clamp n i <= n)%nat.
Proof.
  unfold clamp. destruct (_ <? 0)%Z; [lia|]. apply Nat.le_min_r.
Qed.

Lemma slice_bounds_le (n : nat) (start stop : option Z) (a b : nat) :
  slice_bounds n start stop = (a, b) -> (a <= b <= n)%nat.
Proof.
  unfold slice_bounds. intros H. inversion H; subst; clear H.
  assert (Ha : (match start with None => 0 | Some i => clamp n i end <= n)%nat).
  { destruct start; [apply clamp_le | lia]. }
  assert (Hb : (match stop with None => n | Some i => clamp n i end <= n)%nat).
  { destruct stop; [apply clamp_le | lia]. }
  lia.
Qed.

Lemma iadd_cols_shaped (rows cols : nat) (start stop : option Z) (dest src d' : mat) :
  shaped rows cols dest ->
  iadd_cols cols start stop dest src = Ok d' -> shaped rows cols d'.
Proof.
  intros [Hl Hf]. unfold iadd_cols.
  destruct (slice_bounds cols start stop) as [a b] eqn:Hab.
  apply slice_bounds_le in Hab.
  destruct (bcast (length dest) src) as [srows|] eqn:Hs; simpl; [|discriminate].
  apply bcast_length in Hs. intros H.
  apply rmap2_inv in H; [|symmetry; exact Hs].
  split.
  - rewrite <- (Forall2_length H). exact Hl.
  - clear Hl Hs. induction H as [|row row' dest d' [srow Hrow] H IH];
      constructor.
    + inversion Hf; subst.
      destruct (bcast (b - a) srow) as [sv|] eqn:Hsv; simpl in Hrow; [|discriminate].
      apply bcast_length in Hsv. inversion Hrow; subst row'.
      rewrite !length_app. unfold vadd.
      rewrite map2_length, !length_firstn, !length_skipn. unfold vec in *. lia.
    + apply IH. now inversion Hf.
Qed.

Lemma update_length {A} (l : list A) (i : nat) (x : A) :
  length (update l i x) = length l.
Proof.
  revert i. induction l as [|y l IH]; intros [|i]; simpl; try reflexivity.
  now rewrite IH.
Qed.

Lemma update_Forall {A} (P : A -> Prop) (l : list A) (i : nat) (x : A) :
  Forall P l -> P x -> Forall P (update l i x).
Proof.
  intros Hl Hx. revert i. induction Hl as [|y l Hy Hl IH]; intros [|i]; simpl;
    constructor; auto.
Qed.

Section ModelShape.

Variable ext : Externals.

Lemma place_kernel_cube (NX NY : nat) (data data' : list mat) (j : Z)
      (start stop : option Z) (src : mat) :
  cube NX NY data ->
  StackedSpectrum.place_kernel NX data j start stop src = Ok data' ->
  cube NX NY data'.
Proof.
  intros [Hl Hf] H. unfold StackedSpectrum.place_kernel in H. rdestruct H.
  inversion H; subst; clear H. split.
  - now rewrite update_length.
  - apply update_Forall; [exact Hf|].
    eapply iadd_cols_shaped; [|eassumption].
    unfold index in E0. destruct (nth_error data x) eqn:Hx; [|discriminate].
    inversion E0; subst. rewrite Forall_forall in Hf. apply Hf.
    eapply nth_error_In. exact Hx.
Qed.

Lemma build_data_cube (NX NY : nat) (kern : mat) (data : list mat) :
  StackedSpectrum.build_data NX NY kern = Ok data -> cube NX NY data.
Proof.
  unfold StackedSpectrum.build_data. intros H. rdestruct H.
  assert (H0 : cube NX NY (repeat (repeat (zeros NX) NY) NX)).
  { split; [apply repeat_length|]. apply Forall_forall. intros m Hm.
    apply repeat_spec in Hm. subst m. split; [apply repeat_length|].
    apply Forall_forall. intros r Hr. apply repeat_spec in Hr. subst r.
    apply zeros_length. }
  assert (H1 : cube NX NY x).
  { eapply (@rfold_invariant _ _ (cube NX NY)); [| |exact E]; [|exact H0].
    intros b a b' Hb Hs. cbv beta in Hs. eapply place_kernel_cube; eassumption. }
  assert (H2 : cube NX NY x0).
  { eapply (@rfold_invariant _ _ (cube NX NY)); [| |exact E0]; [|exact H1].
    intros b a b' Hb Hs. cbv beta in Hs. eapply place_kernel_cube; eassumption. }
  eapply (@rfold_invariant _ _ (cube NX NY)); [| |exact H]; [|exact H2].
  intros b a b' Hb Hs. cbv beta in Hs. eapply place_kernel_cube; eassumption.
Qed.

Lemma build_model_rows (h : Extension) (w : vec) (kern fd : mat) (s : option vec) :
  StackedSpectrum.build_model ext h w kern = Ok (fd, s) ->
  length fd = NAXIS1 h /\
  Forall (fun r => length r = (NAXIS2 h * NAXIS1 h)%nat) fd.
Proof.
  unfold StackedSpectrum.build_model. intros H.
  destruct (StackedSpectrum.build_data (NAXIS1 h) (NAXIS2 h) kern) as [data|] eqn:Hd;
    simpl in H; [|discriminate].
  apply build_data_cube in Hd. destruct Hd as [Hl Hf].
  assert (H0 : length (map flatten data) = NAXIS1 h /\
               Forall (fun r => length r = (NAXIS2 h * NAXIS1 h)%nat)
                      (map flatten data)).
  { split; [now rewrite length_map|]. apply Forall_forall. intros r Hr.
    apply in_map_iff in Hr. destruct Hr as [m [<- Hm]].
    apply flatten_length. rewrite Forall_forall in Hf. now apply Hf. }
  destruct (ISFLAM h).
  - inversion H; subst. exact H0.
  - destruct (bcast _ _) as [sb|] eqn:Hsb; simpl in H; [|discriminate].
    inversion H; subst; clear H. apply bcast_length in Hsb.
    destruct H0 as [H0l H0f]. split.
    + rewrite map2_length. unfold vec, mat in *. lia.
    + revert sb Hsb. clear H0l. induction H0f as [|r fd0 Hr H0f IH];
        intros [|x sb] Hsb; simpl; constructor.
      * now rewrite length_map.
      * apply IH. simpl in Hsb. lia.
Qed.

(** The flat model of a constructed spectrum has one value per pixel. *)
Lemma flat_length sys_err mask_min mask_threshold fcontam h E :
  StackedSpectrum.init ext sys_err mask_min mask_threshold fcontam h = Ok E ->
  length (StackedSpectrum.flat E)
  = (fst (StackedSpectrum.sh E) * snd (StackedSpectrum.sh E))%nat.
Proof.
  intros H. unfold StackedSpectrum.init in H.
  destruct (StackedSpectrum.init_traced ext sys_err mask_min mask_threshold
              fcontam h) as [[E' hist]|] eqn:Ht; simpl in H; [|discriminate].
  inversion H; subst E'; clear H.
  unfold StackedSpectrum.init_traced in Ht. rdestruct Ht.
  inversion Ht; subst; clear Ht. cbn.
  apply build_model_rows in E5. destruct E5 as [_ Hf].
  unfold StackedSpectrum.compute_model, eval, bind, gets, lift, ret in E6.
  cbn in E6. 
  destruct (dot_vm _ _ _) as [fl|] eqn:Hv; [|discriminate].
  cbn in E6. inversion E6; subst. now apply dot_vm_length in Hv.
Qed.

End ModelShape.

Lemma mul_zero_cases (x : num) : x * zero = zero \/ x * zero = NaN.
Proof.
  destruct x as [q| | |]; [left; apply mul_zero_fin | right | right | right];
    reflexivity.
Qed.

Lemma sum_blank (l : vec) :
  Forall (fun x => x = zero \/ x = NaN) l ->
  forall acc, acc = zero \/ acc = NaN ->
              fold_left add l acc = zero \/ fold_left add l acc = NaN.
Proof.
  induction 1 as [|x l Hx _ IH]; intros acc Hacc; simpl; [exact Hacc|].
  apply IH. destruct Hacc as [->| ->], Hx as [->| ->].
  - left. apply zero_add_zero.
  - right. reflexivity.
  - right. reflexivity.
  - right. reflexivity.
Qed.

Lemma blank_clipped (d : num) :
  d = zero \/ d = NaN -> eqb (one / d) zero || negb (isfinite (one / d)) = true.
Proof. intros [->| ->]; vm_compute; reflexivity. Qed.

Section DeadColumns.

Variable ext : Externals.

(** X9.  On an image of the shape of the exposure [optimal_extract]
    returns one flux and one rms per column, and a column in which every
    pixel has the inverse variance 0 is filled with zeros in both. *)
Theorem extract_dead_column sys_err mask_min mask_threshold fcontam h
        (E : StackedSpectrum.t) (data : mat) :
  StackedSpectrum.init ext sys_err mask_min mask_threshold fcontam h = Ok E ->
  shaped (fst (StackedSpectrum.sh E)) (snd (StackedSpectrum.sh E)) data ->
  exists flux rms,
    eval (StackedSpectrum.optimal_extract ext data) E = Ok (flux, rms) /\
    length flux = snd (StackedSpectrum.sh E) /\
    length rms = snd (StackedSpectrum.sh E) /\
    forall j, (j < snd (StackedSpectrum.sh E))%nat ->
              Forall (fun w => w = zero) (column j (StackedSpectrum.ivar E)) ->
              nth j flux NaN = zero /\ nth j rms NaN = zero.
Proof.
  intros Hinit Hd.
  pose proof (init_ivar_shaped _ _ _ _ _ _ Hinit) as Hiv.
  pose proof (flat_length _ _ _ _ _ _ Hinit) as Hfl.
  destruct (StackedSpectrum.sh E) as [rows cols] eqn:Hsh.
  cbn [fst snd] in *.
  set (flat2 := chunks cols rows (StackedSpectrum.flat E)).
  assert (Hf2 : shaped rows cols flat2) by (apply chunks_shaped; exact Hfl).
  set (flatf := sum_axis0 cols flat2).
  assert (Hff : length flatf = cols) by (apply (sum_axis0_length Hf2)).
  set (prof := map (fun row => vdiv row flatf) flat2).
  assert (Hp : shaped rows cols prof).
  { apply shaped_map; [|exact Hf2]. intros r Hr. unfold vdiv.
    rewrite map2_length. llia. }
  assert (Hs : shaped rows cols (map vsqr prof)).
  { apply shaped_map; [|exact Hp]. intros r Hr. unfold vsqr.
    now rewrite length_map. }
  set (nsum := sum_axis0 cols (map2 (map2 mul) (map2 (map2 mul) prof data)
                                    (StackedSpectrum.ivar E))).
  set (dsum := sum_axis0 cols (map2 (map2 mul) (map vsqr prof)
                                    (StackedSpectrum.ivar E))).
  assert (Hrun : eval (StackedSpectrum.optimal_extract ext data) E
                 = Ok (StackedSpectrum.extracted ext nsum dsum)).
  { unfold StackedSpectrum.optimal_extract.
    rewrite eval_bind by frame. rewrite eval_gets. cbn [rbind].
    rewrite eval_bind by frame. rewrite eval_gets, Hsh. cbn [rbind].
    rewrite eval_bind by frame. rewrite eval_lift.
    unfold StackedSpectrum.profile, reshape. cbn [fst snd].
    rewrite Hfl, Nat.eqb_refl. cbn [rbind].
    rewrite eval_bind by frame. rewrite eval_gets. cbn [rbind snd].
    rewrite eval_bind by frame. rewrite eval_lift.
    fold flat2 flatf prof.
    rewrite (weighted_sums_shaped Hp Hd Hiv). cbn [rbind].
    rewrite eval_ret. reflexivity. }
  assert (Hdl : length dsum = cols).
  { apply (@sum_axis0_length rows). apply shaped_map2; assumption. }
  assert (Hnl : length nsum = cols).
  { apply (@sum_axis0_length rows).
    apply shaped_map2; [apply shaped_map2|]; assumption. }
  unfold StackedSpectrum.extracted in Hrun.
  eexists _, _. split; [exact Hrun|].
  assert (Hcl : length (StackedSpectrum.clipped dsum) = cols).
  { unfold StackedSpectrum.clipped. now rewrite length_map. }
  split; [|split].
  - rewrite map2_length. unfold vdiv. rewrite map2_length. llia.
  - rewrite map2_length, !length_map. llia.
  - intros j Hj Hdead.
    assert (Hclip : nth j (StackedSpectrum.clipped dsum) true = true).
    { unfold StackedSpectrum.clipped.
      rewrite (@map_nth_lt _ _ _ dsum j true NaN) by llia.
      apply blank_clipped. unfold dsum.
      rewrite (@sum_axis0_nth rows cols) by (try apply shaped_map2; assumption).
      rewrite (@column_map2 mul rows cols _ _ j Hs Hiv Hj).
      apply sum_blank; [|now left].
      generalize (column j (map vsqr prof)).
      induction Hdead as [|w iv -> _ IH]; intros [|x l]; simpl; constructor.
      - apply mul_zero_cases.
      - apply IH. }
    split.
    + rewrite (@map2_nth _ _ _ _ _ _ j NaN true NaN)
        by (unfold vdiv; rewrite ?map2_length; llia).
      now rewrite Hclip.
    + rewrite (@map2_nth _ _ _ _ _ _ j NaN true NaN)
        by (rewrite ?length_map; llia).
      now rewrite Hclip.
Qed.

End DeadColumns.

(** ** A grid without points *)

Section EmptyGrid.

Variable ext : Externals.

Lemma with_prior_empty (prior : ZGrid.prior_t) :
  ZGrid.with_prior ext prior [] [] = Ok [] \/
  ZGrid.with_prior ext prior [] [] = Raise ValueError.
Proof.
  unfold ZGrid.with_prior. destruct prior as [p|]; [|now left].
  unfold bzip. destruct (np_interp ext [] (fst p) (snd p)) as [|y [|y' l]];
    simpl; auto.
Qed.

(** X14.  When the coarse grid has no point, [fit_zgrid] raises
    ValueError: the first refinement round takes [np.argmin] of an empty
    array. *)
Theorem empty_grid_raises (F : StackFitter.t) (ident ra dec : hval)
        (dz0 : num) (zr : num * num) (fitter : string) (prior : ZGrid.prior_t)
        (t_complex t_i : list (string * Spectrum)) :
  log_zgrid ext (fst zr) (snd zr) dz0 = Ok [] ->
  eval (ZGrid.fit_zgrid ext ident ra dec dz0 zr fitter prior t_complex t_i) F
  = Raise ValueError.
Proof.
  intros Hz. unfold ZGrid.fit_zgrid.
  rewrite eval_bind by apply zoom_readonly.
  assert (Hzoom : eval (ZGrid.zoom ext dz0 zr fitter prior t_complex) F
                  = Raise ValueError).
  { unfold ZGrid.zoom. rewrite eval_bind by frame. rewrite eval_lift, Hz.
    cbn [rbind]. rewrite eval_bind by apply scan_readonly.
    unfold ZGrid.scan at 1. cbn [mapM]. rewrite eval_ret. cbn [rbind].
    change (zrange 1 7) with [1; 2; 3; 4; 5; 6]%Z. cbn [foldM].
    rewrite eval_bind by apply refine_step_readonly.
    unfold ZGrid.refine_step at 1. cbn [ZGrid.cur_zi ZGrid.cur_ci].
    rewrite eval_bind by frame. rewrite eval_lift.
    destruct (with_prior_empty prior) as [-> | ->]; cbn [rbind]; [|reflexivity].
    rewrite eval_bind by frame. rewrite eval_lift. reflexivity. }
  now rewrite Hzoom.
Qed.

End EmptyGrid.

(** ** The file of the results *)

Lemma append_length (a b : string) :
  String.length (a ++ b) = (String.length a + String.length b)%nat.
Proof. induction a as [|c a IH]; simpl; [reflexivity | now rewrite IH]. Qed.

Lemma prefix_length (old s : string) :
  prefix old s = true -> (String.length old <= String.length s)%nat.
Proof.
  revert old. induction s as [|c s IH]; intros [|a old] H; simpl in *;
    try lia; try discriminate.
  destruct (ascii_dec a c); [|discriminate]. specialize (IH _ H). lia.
Qed.

Lemma replace_unchanged (old new s : string) :
  contains old s = false -> str_replace old new s = s.
Proof.
  unfold str_replace. induction s as [|c s IH]; intros H; [reflexivity|].
  cbn [contains] in H. apply orb_false_iff in H. destruct H as [Hp Hc].
  cbn [replace_from]. rewrite Hp. f_equal. now apply IH.
Qed.

Section Growth.

Variables old new : string.
Hypothesis Hold : (1 <= String.length old)%nat.
Hypothesis Hnew : (String.length old < String.length new)%nat.

Lemma replace_from_length (s : string) :
  forall skip, (skip <= String.length s)%nat ->
    (String.length s - skip <= String.length (replace_from old new skip s))%nat.
Proof.
  induction s as [|c s IH]; intros skip Hs; [simpl; lia|].
  destruct skip as [|k]; cbn [replace_from].
  - destruct (prefix old (String c s)) eqn:Hp.
    + apply prefix_length in Hp. cbn [String.length] in *.
      rewrite append_length.
      specialize (IH (String.length old - 1)%nat ltac:(lia)). lia.
    + cbn [String.length]. specialize (IH 0%nat ltac:(lia)). lia.
  - cbn [String.length] in *. specialize (IH k ltac:(lia)). lia.
Qed.

Lemma replace_grows (s : string) :
  contains old s = true ->
  (String.length s < String.length (str_replace old new s))%nat.
Proof.
  unfold str_replace. induction s as [|c s IH]; intros H.
  - cbn [contains] in H. rewrite orb_false_r in H.
    apply prefix_length in H. simpl in H. lia.
  - cbn [replace_from]. destruct (prefix old (String c s)) eqn:Hp.
    + apply prefix_length in Hp. cbn [String.length] in *.
      rewrite append_length.
      pose proof (@replace_from_length s (String.length old - 1)%nat ltac:(lia)).
      lia.
    + cbn [contains] in H. rewrite Hp in H. simpl in H.
      specialize (IH H). cbn [String.length]. lia.
Qed.

Lemma replace_fixed_iff (s : string) :
  str_replace old new s = s <-> contains old s = false.
Proof.
  split.
  - intros H. destruct (contains old s) eqn:Hc; [|reflexivity].
    apply replace_grows in Hc. rewrite H in Hc. lia.
  - apply replace_unchanged.
Qed.

End Growth.

(** X16.  The path of the table that [fit_zgrid] writes is the path of the
    stack file exactly when that path does not contain '.fits'.  The stack
    file is then removed at line 440, and [t.write] puts the table in its
    place when it finds a format for the path and raises [IORegistryError]
    when it finds none, the stack file being gone.  When the path contains
    '.fits' the stack file is left as it was.  The call returns exactly
    when a format is found, and the table is then at its path. *)
Theorem table_path_distinct {C} (identified : string -> bool) (file : string)
        (table : C) (fs : FileSystem C) :
  let fs' := exec (write_table identified file table) fs in
  (table_path file = file <-> contains ".fits" file = false) /\
  eval (write_table identified file table) fs
  = (if identified (table_path file) then Ok tt else Raise IORegistryError) /\
  (contains ".fits" file = false ->
   fs' file = if identified file then Some table else None) /\
  (contains ".fits" file = true -> fs' file = fs file) /\
  fs' (table_path file)
  = if identified (table_path file) then Some table else None.
Proof.
  assert (Hiff : table_path file = file <-> contains ".fits" file = false).
  { unfold table_path. apply replace_fixed_iff; simpl; lia. }
  cbv zeta. split; [exact Hiff|].
  unfold write_table, eval, exec. cbv zeta.
  split; [|split; [|split]].
  - destruct (identified (table_path file)); reflexivity.
  - intros H. apply Hiff in H. rewrite !H.
    destruct (identified file); cbn [snd]; unfold fs_write.
    + now rewrite String.eqb_refl.
    + destruct (fs file) eqn:Hf; [|exact Hf].
      unfold fs_remove. now rewrite String.eqb_refl.
  - intros H.
    assert (Hne : String.eqb file (table_path file) = false).
    { apply String.eqb_neq. intros Heq. symmetry in Heq. apply Hiff in Heq.
      congruence. }
    destruct (identified (table_path file)); cbn [snd]; unfold fs_write;
      rewrite ?Hne; (destruct (fs (table_path file)); [|reflexivity]);
      unfold fs_remove; now rewrite Hne.
  - destruct (identified (table_path file)); cbn [snd]; unfold fs_write.
    + now rewrite String.eqb_refl.
    + destruct (fs (table_path file)) eqn:Hf; [|exact Hf].
      unfold fs_remove. now rewrite String.eqb_refl.
Qed.

(** ** The model cube *)

Lemma zero_add_l (k : num) : zero + k = k.
Proof.
  destruct k as [q| | |]; try reflexivity.
  unfold zero. cbn [add]. f_equal. rewrite qc_zero. ring.
Qed.

Lemma vadd_zeros_l (v : vec) : vadd (zeros (length v)) v = v.
Proof.
  unfold vadd, zeros. induction v as [|x v IH]; [reflexivity|].
  cbn [length repeat map2]. now rewrite zero_add_l, IH.
Qed.

Lemma firstn_zeros (a n : nat) : (a <= n)%nat -> firstn a (zeros n) = zeros a.
Proof. intros H. unfold zeros. now apply firstn_repeat_le. Qed.

(** [plane[:, a:b] += src] on a plane of zeros. *)
Lemma iadd_cols_zeros (NX NY a b : nat) (start stop : option Z) (src : mat) :
  slice_bounds NX start stop = (a, b) ->
  length src = NY -> Forall (fun r => length r = (b - a)%nat) src ->
  iadd_cols NX start stop (repeat (zeros NX) NY) src
  = Ok (map (fun srow => zeros a ++ srow ++ zeros (NX - b)) src).
Proof.
  intros Hab Hl Hf. unfold iadd_cols. rewrite Hab.
  apply slice_bounds_le in Hab.
  rewrite bcast_same by (now rewrite repeat_length). cbn [rbind].
  subst NY. induction Hf as [|srow src Hr Hf IH]; [reflexivity|].
  cbn [length repeat rmap2 map]. rewrite (@bcast_same _ _ _ Hr). cbn [rbind].
  rewrite IH. cbn [rbind]. do 2 f_equal.
  rewrite firstn_zeros by lia. rewrite (skipn_zeros a NX), (skipn_zeros b NX).
  rewrite firstn_zeros by lia. rewrite <- Hr at 1. now rewrite vadd_zeros_l.
Qed.

Lemma window_nth (a c x : nat) (s : vec) :
  nth x (zeros a ++ s ++ zeros c) NaN
  = if (a <=? x)%nat && (x <? a + length s)%nat then nth (x - a) s NaN
    else if (x <? a + length s + c)%nat then zero else NaN.
Proof.
  destruct (a <=? x)%nat eqn:Ha; cbn [andb].
  - apply Nat.leb_le in Ha.
    rewrite app_nth2 by (rewrite zeros_length; lia). rewrite zeros_length.
    destruct (x <? a + length s)%nat eqn:Hb.
    + apply Nat.ltb_lt in Hb. apply app_nth1. lia.
    + apply Nat.ltb_ge in Hb. rewrite app_nth2 by lia.
      destruct (x <? a + length s + c)%nat eqn:Hc.
      * apply Nat.ltb_lt in Hc. apply zeros_nth. lia.
      * apply Nat.ltb_ge in Hc. apply nth_overflow. rewrite zeros_length. lia.
  - apply Nat.leb_gt in Ha.
    rewrite app_nth1 by (rewrite zeros_length; lia).
    replace (x <? a + length s + c)%nat with true
      by (symmetry; apply Nat.ltb_lt; lia).
    apply zeros_nth. lia.
Qed.

Lemma zrange_In (a b j : Z) : In j (zrange a b) <-> (a <= j < b)%Z.
Proof.
  unfold zrange. rewrite in_map_iff. split.
  - intros [k [<- Hk]]. apply in_seq in Hk. lia.
  - intros H. exists (Z.to_nat (j - a)). split; [lia|]. apply in_seq. lia.
Qed.

Lemma NoDup_map_inj {A B} (f : A -> B) (l : list A) :
  (forall x y, f x = f y -> x = y) -> NoDup l -> NoDup (map f l).
Proof.
  intros Hf. induction 1 as [|x l Hx Hl IH]; simpl; constructor; [|exact IH].
  intros HIn. apply in_map_iff in HIn. destruct HIn as [y [Hy HIn]].
  apply Hf in Hy. now subst.
Qed.

Lemma zrange_NoDup (a b : Z) : NoDup (zrange a b).
Proof.
  unfold zrange. apply NoDup_map_inj; [|apply seq_NoDup].
  intros x y H. lia.
Qed.

Lemma update_nth_same {A} (l : list A) (i : nat) (x d : A) :
  (i < length l)%nat -> nth i (update l i x) d = x.
Proof.
  revert i. induction l as [|y l IH]; intros [|i] H; simpl in *; try lia;
    try reflexivity.
  apply IH. lia.
Qed.

Lemma update_nth_other {A} (l : list A) (i k : nat) (x d : A) :
  i <> k -> nth k (update l i x) d = nth k l d.
Proof.
  revert i k. induction l as [|y l IH]; intros [|i] [|k] H; simpl;
    try reflexivity; try congruence.
  apply IH. congruence.
Qed.

Section Placement.

Variable NX : nat.
Variables st sp : Z -> option Z.
Variable src : Z -> mat.
Variable G : Z -> mat.

Lemma rfold_place (js : list Z) :
  forall data,
    NoDup js -> (forall j, In j js -> (0 <= j < Z.of_nat NX)%Z) ->
    length data = NX ->
    (forall j, In j js ->
       iadd_cols NX (st j) (sp j) (nth (Z.to_nat j) data []) (src j) = Ok (G j)) ->
    exists data',
      rfold (fun d j => StackedSpectrum.place_kernel NX d j (st j) (sp j) (src j))
            js data = Ok data' /\
      length data' = NX /\
      forall i, (i < NX)%nat ->
        nth i data' []
        = if existsb (Z.eqb (Z.of_nat i)) js then G (Z.of_nat i) else nth i data [].
Proof.
  induction js as [|j js IH]; intros data Hnd Hr Hl Hg.
  - exists data. split; [reflexivity|]. split; [exact Hl|].
    intros i _. reflexivity.
  - apply NoDup_cons_iff in Hnd. destruct Hnd as [Hnotin Hnd'].
    assert (Hj := Hr j (or_introl eq_refl)).
    assert (Hstep : StackedSpectrum.place_kernel NX data j (st j) (sp j) (src j)
                    = Ok (update data (Z.to_nat j) (G j))).
    { unfold StackedSpectrum.place_kernel, py_index. unfold mat, vec in *.
      rewrite Hl.
      replace (j <? 0)%Z with false by (symmetry; apply Z.ltb_ge; lia).
      replace ((0 <=? j)%Z && (j <? Z.of_nat NX)%Z) with true
        by (symmetry; apply andb_true_iff; split;
            [apply Z.leb_le | apply Z.ltb_lt]; lia).
      cbn [rbind]. unfold index.
      rewrite (nth_error_nth' data []) by lia. cbn [rbind].
      rewrite (Hg j (or_introl eq_refl)). reflexivity. }
    destruct (IH (update data (Z.to_nat j) (G j))) as [data' [Hrun [Hl' Hn]]].
    + exact Hnd'.
    + intros j' Hj'. apply Hr. now right.
    + now rewrite update_length.
    + intros j' Hj'. rewrite update_nth_other.
      * apply Hg. now right.
      * assert (Hr' := Hr j' (or_intror Hj')).
        intros Heq. apply Hnotin. 
        assert (j = j') by lia. now subst.
    + exists data'. cbn [rfold]. rewrite Hstep. cbn [rbind].
      split; [exact Hrun|]. split; [exact Hl'|].
      intros i Hi. rewrite (Hn i Hi). cbn [existsb].
      destruct (existsb (Z.eqb (Z.of_nat i)) js) eqn:He.
      * now rewrite orb_true_r.
      * rewrite orb_false_r. destruct (Z.eqb (Z.of_nat i) j) eqn:Hij.
        -- apply Z.eqb_eq in Hij. subst j. rewrite Nat2Z.id.
           apply update_nth_same. llia.
        -- apply Z.eqb_neq in Hij. apply update_nth_other. lia.
Qed.

End Placement.

Lemma existsb_zrange (a b : Z) (i : nat) :
  existsb (Z.eqb (Z.of_nat i)) (zrange a b)
  = ((a <=? Z.of_nat i)%Z && (Z.of_nat i <? b)%Z).
Proof.
  destruct (existsb _ _) eqn:He.
  - apply existsb_exists in He. destruct He as [j [Hj Heq]].
    apply Z.eqb_eq in Heq. subst j. apply zrange_In in Hj.
    symmetry. apply andb_true_iff. split; [apply Z.leb_le | apply Z.ltb_lt]; lia.
  - symmetry. apply not_true_is_false. intros H. apply andb_true_iff in H.
    destruct H as [H1 H2]. apply Z.leb_le in H1. apply Z.ltb_lt in H2.
    assert (Hin : In (Z.of_nat i) (zrange a b)) by (apply zrange_In; lia).
    assert (Ht : existsb (Z.eqb (Z.of_nat i)) (zrange a b) = true).
    { apply existsb_exists. exists (Z.of_nat i). split; [exact Hin|].
      apply Z.eqb_refl. }
    congruence.
Qed.

Lemma clamp_nonneg (n : nat) (i : Z) :
  (0 <= i)%Z -> (Z.to_nat i <= n)%nat -> clamp n i = Z.to_nat i.
Proof.
  intros H0 Hn. unfold clamp.
  replace (i <? 0)%Z with false by (symmetry; apply Z.ltb_ge; lia).
  replace (i <? 0)%Z with false by (symmetry; apply Z.ltb_ge; lia).
  lia.
Qed.

Lemma clamp_neg (n : nat) (i : Z) :
  (i < 0)%Z -> (0 <= i + Z.of_nat n)%Z -> clamp n i = Z.to_nat (i + Z.of_nat n).
Proof.
  intros H0 Hn. unfold clamp.
  replace (i <? 0)%Z with true by (symmetry; apply Z.ltb_lt; lia).
  replace (i + Z.of_nat n <? 0)%Z with false by (symmetry; apply Z.ltb_ge; lia).
  lia.
Qed.

Lemma py_slice_from {A} (l : list A) (i : Z) :
  (i < 0)%Z -> (0 <= i + Z.of_nat (length l))%Z ->
  py_slice (Some i) None l = skipn (Z.to_nat (i + Z.of_nat (length l))) l.
Proof.
  intros H0 Hn. unfold py_slice, slice_bounds. rewrite clamp_neg by assumption.
  apply firstn_all2. rewrite length_skipn. lia.
Qed.

Lemma py_slice_upto {A} (l : list A) (i : Z) :
  (0 <= i)%Z -> (Z.to_nat i <= length l)%nat ->
  py_slice None (Some i) l = firstn (Z.to_nat i) l.
Proof.
  intros H0 Hn. unfold py_slice, slice_bounds. rewrite clamp_nonneg by assumption.
  cbn [skipn]. f_equal. lia.
Qed.

Lemma nth_skipn_add {A} (k x : nat) (l : list A) (d : A) :
  nth x (skipn k l) d = nth (k + x) l d.
Proof.
  revert l. induction k as [|k IH]; intros [|a l]; simpl; try reflexivity.
  - now destruct x.
  - apply IH.
Qed.

Lemma nth_firstn_lt {A} (n x : nat) (l : list A) (d : A) :
  (x < n)%nat -> nth x (firstn n l) d = nth x l d.
Proof.
  revert x l. induction n as [|n IH]; intros x [|a l] H; simpl; try lia;
    try reflexivity.
  destruct x; [reflexivity|]. apply IH. lia.
Qed.

Ltac bool_lia :=
  repeat match goal with
         | |- context [(?a <=? ?b)%nat] => destruct (Nat.leb_spec a b)
         | |- context [(?a <? ?b)%nat] => destruct (Nat.ltb_spec a b)
         | |- context [(?a <=? ?b)%Z] => destruct (Z.leb_spec a b)
         | |- context [(?a <? ?b)%Z] => destruct (Z.ltb_spec a b)
         end;
  cbn [andb orb]; try lia; try reflexivity.

Section Banded.

Variables NX h : nat.
Variable kern : mat.
Hypothesis Hh : (1 <= h)%nat.
Hypothesis Hwide : (2 * h <= NX)%nat.
Hypothesis Hkern : shaped (2 * h) (2 * h) kern.

Lemma kern_rows (krow : vec) : In krow kern -> length krow = (2 * h)%nat.
Proof.
  intros H. destruct Hkern as [_ Hf]. rewrite Forall_forall in Hf. now apply Hf.
Qed.

Lemma left_edge (j : Z) :
  (0 <= j < Z.of_nat h)%Z ->
  iadd_cols NX None (Some (j + Z.of_nat h)%Z) (repeat (zeros NX) (2 * h))
            (map (py_slice (Some (- Z.of_nat h - j)%Z) None) kern)
  = Ok (embed 0 (NX - (Z.to_nat j + h))
              (map (skipn (h - Z.to_nat j)) kern)).
Proof.
  intros Hj.
  rewrite (@iadd_cols_zeros NX (2 * h) 0 (Z.to_nat j + h)).
  - unfold embed. rewrite !map_map. f_equal. apply map_ext_in. intros krow Hk.
    rewrite py_slice_from by (rewrite ?(kern_rows _ Hk); lia).
    rewrite (kern_rows _ Hk). do 3 f_equal. lia.
  - unfold slice_bounds. rewrite clamp_nonneg by lia. f_equal. lia.
  - rewrite length_map. apply Hkern.
  - apply Forall_forall. intros r Hr. apply in_map_iff in Hr.
    destruct Hr as [krow [<- Hk]].
    rewrite py_slice_from by (rewrite ?(kern_rows _ Hk); lia).
    rewrite length_skipn, (kern_rows _ Hk). lia.
Qed.

Lemma right_edge (j : Z) :
  (Z.of_nat NX - Z.of_nat h <= j < Z.of_nat NX)%Z ->
  iadd_cols NX (Some (- Z.of_nat h + j)%Z) None (repeat (zeros NX) (2 * h))
            (map (py_slice None (Some (Z.of_nat NX - j + Z.of_nat h)%Z)) kern)
  = Ok (embed (Z.to_nat j - h) (NX - NX)
              (map (firstn (NX + h - Z.to_nat j)) kern)).
Proof.
  intros Hj.
  rewrite (@iadd_cols_zeros NX (2 * h) (Z.to_nat j - h) NX).
  - unfold embed. rewrite !map_map. f_equal. apply map_ext_in. intros krow Hk.
    rewrite py_slice_upto by (rewrite ?(kern_rows _ Hk); lia).
    do 3 f_equal. lia.
  - unfold slice_bounds. rewrite clamp_nonneg by lia. f_equal; lia.
  - rewrite length_map. apply Hkern.
  - apply Forall_forall. intros r Hr. apply in_map_iff in Hr.
    destruct Hr as [krow [<- Hk]].
    rewrite py_slice_upto by (rewrite ?(kern_rows _ Hk); lia).
    rewrite length_firstn, (kern_rows _ Hk). lia.
Qed.

Lemma interior (j : Z) :
  (Z.of_nat h <= j < Z.of_nat NX - Z.of_nat h)%Z ->
  iadd_cols NX (Some (j - Z.of_nat h)%Z) (Some (j + Z.of_nat h)%Z)
            (repeat (zeros NX) (2 * h)) kern
  = Ok (embed (Z.to_nat j - h) (NX - (Z.to_nat j + h)) kern).
Proof.
  intros Hj.
  rewrite (@iadd_cols_zeros NX (2 * h) (Z.to_nat j - h) (Z.to_nat j + h)).
  - reflexivity.
  - unfold slice_bounds. rewrite !clamp_nonneg by lia. f_equal; lia.
  - apply Hkern.
  - apply Forall_forall. intros r Hr. rewrite (kern_rows _ Hr). lia.
Qed.

Lemma half_of_even : (2 * h / 2 = h)%nat.
Proof. rewrite Nat.mul_comm. apply Nat.div_mul. lia. Qed.

Lemma neg_half_of_even : (- Z.of_nat (2 * h) / 2 = - Z.of_nat h)%Z.
Proof.
  replace (- Z.of_nat (2 * h))%Z with (- Z.of_nat h * 2)%Z by lia.
  apply Z.div_mul. lia.
Qed.

Lemma blank_plane (i : nat) :
  (i < NX)%nat ->
  nth i (repeat (repeat (zeros NX) (2 * h)) NX) [] = repeat (zeros NX) (2 * h).
Proof. intros H. now apply nth_repeat_lt. Qed.

(** The planes that [_build_model] fills in, for an image at least as wide
    as the kernel. *)
Lemma build_data_planes :
  exists data,
    StackedSpectrum.build_data NX (2 * h) kern = Ok data /\
    length data = NX /\
    forall j, (j < NX)%nat ->
      nth j data []
      = if (j <? h)%nat
        then embed 0 (NX - (j + h)) (map (skipn (h - j)) kern)
        else if (j <? NX - h)%nat
             then embed (j - h) (NX - (j + h)) kern
             else embed (j - h) (NX - NX) (map (firstn (NX + h - j)) kern).
Proof.
  unfold StackedSpectrum.build_data. cbv zeta.
  rewrite half_of_even, neg_half_of_even.
  set (data0 := repeat (repeat (zeros NX) (2 * h)) NX).
  destruct (@rfold_place NX (fun _ => None) (fun j => Some (j + Z.of_nat h)%Z)
              (fun j => map (py_slice (Some (- Z.of_nat h - j)%Z) None) kern)
              (fun j => embed 0 (NX - (Z.to_nat j + h))
                              (map (skipn (h - Z.to_nat j)) kern))
              (zrange 0 (Z.of_nat h)) data0)
    as [data1 [Hrun1 [Hl1 Hn1]]].
  { apply zrange_NoDup. }
  { intros j Hj. apply zrange_In in Hj. lia. }
  { apply repeat_length. }
  { intros j Hj. apply zrange_In in Hj. cbv beta.
    unfold data0. rewrite blank_plane by lia. apply left_edge. lia. }
  cbv beta in Hrun1. rewrite Hrun1. cbn [rbind].
  destruct (@rfold_place NX (fun j => Some (- Z.of_nat h + j)%Z) (fun _ => None)
              (fun j => map (py_slice None
                               (Some (Z.of_nat NX - j + Z.of_nat h)%Z)) kern)
              (fun j => embed (Z.to_nat j - h) (NX - NX)
                              (map (firstn (NX + h - Z.to_nat j)) kern))
              (zrange (Z.of_nat NX - Z.of_nat h) (Z.of_nat NX)) data1)
    as [data2 [Hrun2 [Hl2 Hn2]]].
  { apply zrange_NoDup. }
  { intros j Hj. apply zrange_In in Hj. lia. }
  { exact Hl1. }
  { intros j Hj. apply zrange_In in Hj. cbv beta.
    rewrite Hn1 by lia. rewrite existsb_zrange.
    replace ((0 <=? Z.of_nat (Z.to_nat j))%Z && (Z.of_nat (Z.to_nat j) <? Z.of_nat h)%Z)
      with false by (symmetry; bool_lia).
    unfold data0. rewrite blank_plane by lia. apply right_edge. lia. }
  cbv beta in Hrun2. rewrite Hrun2. cbn [rbind].
  destruct (@rfold_place NX (fun j => Some (j - Z.of_nat h)%Z)
              (fun j => Some (j + Z.of_nat h)%Z) (fun _ => kern)
              (fun j => embed (Z.to_nat j - h) (NX - (Z.to_nat j + h)) kern)
              (zrange (Z.of_nat h) (Z.of_nat NX - Z.of_nat h)) data2)
    as [data3 [Hrun3 [Hl3 Hn3]]].
  { apply zrange_NoDup. }
  { intros j Hj. apply zrange_In in Hj. lia. }
  { exact Hl2. }
  { intros j Hj. apply zrange_In in Hj. cbv beta.
    rewrite Hn2 by lia. rewrite existsb_zrange.
    replace ((Z.of_nat NX - Z.of_nat h <=? Z.of_nat (Z.to_nat j))%Z
             && (Z.of_nat (Z.to_nat j) <? Z.of_nat NX)%Z)
      with false by (symmetry; bool_lia).
    rewrite Hn1 by lia. rewrite existsb_zrange.
    replace ((0 <=? Z.of_nat (Z.to_nat j))%Z && (Z.of_nat (Z.to_nat j) <? Z.of_nat h)%Z)
      with false by (symmetry; bool_lia).
    unfold data0. rewrite blank_plane by lia. apply interior. lia. }
  cbv beta in Hrun3. exists data3. split; [exact Hrun3|]. split; [exact Hl3|].
  intros j Hj. unfold mat, vec in *.
  rewrite (Hn3 j Hj), existsb_zrange, Nat2Z.id.
  destruct (Nat.ltb_spec j h) as [H1|H1].
  - replace ((Z.of_nat h <=? Z.of_nat j)%Z && (Z.of_nat j <? Z.of_nat NX - Z.of_nat h)%Z)
      with false by (symmetry; bool_lia).
    rewrite (Hn2 j Hj), existsb_zrange.
    replace ((Z.of_nat NX - Z.of_nat h <=? Z.of_nat j)%Z && (Z.of_nat j <? Z.of_nat NX)%Z)
      with false by (symmetry; bool_lia).
    rewrite (Hn1 j Hj), existsb_zrange, Nat2Z.id.
    replace ((0 <=? Z.of_nat j)%Z && (Z.of_nat j <? Z.of_nat h)%Z)
      with true by (symmetry; bool_lia).
    reflexivity.
  - destruct (Nat.ltb_spec j (NX - h)) as [H2|H2].
    + replace ((Z.of_nat h <=? Z.of_nat j)%Z && (Z.of_nat j <? Z.of_nat NX - Z.of_nat h)%Z)
        with true by (symmetry; bool_lia).
      reflexivity.
    + replace ((Z.of_nat h <=? Z.of_nat j)%Z && (Z.of_nat j <? Z.of_nat NX - Z.of_nat h)%Z)
        with false by (symmetry; bool_lia).
      rewrite (Hn2 j Hj), existsb_zrange, Nat2Z.id.
      replace ((Z.of_nat NX - Z.of_nat h <=? Z.of_nat j)%Z && (Z.of_nat j <? Z.of_nat NX)%Z)
        with true by (symmetry; bool_lia).
      reflexivity.
Qed.

Lemma kern_row_length (y : nat) :
  (y < 2 * h)%nat -> length (nth y kern []) = (2 * h)%nat.
Proof.
  intros Hy. apply kern_rows. apply nth_In. destruct Hkern as [Hl _]. llia.
Qed.

(** A plane of that shape is the kernel centred on its column. *)
Lemma plane_banded (j y x : nat) :
  (j < NX)%nat -> (y < 2 * h)%nat -> (x < NX)%nat ->
  nth x (nth y (if (j <? h)%nat
                then embed 0 (NX - (j + h)) (map (skipn (h - j)) kern)
                else if (j <? NX - h)%nat
                     then embed (j - h) (NX - (j + h)) kern
                     else embed (j - h) (NX - NX)
                                (map (firstn (NX + h - j)) kern)) []) NaN
  = banded h kern j y x.
Proof.
  intros Hj Hy Hx. unfold banded, embed.
  assert (Hky : (y < length kern)%nat) by (destruct Hkern as [Hkl _]; llia).
  assert (Hrow := kern_row_length Hy). unfold mat, vec in *.
  destruct (Nat.ltb_spec j h) as [H1|H1];
    [|destruct (Nat.ltb_spec j (NX - h)) as [H2|H2]].
  - rewrite (@map_nth_lt _ _ _ _ y [] []) by (rewrite length_map; exact Hky).
    rewrite (@map_nth_lt _ _ _ _ y [] []) by exact Hky.
    rewrite window_nth, length_skipn, Hrow, nth_skipn_add.
    bool_lia. f_equal. lia.
  - rewrite (@map_nth_lt _ _ _ _ y [] []) by exact Hky.
    rewrite window_nth, Hrow. bool_lia. f_equal. lia.
  - rewrite (@map_nth_lt _ _ _ _ y [] []) by (rewrite length_map; exact Hky).
    rewrite (@map_nth_lt _ _ _ _ y [] []) by exact Hky.
    rewrite window_nth, length_firstn, Hrow.
    bool_lia. rewrite nth_firstn_lt by lia. f_equal. lia.
Qed.

(** X8.  The array that [_build_model] fills in holds, for wavelength
    pixel [j], the kernel centred on column [j] of the image and cut at the
    edges of the image: for a kernel of [2 h] rows and [2 h] columns and an
    image of [2 h] rows that is at least [2 h] columns wide, the value at
    row [y], column [x] is the kernel value at row [y], column [x + h - j]
    when [j - h <= x < j + h], and 0 elsewhere. *)
Theorem build_data_banded :
  exists data,
    StackedSpectrum.build_data NX (2 * h) kern = Ok data /\
    length data = NX /\
    forall j y x, (j < NX)%nat -> (y < 2 * h)%nat -> (x < NX)%nat ->
      nth x (nth y (nth j data []) []) NaN = banded h kern j y x.
Proof.
  destruct build_data_planes as [data [Hrun [Hl Hn]]].
  exists data. split; [exact Hrun|]. split; [exact Hl|].
  intros j y x Hj Hy Hx. rewrite (Hn j Hj). now apply plane_banded.
Qed.

End Banded.



(** ** The model of a spectrum *)

Lemma lincomb_nth (n p : nat) (rows : mat) :
  (p < n)%nat -> Forall (fun r => length r = n) rows ->
  forall c, length c = length rows ->
    nth p (lincomb n c rows) NaN
    = fold_right (fun cr acc => fst cr * nth p (snd cr) NaN + acc) zero
                 (combine c rows).
Proof.
  intros Hp Hf. induction Hf as [|r rows Hr Hf IH]; intros [|x c] Hl;
    simpl in Hl; try discriminate.
  - simpl. now apply zeros_nth.
  - cbn [lincomb combine fold_right fst snd]. unfold vadd, vscale.
    rewrite (@map2_nth _ _ _ _ _ _ p NaN NaN NaN).
    + rewrite (@map_nth_lt _ _ _ r p NaN NaN) by llia.
      rewrite IH by lia. reflexivity.
    + rewrite length_map. llia.
    + rewrite lincomb_length by exact Hf. exact Hp.
Qed.

Lemma combine_as_map {A B} (u : list A) (v : list B) (dA : A) (dB : B) :
  length u = length v ->
  combine u v = map (fun j => (nth j u dA, nth j v dB)) (seq 0 (length u)).
Proof.
  revert v. induction u as [|a u IH]; intros [|b v] Hl; simpl in Hl;
    try discriminate; [reflexivity|].
  cbn [combine length seq map nth]. f_equal.
  rewrite <- seq_shift, map_map. apply IH. lia.
Qed.

Lemma fold_right_map_in {A B C} (f : B -> C -> C) (g : A -> B) (l : list A) (z : C) :
  fold_right f z (map g l) = fold_right (fun a acc => f (g a) acc) z l.
Proof. induction l as [|a l IH]; simpl; [reflexivity | now rewrite IH]. Qed.

Lemma fold_right_ext_seq {C} (f g : nat -> C -> C) (z : C) (a n : nat) :
  (forall j acc, (a <= j < a + n)%nat -> f j acc = g j acc) ->
  fold_right f z (seq a n) = fold_right g z (seq a n).
Proof.
  revert a. induction n as [|n IH]; intros a H; simpl; [reflexivity|].
  rewrite IH by (intros; apply H; lia). apply H. lia.
Qed.

(** [np.dot(fl, rows)] at one pixel. *)
Lemma dot_pixel (n p : nat) (fl : vec) (rows : mat) :
  (p < n)%nat -> Forall (fun r => length r = n) rows ->
  length fl = length rows ->
  nth p (lincomb n fl rows) NaN
  = weighted_sum (length rows) fl (fun j => nth p (nth j rows []) NaN).
Proof.
  intros Hp Hf Hl. rewrite lincomb_nth by assumption.
  rewrite (combine_as_map fl rows NaN [] Hl), fold_right_map_in, Hl.
  reflexivity.
Qed.

Lemma flatten_nth (rows cols y x : nat) (m : mat) :
  shaped rows cols m -> (y < rows)%nat -> (x < cols)%nat ->
  nth (y * cols + x) (flatten m) NaN = nth x (nth y m []) NaN.
Proof.
  intros [Hl Hf]. subst rows. revert y. unfold flatten.
  induction Hf as [|r m Hr Hf IH]; intros y Hy Hx; simpl in Hy; [lia|].
  cbn [concat]. destruct y as [|y].
  - cbn [nth Nat.mul Nat.add]. apply app_nth1. llia.
  - rewrite app_nth2 by (rewrite Hr; simpl; lia). cbn [nth].
    rewrite Hr. replace (S y * cols + x - cols)%nat with (y * cols + x)%nat
      by (simpl; lia).
    apply IH; lia.
Qed.

Section Convolution.

Variable ext : Externals.

Lemma init_model sys_err mask_min mask_threshold fcontam h E :
  StackedSpectrum.init ext sys_err mask_min mask_threshold fcontam h = Ok E ->
  StackedSpectrum.sh E = (NAXIS2 h, NAXIS1 h) /\
  StackedSpectrum.wave E = StackedSpectrum.get_wavelength_from_header h /\
  StackedSpectrum.kernel E
  = map (map (fun x => x / vsum (flatten (KERNEL h)))) (KERNEL h) /\
  StackedSpectrum.build_model ext h (StackedSpectrum.wave E)
    (StackedSpectrum.kernel E)
  = Ok (StackedSpectrum.fit_data E, StackedSpectrum.sens E).
Proof.
  intros H. unfold StackedSpectrum.init in H.
  destruct (StackedSpectrum.init_traced ext sys_err mask_min mask_threshold
              fcontam h) as [[E' hist]|] eqn:Ht; simpl in H; [|discriminate].
  inversion H; subst E'; clear H.
  unfold StackedSpectrum.init_traced in Ht. rdestruct Ht.
  inversion Ht; subst; clear Ht. cbn.
  repeat split; try reflexivity. exact E5.
Qed.

Lemma normalized_shaped (rows cols : nat) (k : mat) (s : num) :
  shaped rows cols k -> shaped rows cols (map (map (fun x => x / s)) k).
Proof.
  intros H. apply shaped_map; [|exact H]. intros r Hr. now rewrite length_map.
Qed.

(** X17.  [compute_model] spreads a spectrum over the image with the
    kernel: for a constructed spectrum with a kernel of [2 h] rows and
    [2 h] columns, an image of [2 h] rows at least [2 h] columns wide and
    fluxes that are already calibrated, the model at row [y], column [x] is
    the sum over the wavelength pixels [j] of the flux at [j] times the
    normalized kernel centred on [j]. *)
Theorem model_is_convolution sys_err mask_min mask_threshold fcontam h E
        (hh : nat) (spectrum : option Spectrum) :
  StackedSpectrum.init ext sys_err mask_min mask_threshold fcontam h = Ok E ->
  ISFLAM h = true ->
  NAXIS2 h = (2 * hh)%nat -> (1 <= hh)%nat -> (2 * hh <= NAXIS1 h)%nat ->
  shaped (2 * hh) (2 * hh) (KERNEL h) ->
  let NX := NAXIS1 h in
  let fl := model_spectrum ext (StackedSpectrum.wave E) spectrum in
  length fl = NX ->
  exists model,
    eval (StackedSpectrum.compute_model ext spectrum) E = Ok model /\
    length model = (2 * hh * NX)%nat /\
    forall y x, (y < 2 * hh)%nat -> (x < NX)%nat ->
      nth (y * NX + x) model NaN
      = weighted_sum NX fl
          (fun j => banded hh (StackedSpectrum.kernel E) j y x).
Proof.
  intros Hinit Hflam HNY Hh Hwide Hk NX fl Hfl.
  destruct (init_model _ _ _ _ _ Hinit) as [Hsh [Hw [Hker Hbm]]].
  assert (Hk' : shaped (2 * hh) (2 * hh) (StackedSpectrum.kernel E)).
  { rewrite Hker. now apply normalized_shaped. }
  destruct (@build_data_planes NX hh (StackedSpectrum.kernel E) Hh Hwide Hk')
    as [data [Hrun [Hl Hpl]]].
  assert (Hn : forall j y x, (j < NX)%nat -> (y < 2 * hh)%nat -> (x < NX)%nat ->
             nth x (nth y (nth j data []) []) NaN
             = banded hh (StackedSpectrum.kernel E) j y x).
  { intros j y x Hj Hy Hx. rewrite (Hpl j Hj).
    now apply (@plane_banded NX hh (StackedSpectrum.kernel E) Hh Hwide Hk'). }
  unfold StackedSpectrum.build_model in Hbm. rewrite HNY in Hbm.
  fold NX in Hbm. rewrite Hrun in Hbm. cbn [rbind] in Hbm.
  rewrite Hflam in Hbm. inversion Hbm as [[Hfd Hsens]]. clear Hbm.
  apply build_data_cube in Hrun. destruct Hrun as [_ Hcube].
  assert (Hrows : Forall (fun r => length r = (2 * hh * NX)%nat)
                         (map flatten data)).
  { apply Forall_forall. intros r Hr. apply in_map_iff in Hr.
    destruct Hr as [m [<- Hm]]. apply flatten_length.
    rewrite Forall_forall in Hcube. now apply Hcube. }
  assert (Hlen : length fl = length (map flatten data)).
  { rewrite length_map. llia. }
  exists (lincomb (2 * hh * NX) fl (map flatten data)).
  split; [|split].
  - unfold StackedSpectrum.compute_model.
    rewrite eval_bind by frame. rewrite eval_gets. cbn [rbind].
    rewrite eval_bind by frame. rewrite eval_gets. cbn [rbind].
    rewrite eval_bind by frame. rewrite eval_gets. cbn [rbind].
    rewrite eval_bind by frame. rewrite eval_lift.
    rewrite Hsh, <- Hfd, HNY. cbn [fst snd]. fold NX.
    change (match spectrum with
            | Some s => interp_conserve_c ext (StackedSpectrum.wave E)
                          (wave_of s) (flux_of s)
            | None => map (fun x => x * zero + one) (StackedSpectrum.wave E)
            end) with fl.
    unfold dot_vm.
    rewrite (@axpy_not_skipped (2 * hh * NX) fl (map flatten data))
      by (unfold vec in *; lia).
    rewrite Hlen, Nat.eqb_refl. cbn [rbind].
    apply eval_ret.
  - now apply lincomb_length.
  - intros y x Hy Hx.
    rewrite dot_pixel; [| nia | exact Hrows | exact Hlen].
    rewrite length_map. unfold weighted_sum. unfold mat, vec in *. rewrite Hl.
    apply fold_right_ext_seq. intros j acc Hj. do 2 f_equal.
    rewrite (@map_nth_lt _ _ _ data j [] []) by lia.
    rewrite (@flatten_nth (2 * hh) NX) by
      (try lia; rewrite Forall_forall in Hcube; apply Hcube; apply nth_In; lia).
    apply Hn; lia.
Qed.

End Convolution.

(** ** Images with an odd number of rows *)

Lemma half_of_odd (k : nat) : ((2 * k + 1) / 2 = k)%nat.
Proof. symmetry. apply (Nat.div_unique (2 * k + 1) 2 k 1); lia. Qed.

Lemma neg_half_of_odd (k : nat) :
  (- Z.of_nat (2 * k + 1) / 2 = - Z.of_nat (k + 1))%Z.
Proof. symmetry. apply (Z.div_unique _ 2 _ 1); lia. Qed.

Lemma clamp_nonneg_min (n : nat) (i : Z) :
  (0 <= i)%Z -> clamp n i = Nat.min (Z.to_nat i) n.
Proof.
  intros H. unfold clamp.
  replace (i <? 0)%Z with false by (symmetry; apply Z.ltb_ge; lia).
  replace (i <? 0)%Z with false by (symmetry; apply Z.ltb_ge; lia).
  reflexivity.
Qed.

Lemma rmap2_first_raises {A B C} (f : A -> B -> result C) (a : A) (u : list A)
      (b : B) (v : list B) (e : exn) :
  f a b = Raise e -> rmap2 f (a :: u) (b :: v) = Raise e.
Proof. intros H. cbn [rmap2]. now rewrite H. Qed.

Lemma bcast_mismatch {A} (n : nat) (l : list A) :
  length l <> n -> (2 <= length l)%nat -> bcast n l = Raise ValueError.
Proof.
  intros Hn H2. unfold bcast.
  replace (Nat.eqb (length l) n) with false by (symmetry; now apply Nat.eqb_neq).
  destruct l as [|x [|y l]]; simpl in H2; try lia. reflexivity.
Qed.

(** In the first pass of the first loop of [_build_model] the kernel has
    one column more than the slice that it is added to. *)
Lemma build_data_odd (NX k : nat) (kern : mat) :
  (1 <= k)%nat -> (1 <= NX)%nat ->
  shaped (2 * k + 1) (2 * k + 1) kern ->
  StackedSpectrum.build_data NX (2 * k + 1) kern = Raise ValueError.
Proof.
  intros Hk HNX [Hkl Hkf]. unfold StackedSpectrum.build_data. cbv zeta.
  rewrite half_of_odd, neg_half_of_odd.
  assert (Hz : zrange 0 (Z.of_nat k)
               = 0%Z :: map (fun i => (0 + Z.of_nat i)%Z) (seq 1 (k - 1))).
  { unfold zrange. replace (Z.to_nat (Z.of_nat k - 0)) with (S (k - 1)) by lia.
    reflexivity. }
  rewrite Hz. cbn [rfold].
  assert (Hstep :
    StackedSpectrum.place_kernel NX (repeat (repeat (zeros NX) (2 * k + 1)) NX) 0 None
      (Some (0 + Z.of_nat k)%Z)
      (map (py_slice (Some (- Z.of_nat (k + 1) - 0)%Z) None) kern)
    = Raise ValueError).
  { unfold StackedSpectrum.place_kernel, py_index. rewrite repeat_length.
    cbn [Z.ltb Z.compare Z.to_nat].
    replace ((0 <=? 0)%Z && (0 <? Z.of_nat NX)%Z) with true
      by (symmetry; apply andb_true_iff; split;
          [apply Z.leb_le | apply Z.ltb_lt]; lia).
    cbn [rbind]. unfold index.
    rewrite nth_error_repeat by lia. cbn [rbind].
    unfold iadd_cols, slice_bounds. rewrite clamp_nonneg_min by lia.
    rewrite bcast_same by (rewrite length_map, repeat_length; exact Hkl).
    cbn [rbind].
    destruct kern as [|krow kern']; [simpl in Hkl; lia|].
    replace (2 * k + 1)%nat with (S (2 * k)) by lia.
    cbn [repeat map]. inversion Hkf as [|? ? Hrow _]; subst.
    rewrite rmap2_first_raises with (e := ValueError); [reflexivity|].
    rewrite (@py_slice_from _ krow (- Z.of_nat (k + 1) - 0)%Z);
      [ | lia | rewrite Hrow; lia ].
    rewrite bcast_mismatch; [reflexivity| |];
      rewrite length_skipn, Hrow; lia. }
  rewrite Hstep. reflexivity.
Qed.

(** X18.  An exposure with an odd number of rows (three or more) and a
    kernel with as many rows and columns as the image has rows cannot be
    constructed: [_build_model] raises ValueError when it adds the kernel
    to the first plane of the model. *)
Theorem odd_height_rejected (ext : Externals)
        (sys_err mask_min mask_threshold fcontam : num) (h : Extension) (k : nat) :
  consistent h ->
  NAXIS2 h = (2 * k + 1)%nat -> (1 <= k)%nat -> (1 <= NAXIS1 h)%nat ->
  shaped (2 * k + 1) (2 * k + 1) (KERNEL h) ->
  StackedSpectrum.init ext sys_err mask_min mask_threshold fcontam h
  = Raise ValueError.
Proof.
  intros [Hs [Hw Hc]] HNY Hk HNX Hker.
  assert (HS := flatten_length Hs). assert (HW := flatten_length Hw).
  unfold StackedSpectrum.init, StackedSpectrum.init_traced. cbv zeta.
  cbn [fst snd].
  rewrite bzip_same_length by (unfold vec in *; lia). cbn [rbind].
  set (ivarf := map2 (StackedSpectrum.floor_ivar sys_err) (flatten (WHT h))
                     (flatten (SCI h))).
  assert (Hiv : length ivarf = (NAXIS2 h * NAXIS1 h)%nat).
  { unfold ivarf. rewrite map2_length. unfold vec in *. lia. }
  unfold reshape at 1. rewrite Hiv, Nat.eqb_refl. cbn [rbind].
  unfold StackedSpectrum.mask_finite.
  rewrite bzip_same_length by (rewrite !length_map; unfold vec in *; lia).
  cbn [rbind]. unfold iand at 1.
  rewrite bcast_same
    by (unfold StackedSpectrum.mask_positive;
        rewrite map2_length, !length_map; unfold vec in *; lia).
  cbn [rbind].
  assert (Hcont : exists cw, StackedSpectrum.contamination ext fcontam h = Ok cw).
  { unfold StackedSpectrum.contamination. destruct (CONTAM h) as [c|].
    - rewrite (@bzip2_shaped _ (NAXIS2 h) (NAXIS1 h)).
      + cbn [rbind]. eexists. reflexivity.
      + apply shaped_map; [|exact Hc]. intros r Hr. now rewrite length_map.
      + exact Hw.
    - eexists. reflexivity. }
  destruct Hcont as [[[[contam weight] contamf] weightf] ->]. cbn [rbind].
  unfold StackedSpectrum.build_model. rewrite HNY.
  rewrite build_data_odd; [reflexivity | exact Hk | exact HNX |].
  now apply normalized_shaped.
Qed.

(** ** Calls that cannot return *)

(** X19.  [make_templates] never returns: its body reads the name
    [MultiBeam], which neither the function nor the module binds (the import
    of line 33 binds [Multibeam]), so the call raises at the import or
    raises NameError at line 47, before any template is loaded or saved. *)
Theorem make_templates_raises (TemplateList : Type)
        (import_Multibeam : outcome unit) (builtins : list string)
        (load_templates : Z -> bool -> option (list string) -> TemplateList)
        (grism : string) (return_lists : bool) :
  ~ In "MultiBeam"%string builtins ->
  exists cls,
    Templates.make_templates import_Multibeam builtins load_templates grism
                             return_lists = Raises cls /\
    (import_Multibeam = Raises cls \/ cls = "NameError"%string).
Proof.
  intros Hb. unfold Templates.make_templates.
  destruct import_Multibeam as [u|cls]; [|exists cls; split; [reflexivity | now left]].
  assert (Hg : Templates.read_global builtins "MultiBeam" = Raises "NameError").
  { unfold Templates.read_global. rewrite existsb_app.
    replace (existsb (String.eqb "MultiBeam") builtins) with false.
    - reflexivity.
    - symmetry. apply not_true_is_false. intros H.
      apply existsb_exists in H. destruct H as [x [Hx Heq]].
      apply String.eqb_eq in Heq. subst x. contradiction. }
  cbv zeta. rewrite Hg. exists "NameError"%string. split; [reflexivity | now right].
Qed.

(** X20.  A [StackedSpectrum] cannot be constructed with a positive
    [mask_threshold] (the default is 7): the constructor then calls
    [drizzle_mask], which the class does not define. *)
Theorem positive_threshold_raises (ext : Externals)
        (sys_err mask_min mask_threshold fcontam : num) (h : Extension) :
  gtb mask_threshold zero = true ->
  exists e,
    StackedSpectrum.init ext sys_err mask_min mask_threshold fcontam h = Raise e.
Proof.
  intros Hpos.
  destruct (StackedSpectrum.init ext sys_err mask_min mask_threshold fcontam h)
    as [E|e] eqn:H; [|now exists e].
  exfalso. unfold StackedSpectrum.init in H.
  destruct (StackedSpectrum.init_traced ext sys_err mask_min mask_threshold
              fcontam h) as [[E' hist]|] eqn:Ht; simpl in H; [|discriminate].
  unfold StackedSpectrum.init_traced in Ht. rdestruct Ht.
  rewrite Hpos in E10. discriminate.
Qed.

(** ** The further properties at the sample inputs *)

Lemma samples_consistent :
  consistent Sample.exposure_a /\ consistent Sample.exposure_z /\
  consistent Sample.exposure_dead /\ consistent Cases.exposure_nan.
Proof.
  unfold consistent, shaped. cbn.
  repeat split; repeat constructor.
Qed.

Lemma spectrum_z_built :
  StackedSpectrum.init Sample.ext zero (frac 1 10) (of_Z (-1)) one Sample.exposure_z
  = Ok Cases.spectrum_z.
Proof. vm_compute. reflexivity. Qed.

Lemma spectrum_dead_built :
  StackedSpectrum.init Sample.ext zero (frac 1 10) (of_Z (-1)) one
    Sample.exposure_dead
  = Ok Cases.spectrum_dead.
Proof. vm_compute. reflexivity. Qed.

Lemma fit_line_value :
  eval (StackFitter.fit_at_z Sample.ext zero Sample.continuum_and_line "nnls" false)
       Sample.fitter_a = Ok Cases.fit_line.
Proof. vm_compute. reflexivity. Qed.

Lemma fit_two_value :
  eval (StackFitter.fit_at_z Sample.ext zero Sample.two_templates "nnls" false)
       Sample.fitter_a = Ok Cases.fit_two.
Proof. vm_compute. reflexivity. Qed.

Lemma wavelength_grid_sample :
  let w := StackedSpectrum.get_wavelength_from_header Sample.exposure_a in
  length w = NAXIS1 Sample.exposure_a /\
  (forall i, (i < NAXIS1 Sample.exposure_a)%nat ->
             nth i w NaN
             = Fin ((qc (Z.of_nat i) 1 + qc 1 1 - qc 1 1) * qc 1 1 + qc 1 1)%Qc) /\
  (forall i, (S i < NAXIS1 Sample.exposure_a)%nat ->
             nth (S i) w NaN - nth i w NaN = Fin (qc 1 1)) /\
  (forall k, (k < NAXIS1 Sample.exposure_a)%nat -> qc 1 1 = qc (Z.of_nat (S k)) 1 ->
             nth k w NaN = Fin (qc 1 1)).
Proof.
  apply (@wavelength_grid Sample.exposure_a (qc 1 1) (qc 1 1) (qc 1 1));
    reflexivity.
Defined.

Lemma slices_tile_sample :
  StackFitter.Ndata Sample.fitter_b = total_size (StackFitter.E Sample.fitter_b) /\
  length (StackFitter.slices Sample.fitter_b) = StackFitter.Next Sample.fitter_b /\
  (forall sl, nth_error (StackFitter.slices Sample.fitter_b) 0 = Some sl ->
              fst sl = 0%nat) /\
  (forall i sl sl', nth_error (StackFitter.slices Sample.fitter_b) i = Some sl ->
                    nth_error (StackFitter.slices Sample.fitter_b) (S i) = Some sl' ->
                    fst sl' = snd sl) /\
  (forall i sl Ei, nth_error (StackFitter.slices Sample.fitter_b) i = Some sl ->
                   nth_error (StackFitter.E Sample.fitter_b) i = Some Ei ->
                   snd sl = (fst sl + StackedSpectrum.size Ei)%nat) /\
  (forall i sl, nth_error (StackFitter.slices Sample.fitter_b) i = Some sl ->
                S i = StackFitter.Next Sample.fitter_b ->
                snd sl = StackFitter.Ndata Sample.fitter_b).
Proof.
  exact (@slices_tile Sample.ext zero (Fin (qc 1 10)) one
           [Sample.exposure_dead; Sample.exposure_a] Sample.fitter_b
           fitter_b_built).
Defined.

Lemma slices_recover_sample :
  nth_error (StackFitter.slices Sample.fitter_b) 1 = Some (6, 12)%nat /\
  nth_error (StackFitter.E Sample.fitter_b) 1 = Some SampleRuns.spectrum_a /\
  get_slice (StackFitter.scif Sample.fitter_b) (6, 12)%nat
  = StackedSpectrum.scif SampleRuns.spectrum_a.
Proof.
  split; [reflexivity|]. split; [vm_compute; reflexivity|].
  apply (@slices_recover Sample.ext zero (Fin (qc 1 10)) one
           [Sample.exposure_dead; Sample.exposure_a] Sample.fitter_b
           fitter_b_built 1 (6, 12)%nat SampleRuns.spectrum_a).
  - reflexivity.
  - vm_compute. reflexivity.
Defined.

Lemma background_partition_sample :
  length (StackFitter.Abg Sample.fitter_b) = StackFitter.Next Sample.fitter_b /\
  Forall (fun row => length row = StackFitter.Ndata Sample.fitter_b)
         (StackFitter.Abg Sample.fitter_b) /\
  (forall i sl row p,
      nth_error (StackFitter.slices Sample.fitter_b) i = Some sl ->
      nth_error (StackFitter.Abg Sample.fitter_b) i = Some row ->
      (p < StackFitter.Ndata Sample.fitter_b)%nat ->
      nth p row NaN = if (fst sl <=? p)%nat && (p <? snd sl)%nat then one else zero) /\
  (forall p, (p < StackFitter.Ndata Sample.fitter_b)%nat ->
     exists i row,
       nth_error (StackFitter.Abg Sample.fitter_b) i = Some row /\
       nth p row NaN = one /\
       forall k row', k <> i ->
                      nth_error (StackFitter.Abg Sample.fitter_b) k = Some row' ->
                      nth p row' NaN = zero).
Proof.
  exact (@background_partition Sample.ext zero (Fin (qc 1 10)) one
           [Sample.exposure_dead; Sample.exposure_a] Sample.fitter_b
           fitter_b_built).
Defined.

Lemma fit_shapes_sample :
  length (background SampleRuns.fit_z) = StackFitter.Ndata Sample.fitter_z /\
  length (full SampleRuns.fit_z) = StackFitter.Ndata Sample.fitter_z /\
  length (full_coeffs SampleRuns.fit_z) = length Sample.flat_template /\
  length (full_coeffs_err SampleRuns.fit_z) = length Sample.flat_template.
Proof.
  apply (@fit_shapes Sample.ext zero (Fin (qc 1 10)) one [Sample.exposure_z]
           Sample.fitter_z fitter_z_built
           (Forall_cons _ (proj1 (proj2 samples_consistent)) (Forall_nil _))
           zero Sample.flat_template "nnls" false SampleRuns.fit_z).
  exact fit_z_built.
Defined.

Lemma images_recover_sample :
  exists imgs,
    result_images Sample.fitter_z (full SampleRuns.fit_z) (background SampleRuns.fit_z)
    = Ok imgs /\
    length imgs = StackFitter.Next Sample.fitter_z /\
    concat (map (fun p => flatten (fst p)) imgs) = full SampleRuns.fit_z /\
    concat (map (fun p => flatten (snd p)) imgs) = background SampleRuns.fit_z /\
    (forall i Ei p,
        nth_error (StackFitter.E Sample.fitter_z) i = Some Ei ->
        nth_error imgs i = Some p ->
        shaped (fst (StackedSpectrum.sh Ei)) (snd (StackedSpectrum.sh Ei)) (fst p) /\
        shaped (fst (StackedSpectrum.sh Ei)) (snd (StackedSpectrum.sh Ei)) (snd p)).
Proof.
  apply (@images_recover Sample.ext zero (Fin (qc 1 10)) one [Sample.exposure_z]
           Sample.fitter_z fitter_z_built
           (Forall_cons _ (proj1 (proj2 samples_consistent)) (Forall_nil _)));
    reflexivity.
Defined.

Lemma nonfinite_pixel_sample :
  StackFitter.init Sample.ext zero (frac 1 10) one [Cases.exposure_nan]
  = Raise ValueError.
Proof.
  refine (proj2 (@nonfinite_pixel_rejected Sample.ext zero (frac 1 10) one
           [Cases.exposure_nan] Cases.exposure_nan NaN _ _ _ _ _) _).
  - exact (Forall_cons _ (proj2 (proj2 (proj2 samples_consistent))) (Forall_nil _)).
  - left. reflexivity.
  - reflexivity.
  - left. reflexivity.
  - reflexivity.
  - constructor; [|constructor]. eexists. vm_compute. reflexivity.
Defined.

Lemma dof_counts_pixels_sample :
  StackFitter.DoF Sample.fitter_a
  = Z.of_nat (count_true (StackFitter.fit_mask Sample.fitter_a)).
Proof.
  apply (@dof_counts_pixels Sample.ext zero (Fin (qc 1 10)) one [Sample.exposure_a]).
  - exact fitter_a_built.
  - exact (Forall_cons _ (proj1 samples_consistent) (Forall_nil _)).
  - repeat constructor.
Defined.

Lemma blank_weight_masked_sample :
  nth_error (flatten (WHT Sample.exposure_z)) 0 = Some zero /\
  nth 0 (StackedSpectrum.fit_mask Cases.spectrum_z) false = false.
Proof.
  split; [reflexivity|].
  apply (@blank_weight_masked Sample.ext zero (frac 1 10) (of_Z (-1)) one
           Sample.exposure_z Cases.spectrum_z 0 zero).
  - exact spectrum_z_built.
  - reflexivity.
  - left. reflexivity.
Defined.

Lemma unseen_template_sample :
  nth_error (full_coeffs Cases.fit_line) 1 = Some zero /\
  nth_error (full_coeffs_err Cases.fit_line) 1 = Some zero.
Proof.
  apply (@unseen_template_zero Sample.ext zero (Fin (qc 1 10)) one
           [Sample.exposure_a] Sample.fitter_a fitter_a_built zero
           Sample.continuum_and_line "nnls" false Cases.fit_line 1
           "line Ha"%string
           (mkSpectrum [Sample.n 20; Sample.n 21; Sample.n 22]
                       [Sample.n 0; Sample.n 1; Sample.n 0])).
  - reflexivity.
  - constructor; [|constructor].
    exists (Sample.n 20 * (one + zero)), (Sample.n 22 * (one + zero)),
      (Sample.n 3), (Sample.n 1).
    repeat split; vm_compute; reflexivity.
  - exact fit_line_value.
Defined.

Lemma empty_template_sample :
  eval (StackFitter.fit_at_z Sample.ext zero
          (Sample.level :: Cases.empty_template) "nnls" false)
       Sample.fitter_w = Raise IndexError.
Proof.
  refine (proj2 (@empty_template_raises Sample.ext Sample.fitter_w zero
           (Sample.level :: Cases.empty_template) "nnls" false
           "empty"%string (mkSpectrum [] []) _ _ _)
           [Sample.level] [] _ _).
  - discriminate.
  - right. left. reflexivity.
  - reflexivity.
  - reflexivity.
  - constructor; [|constructor]. eexists. vm_compute. reflexivity.
Defined.

Lemma extract_dead_column_sample :
  exists flux rms,
    eval (StackedSpectrum.optimal_extract Sample.ext (SCI Sample.exposure_dead))
         Cases.spectrum_dead = Ok (flux, rms) /\
    length flux = snd (StackedSpectrum.sh Cases.spectrum_dead) /\
    length rms = snd (StackedSpectrum.sh Cases.spectrum_dead) /\
    forall j, (j < snd (StackedSpectrum.sh Cases.spectrum_dead))%nat ->
              Forall (fun w => w = zero)
                     (column j (StackedSpectrum.ivar Cases.spectrum_dead)) ->
              nth j flux NaN = zero /\ nth j rms NaN = zero.
Proof.
  apply (@extract_dead_column Sample.ext zero (frac 1 10) (of_Z (-1)) one
           Sample.exposure_dead Cases.spectrum_dead (SCI Sample.exposure_dead)).
  - exact spectrum_dead_built.
  - exact (proj1 (proj1 (proj2 (proj2 samples_consistent)))).
Defined.

Lemma empty_grid_sample :
  eval (ZGrid.fit_zgrid Sample.ext (HInt 1) (HNum zero) (HNum zero) (frac 1 10)
          (of_Z 1, of_Z 0) "nnls" None Sample.continuum Sample.continuum_and_line)
       Sample.fitter_a
  = Raise ValueError.
Proof.
  apply (@empty_grid_raises Sample.ext Sample.fitter_a).
  vm_compute. reflexivity.
Defined.

Lemma build_data_banded_sample :
  exists data,
    StackedSpectrum.build_data 3 (2 * 1) Cases.quarter_kernel = Ok data /\
    length data = 3%nat /\
    forall j y x, (j < 3)%nat -> (y < 2 * 1)%nat -> (x < 3)%nat ->
      nth x (nth y (nth j data []) []) NaN = banded 1 Cases.quarter_kernel j y x.
Proof.
  apply (@build_data_banded 3 1 Cases.quarter_kernel).
  - lia.
  - lia.
  - unfold shaped. cbn. repeat split; repeat constructor.
Defined.

Lemma coefficients_reported_sample :
  length (full_coeffs Cases.fit_two) = length Sample.two_templates /\
  forall i, (i < length Sample.two_templates)%nat ->
    (nth_error (StackFitter.oktemp_of SampleRuns.design_a
                  (StackFitter.fit_mask Sample.fitter_a))
               (StackFitter.Next Sample.fitter_a + i) = Some false ->
     nth_error (full_coeffs Cases.fit_two) i = Some zero) /\
    (nth_error (StackFitter.oktemp_of SampleRuns.design_a
                  (StackFitter.fit_mask Sample.fitter_a))
               (StackFitter.Next Sample.fitter_a + i) = Some true ->
     nth_error (full_coeffs Cases.fit_two) i
     = nth_error SampleRuns.coeffs_a
         (count_true (firstn (StackFitter.Next Sample.fitter_a + i)
                        (StackFitter.oktemp_of SampleRuns.design_a
                           (StackFitter.fit_mask Sample.fitter_a))))).
Proof.
  apply (@coefficients_reported Sample.ext zero Sample.two_templates "nnls" false
           Sample.fitter_a SampleRuns.design_a SampleRuns.coeffs_a Cases.fit_two).
  - vm_compute. reflexivity.
  - exact fit_two_value.
  - reflexivity.
  - vm_compute. reflexivity.
  - vm_compute. reflexivity.
  - vm_compute. reflexivity.
Defined.

Lemma model_is_convolution_sample :
  exists model,
    eval (StackedSpectrum.compute_model Sample.ext None) SampleRuns.spectrum_a
    = Ok model /\
    length model = (2 * 1 * 3)%nat /\
    forall y x, (y < 2 * 1)%nat -> (x < 3)%nat ->
      nth (y * 3 + x) model NaN
      = weighted_sum 3
          (model_spectrum Sample.ext (StackedSpectrum.wave SampleRuns.spectrum_a)
                          None)
          (fun j => banded 1 (StackedSpectrum.kernel SampleRuns.spectrum_a) j y x).
Proof.
  apply (@model_is_convolution Sample.ext zero (frac 1 10) (of_Z (-1)) one
           Sample.exposure_a SampleRuns.spectrum_a 1 None).
  - exact spectrum_a_built.
  - reflexivity.
  - reflexivity.
  - lia.
  - simpl. lia.
  - unfold shaped. cbn. repeat split; repeat constructor.
  - reflexivity.
Defined.

Lemma odd_height_sample :
  StackedSpectrum.init Sample.ext zero (frac 1 10) (of_Z (-1)) one
                       Cases.exposure_odd
  = Raise ValueError.
Proof.
  apply (@odd_height_rejected Sample.ext zero (frac 1 10) (of_Z (-1)) one
           Cases.exposure_odd 1).
  - unfold consistent, shaped. cbn. repeat split; repeat constructor.
  - reflexivity.
  - lia.
  - simpl. lia.
  - unfold shaped. cbn. repeat split; repeat constructor.
Defined.

Lemma make_templates_sample :
  exists cls,
    Templates.make_templates (Returns tt) ["len"; "print"]%string
                             (fun (_ : Z) (_ : bool) (_ : option (list string)) => tt)
                             "G141" true = Raises cls /\
    (Returns tt = Raises cls \/ cls = "NameError"%string).
Proof.
  apply (@make_templates_raises unit (Returns tt) ["len"; "print"]%string
           (fun _ _ _ => tt) "G141"%string true).
  simpl. intros [H|[H|H]]; [discriminate H | discriminate H | exact H].
Defined.

Lemma positive_threshold_sample :
  exists e,
    StackedSpectrum.init Sample.ext zero (frac 1 10) (of_Z 7) one
                         Sample.exposure_a = Raise e.
Proof.
  apply (@positive_threshold_raises Sample.ext zero (frac 1 10) (of_Z 7) one
           Sample.exposure_a).
  vm_compute. reflexivity.
Defined.
